(** * jscad-to-gltf: the geometry-to-glTF encoder of [lib/index.ts]

    A shallow embedding of the encoder and the proofs of the properties
    stated about it.

    - ECMAScript numbers are IEEE-754 binary64 values: they are modelled by
      Rocq's primitive [float], so that [NaN], the infinities and the two
      zeros behave as they do in the source.
    - A [Float32Array] is a list of numbers each of which went through the
      binary32 rounding of the typed-array store ([fround]).
    - Strings are sequences of code units below U+0100 ([string]).
    - Byte lengths and offsets are integers ([Z]); buffers are [list byte].
    - A [throw] is a value of [error] on the left of a sum.

    The embedding comes first, function by function and under the names of
    the source; then the terms in which the properties are stated; then the
    proofs. *)

From Stdlib Require Import ZArith List String Ascii Bool Lia Floats.
From Stdlib.Strings Require Import Byte.
From Stdlib Require Import DecimalString.
Import ListNotations.

#[local] Set Warnings "-register-all".
Local Open Scope Z_scope.

(* ================================================================= *)
(** ** ECMAScript numbers *)

Module Num.

Local Open Scope float_scope.

(** [ToBoolean] on a number: [0], [-0] and [NaN] are falsy. *)
Definition truthy (x : float) : bool := negb (is_nan x || (x =? 0)).

(** [Number.isFinite] on a number. *)
Definition isFinite (x : float) : bool := is_finite x.

(** [Math.min] and [Math.max] of two numbers: [NaN] is contagious and
    [-0] is smaller than [+0]. *)
Definition Math_min (a b : float) : float :=
  if is_nan a || is_nan b then nan
  else if a <? b then a
  else if b <? a then b
  else if get_sign a then a else b.

Definition Math_max (a b : float) : float :=
  if is_nan a || is_nan b then nan
  else if a <? b then b
  else if b <? a then a
  else if get_sign a then b else a.

(** The number nearest to an integer (round to nearest, ties to even). *)
Definition of_Z (z : Z) : float := SF2Prim (binary_normalize prec emax z 0 false).

(** The store into a [Float32Array]: rounding to binary32 (24 bits of
    mantissa, exponent of the infinities 128), kept as a binary64 value. *)
Definition fround (x : float) : float :=
  match Prim2SF x with
  | S754_finite s m e => SF2Prim (binary_round 24 128 s m e)
  | _ => x
  end.

(** [x || 0] on a number. *)
Definition or_zero (x : float) : float := if truthy x then x else 0.

End Num.

(* ================================================================= *)
(** ** ECMAScript values

    The fields the source types [any] or [unknown] hold values of this type.
    An array is its list of elements and an object its list of own
    properties, in insertion order. *)

Inductive value : Type :=
| VUndefined
| VNull
| VBool (b : bool)
| VNumber (x : float)
| VString (s : string)
| VArray (xs : list value)
| VObject (props : list (string * value)).

(** [ToBoolean]. *)
Definition truthy (v : value) : bool :=
  match v with
  | VUndefined | VNull => false
  | VBool b => b
  | VNumber x => Num.truthy x
  | VString s => negb (String.length s =? 0)%nat
  | VArray _ | VObject _ => true
  end.

(** [xs[i]] on an array: [undefined] past the end. *)
Definition index (xs : list value) (i : nat) : value := nth i xs VUndefined.

(** [o.key] on a value that is neither [null] nor [undefined]: the own property
    of an object, [undefined] otherwise. *)
Fixpoint lookup_prop (key : string) (props : list (string * value)) : value :=
  match props with
  | [] => VUndefined
  | (k, v) :: rest => if String.eqb k key then v else lookup_prop key rest
  end.

Definition get_prop (v : value) (key : string) : value :=
  match v with
  | VObject props => lookup_prop key props
  | _ => VUndefined
  end.

(** The functions of the ECMAScript runtime the encoder calls and whose
    algorithms are not part of it. *)
Class JsRuntime : Type := {
  (** [Number(s)] on a string: the [StringToNumber] conversion. *)
  StringToNumber : string -> float;
  (** [Number(o)] on an array or an object (through [ToPrimitive]). *)
  ObjectToNumber : value -> float;
  (** [Math.hypot] of three numbers, an implementation-approximated value. *)
  Math_hypot : float -> float -> float -> float;
  (** [Number::toString] of a finite number, as [JSON.stringify] prints it. *)
  Number_toString : float -> string
}.

(* ================================================================= *)
(** ** Strings *)

Module Str.

Local Open Scope nat_scope.

(** White space and line terminators below U+0100, as [trim] and
    [parseInt] skip them. *)
Definition is_whitespace (c : ascii) : bool :=
  let n := nat_of_ascii c in
  (n =? 9) || (n =? 10) || (n =? 11) || (n =? 12) || (n =? 13)
  || (n =? 32) || (n =? 160).

Fixpoint trimStart (s : string) : string :=
  match s with
  | EmptyString => EmptyString
  | String c r => if is_whitespace c then trimStart r else s
  end.

Definition reverse (s : string) : string :=
  string_of_list_ascii (List.rev (list_ascii_of_string s)).

Definition trimEnd (s : string) : string := reverse (trimStart (reverse s)).

Definition trim (s : string) : string := trimEnd (trimStart s).

(** [toLowerCase] of one code unit below U+0100. *)
Definition lower (c : ascii) : ascii :=
  let n := nat_of_ascii c in
  if ((65 <=? n) && (n <=? 90))
     || ((192 <=? n) && (n <=? 222) && negb (n =? 215))
  then ascii_of_nat (n + 32) else c.

Fixpoint toLowerCase (s : string) : string :=
  match s with
  | EmptyString => EmptyString
  | String c r => String (lower c) (toLowerCase r)
  end.

(** [s.slice(from, to)] for [0 <= from <= to]. *)
Definition slice (s : string) (from to : nat) : string :=
  substring from (to - from) s.

(** [s.slice(from)] for [0 <= from]. *)
Definition slice_from (s : string) (from : nat) : string :=
  substring from (String.length s - from) s.

Definition startsWith (s p : string) : bool := prefix p s.

Definition endsWith (s p : string) : bool := prefix (reverse p) (reverse s).

(** [s.split(",")]. *)
Fixpoint split_comma (s : string) : list string :=
  match s with
  | EmptyString => [EmptyString]
  | String c r =>
      if Ascii.eqb c "," then EmptyString :: split_comma r
      else match split_comma r with
           | [] => [String c EmptyString]
           | p :: ps => String c p :: ps
           end
  end.

(** The value of a digit in radix 16. *)
Definition hex_digit (c : ascii) : option Z :=
  let n := nat_of_ascii c in
  if (48 <=? n) && (n <=? 57) then Some (Z.of_nat (n - 48))
  else if (97 <=? n) && (n <=? 102) then Some (Z.of_nat (n - 87))
  else if (65 <=? n) && (n <=? 70) then Some (Z.of_nat (n - 55))
  else None.

(** The digits of the longest prefix made of radix-16 digits. *)
Fixpoint hex_digits (s : string) : list Z :=
  match s with
  | EmptyString => []
  | String c r =>
      match hex_digit c with
      | Some d => d :: hex_digits r
      | None => []
      end
  end.

(** [parseInt(s, 16)]: leading white space is skipped, a sign and a [0x]
    prefix are accepted, the digits stop at the first code unit that is
    not one, and there is no number only when no digit was read. *)
Definition parseInt16 (s : string) : float :=
  let s0 := trimStart s in
  let '(negative, s1) :=
    match s0 with
    | String "-" r => (true, r)
    | String "+" r => (false, r)
    | _ => (false, s0)
    end in
  let s2 :=
    match s1 with
    | String "0" (String "x" r) => r
    | String "0" (String "X" r) => r
    | _ => s1
    end in
  match hex_digits s2 with
  | [] => nan
  | ds =>
      let n := fold_left (fun acc d => (16 * acc + d)%Z) ds 0%Z in
      if (n =? 0)%Z then (if negative then (-0)%float else 0%float)
      else Num.of_Z (if negative then (- n)%Z else n)
  end.

End Str.

(* ================================================================= *)
(** ** The color resolver *)

Definition ColorTuple : Type := float * float * float.
Definition Vec3 : Type := float * float * float.

Definition white : ColorTuple := (1, 1, 1)%float.

Section ColorResolver.

Context {RT : JsRuntime}.
Local Open Scope float_scope.

(** [Number(v)]. *)
Definition Number (v : value) : float :=
  match v with
  | VUndefined => nan
  | VNull => 0
  | VBool b => if b then 1 else 0
  | VNumber x => x
  | VString s => StringToNumber s
  | VArray _ | VObject _ => ObjectToNumber v
  end.

Definition toColorTuple (v : value) (fallback : ColorTuple) : ColorTuple :=
  match v with
  | VArray xs =>
      if (3 <=? List.length xs)%nat then
        let r := Number (index xs 0) in
        let g := Number (index xs 1) in
        let b := Number (index xs 2) in
        let '(fr, fg, fb) := fallback in
        (if Num.isFinite r then r else fr,
         if Num.isFinite g then g else fg,
         if Num.isFinite b then b else fb)
      else fallback
  | _ => fallback
  end.

Definition normalizeColorChannel (x : float) : float :=
  if negb (Num.isFinite x) then 0
  else if x <? 0 then 0
  else if 1 <? x then Num.Math_min (x / 255) 1
  else x.

Definition parseColorArray (v : value) : option ColorTuple :=
  match v with
  | VArray xs =>
      if (List.length xs <? 3)%nat then None
      else
        let r := normalizeColorChannel (Number (index xs 0)) in
        let g := normalizeColorChannel (Number (index xs 1)) in
        let b := normalizeColorChannel (Number (index xs 2)) in
        if existsb (fun channel => negb (Num.isFinite channel)) [r; g; b]
        then None
        else Some (r, g, b)
  | _ => None
  end.

Definition parseHexColor (s : string) : option ColorTuple :=
  let hex := Str.slice_from s 1 in
  let isShort := (String.length hex =? 3)%nat in
  let isLong := ((String.length hex =? 6) || (String.length hex =? 8))%nat in
  if negb isShort && negb isLong then None
  else
    let expand (component : string) :=
      if isShort then (component ++ component)%string else component in
    let component (i : nat) : option float :=
      let start := (i * (if isShort then 1 else 2))%nat in
      let part :=
        expand (Str.slice hex start (start + (if isShort then 1 else 2))) in
      let parsed := Str.parseInt16 part in
      if is_nan parsed then None else Some (normalizeColorChannel parsed) in
    match component 0%nat, component 1%nat, component 2%nat with
    | Some r, Some g, Some b => Some (r, g, b)
    | _, _, _ => None
    end.

(** The regular expression of [parseRgbColor], matched without regard to
    case: [rgb], an optional [a], an opening parenthesis, one or more code
    units none of which is a closing parenthesis (the first group, which
    is returned), and a closing parenthesis that ends the string. *)
Definition match_rgb (s : string) : option string :=
  match s with
  | String c0 (String c1 (String c2 rest)) =>
      if Ascii.eqb (Str.lower c0) "r" && Ascii.eqb (Str.lower c1) "g"
         && Ascii.eqb (Str.lower c2) "b"
      then
        let after_a :=
          match rest with
          | String c3 rest' =>
              if Ascii.eqb (Str.lower c3) "a" then rest' else rest
          | EmptyString => rest
          end in
        match after_a with
        | String "(" body =>
            let n := String.length body in
            let group := Str.slice body 0 (n - 1) in
            if (2 <=? n)%nat
               && Str.endsWith body ")"
               && forallb (fun c => negb (Ascii.eqb c ")"))
                          (list_ascii_of_string group)
            then Some group else None
        | _ => None
        end
      else None
  | _ => None
  end.

Definition toChannel (part : string) : option float :=
  if Str.endsWith part "%" then
    let percent :=
      StringToNumber (Str.slice part 0 (String.length part - 1)) in
    if negb (Num.isFinite percent) then None
    else Some (Num.Math_min (Num.Math_max (percent / 100) 0) 1)
  else
    let numeric := StringToNumber part in
    if negb (Num.isFinite numeric) then None
    else Some (normalizeColorChannel numeric).

Definition parseRgbColor (s : string) : option ColorTuple :=
  match match_rgb s with
  | None => None
  | Some partsSource =>
      if (String.length partsSource =? 0)%nat then None
      else
        let parts :=
          filter (fun part => negb (String.length part =? 0)%nat)
                 (map Str.trim (Str.split_comma partsSource)) in
        if (List.length parts <? 3)%nat then None
        else
          match map toChannel (firstn 3 parts) with
          | [Some r; Some g; Some b] => Some (r, g, b)
          | _ => None
          end
  end.

Definition parseColorValue (v : value) : option ColorTuple :=
  match v with
  | VUndefined | VNull => None
  | _ =>
      match parseColorArray v with
      | Some fromArray => Some fromArray
      | None =>
          match v with
          | VString s =>
              let trimmed := Str.trim s in
              if (String.length trimmed =? 0)%nat then None
              else if Str.startsWith trimmed "#"
                   then parseHexColor (Str.toLowerCase trimmed)
                   else parseRgbColor trimmed
          | _ => None
          end
      end
  end.

End ColorResolver.

(* ================================================================= *)
(** ** Failures *)

(** The conditions the encoder signals with [throw new Error(...)], and the
    three the runtime raises under it. *)
Inductive error : Type :=
| ExpectedPolygonData
| EmptyTriangleMesh
| ExpectedSideData
| EmptyLineGeometry
| UnsupportedGeometry
| NoGeometry
| NoModelGeometries
| TypeError               (* reading an element of undefined or null *)
| RangeError              (* writeUInt32LE of a value above 2^32 - 1 *)
| SyntaxError.            (* JSON.parse of a text that is not JSON *)

(** The message of each [Error] of the encoder, by which a caller tells
    them apart; the runtime words its own. *)
Definition message (e : error) : option string :=
  (match e with
  | ExpectedPolygonData => Some "Expected polygon data in JSCAD geometry"
  | EmptyTriangleMesh =>
      Some "Unable to build triangle mesh from JSCAD polygons"
  | ExpectedSideData => Some "Expected side data in JSCAD 2D geometry"
  | EmptyLineGeometry => Some "Unable to build line geometry from JSCAD sides"
  | UnsupportedGeometry =>
      Some "JSCAD plan evaluation did not return a supported geometry (expected geom2 or geom3)"
  | NoGeometry => Some "JSCAD plan execution returned no geometry"
  | NoModelGeometries => Some "JSCAD model did not contain any geometries"
  | TypeError | RangeError | SyntaxError => None
  end)%string.

Definition result (A : Type) : Type := (error + A)%type.

Definition ok {A} (a : A) : result A := inr a.
Definition throw {A} (e : error) : result A := inl e.

Definition bind {A B} (r : result A) (k : A -> result B) : result B :=
  match r with
  | inl e => inl e
  | inr a => k a
  end.

Notation "x <- r ;; k" := (bind r (fun x => k))
  (at level 61, r at next level, right associativity).

(* ================================================================= *)
(** ** Geometry objects and mesh units *)

(** A polygon of [CsgLike.polygons]; [vertices] is [None] when the polygon
    is [null] or has no vertex list. *)
Record Polygon : Type := mkPolygon {
  vertices : option (list value)
}.

(** [CsgLike]: an absent field is [None] ([undefined] for [color]).  A
    geometry value that is not an object has none of the fields. *)
Record CsgLike : Type := mkCsg {
  polygons : option (list Polygon);
  sides : option (list value);
  color : value;
  transforms : option (list float)
}.

Definition GLTF_MODE_TRIANGLES : Z := 4.
Definition GLTF_MODE_LINES : Z := 1.
Definition GLTF_COMPONENT_FLOAT : Z := 5126.
Definition GLTF_TYPE_VEC3 : string := "VEC3".

(** A [Float32Array]. *)
Definition Float32Array : Type := list float.

Definition new_Float32Array (xs : list float) : Float32Array :=
  map Num.fround xs.

(** [GeometryData], the mesh unit. *)
Record GeometryData : Type := mkGeometry {
  name : string;
  positions : Float32Array;
  normals : option Float32Array;
  colors : option Float32Array;
  mode : Z
}.

(** The argument of [collectGeometries]: one geometry object or an array. *)
Inductive Geom : Type :=
| GOne (csg : CsgLike)
| GMany (children : list Geom).

(** [...v] of a triple. *)
Definition spread (v : float * float * float) : list float :=
  let '(x, y, z) := v in [x; y; z].

Section Triangulator.

Context {RT : JsRuntime}.
Local Open Scope float_scope.

(** [[Number(a[0]) || 0, Number(a[1]) || 0, Number(a[2]) || 0]]. *)
Definition triple_of (xs : list value) : Vec3 :=
  (Num.or_zero (Number (index xs 0)),
   Num.or_zero (Number (index xs 1)),
   Num.or_zero (Number (index xs 2))).

(** [Array.isArray(v) && v.length >= 3]. *)
Definition array_of_3 (v : value) : option (list value) :=
  match v with
  | VArray xs => if (3 <=? List.length xs)%nat then Some xs else None
  | _ => None
  end.

Definition extractVertexPosition (vertex : value) : Vec3 :=
  if negb (truthy vertex) then (0, 0, 0)
  else
    match array_of_3 vertex with
    | Some xs => triple_of xs
    | None =>
        match array_of_3 (get_prop vertex "pos") with
        | Some xs => triple_of xs
        | None =>
            match array_of_3 (get_prop vertex "position") with
            | Some xs => triple_of xs
            | None => (0, 0, 0)
            end
        end
    end.

(** [vertex?.color]. *)
Definition vertex_color_field (vertex : value) : value :=
  match vertex with
  | VUndefined | VNull => VUndefined
  | _ => get_prop vertex "color"
  end.

Definition extractVertexColor (vertex : value) (defaultColor : ColorTuple)
  : ColorTuple :=
  if truthy (vertex_color_field vertex)
  then toColorTuple (vertex_color_field vertex) defaultColor
  else defaultColor.

Definition applyTransform (vector : Vec3) (matrix : option (list float))
  : Vec3 :=
  match matrix with
  | None => vector
  | Some m =>
      if negb (List.length m =? 16)%nat then vector
      else
        let at_ (i : nat) := nth i m nan in
        let '(x, y, z) := vector in
        let nx := at_ 0%nat * x + at_ 4%nat * y + at_ 8%nat * z + at_ 12%nat in
        let ny := at_ 1%nat * x + at_ 5%nat * y + at_ 9%nat * z + at_ 13%nat in
        let nz := at_ 2%nat * x + at_ 6%nat * y + at_ 10%nat * z + at_ 14%nat in
        let w := at_ 3%nat * x + at_ 7%nat * y + at_ 11%nat * z + at_ 15%nat in
        if Num.truthy w && negb (w =? 1) then (nx / w, ny / w, nz / w)
        else (nx, ny, nz)
  end.

Definition subtract (a b : Vec3) : Vec3 :=
  let '(a0, a1, a2) := a in
  let '(b0, b1, b2) := b in
  (a0 - b0, a1 - b1, a2 - b2).

Definition cross (a b : Vec3) : Vec3 :=
  let '(a0, a1, a2) := a in
  let '(b0, b1, b2) := b in
  (a1 * b2 - a2 * b1, a2 * b0 - a0 * b2, a0 * b1 - a1 * b0).

Definition normalize (v : Vec3) : Vec3 :=
  let '(v0, v1, v2) := v in
  let length := Math_hypot v0 v1 v2 in
  if negb (Num.truthy length) then (0, 0, 1)
  else (v0 / length, v1 / length, v2 / length).

(** The shape-level color of both converters. *)
Definition defaultColor_of (csg : CsgLike) : ColorTuple :=
  if truthy (color csg) then toColorTuple (color csg) white else white.

(** The three number arrays [convertPolygonGeometry] pushes to. *)
Record Streams : Type := mkStreams {
  s_positions : list float;
  s_normals : list float;
  s_colors : list float
}.

Definition origin : Vec3 := (0, 0, 0).

(** One turn of the inner loop, at index [i]. *)
Definition push_triangle (transformedVertices : list Vec3)
    (vertexColors : list ColorTuple) (acc : Streams) (i : nat) : Streams :=
  let a := nth 0 transformedVertices origin in
  let b := nth i transformedVertices origin in
  let c := nth (i + 1) transformedVertices origin in
  let ab := subtract b a in
  let ac := subtract c a in
  let normal := normalize (cross ab ac) in
  let colorA := nth 0 vertexColors white in
  let colorB := nth i vertexColors white in
  let colorC := nth (i + 1) vertexColors white in
  {| s_positions := s_positions acc ++ spread a ++ spread b ++ spread c;
     s_normals := s_normals acc ++ spread normal ++ spread normal ++ spread normal;
     s_colors := s_colors acc ++ spread colorA ++ spread colorB ++ spread colorC |}.

(** One turn of the loop over the polygons. *)
Definition push_polygon (csg : CsgLike) (defaultColor : ColorTuple)
    (acc : Streams) (polygon : Polygon) : Streams :=
  match vertices polygon with
  | None => acc
  | Some vs =>
      if (List.length vs <? 3)%nat then acc
      else
        let transformedVertices :=
          map (fun vertex =>
                 applyTransform (extractVertexPosition vertex) (transforms csg))
              vs in
        let vertexColors :=
          map (fun vertex => extractVertexColor vertex defaultColor) vs in
        fold_left (push_triangle transformedVertices vertexColors)
                  (seq 1 (List.length transformedVertices - 2))
                  acc
  end.

Definition convertPolygonGeometry (csg : CsgLike) (name : string)
  : result GeometryData :=
  match polygons csg with
  | None | Some [] => throw ExpectedPolygonData
  | Some ps =>
      let defaultColor := defaultColor_of csg in
      let acc :=
        fold_left (push_polygon csg defaultColor) ps (mkStreams [] [] []) in
      if (List.length (s_positions acc) =? 0)%nat then throw EmptyTriangleMesh
      else
        ok {| name := name;
              positions := new_Float32Array (s_positions acc);
              normals := Some (new_Float32Array (s_normals acc));
              colors :=
                if negb (List.length (s_colors acc) =? 0)%nat
                then Some (new_Float32Array (s_colors acc)) else None;
              mode := GLTF_MODE_TRIANGLES |}
  end.

(** [v[i]] on any value: a [TypeError] on [undefined] and [null]. *)
Definition elem (v : value) (i : nat) : result value :=
  match v with
  | VUndefined | VNull => throw TypeError
  | VArray xs => ok (index xs i)
  | VString s =>
      ok (match String.get i s with
          | Some c => VString (String c EmptyString)
          | None => VUndefined
          end)
  | VObject props =>
      ok (lookup_prop (NilEmpty.string_of_uint (Nat.to_uint i)) props)
  | VBool _ | VNumber _ => ok VUndefined
  end.

(** [[Number(p[0]) || 0, Number(p[1]) || 0, Number(p[2]) || 0]] on a point
    of a side. *)
Definition point_of (p : value) : result Vec3 :=
  x <- elem p 0 ;;
  y <- elem p 1 ;;
  z <- elem p 2 ;;
  ok (Num.or_zero (Number x), Num.or_zero (Number y), Num.or_zero (Number z)).

(** One turn of the loop over the sides; the accumulator holds the
    positions and the colors. *)
Definition push_side (csg : CsgLike) (defaultColor : ColorTuple)
    (acc : list float * list float) (side : value)
  : result (list float * list float) :=
  match side with
  | VArray pts =>
      if (List.length pts <? 2)%nat then ok acc
      else
        let startRaw := index pts 0 in
        let endRaw := index pts (List.length pts - 1) in
        startPoint <- point_of startRaw ;;
        endPoint <- point_of endRaw ;;
        let start := applyTransform startPoint (transforms csg) in
        let end_ := applyTransform endPoint (transforms csg) in
        ok (fst acc ++ spread start ++ spread end_,
            snd acc ++ spread defaultColor ++ spread defaultColor)
  | _ => ok acc
  end.

Fixpoint for_each {A S : Type} (step : S -> A -> result S) (xs : list A)
    (acc : S) : result S :=
  match xs with
  | [] => ok acc
  | x :: rest => acc' <- step acc x ;; for_each step rest acc'
  end.

Definition convertSideGeometry (csg : CsgLike) (name : string)
  : result GeometryData :=
  match sides csg with
  | None | Some [] => throw ExpectedSideData
  | Some ss =>
      let defaultColor := defaultColor_of csg in
      acc <- for_each (push_side csg defaultColor) ss ([], []) ;;
      if (List.length (fst acc) =? 0)%nat then throw EmptyLineGeometry
      else
        ok {| name := name;
              positions := new_Float32Array (fst acc);
              normals := None;
              colors :=
                if negb (List.length (snd acc) =? 0)%nat
                then Some (new_Float32Array (snd acc)) else None;
              mode := GLTF_MODE_LINES |}
  end.

(** The template [`${name}_${index}`]. *)
Definition child_name (name : string) (i : nat) : string :=
  (name ++ "_" ++ NilEmpty.string_of_uint (Nat.to_uint i))%string.

(** [collectGeometries]; [flatMap] visits the children in order and the
    first failure ends the call. *)
Fixpoint collectGeometries (g : Geom) (name : string)
  : result (list GeometryData) :=
  match g with
  | GMany children =>
      (fix flatMap (cs : list Geom) (i : nat) : result (list GeometryData) :=
         match cs with
         | [] => ok []
         | child :: rest =>
             here <- collectGeometries child (child_name name i) ;;
             after <- flatMap rest (S i) ;;
             ok (here ++ after)
         end) children 0%nat
  | GOne csg =>
      match polygons csg, sides csg with
      | Some _, _ => unit <- convertPolygonGeometry csg name ;; ok [unit]
      | None, Some _ => unit <- convertSideGeometry csg name ;; ok [unit]
      | None, None => throw UnsupportedGeometry
      end
  end.

(** [ensureColorTupleOnCsg]. *)
Definition ensureColorTupleOnCsg (geom : CsgLike) (colorHint : value)
  : CsgLike :=
  let parsedColor :=
    match parseColorValue colorHint with
    | Some c => Some c
    | None => parseColorValue (color geom)
    end in
  match parsedColor with
  | Some (r, g, b) =>
      {| polygons := polygons geom;
         sides := sides geom;
         color := VArray [VNumber r; VNumber g; VNumber b];
         transforms := transforms geom |}
  | None => geom
  end.

End Triangulator.

(* ================================================================= *)
(** ** Buffers *)

(** A [Buffer]: its bytes. *)
Definition Buffer : Type := list byte.

Definition byte_of_Z (z : Z) : byte :=
  match Byte.of_N (Z.to_N (z mod 256)) with
  | Some b => b
  | None => x00
  end.

(** [Buffer.alloc(size, fill)]. *)
Definition Buffer_alloc (size : Z) (fill : byte) : Buffer :=
  repeat fill (Z.to_nat size).

Definition Buffer_length (b : Buffer) : Z := Z.of_nat (List.length b).

(** [Buffer.concat(list, totalLength)]: the chunks in order, cut or filled
    with zeros to [totalLength]. *)
Definition Buffer_concat_to (chunks : list Buffer) (totalLength : Z) : Buffer :=
  let all := List.concat chunks in
  firstn (Z.to_nat totalLength) all
  ++ repeat x00 (Z.to_nat totalLength - List.length all).

(** The four bytes [writeUInt32LE] stores. *)
Definition le32 (z : Z) : Buffer :=
  [byte_of_Z z; byte_of_Z (z / 256); byte_of_Z (z / 65536);
   byte_of_Z (z / 16777216)].

(** [buf.writeUInt32LE(value, offset)] on a buffer that holds the four bytes:
    a [RangeError] outside [0, 2^32 - 1]. *)
Definition writeUInt32LE (buf : Buffer) (v : Z) (offset : nat) : result Buffer :=
  if (v <? 0) || (4294967295 <? v) then throw RangeError
  else ok (firstn offset buf ++ le32 v ++ skipn (offset + 4) buf).

(** The binary32 value a [Float32Array] element holds, and its bit pattern
    (the one quiet [NaN] for [NaN]). *)
Definition to_binary32 (f : spec_float) : spec_float :=
  match f with
  | S754_finite s m e => binary_round 24 128 s m e
  | _ => f
  end.

Definition sign_bit (s : bool) : Z := if s then 2147483648 else 0.

Definition binary32_bits (f : spec_float) : Z :=
  match f with
  | S754_zero s => sign_bit s
  | S754_infinity s => sign_bit s + 2139095040
  | S754_nan => 2143289344
  | S754_finite s m e =>
      sign_bit s
      + (if Zpos m <? 8388608 then Zpos m
         else (e + 150) * 8388608 + (Zpos m - 8388608))
  end.

(** The bytes behind a [Float32Array], little-endian: what
    [Buffer.from(data.buffer, data.byteOffset, data.byteLength)] copies. *)
Definition Float32Array_bytes (data : Float32Array) : Buffer :=
  flat_map (fun x => le32 (binary32_bits (to_binary32 (Prim2SF x)))) data.

Definition Float32Array_byteLength (data : Float32Array) : Z :=
  4 * Z.of_nat (List.length data).

(* ================================================================= *)
(** ** The buffer packer *)

Definition align (value multiple : Z) : Z :=
  let remainder := Z.rem value multiple in
  if remainder =? 0 then value else value + multiple - remainder.

Record BufferView : Type := mkBufferView {
  bv_buffer : Z;
  byteOffset : Z;
  byteLength : Z;
  target : option Z
}.

Record Accessor : Type := mkAccessor {
  acc_bufferView : Z;
  componentType : Z;
  count : float;
  acc_type : string;
  acc_min : option (list float);
  acc_max : option (list float)
}.

(** [{ attributes, mode }]; the attributes are the properties of
    [primitiveAttributes] in the order they were set. *)
Record Primitive : Type := mkPrimitive {
  attributes : list (string * Z);
  prim_mode : Z
}.

Record Mesh : Type := mkMesh {
  mesh_name : string;
  primitives : list Primitive
}.

Record Node : Type := mkNode {
  node_name : string;
  node_mesh : Z
}.

Record Scene : Type := mkScene {
  scene_name : string;
  scene_nodes : list Z
}.

(** The [json] object of [buildGltfCore], field by field and in the order
    of the object literal; [j_buffers] holds the [byteLength] of each
    buffer descriptor. *)
Record GltfJson : Type := mkGltfJson {
  asset_version : string;
  asset_generator : string;
  j_buffers : list Z;
  j_bufferViews : list BufferView;
  j_accessors : list Accessor;
  j_meshes : list Mesh;
  j_nodes : list Node;
  j_scenes : list Scene;
  j_scene : Z
}.

(** [addBufferView]: the two arrays it pushes to are returned with the
    result. *)
Definition addBufferView (chunks : list Buffer) (bufferViews : list BufferView)
    (data : Float32Array) (currentLength : Z) (tgt : option Z)
  : list Buffer * list BufferView * (Z * Z) :=
  let offset := align currentLength 4 in
  let padding := offset - currentLength in
  let chunks1 :=
    if 0 <? padding then chunks ++ [Buffer_alloc padding x00] else chunks in
  let arrayBuffer := Float32Array_bytes data in
  let chunks2 := chunks1 ++ [arrayBuffer] in
  let bufferViews' :=
    bufferViews
    ++ [{| bv_buffer := 0; byteOffset := offset;
           byteLength := Float32Array_byteLength data; target := tgt |}] in
  (chunks2, bufferViews',
   (Z.of_nat (List.length bufferViews') - 1,
    offset + Float32Array_byteLength data)).

Section MinMax.

Local Open Scope float_scope.

(** [list[i] = x] on a three-element array. *)
Definition set3 (t : float * float * float) (i : nat) (x : float)
  : float * float * float :=
  let '(a, b, c) := t in
  match i with
  | O => (x, b, c)
  | S O => (a, x, c)
  | _ => (a, b, x)
  end.

(** One turn of the loop of [computeMinMax], at index [i]; an element past
    the end reads [undefined], which compares as [NaN] does. *)
Definition minmax_step (values : Float32Array)
    (acc : (float * float * float) * (float * float * float)) (i : nat)
  : (float * float * float) * (float * float * float) :=
  let '(mn, mx) := acc in
  let x := nth i values nan in
  let y := nth (i + 1) values nan in
  let z := nth (i + 2) values nan in
  let '(minX, minY, minZ) := mn in
  let mn := if x <? minX then set3 mn 0 x else mn in
  let mn := if y <? minY then set3 mn 1 y else mn in
  let mn := if z <? minZ then set3 mn 2 z else mn in
  let '(maxX, maxY, maxZ) := mx in
  let mx := if maxX <? x then set3 mx 0 x else mx in
  let mx := if maxY <? y then set3 mx 1 y else mx in
  let mx := if maxZ <? z then set3 mx 2 z else mx in
  (mn, mx).

(** [computeMinMax]: the indices [0, 3, 6, ...] below the length. *)
Definition computeMinMax (values : Float32Array)
  : list float * list float :=
  let steps := map (fun k => (3 * k)%nat)
                   (seq 0 ((List.length values + 2) / 3)) in
  let '(mn, mx) :=
    fold_left (minmax_step values) steps
      ((infinity, infinity, infinity),
       (neg_infinity, neg_infinity, neg_infinity)) in
  (spread mn, spread mx).

End MinMax.

(** What the callback of [geometries.forEach] reads and updates. *)
Record PackState : Type := mkPackState {
  bufferChunks : list Buffer;
  bufferViews : list BufferView;
  accessors : list Accessor;
  meshes : list Mesh;
  nodes : list Node;
  bufferLength : Z
}.

Definition ARRAY_BUFFER : Z := 34962.

(** [values.length / 3]. *)
Definition vertex_count (values : Float32Array) : float :=
  (Num.of_Z (Z.of_nat (List.length values)) / 3)%float.

(** The body of the callback for the unit [geometry] at [index]. *)
Definition pack_geometry (st : PackState) (geometry : GeometryData)
    (index : nat) : PackState :=
  let '(chunks, views, (positionView, len)) :=
    addBufferView (bufferChunks st) (bufferViews st) (positions geometry)
                  (bufferLength st) (Some ARRAY_BUFFER) in
  let '(mn, mx) := computeMinMax (positions geometry) in
  let positionAccessorIndex := Z.of_nat (List.length (accessors st)) in
  let accs :=
    accessors st
    ++ [{| acc_bufferView := positionView;
           componentType := GLTF_COMPONENT_FLOAT;
           count := vertex_count (positions geometry);
           acc_type := GLTF_TYPE_VEC3;
           acc_min := Some mn;
           acc_max := Some mx |}] in
  let attrs := [("POSITION"%string, positionAccessorIndex)] in
  let '(chunks, views, len, accs, attrs) :=
    match normals geometry with
    | Some ns =>
        let '(chunks', views', (normalView, len')) :=
          addBufferView chunks views ns len (Some ARRAY_BUFFER) in
        let normalAccessorIndex := Z.of_nat (List.length accs) in
        (chunks', views', len',
         accs ++ [{| acc_bufferView := normalView;
                     componentType := GLTF_COMPONENT_FLOAT;
                     count := vertex_count ns;
                     acc_type := GLTF_TYPE_VEC3;
                     acc_min := None;
                     acc_max := None |}],
         attrs ++ [("NORMAL"%string, normalAccessorIndex)])
    | None => (chunks, views, len, accs, attrs)
    end in
  let '(chunks, views, len, accs, attrs) :=
    match colors geometry with
    | Some cs =>
        let '(chunks', views', (colorView, len')) :=
          addBufferView chunks views cs len (Some ARRAY_BUFFER) in
        let colorAccessorIndex := Z.of_nat (List.length accs) in
        (chunks', views', len',
         accs ++ [{| acc_bufferView := colorView;
                     componentType := GLTF_COMPONENT_FLOAT;
                     count := vertex_count cs;
                     acc_type := GLTF_TYPE_VEC3;
                     acc_min := None;
                     acc_max := None |}],
         attrs ++ [("COLOR_0"%string, colorAccessorIndex)])
    | None => (chunks, views, len, accs, attrs)
    end in
  {| bufferChunks := chunks;
     bufferViews := views;
     accessors := accs;
     meshes :=
       meshes st
       ++ [{| mesh_name := name geometry;
              primitives :=
                [{| attributes := attrs; prim_mode := mode geometry |}] |}];
     nodes :=
       nodes st
       ++ [{| node_name := name geometry; node_mesh := Z.of_nat index |}];
     bufferLength := len |}.

(** [geometries.forEach((geometry, index) => ...)]. *)
Fixpoint forEach_indexed (gs : list GeometryData) (index : nat)
    (st : PackState) : PackState :=
  match gs with
  | [] => st
  | g :: rest => forEach_indexed rest (S index) (pack_geometry st g index)
  end.

(** [xs.map((x, idx) => f x idx)]. *)
Fixpoint map_indexed {A B : Type} (f : A -> nat -> B) (xs : list A) (idx : nat)
  : list B :=
  match xs with
  | [] => []
  | x :: rest => f x idx :: map_indexed f rest (S idx)
  end.

Definition buildGltfCore (geometries : list GeometryData)
  : GltfJson * Buffer :=
  let st := forEach_indexed geometries 0 (mkPackState [] [] [] [] [] 0) in
  let alignedLength := align (bufferLength st) 4 in
  let '(chunks, len) :=
    if bufferLength st <? alignedLength
    then (bufferChunks st
          ++ [Buffer_alloc (alignedLength - bufferLength st) x00],
          alignedLength)
    else (bufferChunks st, bufferLength st) in
  let binary := Buffer_concat_to chunks len in
  let json :=
    {| asset_version := "2.0";
       asset_generator := "jscad-plan-to-gltf";
       j_buffers := [len];
       j_bufferViews := bufferViews st;
       j_accessors := accessors st;
       j_meshes := meshes st;
       j_nodes :=
         map_indexed (fun node idx =>
                        {| node_name := node_name node;
                           node_mesh := Z.of_nat idx |})
                     (nodes st) 0;
       j_scenes :=
         [{| scene_name := "Scene";
             scene_nodes :=
               map_indexed (fun _ idx => Z.of_nat idx) (nodes st) 0 |}];
       j_scene := 0 |} in
  (json, binary).

(* ================================================================= *)
(** ** The scene as ECMAScript objects, and [JSON.stringify] *)

Definition num (z : Z) : value := VNumber (Num.of_Z z).

Definition optional (key : string) (v : option value) : list (string * value) :=
  match v with
  | Some x => [(key, x)]
  | None => []
  end.

Definition BufferView_value (bv : BufferView) : value :=
  VObject [("buffer"%string, num (bv_buffer bv));
           ("byteOffset"%string, num (byteOffset bv));
           ("byteLength"%string, num (byteLength bv));
           ("target"%string,
            match target bv with Some t => num t | None => VUndefined end)].

Definition Accessor_value (a : Accessor) : value :=
  VObject ([("bufferView"%string, num (acc_bufferView a));
            ("componentType"%string, num (componentType a));
            ("count"%string, VNumber (count a));
            ("type"%string, VString (acc_type a))]
           ++ optional "min" (option_map (fun l => VArray (map VNumber l)) (acc_min a))
           ++ optional "max" (option_map (fun l => VArray (map VNumber l)) (acc_max a))).

Definition Primitive_value (p : Primitive) : value :=
  VObject [("attributes"%string,
            VObject (map (fun kv => (fst kv, num (snd kv))) (attributes p)));
           ("mode"%string, num (prim_mode p))].

Definition Mesh_value (m : Mesh) : value :=
  VObject [("name"%string, VString (mesh_name m));
           ("primitives"%string, VArray (map Primitive_value (primitives m)))].

Definition Node_value (n : Node) : value :=
  VObject [("name"%string, VString (node_name n));
           ("mesh"%string, num (node_mesh n))].

Definition Scene_value (s : Scene) : value :=
  VObject [("name"%string, VString (scene_name s));
           ("nodes"%string, VArray (map num (scene_nodes s)))].

Definition GltfJson_value (j : GltfJson) : value :=
  VObject
    [("asset"%string,
      VObject [("version"%string, VString (asset_version j));
               ("generator"%string, VString (asset_generator j))]);
     ("buffers"%string,
      VArray (map (fun len => VObject [("byteLength"%string, num len)])
                  (j_buffers j)));
     ("bufferViews"%string, VArray (map BufferView_value (j_bufferViews j)));
     ("accessors"%string, VArray (map Accessor_value (j_accessors j)));
     ("meshes"%string, VArray (map Mesh_value (j_meshes j)));
     ("nodes"%string, VArray (map Node_value (j_nodes j)));
     ("scenes"%string, VArray (map Scene_value (j_scenes j)));
     ("scene"%string, num (j_scene j))].

Module Json.

Local Open Scope string_scope.

Definition dquote : ascii := ascii_of_nat 34.

Definition hex_char (n : nat) : ascii :=
  if (n <? 10)%nat then ascii_of_nat (48 + n) else ascii_of_nat (87 + n).

(** The text [QuoteJSONString] puts for one code unit. *)
Definition quote_char (c : ascii) : string :=
  let n := nat_of_ascii c in
  if (n =? 34)%nat then String "\" (String dquote "")
  else if (n =? 92)%nat then "\\"
  else if (n =? 8)%nat then "\b"
  else if (n =? 9)%nat then "\t"
  else if (n =? 10)%nat then "\n"
  else if (n =? 12)%nat then "\f"
  else if (n =? 13)%nat then "\r"
  else if (n <? 32)%nat
       then "\u00" ++ String (hex_char (n / 16)) (String (hex_char (n mod 16)) "")
       else String c "".

Fixpoint quote_body (s : string) : string :=
  match s with
  | EmptyString => ""
  | String c r => quote_char c ++ quote_body r
  end.

Definition quote (s : string) : string :=
  String dquote (quote_body s ++ String dquote "").

Fixpoint join (sep : string) (parts : list string) : string :=
  match parts with
  | [] => ""
  | [p] => p
  | p :: rest => p ++ sep ++ join sep rest
  end.

Definition newline : string := String (ascii_of_nat 10) "".

Section Serialize.

Context {RT : JsRuntime}.

(** [SerializeJSONProperty] without indentation; [None] is [undefined]:
    the property is left out of an object, and reads [null] in an
    array. *)
Fixpoint serialize (v : value) : option string :=
  match v with
  | VUndefined => None
  | VNull => Some "null"
  | VBool b => Some (if b then "true" else "false")
  | VNumber x =>
      Some (if Num.isFinite x then Number_toString x else "null")
  | VString s => Some (quote s)
  | VArray xs =>
      Some ("[" ++ join ","
                     (map (fun x => match serialize x with
                                    | Some t => t
                                    | None => "null"
                                    end) xs)
                ++ "]")
  | VObject props =>
      Some ("{" ++ join ","
                     (flat_map
                        (fun kv => match serialize (snd kv) with
                                   | Some t => [quote (fst kv) ++ ":" ++ t]
                                   | None => []
                                   end) props)
                ++ "}")
  end.

(** [JSON.stringify(v, null, space)]: [SerializeJSONProperty] with the gap
    [gap] at the indentation [indent].  With a gap that is not empty an
    array and an object that hold something are written one entry a line,
    and a colon is followed by a space. *)
Definition wrap (opening closing gap indent : string) (partial : list string)
  : string :=
  match partial with
  | [] => opening ++ closing
  | _ =>
      if (String.length gap =? 0)%nat
      then opening ++ join "," partial ++ closing
      else opening ++ newline ++ (indent ++ gap)
           ++ join ("," ++ newline ++ (indent ++ gap)) partial
           ++ newline ++ indent ++ closing
  end.

Fixpoint stringify (gap indent : string) (v : value) : option string :=
  match v with
  | VUndefined => None
  | VNull => Some "null"
  | VBool b => Some (if b then "true" else "false")
  | VNumber x =>
      Some (if Num.isFinite x then Number_toString x else "null")
  | VString s => Some (quote s)
  | VArray xs =>
      Some (wrap "[" "]" gap indent
              (map (fun x => match stringify gap (indent ++ gap) x with
                             | Some t => t
                             | None => "null"
                             end) xs))
  | VObject props =>
      Some (wrap "{" "}" gap indent
              (flat_map
                 (fun kv => match stringify gap (indent ++ gap) (snd kv) with
                            | Some t =>
                                [quote (fst kv) ++ ":"
                                 ++ (if (String.length gap =? 0)%nat
                                     then "" else " ") ++ t]
                            | None => []
                            end) props))
  end.

(** The gap of a [space] that is a number: that many spaces, ten at most. *)
Definition JSON_stringify (v : value) (space : nat) : option string :=
  stringify (string_of_list_ascii (repeat " "%char (Nat.min space 10))) "" v.

End Serialize.

End Json.

(* ================================================================= *)
(** ** The container serializer *)

(** [Buffer.from(s, "utf8")] on code units below U+0100: one byte below
    U+0080, two bytes from there. *)
Definition utf8_char (c : ascii) : Buffer :=
  let n := Z.of_nat (nat_of_ascii c) in
  if n <? 128 then [byte_of_Z n]
  else [byte_of_Z (192 + n / 64); byte_of_Z (128 + n mod 64)].

Definition utf8 (s : string) : Buffer :=
  flat_map utf8_char (list_ascii_of_string s).

Definition GLB_MAGIC : Z := 1179937895.     (* 0x46546c67, glTF *)
Definition CHUNK_JSON : Z := 1313821514.    (* 0x4e4f534a, JSON *)
Definition CHUNK_BIN : Z := 5130562.        (* 0x004e4942, BIN and a zero *)

Section Container.

Context {RT : JsRuntime}.

(** [buildGlb]; the result is the bytes of the [ArrayBuffer] it returns.
    [JSON.stringify] gives a string on every object, and [Buffer.from]
    raises a [TypeError] on [undefined]. *)
Definition buildGlb (json : GltfJson) (binary : Buffer) : result Buffer :=
  match Json.serialize (GltfJson_value json) with
  | None => throw TypeError
  | Some jsonString =>
      let jsonBuffer := utf8 jsonString in
      let jsonPadding :=
        align (Buffer_length jsonBuffer) 4 - Buffer_length jsonBuffer in
      let paddedJson :=
        if 0 <? jsonPadding
        then jsonBuffer ++ Buffer_alloc jsonPadding x20
        else jsonBuffer in
      let binPadding := align (Buffer_length binary) 4 - Buffer_length binary in
      let paddedBinary :=
        if 0 <? binPadding
        then binary ++ Buffer_alloc binPadding x00
        else binary in
      header <- writeUInt32LE (Buffer_alloc 12 x00) GLB_MAGIC 0 ;;
      header <- writeUInt32LE header 2 4 ;;
      let totalLength :=
        12 + 8 + Buffer_length paddedJson + 8 + Buffer_length paddedBinary in
      header <- writeUInt32LE header totalLength 8 ;;
      jsonChunkHeader <-
        writeUInt32LE (Buffer_alloc 8 x00) (Buffer_length paddedJson) 0 ;;
      jsonChunkHeader <- writeUInt32LE jsonChunkHeader CHUNK_JSON 4 ;;
      binChunkHeader <-
        writeUInt32LE (Buffer_alloc 8 x00) (Buffer_length paddedBinary) 0 ;;
      binChunkHeader <- writeUInt32LE binChunkHeader CHUNK_BIN 4 ;;
      ok (header ++ jsonChunkHeader ++ paddedJson
                 ++ binChunkHeader ++ paddedBinary)
  end.

End Container.

(* ================================================================= *)
(** ** Reading a container back

    The reader the round-trip property speaks of: the layout of a binary
    glTF container, read field by field. *)

Module Reader.

Definition Z_of_byte (b : byte) : Z := Z.of_N (Byte.to_N b).

(** The little-endian 32-bit unsigned integer at [offset]. *)
Definition read_u32 (b : Buffer) (offset : nat) : option Z :=
  match skipn offset b with
  | b0 :: b1 :: b2 :: b3 :: _ =>
      Some (Z_of_byte b0 + 256 * Z_of_byte b1 + 65536 * Z_of_byte b2
            + 16777216 * Z_of_byte b3)
  | _ => None
  end.

(** The [len] bytes from [offset] on, when the buffer holds them. *)
Definition read_bytes (b : Buffer) (offset len : nat) : option Buffer :=
  if (offset + len <=? List.length b)%nat
  then Some (firstn len (skipn offset b))
  else None.

Record Container : Type := mkContainer {
  total_length : Z;
  json_chunk : Buffer;
  bin_chunk : Buffer
}.

Definition opt_bind {A B} (o : option A) (k : A -> option B) : option B :=
  match o with
  | Some a => k a
  | None => None
  end.

Definition parse_container (glb : Buffer) : option Container :=
  opt_bind (read_u32 glb 0) (fun magic =>
  opt_bind (read_u32 glb 4) (fun version =>
  opt_bind (read_u32 glb 8) (fun total =>
  opt_bind (read_u32 glb 12) (fun jsonLength =>
  opt_bind (read_u32 glb 16) (fun jsonType =>
  opt_bind (read_bytes glb 20 (Z.to_nat jsonLength)) (fun json =>
  opt_bind (read_u32 glb (20 + Z.to_nat jsonLength)) (fun binLength =>
  opt_bind (read_u32 glb (24 + Z.to_nat jsonLength)) (fun binType =>
  opt_bind (read_bytes glb (28 + Z.to_nat jsonLength) (Z.to_nat binLength))
           (fun bin =>
  if (magic =? GLB_MAGIC) && (version =? 2) && (jsonType =? CHUNK_JSON)
     && (binType =? CHUNK_BIN)
  then Some {| total_length := total; json_chunk := json; bin_chunk := bin |}
  else None))))))))).

(** The chunk without the spaces that pad its end. *)
Fixpoint drop_spaces (b : Buffer) : Buffer :=
  match b with
  | x20 :: rest => drop_spaces rest
  | _ => b
  end.

Definition strip_padding (b : Buffer) : Buffer :=
  rev (drop_spaces (rev b)).

(** The text of UTF-8 bytes, for code points below U+0100. *)
Fixpoint utf8_decode (b : Buffer) : option string :=
  match b with
  | [] => Some EmptyString
  | b0 :: rest =>
      let n0 := Z_of_byte b0 in
      if n0 <? 128 then
        option_map (String (ascii_of_byte b0)) (utf8_decode rest)
      else
        match rest with
        | b1 :: rest' =>
            let n1 := Z_of_byte b1 in
            if ((n0 =? 194) || (n0 =? 195)) && (128 <=? n1) && (n1 <? 192)
            then option_map
                   (String (ascii_of_nat (Z.to_nat ((n0 - 192) * 64 + (n1 - 128)))))
                   (utf8_decode rest')
            else None
        | [] => None
        end
  end.

End Reader.

(* ================================================================= *)
(** ** Reading JSON text

    [JSON.parse], for text whose code units are below U+0100.  The members
    of an object are kept in the order they are read: the objects of a
    scene have no key twice and no key that is an array index, which
    ECMAScript would move to the front. *)

Module JsonReader.

Local Open Scope nat_scope.

Definition is_ws (c : ascii) : bool :=
  let n := nat_of_ascii c in
  (n =? 32) || (n =? 9) || (n =? 10) || (n =? 13).

Fixpoint skip_ws (s : string) : string :=
  match s with
  | EmptyString => EmptyString
  | String c r => if is_ws c then skip_ws r else s
  end.

Definition is_digit (c : ascii) : bool :=
  let n := nat_of_ascii c in (48 <=? n) && (n <=? 57).

(** The code units a number is written with. *)
Definition is_number_char (c : ascii) : bool :=
  let n := nat_of_ascii c in
  is_digit c || (n =? 45) || (n =? 43) || (n =? 46) || (n =? 101) || (n =? 69).

(** The longest prefix made of such code units, and what follows it. *)
Fixpoint span_number (s : string) : string * string :=
  match s with
  | EmptyString => (EmptyString, EmptyString)
  | String c r =>
      if is_number_char c
      then let '(tok, rest) := span_number r in (String c tok, rest)
      else (EmptyString, s)
  end.

Fixpoint drop_digits (s : string) : string :=
  match s with
  | EmptyString => EmptyString
  | String c r => if is_digit c then drop_digits r else s
  end.

(** The grammar of a JSON number: an optional minus, an integer part with
    no leading zero, an optional fraction, an optional exponent. *)
Definition exponent_ok (s : string) : bool :=
  match s with
  | EmptyString => true
  | String c r =>
      if (nat_of_ascii c =? 101) || (nat_of_ascii c =? 69) then
        let digits :=
          match r with
          | String "+" r' => r'
          | String "-" r' => r'
          | _ => r
          end in
        match digits with
        | String d _ =>
            is_digit d && (String.length (drop_digits digits) =? 0)
        | EmptyString => false
        end
      else false
  end.

Definition fraction_ok (s : string) : bool :=
  match s with
  | String "." r =>
      match r with
      | String d _ => is_digit d && exponent_ok (drop_digits r)
      | EmptyString => false
      end
  | _ => exponent_ok s
  end.

Definition json_number (tok : string) : bool :=
  let unsigned :=
    match tok with
    | String "-" r => r
    | _ => tok
    end in
  match unsigned with
  | String "0" r => fraction_ok r
  | String d r => is_digit d && fraction_ok (drop_digits r)
  | EmptyString => false
  end.

Definition unhex (c : ascii) : option nat :=
  option_map Z.to_nat (Str.hex_digit c).

Definition keep (c : ascii) (r : option (string * string))
  : option (string * string) :=
  match r with
  | Some (text, rest) => Some (String c text, rest)
  | None => None
  end.

(** The string that ends at the next quote, escapes resolved, and what
    follows the quote. *)
Fixpoint read_string (s : string) : option (string * string) :=
  match s with
  | EmptyString => None
  | String c r =>
      let n := nat_of_ascii c in
      if n =? 34 then Some (EmptyString, r)
      else if n =? 92 then
        match r with
        | EmptyString => None
        | String e r1 =>
            let m := nat_of_ascii e in
            if m =? 34 then keep e (read_string r1)
            else if m =? 92 then keep e (read_string r1)
            else if m =? 47 then keep e (read_string r1)
            else if m =? 98 then keep (ascii_of_nat 8) (read_string r1)
            else if m =? 102 then keep (ascii_of_nat 12) (read_string r1)
            else if m =? 110 then keep (ascii_of_nat 10) (read_string r1)
            else if m =? 114 then keep (ascii_of_nat 13) (read_string r1)
            else if m =? 116 then keep (ascii_of_nat 9) (read_string r1)
            else if m =? 117 then
              match r1 with
              | String h1 (String h2 (String h3 (String h4 r2))) =>
                  match unhex h1, unhex h2, unhex h3, unhex h4 with
                  | Some a, Some b, Some c', Some d =>
                      let code := ((a * 16 + b) * 16 + c') * 16 + d in
                      if code <? 256
                      then keep (ascii_of_nat code) (read_string r2)
                      else None
                  | _, _, _, _ => None
                  end
              | _ => None
              end
            else None
        end
      else if n <? 32 then None
      else keep c (read_string r)
  end.

(** The key of a member and the colon after it. *)
Definition read_key (s : string) : option (string * string) :=
  match skip_ws s with
  | EmptyString => None
  | String q r =>
      if nat_of_ascii q =? 34 then
        match read_string r with
        | Some (key, r1) =>
            match skip_ws r1 with
            | String ":" r2 => Some (key, r2)
            | _ => None
            end
        | None => None
        end
      else None
  end.

(** What is being read: a value, the elements of an array after its
    opening bracket, the members of an object after its opening brace. *)
Inductive mode : Type := Value | Elements | Members.

Section Parse.

Context {RT : JsRuntime}.

(** The parser; [Elements] and [Members] answer the array and the object
    they complete.  [fuel] bounds the number of values read. *)
Fixpoint parse (fuel : nat) (m : mode) (s : string) : option (value * string) :=
  match fuel with
  | O => None
  | S fuel' =>
      match m with
      | Value =>
          match skip_ws s with
          | EmptyString => None
          | String c r =>
              let n := nat_of_ascii c in
              if n =? 110 then
                match r with
                | String "u" (String "l" (String "l" r')) => Some (VNull, r')
                | _ => None
                end
              else if n =? 116 then
                match r with
                | String "r" (String "u" (String "e" r')) =>
                    Some (VBool true, r')
                | _ => None
                end
              else if n =? 102 then
                match r with
                | String "a" (String "l" (String "s" (String "e" r'))) =>
                    Some (VBool false, r')
                | _ => None
                end
              else if n =? 34 then
                match read_string r with
                | Some (text, r') => Some (VString text, r')
                | None => None
                end
              else if n =? 91 then
                match skip_ws r with
                | String "]" r' => Some (VArray [], r')
                | _ => parse fuel' Elements r
                end
              else if n =? 123 then
                match skip_ws r with
                | String "}" r' => Some (VObject [], r')
                | _ => parse fuel' Members r
                end
              else if is_digit c || (n =? 45) then
                let '(tok, rest) := span_number (String c r) in
                if json_number tok
                then Some (VNumber (StringToNumber tok), rest)
                else None
              else None
          end
      | Elements =>
          match parse fuel' Value s with
          | Some (v, r) =>
              match skip_ws r with
              | String "," r' =>
                  match parse fuel' Elements r' with
                  | Some (VArray vs, r'') => Some (VArray (v :: vs), r'')
                  | _ => None
                  end
              | String "]" r' => Some (VArray [v], r')
              | _ => None
              end
          | None => None
          end
      | Members =>
          match read_key s with
          | Some (key, r2) =>
              match parse fuel' Value r2 with
              | Some (v, r3) =>
                  match skip_ws r3 with
                  | String "," r4 =>
                      match parse fuel' Members r4 with
                      | Some (VObject ps, r5) =>
                          Some (VObject ((key, v) :: ps), r5)
                      | _ => None
                      end
                  | String "}" r4 => Some (VObject [(key, v)], r4)
                  | _ => None
                  end
              | None => None
              end
          | None => None
          end
      end
  end.

(** [JSON.parse]. *)
Definition JSON_parse (s : string) : option value :=
  match parse (2 * String.length s) Value s with
  | Some (v, rest) =>
      match skip_ws rest with
      | EmptyString => Some v
      | String _ _ => None
      end
  | None => None
  end.

(** What JSON keeps of a value: a property that is [undefined] is left
    out, an element that is [undefined] and a number that is not finite
    read [null], and the two zeros are one. *)
Definition canonical (x : float) : float := if (x =? 0)%float then 0%float else x.

Fixpoint normal (v : value) : option value :=
  match v with
  | VUndefined => None
  | VNull => Some VNull
  | VBool b => Some (VBool b)
  | VNumber x =>
      Some (if Num.isFinite x then VNumber (canonical x) else VNull)
  | VString s => Some (VString s)
  | VArray xs =>
      Some (VArray (map (fun x => match normal x with
                                  | Some y => y
                                  | None => VNull
                                  end) xs))
  | VObject props =>
      Some (VObject (flat_map (fun kv => match normal (snd kv) with
                                         | Some y => [(fst kv, y)]
                                         | None => []
                                         end) props))
  end.

(** A finite number is printed as a JSON number that reads back as the
    number, the two zeros alike. *)
Definition number_round_trips (x : float) : bool :=
  json_number (Number_toString x)
  && forallb is_number_char (list_ascii_of_string (Number_toString x))
  && PrimFloat.Leibniz.eqb (StringToNumber (Number_toString x)) (canonical x)
  && String.eqb (Number_toString (canonical x)) (Number_toString x).

(** Every finite number of a value is printed so. *)
Fixpoint printable (v : value) : bool :=
  match v with
  | VNumber x => if Num.isFinite x then number_round_trips x else true
  | VArray xs => forallb printable xs
  | VObject props => forallb (fun kv => printable (snd kv)) props
  | _ => true
  end.

(** A value JSON keeps as it is: it holds no [undefined], and its numbers
    are finite, are not the negative zero, and are printed as JSON numbers
    that read back as themselves. *)
Fixpoint plain (v : value) : bool :=
  match v with
  | VUndefined => false
  | VNull | VBool _ | VString _ => true
  | VNumber x =>
      Num.isFinite x && PrimFloat.Leibniz.eqb (canonical x) x
      && number_round_trips x
  | VArray xs => forallb plain xs
  | VObject props => forallb (fun kv => plain (snd kv)) props
  end.

End Parse.

End JsonReader.

(* ================================================================= *)
(** ** The conversion result *)

(** [buf.toString("base64")]. *)
Definition base64_char (n : Z) : ascii :=
  if n <? 26 then ascii_of_nat (Z.to_nat (65 + n))
  else if n <? 52 then ascii_of_nat (Z.to_nat (97 + (n - 26)))
  else if n <? 62 then ascii_of_nat (Z.to_nat (48 + (n - 52)))
  else if n =? 62 then "+"%char
  else "/"%char.

Fixpoint base64 (b : Buffer) : string :=
  match b with
  | [] => EmptyString
  | [b0] =>
      let n0 := Reader.Z_of_byte b0 in
      String (base64_char (n0 / 4))
        (String (base64_char (n0 mod 4 * 16)) "==")
  | [b0; b1] =>
      let n0 := Reader.Z_of_byte b0 in
      let n1 := Reader.Z_of_byte b1 in
      String (base64_char (n0 / 4))
        (String (base64_char (n0 mod 4 * 16 + n1 / 16))
           (String (base64_char (n1 mod 16 * 4)) "="))
  | b0 :: b1 :: b2 :: rest =>
      let n0 := Reader.Z_of_byte b0 in
      let n1 := Reader.Z_of_byte b1 in
      let n2 := Reader.Z_of_byte b2 in
      String (base64_char (n0 / 4))
        (String (base64_char (n0 mod 4 * 16 + n1 / 16))
           (String (base64_char (n1 mod 16 * 4 + n2 / 64))
              (String (base64_char (n2 mod 64)) (base64 rest))))
  end.

(** [o.key = x] on the properties of an object: the property keeps its
    place when the object has it and comes last when it does not. *)
Fixpoint set_prop (key : string) (x : value) (props : list (string * value))
  : list (string * value) :=
  match props with
  | [] => [(key, x)]
  | (k, v) :: rest =>
      if String.eqb k key then (k, x) :: rest
      else (k, v) :: set_prop key x rest
  end.

(** [jsonDoc.buffers[0].uri = uri]; the update is seen through [jsonDoc].
    The document read back from a scene is an object whose [buffers] is an
    array that starts with an object.  A document of another shape does not
    arise; it is answered the [TypeError] the runtime raises when [buffers]
    or its first element is missing. *)
Definition attach_uri (jsonDoc : value) (uri : string) : result value :=
  match jsonDoc with
  | VObject props =>
      match lookup_prop "buffers" props with
      | VArray (VObject first :: others) =>
          ok (VObject
                (set_prop "buffers"
                   (VArray (VObject (set_prop "uri" (VString uri) first)
                            :: others))
                   props))
      | _ => throw TypeError
      end
  | _ => throw TypeError
  end.

Inductive Format : Type := glb | gltf.

(** [data]: an [ArrayBuffer] (its bytes) or a string. *)
Inductive Data : Type :=
| Binary (bytes : Buffer)
| Text (text : string).

(** [ConvertJscadPlanToGltfResult]. *)
Record ConvertJscadPlanToGltfResult : Type := mkResult {
  data : Data;
  format : Format;
  mimeType : string;
  result_byteLength : Z
}.

(** [ConvertJscadPlanToGltfOptions]; an option that is not given is
    [None]. *)
Record ConvertJscadPlanToGltfOptions : Type := mkOptions {
  opt_format : option Format;
  opt_meshName : option string;
  opt_prettyJson : option bool
}.

(** [JscadRenderedGeometry]; [geom] is [None] when the field is falsy. *)
Record JscadRenderedGeometry : Type := mkRendered {
  geom : option CsgLike;
  rendered_color : value
}.

(** [JscadRenderedModel]; [model_geometries] is [None] when the field is
    not an array, and an entry is [None] when it is [null] or
    [undefined]. *)
Record JscadRenderedModel : Type := mkModel {
  model_geometries : option (list (option JscadRenderedGeometry))
}.

Section Conversion.

Context {RT : JsRuntime}.

Definition buildConversionResult (geometries : list GeometryData)
    (fmt : Format) (prettyJson : option bool)
  : result ConvertJscadPlanToGltfResult :=
  match geometries with
  | [] => throw NoGeometry
  | _ =>
      let '(json, binary) := buildGltfCore geometries in
      match fmt with
      | glb =>
          arrayBuffer <- buildGlb json binary ;;
          ok {| data := Binary arrayBuffer;
                format := fmt;
                mimeType := "model/gltf-binary";
                result_byteLength := Buffer_length arrayBuffer |}
      | gltf =>
          match Json.serialize (GltfJson_value json) with
          | None => throw SyntaxError
          | Some text =>
              match JsonReader.JSON_parse text with
              | None => throw SyntaxError
              | Some jsonDoc =>
                  jsonDoc <-
                    attach_uri jsonDoc
                      ("data:application/octet-stream;base64,"
                       ++ base64 binary)%string ;;
                  match Json.JSON_stringify jsonDoc
                          (match prettyJson with
                           | Some true => 2
                           | _ => 0
                           end) with
                  | None => throw TypeError
                  | Some jsonString =>
                      ok {| data := Text jsonString;
                            format := fmt;
                            mimeType := "model/gltf+json";
                            result_byteLength :=
                              Buffer_length (utf8 jsonString) |}
                  end
              end
          end
      end
  end.

Definition normalizeRenderedGeometries (model : option JscadRenderedModel)
  : list CsgLike :=
  match model with
  | None => []
  | Some m =>
      match model_geometries m with
      | None => []
      | Some entries =>
          flat_map (fun entry =>
                      match entry with
                      | Some e =>
                          match geom e with
                          | Some g =>
                              [ensureColorTupleOnCsg g (rendered_color e)]
                          | None => []
                          end
                      | None => []
                      end) entries
      end
  end.

(** The default of an option that is not given ([??]). *)
Definition or_default {A : Type} (o : option A) (d : A) : A :=
  match o with
  | Some a => a
  | None => d
  end.

(** [convertJscadModelToGltf]: the value the promise it returns settles
    with. *)
Definition convertJscadModelToGltf (model : option JscadRenderedModel)
    (options : ConvertJscadPlanToGltfOptions)
  : result ConvertJscadPlanToGltfResult :=
  let meshName := or_default (opt_meshName options) "JSCADMesh"%string in
  let csgGeometries := normalizeRenderedGeometries model in
  if (List.length csgGeometries =? 0)%nat then throw NoModelGeometries
  else
    geometries <- collectGeometries (GMany (map GOne csgGeometries)) meshName ;;
    let fmt := or_default (opt_format options) glb in
    buildConversionResult geometries fmt (opt_prettyJson options).

(** [convertJscadPlanToGltf], given what the evaluation of the plan by
    [executeJscadOperations] returned: [None] when it is falsy. *)
Definition convertJscadPlanToGltf (csgResult : option Geom)
    (options : ConvertJscadPlanToGltfOptions)
  : result ConvertJscadPlanToGltfResult :=
  let meshName := or_default (opt_meshName options) "JSCADMesh"%string in
  match csgResult with
  | None => throw NoGeometry
  | Some csg =>
      geometries <- collectGeometries csg meshName ;;
      let fmt := or_default (opt_format options) glb in
      buildConversionResult geometries fmt (opt_prettyJson options)
  end.

End Conversion.

(* ================================================================= *)
(** ** A runtime for closed examples

    An instance of [JsRuntime] on which the closed examples of this file are
    computed.  It follows ECMAScript where the examples go: integers are
    printed and read in decimal, [Math.hypot] has the special cases of the
    standard and scales by the largest magnitude.  A number that is not an
    integer is printed with its exact decimal expansion (ECMAScript prints
    the shortest one that reads back as the same number), and a string that
    is not a decimal integer reads as [NaN]. *)

Module Reference.

Definition decimal (z : Z) : string := NilZero.string_of_int (Z.to_int z).

Fixpoint drop_zeros (l : list ascii) : list ascii :=
  match l with
  | "0"%char :: rest => drop_zeros rest
  | _ => l
  end.

Definition fraction_digits (k : nat) (fp : Z) : string :=
  let digits := list_ascii_of_string (decimal fp) in
  let padded := repeat "0"%char (k - List.length digits) ++ digits in
  string_of_list_ascii (rev (drop_zeros (rev padded))).

Definition number_toString (x : float) : string :=
  match Prim2SF x with
  | S754_zero _ => "0"
  | S754_nan => "NaN"
  | S754_infinity s => if s then "-Infinity" else "Infinity"
  | S754_finite s m e =>
      let magnitude :=
        if 0 <=? e then decimal (Zpos m * 2 ^ e)
        else
          let k := - e in
          let n := Zpos m * 5 ^ k in
          let ip := n / 10 ^ k in
          let fp := n mod 10 ^ k in
          if fp =? 0 then decimal ip
          else (decimal ip ++ "." ++ fraction_digits (Z.to_nat k) fp)%string in
      if s then String "-" magnitude else magnitude
  end.

Definition digit (c : ascii) : option Z :=
  let n := nat_of_ascii c in
  if (48 <=? n)%nat && (n <=? 57)%nat then Some (Z.of_nat (n - 48)) else None.

Fixpoint read_digits (s : string) (acc : Z) : option Z :=
  match s with
  | EmptyString => Some acc
  | String c r =>
      match digit c with
      | Some d => read_digits r (10 * acc + d)
      | None => None
      end
  end.

Definition stringToNumber (s : string) : float :=
  match Str.trim s with
  | EmptyString => 0%float
  | String "-" (String c r) =>
      match read_digits (String c r) 0 with
      | Some n => if n =? 0 then (-0)%float else Num.of_Z (- n)
      | None => nan
      end
  | String "+" (String c r) =>
      match read_digits (String c r) 0 with
      | Some n => Num.of_Z n
      | None => nan
      end
  | t =>
      match read_digits t 0 with
      | Some n => Num.of_Z n
      | None => nan
      end
  end.

Definition objectToNumber (v : value) : float :=
  match v with
  | VArray [] => 0%float
  | VArray [VNumber x] => x
  | VArray [VString s] => stringToNumber s
  | VArray [VNull] | VArray [VUndefined] => 0%float
  | _ => nan
  end.

Definition hypot (x y z : float) : float :=
  (if is_infinity x || is_infinity y || is_infinity z then infinity
   else if is_nan x || is_nan y || is_nan z then nan
   else
     let largest := Num.Math_max (abs x) (Num.Math_max (abs y) (abs z)) in
     if largest =? 0 then 0
     else
       let a := x / largest in
       let b := y / largest in
       let c := z / largest in
       PrimFloat.sqrt (a * a + b * b + c * c) * largest)%float.

#[export] Instance runtime : JsRuntime := {|
  StringToNumber := stringToNumber;
  ObjectToNumber := objectToNumber;
  Math_hypot := hypot;
  Number_toString := number_toString
|}.

End Reference.

(* ================================================================= *)
(** * The terms of the statements

    What the theorems below say of the code is said with the definitions of
    this part: closed forms of what the loops push, what holds of a packing
    state, the layout of a container, what a reader does with a scene and
    with a standalone document, and the closed inputs of the examples. *)

(** ** Numbers *)

(** The three shapes of a number that is neither [NaN] nor negative. *)
Definition nonneg_SF (f : spec_float) : Prop :=
  f = S754_zero false \/ f = S754_infinity false
  \/ exists m e, f = S754_finite false m e.

(** ** The order of the numbers *)

(** The place of a number that is not [NaN] in the order of the numbers:
    the infinities at the ends, the two zeros together in the middle, and a
    finite number by its sign, its exponent and its mantissa. *)
Definition rank (f : spec_float) : Z * Z * Z :=
  match f with
  | S754_infinity true => (-2, 0, 0)
  | S754_finite true m e => (-1, - e, - Zpos m)
  | S754_zero _ => (0, 0, 0)
  | S754_nan => (0, 0, 0)
  | S754_finite false m e => (1, e, Zpos m)
  | S754_infinity false => (2, 0, 0)
  end.

Definition rank_compare (a b : Z * Z * Z) : comparison :=
  match fst (fst a) ?= fst (fst b) with
  | Eq =>
      match snd (fst a) ?= snd (fst b) with
      | Eq => snd a ?= snd b
      | c => c
      end
  | c => c
  end.

Definition rank_le (a b : Z * Z * Z) : Prop :=
  fst (fst a) < fst (fst b)
  \/ (fst (fst a) = fst (fst b)
      /\ (snd (fst a) < snd (fst b)
          \/ (snd (fst a) = snd (fst b) /\ snd a <= snd b))).

(** [x <= y] on numbers. *)
Definition number_le (x y : float) : Prop := (x <=? y)%float = true.

(** ** JSON text *)

Module JsonTerms.

Import Json JsonReader.
Local Open Scope string_scope.

(** What may follow a number: nothing, or a code unit no number is
    written with. *)
Definition stops (rest : string) : Prop :=
  match rest with
  | EmptyString => True
  | String c _ => is_number_char c = false
  end.

Section Terms.

Context {RT : JsRuntime}.

(** The text of a value ([null] for [undefined], as in an array). *)
Definition text (v : value) : string :=
  match serialize v with
  | Some t => t
  | None => "null"
  end.

Definition member_text (kv : string * value) : string :=
  quote (fst kv) ++ ":" ++ text (snd kv).

(** The number of values in a value, which bounds the fuel to read it. *)
Fixpoint size (v : value) : nat :=
  match v with
  | VArray xs => S (list_sum (map (fun x => S (size x)) xs))
  | VObject props => S (list_sum (map (fun kv => S (size (snd kv))) props))
  | _ => 1
  end.

(** The first code unit of the text of a value opens it: it is no white
    space and closes neither an array nor an object. *)
Definition opens (c : ascii) : Prop :=
  is_ws c = false /\ c <> "]"%char /\ c <> "}"%char.

(** What reading a value means, for the induction. *)
Definition reads_back (v : value) : Prop :=
  forall fuel rest,
    (size v <= fuel)%nat -> stops rest ->
    parse fuel Value (text v ++ rest) = Some (v, rest).

End Terms.

End JsonTerms.

(** ** Indented JSON text *)

Module IndentedTerms.

Import Json JsonReader JsonTerms.
Local Open Scope string_scope.

(** A string of white space. *)
Definition blank (s : string) : Prop :=
  forallb is_ws (list_ascii_of_string s) = true.

Section Terms.

Context {RT : JsRuntime}.

(** The text of a value with the gap [gap], at the indentation [indent]
    ([null] for [undefined], as in an array). *)
Definition indented_text (gap indent : string) (v : value) : string :=
  match stringify gap indent v with
  | Some t => t
  | None => "null"
  end.

Definition indented_member (gap indent : string) (kv : string * value)
  : string :=
  quote (fst kv) ++ ":" ++ " " ++ indented_text gap indent (snd kv).

(** What reading an indented value means, for the induction. *)
Definition reads_back_indented (gap : string) (v : value) : Prop :=
  forall indent fuel rest,
    blank indent -> (size v <= fuel)%nat -> stops rest ->
    parse fuel Value (indented_text gap indent v ++ rest) = Some (v, rest).

End Terms.

End IndentedTerms.

(** ** Triangles *)

(** The triangles of a fan over [n] vertices, by the indices of their
    corners: [(0,1,2)], [(0,2,3)], ..., [(0,n-2,n-1)]. *)
Fixpoint fan_from (k count : nat) : list (nat * nat * nat) :=
  match count with
  | O => []
  | S c => (0, k, S k)%nat :: fan_from (S k) c
  end.

Definition fan (n : nat) : list (nat * nat * nat) := fan_from 1 (n - 2).

(** The corners of a triangle among the values [xs] of the vertices. *)
Definition corner_values (d : float * float * float)
    (xs : list (float * float * float)) (t : nat * nat * nat) : list float :=
  let '(i, j, k) := t in
  spread (nth i xs d) ++ spread (nth j xs d) ++ spread (nth k xs d).

Section TriangulatorTerms.

Context {RT : JsRuntime}.

(** The transformed positions and the colors of the vertices of a polygon,
    as [convertPolygonGeometry] maps them. *)
Definition transformed (csg : CsgLike) (vs : list value) : list Vec3 :=
  map (fun vertex =>
         applyTransform (extractVertexPosition vertex) (transforms csg)) vs.

Definition vertex_colors (d : ColorTuple) (vs : list value) : list ColorTuple :=
  map (fun vertex => extractVertexColor vertex d) vs.

(** The normal of the triangle of corners [t]: the normalized cross product
    of its two edges from the first corner. *)
Definition face_normal (tv : list Vec3) (t : nat * nat * nat) : Vec3 :=
  let '(i, j, k) := t in
  normalize (cross (subtract (nth j tv origin) (nth i tv origin))
                   (subtract (nth k tv origin) (nth i tv origin))).

Definition normal_values (tv : list Vec3) (t : nat * nat * nat) : list float :=
  spread (face_normal tv t) ++ spread (face_normal tv t)
  ++ spread (face_normal tv t).

(** The triangles a polygon gives. *)
Definition polygon_triangles (p : Polygon) : list (nat * nat * nat) :=
  match vertices p with
  | Some vs => if (List.length vs <? 3)%nat then [] else fan (List.length vs)
  | None => []
  end.

Definition polygon_vertices (p : Polygon) : list value :=
  match vertices p with
  | Some vs => vs
  | None => []
  end.

(** What a polygon adds to each of the three streams. *)
Definition polygon_positions (csg : CsgLike) (p : Polygon) : list float :=
  flat_map (corner_values origin (transformed csg (polygon_vertices p)))
           (polygon_triangles p).

Definition polygon_normals (csg : CsgLike) (p : Polygon) : list float :=
  flat_map (normal_values (transformed csg (polygon_vertices p)))
           (polygon_triangles p).

Definition polygon_colors (d : ColorTuple) (p : Polygon) : list float :=
  flat_map (corner_values white (vertex_colors d (polygon_vertices p)))
           (polygon_triangles p).

End TriangulatorTerms.

(** ** Collected units *)

Section CollectTerms.

Context {RT : JsRuntime}.

(** The [flatMap] of [collectGeometries] over the children from index [i]. *)
Fixpoint collect_children (nm : string) (cs : list Geom) (i : nat)
  : result (list GeometryData) :=
  match cs with
  | [] => ok []
  | child :: rest =>
      here <- collectGeometries child (child_name nm i) ;;
      after <- collect_children nm rest (S i) ;;
      ok (here ++ after)
  end.

(** A value with neither polygons nor sides, at any depth of a list. *)
Inductive holds_unsupported : Geom -> Prop :=
| unsupported_here csg :
    polygons csg = None -> sides csg = None -> holds_unsupported (GOne csg)
| unsupported_below children child :
    In child children -> holds_unsupported child ->
    holds_unsupported (GMany children).

(** The streams of a mesh unit as the triangulator leaves them. *)
Definition well_streamed (u : GeometryData) : Prop :=
  (exists cs, colors u = Some cs
              /\ List.length cs = List.length (positions u))
  /\ ((mode u = GLTF_MODE_TRIANGLES
       /\ exists ns, normals u = Some ns
                     /\ List.length ns = List.length (positions u))
      \/ (mode u = GLTF_MODE_LINES /\ normals u = None)).

End CollectTerms.

(** The geometry objects of a value *)

Section LeafTerms.

Context {RT : JsRuntime}.

(** The geometry objects of a geometry value, in the order [flatMap]
    visits them, each with the name [collectGeometries] reaches it with. *)
Fixpoint named_leaves (g : Geom) (nm : string) : list (CsgLike * string) :=
  match g with
  | GOne csg => [(csg, nm)]
  | GMany children =>
      (fix below (cs : list Geom) (i : nat) : list (CsgLike * string) :=
         match cs with
         | [] => []
         | child :: rest =>
             named_leaves child (child_name nm i) ++ below rest (S i)
         end) children 0%nat
  end.

(** The geometry objects below the children from index [i]. *)
Fixpoint leaves_below (nm : string) (cs : list Geom) (i : nat)
  : list (CsgLike * string) :=
  match cs with
  | [] => []
  | child :: rest =>
      named_leaves child (child_name nm i) ++ leaves_below nm rest (S i)
  end.

(** [collectGeometries] on each of a list of named geometry objects, the
    first failure ending it. *)
Fixpoint collect_each (leaves : list (CsgLike * string))
  : result (list GeometryData) :=
  match leaves with
  | [] => ok []
  | (csg, nm) :: rest =>
      here <- collectGeometries (GOne csg) nm ;;
      after <- collect_each rest ;;
      ok (here ++ after)
  end.

End LeafTerms.

(** ** Streams *)

(** The shape of the streams of a mesh unit: nine floats a triangle with
    normals along, or six floats a segment. *)
Definition stream_shape (u : GeometryData) : Prop :=
  (mode u = GLTF_MODE_TRIANGLES
   /\ (List.length (positions u) mod 9 = 0)%nat
   /\ exists ns, normals u = Some ns
                 /\ List.length ns = List.length (positions u))
  \/ (mode u = GLTF_MODE_LINES
      /\ (List.length (positions u) mod 6 = 0)%nat).

(** ** Positions and sides *)

(** A geometry object [applyTransform] leaves where it is: it has no
    transform, or one that has not sixteen entries. *)
Definition untransformed (csg : CsgLike) : Prop :=
  match transforms csg with
  | None => True
  | Some m => List.length m <> 16%nat
  end.

(** A triple of numbers. *)
Definition numbers (v : float * float * float) : Prop :=
  Forall (fun x => is_nan x = false) (spread v).

(** A side one end of which is missing: an array of two elements or more
    whose first or last element is [undefined] or [null]. *)
Definition missing_end (side : value) : Prop :=
  exists pts,
    side = VArray pts
    /\ (2 <= List.length pts)%nat
    /\ (index pts 0 = VUndefined \/ index pts 0 = VNull
        \/ index pts (List.length pts - 1) = VUndefined
        \/ index pts (List.length pts - 1) = VNull).

(** ** Colors *)

(** A channel between [0] and [1], the ends included. *)
Definition unit_channel (c : float) : Prop :=
  number_le 0 c /\ number_le c 1.

(** The value of a color as the encoder stores it on a geometry object. *)
Definition color_value (c : ColorTuple) : value :=
  let '(r, g, b) := c in VArray [VNumber r; VNumber g; VNumber b].

(** A vertex that gives no color of its own. *)
Definition colorless (vertex : value) : Prop :=
  truthy (vertex_color_field vertex) = false.

Section ShapeColorTerms.

Context {RT : JsRuntime}.

(** The color [ensureColorTupleOnCsg] resolves for a geometry object: that
    of the hint, or else that of the object. *)
Definition resolved_color (geom : CsgLike) (hint : value)
  : option ColorTuple :=
  match parseColorValue hint with
  | Some c => Some c
  | None => parseColorValue (color geom)
  end.

End ShapeColorTerms.

(** The color stream of [n] vertices that all have the color [c]. *)
Definition uniform_colors (c : ColorTuple) (n : nat) : Float32Array :=
  new_Float32Array (List.concat (repeat (spread c) n)).

(** ** Color strings *)

(** A field of an [rgb] string: it holds no comma and no closing
    parenthesis. *)
Definition rgb_field (s : string) : Prop :=
  forallb (fun c => negb (Ascii.eqb c ",") && negb (Ascii.eqb c ")"))
          (list_ascii_of_string s) = true.

(** The name of the form, in any case: [rgb] or [rgba]. *)
Definition rgb_name (s : string) : Prop :=
  Str.toLowerCase s = "rgb"%string \/ Str.toLowerCase s = "rgba"%string.

(** The string of a name and of fields: [name(f1,f2,...)]. *)
Definition rgb_string (name : string) (fields : list string) : string :=
  (name ++ "(" ++ Json.join "," fields ++ ")")%string.

(** The fields in which something is left once they are trimmed. *)
Definition visible_fields (fields : list string) : list string :=
  filter (fun part => negb (String.length part =? 0)%nat)
         (map Str.trim fields).

(** ** Packing *)

(** What holds of the packing state all along [forEach]. *)
Definition packed (st : PackState) : Prop :=
  0 <= bufferLength st
  /\ bufferLength st = Buffer_length (List.concat (bufferChunks st))
  /\ Forall (fun bv => 0 <= byteOffset bv
                       /\ byteOffset bv mod 4 = 0
                       /\ 0 <= byteLength bv
                       /\ byteOffset bv + byteLength bv <= bufferLength st)
            (bufferViews st).

(** ** The scene graph *)

(** The attributes of the primitive of a mesh unit, in the order they are
    set. *)
Definition attribute_names (g : GeometryData) : list string :=
  ["POSITION"%string]
  ++ (match normals g with Some _ => ["NORMAL"%string] | None => [] end)
  ++ (match colors g with Some _ => ["COLOR_0"%string] | None => [] end).

(** The number of streams of a mesh unit. *)
Definition stream_count (g : GeometryData) : nat :=
  List.length (attribute_names g).

(** Every index of the scene refers to an entry that exists. *)
Definition indices_in_range (json : GltfJson) : Prop :=
  Forall (fun bv => bv_buffer bv = 0) (j_bufferViews json)
  /\ Forall (fun a => 0 <= acc_bufferView a
                      < Z.of_nat (List.length (j_bufferViews json)))
            (j_accessors json)
  /\ Forall (fun m =>
               Forall (fun p =>
                         Forall (fun kv =>
                                   0 <= snd kv
                                   < Z.of_nat (List.length (j_accessors json)))
                                (attributes p))
                      (primitives m))
            (j_meshes json)
  /\ Forall (fun n => 0 <= node_mesh n
                      < Z.of_nat (List.length (j_meshes json)))
            (j_nodes json)
  /\ Forall (fun s =>
               Forall (fun n => 0 <= n < Z.of_nat (List.length (j_nodes json)))
                      (scene_nodes s))
            (j_scenes json)
  /\ 0 <= j_scene json < Z.of_nat (List.length (j_scenes json)).

(** What holds of the packing state all along [forEach], of its indices. *)
Definition linked (st : PackState) : Prop :=
  List.length (accessors st) = List.length (bufferViews st)
  /\ Forall (fun bv => bv_buffer bv = 0) (bufferViews st)
  /\ Forall (fun a => 0 <= acc_bufferView a
                      < Z.of_nat (List.length (bufferViews st)))
            (accessors st)
  /\ Forall (fun m =>
               Forall (fun p =>
                         Forall (fun kv =>
                                   0 <= snd kv
                                   < Z.of_nat (List.length (accessors st)))
                                (attributes p))
                      (primitives m))
            (meshes st).

(** ** Bounds *)

(** The component of a triple on the axis [j]. *)
Definition component (t : float * float * float) (j : nat) : float :=
  nth j (spread t) nan.

(** The accumulator of [computeMinMax] after the first [n] vertices. *)
Definition minmax_after (values : Float32Array) (n : nat)
  : (float * float * float) * (float * float * float) :=
  fold_left (minmax_step values) (map (fun k => (3 * k)%nat) (seq 0 n))
    ((infinity, infinity, infinity),
     (neg_infinity, neg_infinity, neg_infinity)).

(** The accumulator holds numbers, and holds the vertex [k] within its
    bounds on the axis [j]. *)
Definition sound (acc : (float * float * float) * (float * float * float))
  : Prop :=
  forall j, (j < 3)%nat ->
            is_nan (component (fst acc) j) = false
            /\ is_nan (component (snd acc) j) = false.

Definition within (values : Float32Array)
    (acc : (float * float * float) * (float * float * float))
    (k j : nat) : Prop :=
  number_le (component (fst acc) j) (nth (3 * k + j) values nan)
  /\ number_le (nth (3 * k + j) values nan) (component (snd acc) j).

(** The bounds and the count of each accessor, which are those of the
    positions for the first accessor of a mesh unit and none for the
    others. *)
Definition accessor_bounds (a : Accessor)
  : option (list float) * option (list float) :=
  (acc_min a, acc_max a).

Definition unit_bounds (g : GeometryData)
  : list (option (list float) * option (list float)) :=
  [(Some (fst (computeMinMax (positions g))),
    Some (snd (computeMinMax (positions g))))]
  ++ (match normals g with Some _ => [(None, None)] | None => [] end)
  ++ (match colors g with Some _ => [(None, None)] | None => [] end).

(** The bound [bound] on the axis [j] is the coordinate of a vertex. *)
Definition attained (values : Float32Array) (j : nat) (bound : float) : Prop :=
  exists k, (3 * k + j < List.length values)%nat
            /\ nth (3 * k + j) values nan = bound.

(** ** The layout of the packed buffer *)

(** The streams of a mesh unit, in the order they are packed. *)
Definition unit_streams (g : GeometryData) : list Float32Array :=
  [positions g]
  ++ (match normals g with Some ns => [ns] | None => [] end)
  ++ (match colors g with Some cs => [cs] | None => [] end).

Definition total_byteLength (streams : list Float32Array) : Z :=
  fold_right (fun s acc => Float32Array_byteLength s + acc) 0 streams.

(** The bufferViews of streams laid end to end from [offset]. *)
Fixpoint views_of (streams : list Float32Array) (offset : Z)
  : list BufferView :=
  match streams with
  | [] => []
  | s :: rest =>
      {| bv_buffer := 0;
         byteOffset := offset;
         byteLength := Float32Array_byteLength s;
         target := Some ARRAY_BUFFER |}
      :: views_of rest (offset + Float32Array_byteLength s)
  end.

(** An accessor of 32-bit floats read three by three. *)
Definition float_vec3 (a : Accessor) : Prop :=
  componentType a = GLTF_COMPONENT_FLOAT /\ acc_type a = GLTF_TYPE_VEC3.

(** The accessors of streams whose bufferViews start at the index
    [first]. *)
Definition accessors_follow (new : list Accessor)
    (streams : list Float32Array) (first : nat) : Prop :=
  map count new = map vertex_count streams
  /\ map acc_bufferView new
     = map (fun k => Z.of_nat (first + k)) (seq 0 (List.length streams))
  /\ Forall float_vec3 new.

(** The packing state after the mesh units [done]. *)
Definition laid_out (st : PackState) (done : list GeometryData) : Prop :=
  bufferLength st = total_byteLength (flat_map unit_streams done)
  /\ List.concat (bufferChunks st)
     = flat_map Float32Array_bytes (flat_map unit_streams done)
  /\ bufferViews st = views_of (flat_map unit_streams done) 0
  /\ accessors_follow (accessors st) (flat_map unit_streams done) 0
  /\ map accessor_bounds (accessors st) = flat_map unit_bounds done.

(** ** From a mesh to its streams *)

(** The streams of a mesh unit under the names of their attributes. *)
Definition named_streams (g : GeometryData) : list (string * Float32Array) :=
  [("POSITION"%string, positions g)]
  ++ (match normals g with Some ns => [("NORMAL"%string, ns)] | None => [] end)
  ++ (match colors g with Some cs => [("COLOR_0"%string, cs)] | None => [] end).

(** The meshes of mesh units the first accessor of which has the index
    [first]. *)
Fixpoint meshes_of (gs : list GeometryData) (first : nat) : list Mesh :=
  match gs with
  | [] => []
  | g :: rest =>
      {| mesh_name := name g;
         primitives :=
           [{| attributes :=
                 combine (attribute_names g)
                         (map Z.of_nat (seq first (stream_count g)));
               prim_mode := mode g |}] |}
      :: meshes_of rest (first + stream_count g)
  end.

(** What a reader of the scene finds under the accessor of index [a]: its
    count, and the bytes its bufferView addresses in the packed buffer. *)
Definition read_accessor (json : GltfJson) (binary : Buffer) (a : Z)
  : option (float * Buffer) :=
  match nth_error (j_accessors json) (Z.to_nat a) with
  | Some acc =>
      match nth_error (j_bufferViews json) (Z.to_nat (acc_bufferView acc)) with
      | Some view =>
          Some (count acc,
                firstn (Z.to_nat (byteLength view))
                       (skipn (Z.to_nat (byteOffset view)) binary))
      | None => None
      end
  | None => None
  end.

(** ** The container *)

Section ContainerTerms.

Context {RT : JsRuntime}.

(** The text [buildGlb] stores for a scene. *)
Definition scene_text (json : GltfJson) : string :=
  match Json.serialize (GltfJson_value json) with
  | Some text => text
  | None => EmptyString
  end.

(** The length of the container for a scene and its binary. *)
Definition container_length (json : GltfJson) (binary : Buffer) : Z :=
  12 + 8 + align (Buffer_length (utf8 (scene_text json))) 4
  + 8 + align (Buffer_length binary) 4.

(** The bytes of a container, from its two padded chunks. *)
Definition assemble (paddedJson paddedBinary : Buffer) : Buffer :=
  (le32 GLB_MAGIC ++ le32 2
   ++ le32 (12 + 8 + Buffer_length paddedJson + 8 + Buffer_length paddedBinary))
  ++ (le32 (Buffer_length paddedJson) ++ le32 CHUNK_JSON)
  ++ paddedJson
  ++ (le32 (Buffer_length paddedBinary) ++ le32 CHUNK_BIN)
  ++ paddedBinary.

End ContainerTerms.

(** ** Reading base64 back

    What a reader of the data URI of a standalone document does with its
    payload (RFC 4648, with padding). *)

(** The value of a code unit of the alphabet. *)
Definition base64_value (c : ascii) : option Z :=
  let n := Z.of_nat (nat_of_ascii c) in
  if (65 <=? n) && (n <=? 90) then Some (n - 65)
  else if (97 <=? n) && (n <=? 122) then Some (n - 71)
  else if (48 <=? n) && (n <=? 57) then Some (n + 4)
  else if n =? 43 then Some 62
  else if n =? 47 then Some 63
  else None.

(** Four code units give three bytes; the last four may end with one or two
    padding signs, and give two bytes or one. *)
Fixpoint base64_decode (s : string) : option Buffer :=
  match s with
  | EmptyString => Some []
  | String c0 (String c1 (String c2 (String c3 rest))) =>
      match base64_value c0, base64_value c1 with
      | Some v0, Some v1 =>
          let b0 := byte_of_Z (v0 * 4 + v1 / 16) in
          if Ascii.eqb c2 "=" then
            if Ascii.eqb c3 "=" && (String.length rest =? 0)%nat
            then Some [b0] else None
          else
            match base64_value c2 with
            | Some v2 =>
                let b1 := byte_of_Z (v1 mod 16 * 16 + v2 / 4) in
                if Ascii.eqb c3 "=" then
                  if (String.length rest =? 0)%nat
                  then Some [b0; b1] else None
                else
                  match base64_value c3, base64_decode rest with
                  | Some v3, Some bytes =>
                      Some (b0 :: b1 :: byte_of_Z (v2 mod 4 * 64 + v3)
                               :: bytes)
                  | _, _ => None
                  end
            | None => None
            end
      | _, _ => None
      end
  | _ => None
  end.

(** [doc.buffers[0].uri] on a document. *)
Definition buffer_uri (doc : value) : value :=
  match get_prop doc "buffers" with
  | VArray (first :: _) => get_prop first "uri"
  | _ => VUndefined
  end.

(** ** Closed inputs *)

(** A vertex whose own color is given on the 8-bit scale. *)
Definition vertex_red_255 : value :=
  VObject [("pos"%string, VArray [VNumber 0; VNumber 0; VNumber 0]);
           ("color"%string, VArray [VNumber 255; VNumber 0; VNumber 0])].

(** The transform of the counterexample to C8: the identity, but for a
    [NaN] in the entry that multiplies [x] in the homogeneous coordinate. *)
Definition nan_w_matrix : list float :=
  [1; 0; 0; nan;  0; 1; 0; 0;  0; 0; 1; 0;  0; 0; 0; 1]%float.

(** A degenerate polygon: three points on a line. *)
Definition collinear_csg : CsgLike :=
  {| polygons :=
       Some [{| vertices :=
                  Some [VArray [VNumber 0; VNumber 0; VNumber 0];
                        VArray [VNumber 1; VNumber 1; VNumber 1];
                        VArray [VNumber 2; VNumber 2; VNumber 2]] |}];
     sides := None;
     color := VUndefined;
     transforms := None |}.

(** A triangle that faces the first axis: its corners are [(1,1,1)],
    [(1,2,1)] and [(1,1,3)], its edges from the first corner [(0,1,0)] and
    [(0,0,2)], and their cross product [(2,0,0)]. *)
Definition facing_x_csg : CsgLike :=
  {| polygons :=
       Some [{| vertices :=
                  Some [VArray [VNumber 1; VNumber 1; VNumber 1];
                        VArray [VNumber 1; VNumber 2; VNumber 1];
                        VArray [VNumber 1; VNumber 1; VNumber 3]] |}];
     sides := None;
     color := VUndefined;
     transforms := None |}.

(** A geometry list for closed examples: a unit square as a solid of one
    quad, and the same outline as a 2D shape of one side of four points. *)
Definition square_points : list value :=
  [VArray [VNumber 0; VNumber 0; VNumber 0];
   VArray [VNumber 1; VNumber 0; VNumber 0];
   VArray [VNumber 1; VNumber 1; VNumber 0];
   VArray [VNumber 0; VNumber 1; VNumber 0]].

Definition square_solid : CsgLike :=
  {| polygons := Some [{| vertices := Some square_points |}];
     sides := None;
     color := VUndefined;
     transforms := None |}.

Definition square_outline : CsgLike :=
  {| polygons := None;
     sides := Some [VArray square_points];
     color := VUndefined;
     transforms := None |}.

(** The mesh units of the closed examples that follow. *)
Definition example_units : list GeometryData :=
  match collectGeometries (RT := Reference.runtime)
          (GMany [GOne square_solid; GOne square_outline]) "part" with
  | inr units => units
  | inl _ => []
  end.

(** A side of four points. *)
Definition four_point_side : value :=
  VArray [VArray [VNumber 0; VNumber 0];
          VArray [VNumber 1; VNumber 0];
          VArray [VNumber 1; VNumber 1];
          VArray [VNumber 0; VNumber 1]].

Definition four_point_shape : CsgLike :=
  {| polygons := None;
     sides := Some [four_point_side];
     color := VUndefined;
     transforms := None |}.

(** Positions of three vertices, one of which has a [NaN] coordinate. *)
Definition positions_with_nan : Float32Array :=
  [1; nan; -2;  4; -3; 0;  2; 7; 1]%float.

(** A solid and an outline in a list, beside a solid. *)
Definition nested_value : Geom :=
  GMany [GMany [GOne square_solid; GOne square_outline]; GOne square_solid].

(** An outline the second side of which has no last point. *)
Definition broken_outline : CsgLike :=
  {| polygons := None;
     sides := Some [four_point_side;
                    VArray [VArray [VNumber 0; VNumber 0]; VNull]];
     color := VUndefined;
     transforms := None |}.

(* ================================================================= *)
(** * Facts on binary64 numbers *)

Module FloatFacts.

Lemma shr_1_nonneg mrs : 0 <= shr_m mrs -> 0 <= shr_m (shr_1 mrs).
Proof.
  destruct mrs as [m r s]; simpl.
  destruct m as [|p|p]; simpl; try lia; destruct p; simpl; lia.
Qed.

Lemma iter_shr_1_nonneg p mrs :
  0 <= shr_m mrs -> 0 <= shr_m (iter_pos shr_1 p mrs).
Proof.
  revert mrs; induction p as [p IH|p IH|]; intros mrs H; simpl.
  - apply IH, IH, shr_1_nonneg, H.
  - apply IH, IH, H.
  - apply shr_1_nonneg, H.
Qed.

Lemma shr_fexp_nonneg pr em m e l :
  0 <= m -> 0 <= shr_m (fst (shr_fexp pr em m e l)).
Proof.
  intros H; unfold shr_fexp, shr.
  assert (H0 : 0 <= shr_m (shr_record_of_loc m l))
    by (destruct l as [|[]]; simpl; exact H).
  destruct (fexp pr em (Zdigits2 m + e) - e); simpl; auto.
  apply iter_shr_1_nonneg, H0.
Qed.

Lemma round_nearest_even_nonneg m l : 0 <= m -> 0 <= round_nearest_even m l.
Proof.
  intros H; destruct l as [|[]]; simpl; try lia.
  destruct (Z.even m); lia.
Qed.

Lemma binary_round_aux_nonneg pr em m e l :
  0 <= m -> nonneg_SF (binary_round_aux pr em false m e l).
Proof.
  intros H; unfold binary_round_aux.
  pose proof (shr_fexp_nonneg pr em m e l H) as H1.
  destruct (shr_fexp pr em m e l) as [mrs' e']; simpl in H1.
  pose proof (shr_fexp_nonneg pr em
                (round_nearest_even (shr_m mrs') (loc_of_shr_record mrs'))
                e' loc_Exact (round_nearest_even_nonneg _ _ H1)) as H2.
  destruct (shr_fexp pr em _ e' loc_Exact) as [mrs'' e'']; simpl in H2.
  destruct (shr_m mrs'') as [|p|p].
  - left; reflexivity.
  - destruct (e'' <=? em - pr).
    + right; right; eauto.
    + right; left; reflexivity.
  - lia.
Qed.

Lemma SFdiv_nonneg mx ex my ey :
  nonneg_SF (SF64div (S754_finite false mx ex) (S754_finite false my ey)).
Proof.
  unfold SF64div, SFdiv.
  destruct (SFdiv_core_binary prec emax (Z.pos mx) ex (Z.pos my) ey)
    as [[mz ez] lz] eqn:E.
  apply binary_round_aux_nonneg.
  unfold SFdiv_core_binary in E.
  set (s := ex - ey - _) in E.
  set (m' := match s with Z0 => _ | Zpos _ => _ | Zneg _ => _ end) in E.
  assert (Hm : 0 <= m').
  { subst m'; destruct s; try lia. apply Z.shiftl_nonneg; lia. }
  pose proof (Z_div_mod m' (Z.pos my) ltac:(lia)) as D.
  destruct (Z.div_eucl m' (Z.pos my)) as [q r].
  injection E as <- _ _. nia.
Qed.

Lemma Prim2SF_one : Prim2SF 1 = S754_finite false 4503599627370496 (-52).
Proof. vm_compute; reflexivity. Qed.

Lemma Prim2SF_zero : Prim2SF 0 = S754_zero false.
Proof. vm_compute; reflexivity. Qed.

Lemma Prim2SF_infinity : Prim2SF infinity = S754_infinity false.
Proof. vm_compute; reflexivity. Qed.

Lemma is_nan_spec x : is_nan x = negb (SFeqb (Prim2SF x) (Prim2SF x)).
Proof. unfold is_nan; now rewrite eqb_spec. Qed.

Lemma is_infinity_spec x :
  is_infinity x = SFeqb (SFabs (Prim2SF x)) (S754_infinity false).
Proof.
  unfold is_infinity; now rewrite eqb_spec, abs_spec, Prim2SF_infinity.
Qed.

Lemma SFcompare_finite_refl m e :
  SFcompare (S754_finite false m e) (S754_finite false m e) = Some Eq.
Proof. simpl; now rewrite Z.compare_refl, Pos.compare_cont_refl. Qed.

(** A finite number above [1] is a positive finite value. *)
Lemma above_one_SF x :
  is_finite x = true -> (1 <? x)%float = true ->
  exists m e, Prim2SF x = S754_finite false m e.
Proof.
  unfold is_finite; rewrite ltb_spec, is_infinity_spec, Prim2SF_one.
  destruct (Prim2SF x) as [s|s|  |s m e]; simpl; try discriminate.
  - destruct s; simpl; try discriminate.
    now rewrite orb_true_r.
  - destruct s; simpl; try discriminate; eauto.
Qed.

(** The bounds, on the specification side, below a positive finite [b]. *)
Lemma SF_below_bounds fa mb eb :
  nonneg_SF fa ->
  SFltb (S754_finite false mb eb) fa = false ->
  SFcompare fa (S754_finite false mb eb) <> None ->
  SFeqb fa fa = true
  /\ SFeqb (SFabs fa) (S754_infinity false) = false
  /\ SFleb (S754_zero false) fa = true
  /\ SFleb fa (S754_finite false mb eb) = true.
Proof.
  unfold SFltb, SFleb, SFeqb.
  intros [->|[->|(m & e & ->)]] Hgt Hc; cbn in *; try discriminate; auto.
  change (Pos.compare_cont Eq) with Pos.compare in *.
  rewrite Z.compare_refl, Pos.compare_refl.
  rewrite (Z.compare_antisym e), (Pos.compare_antisym m) in Hgt.
  destruct (e ?= eb); cbn in *; try discriminate; auto.
  destruct (m ?= mb)%positive; cbn in *; try discriminate; auto.
Qed.

Lemma SF_ltb_not_gtb fa mb eb :
  nonneg_SF fa ->
  SFltb fa (S754_finite false mb eb) = true ->
  SFltb (S754_finite false mb eb) fa = false.
Proof.
  unfold SFltb.
  intros [->|[->|(m & e & ->)]] Hlt; cbn in *; try discriminate; auto.
  change (Pos.compare_cont Eq) with Pos.compare in *.
  rewrite (Z.compare_antisym e), (Pos.compare_antisym m).
  destruct (e ?= eb); cbn in *; try discriminate; auto.
  destruct (m ?= mb)%positive; cbn in *; try discriminate; auto.
Qed.

Lemma nonneg_comparable fa mb eb :
  nonneg_SF fa -> SFcompare fa (S754_finite false mb eb) <> None.
Proof. intros [->|[->|(m & e & ->)]]; cbn; discriminate. Qed.

Lemma nonneg_not_nan a : nonneg_SF (Prim2SF a) -> is_nan a = false.
Proof.
  intros Ha; rewrite is_nan_spec.
  destruct Ha as [->|[->|(m & e & ->)]]; try reflexivity.
  unfold SFeqb; now rewrite SFcompare_finite_refl.
Qed.

Lemma below_one_bounds a :
  nonneg_SF (Prim2SF a) ->
  (1 <? a)%float = false ->
  is_finite a = true /\ (0 <=? a)%float = true /\ (a <=? 1)%float = true.
Proof.
  intros Ha Hgt.
  rewrite ltb_spec, Prim2SF_one in Hgt.
  destruct (SF_below_bounds _ _ _ Ha Hgt (nonneg_comparable _ _ _ Ha))
    as (H1 & H2 & H3 & H4).
  unfold is_finite.
  rewrite is_nan_spec, is_infinity_spec, !leb_spec, Prim2SF_zero, Prim2SF_one.
  rewrite H1, H2, H3, H4. auto.
Qed.

Lemma one_bounds :
  is_finite 1 = true /\ (0 <=? 1)%float = true /\ (1 <=? 1)%float = true.
Proof. repeat split; vm_compute; reflexivity. Qed.

Lemma is_nan_one : is_nan 1 = false.
Proof. vm_compute; reflexivity. Qed.

(** [Math.min(a, 1)] of a number that is neither [NaN] nor negative lies
    between [0] and [1]. *)
Lemma Math_min_one_bounds a :
  nonneg_SF (Prim2SF a) ->
  is_finite (Num.Math_min a 1) = true
  /\ (0 <=? Num.Math_min a 1)%float = true
  /\ (Num.Math_min a 1 <=? 1)%float = true.
Proof.
  intros Ha; unfold Num.Math_min.
  rewrite (nonneg_not_nan a Ha), is_nan_one.
  cbv beta iota delta [orb].
  destruct (a <? 1)%float eqn:Hlt.
  - apply below_one_bounds; auto.
    rewrite ltb_spec, Prim2SF_one in *.
    now apply SF_ltb_not_gtb.
  - destruct (1 <? a)%float eqn:Hgt; [exact one_bounds|].
    destruct (get_sign a); [|exact one_bounds].
    apply below_one_bounds; auto.
Qed.

Lemma SF_unit_interval fa mb eb :
  SFleb (S754_zero false) fa = true ->
  SFleb fa (S754_finite false mb eb) = true ->
  SFeqb fa fa = true
  /\ SFeqb (SFabs fa) (S754_infinity false) = false
  /\ SFltb fa (S754_zero false) = false
  /\ SFltb (S754_finite false mb eb) fa = false.
Proof.
  unfold SFltb, SFleb, SFeqb.
  destruct fa as [s|s| |s m e]; try destruct s; cbn; try discriminate; auto.
  change (Pos.compare_cont Eq) with Pos.compare.
  rewrite Z.compare_refl, Pos.compare_refl.
  rewrite (Z.compare_antisym e), (Pos.compare_antisym m).
  intros _ H; repeat split; auto.
  destruct (e ?= eb); cbn in *; try discriminate; auto.
  destruct (m ?= mb)%positive; cbn in *; try discriminate; auto.
Qed.

Lemma unit_interval_kept x :
  (0 <=? x)%float = true -> (x <=? 1)%float = true ->
  is_finite x = true /\ (x <? 0)%float = false /\ (1 <? x)%float = false.
Proof.
  rewrite !leb_spec, !ltb_spec, Prim2SF_zero, Prim2SF_one; intros H0 H1.
  destruct (SF_unit_interval _ _ _ H0 H1) as (E1 & E2 & E3 & E4).
  unfold is_finite; rewrite is_nan_spec, is_infinity_spec, E1, E2.
  auto.
Qed.

Lemma Prim2SF_255 : Prim2SF 255 = S754_finite false 8972014882652160 (-45).
Proof. vm_compute; reflexivity. Qed.

(** A finite number above [1], divided by [255], is neither [NaN] nor
    negative. *)
Lemma div_255_nonneg x :
  is_finite x = true -> (1 <? x)%float = true ->
  nonneg_SF (Prim2SF (x / 255)).
Proof.
  intros Hf Hx.
  destruct (above_one_SF x Hf Hx) as (m & e & E).
  rewrite div_spec, E, Prim2SF_255.
  apply SFdiv_nonneg.
Qed.

End FloatFacts.

Import FloatFacts.

(* ================================================================= *)
(** * The color resolver *)

Section ColorProofs.

Context {RT : JsRuntime}.
Local Open Scope float_scope.

Lemma normalizeColorChannel_finite x :
  is_finite (normalizeColorChannel x) = true.
Proof.
  unfold normalizeColorChannel, Num.isFinite.
  destruct (is_finite x) eqn:Hf; cbn [negb]; [|vm_compute; reflexivity].
  destruct (x <? 0) eqn:Hneg; [vm_compute; reflexivity|].
  destruct (1 <? x) eqn:Hbig; [|exact Hf].
  apply Math_min_one_bounds, div_255_nonneg; assumption.
Qed.

Lemma parseColorArray_array xs :
  (3 <= List.length xs)%nat ->
  parseColorArray (VArray xs)
  = Some (normalizeColorChannel (Number (index xs 0)),
          normalizeColorChannel (Number (index xs 1)),
          normalizeColorChannel (Number (index xs 2))).
Proof.
  intros Hlen; unfold parseColorArray.
  destruct (Nat.ltb_spec (List.length xs) 3) as [H|_]; [lia|].
  cbn [existsb]; unfold Num.isFinite.
  now rewrite !normalizeColorChannel_finite.
Qed.

End ColorProofs.

(** C6. On a sequence of three or more elements the color resolver answers
    the triple of its first three elements, each coerced to a number and
    normalized on its own: a finite channel above 1 is divided by 255 and
    capped at 1 (and so lies in [0, 1]), a negative channel and a channel
    that is not finite become 0, a channel in [0, 1] is kept; and
    [[255, 0, 0]] resolves to [[1, 0, 0]]. *)
Theorem color_array_channels_normalized {RT : JsRuntime} :
  (forall v0 v1 v2 rest,
      parseColorValue (VArray (v0 :: v1 :: v2 :: rest))
      = Some (normalizeColorChannel (Number v0),
              normalizeColorChannel (Number v1),
              normalizeColorChannel (Number v2)))
  /\ (forall x, Number (VNumber x) = x)
  /\ (forall x, is_finite x = true -> (1 <? x)%float = true ->
        normalizeColorChannel x = Num.Math_min (x / 255) 1
        /\ (0 <=? normalizeColorChannel x)%float = true
        /\ (normalizeColorChannel x <=? 1)%float = true)
  /\ (forall x, (x <? 0)%float = true -> normalizeColorChannel x = 0%float)
  /\ (forall x, is_finite x = false -> normalizeColorChannel x = 0%float)
  /\ (forall x, (0 <=? x)%float = true -> (x <=? 1)%float = true ->
        normalizeColorChannel x = x)
  /\ parseColorValue (VArray [VNumber 255; VNumber 0; VNumber 0])
     = Some (1, 0, 0)%float.
Proof.
  repeat apply conj.
  - intros v0 v1 v2 rest.
    unfold parseColorValue.
    rewrite parseColorArray_array by (cbn; lia).
    reflexivity.
  - reflexivity.
  - intros x Hf Hx.
    assert (E : normalizeColorChannel x = Num.Math_min (x / 255) 1).
    { unfold normalizeColorChannel, Num.isFinite; rewrite Hf, Hx; cbn [negb].
      destruct (x <? 0)%float eqn:Hneg; [|reflexivity].
      exfalso.
      destruct (above_one_SF x Hf Hx) as (m & e & E).
      rewrite ltb_spec, E, Prim2SF_zero in Hneg; discriminate. }
    rewrite E; split; [reflexivity|].
    apply Math_min_one_bounds, div_255_nonneg; assumption.
  - intros x Hx; unfold normalizeColorChannel.
    destruct (negb (Num.isFinite x)); [reflexivity|now rewrite Hx].
  - intros x Hx; unfold normalizeColorChannel, Num.isFinite; now rewrite Hx.
  - intros x H0 H1.
    destruct (unit_interval_kept x H0 H1) as (Hf & Hneg & Hbig).
    unfold normalizeColorChannel, Num.isFinite; now rewrite Hf, Hneg, Hbig.
  - vm_compute; reflexivity.
Qed.

(** Two values differ when some test tells them apart. *)
Lemma told_apart {A : Type} (test : A -> bool) (a b : A) :
  test a <> test b -> a <> b.
Proof. intros H E; apply H; now rewrite E. Qed.

(** C5, as stated, fails: the color of a vertex is not the color resolver's
    answer on its color field.  On the field [[255, 0, 0]] the resolver
    answers [[1, 0, 0]] and the vertex is emitted with [[255, 0, 0]]. *)
Lemma vertex_color_is_not_resolved :
  truthy (vertex_color_field vertex_red_255) = true
  /\ parseColorValue (RT := Reference.runtime)
       (vertex_color_field vertex_red_255) = Some (1, 0, 0)%float
  /\ extractVertexColor (RT := Reference.runtime) vertex_red_255 white
     = (255, 0, 0)%float
  /\ extractVertexColor (RT := Reference.runtime) vertex_red_255 white
     <> match parseColorValue (RT := Reference.runtime)
                (vertex_color_field vertex_red_255) with
        | Some c => c
        | None => white
        end.
Proof.
  repeat apply conj; try (vm_compute; reflexivity).
  apply (told_apart (fun c => (fst (fst c) <? 2)%float)).
  vm_compute; discriminate.
Qed.

(** C5, amended.  The color of a vertex is [toColorTuple] of its color
    field against the shape-level default: a vertex with no color field
    (or a falsy one), or one that is not an array of three elements or
    more, takes the default; on an array each of the first three elements,
    coerced to a number, is kept as it is when it is finite (no division
    by 255, no clamping) and replaced by the same channel of the default
    when it is not. *)
Theorem vertex_color_taken_verbatim {RT : JsRuntime} :
  (forall vertex d,
      truthy (vertex_color_field vertex) = false ->
      extractVertexColor vertex d = d)
  /\ (forall vertex d,
         array_of_3 (vertex_color_field vertex) = None ->
         extractVertexColor vertex d = d)
  /\ (forall vertex dr dg db v0 v1 v2 rest,
         vertex_color_field vertex = VArray (v0 :: v1 :: v2 :: rest) ->
         extractVertexColor vertex (dr, dg, db)
         = (if is_finite (Number v0) then Number v0 else dr,
            if is_finite (Number v1) then Number v1 else dg,
            if is_finite (Number v2) then Number v2 else db))
  /\ (forall vertex d r g b rest,
         vertex_color_field vertex
         = VArray (VNumber r :: VNumber g :: VNumber b :: rest) ->
         is_finite r = true -> is_finite g = true -> is_finite b = true ->
         extractVertexColor vertex d = (r, g, b)).
Proof.
  repeat apply conj.
  - intros vertex d H; unfold extractVertexColor; now rewrite H.
  - intros vertex d H; unfold extractVertexColor.
    destruct (truthy (vertex_color_field vertex)); [|reflexivity].
    unfold array_of_3 in H; unfold toColorTuple.
    destruct (vertex_color_field vertex); try reflexivity.
    destruct (3 <=? List.length xs)%nat; [discriminate|reflexivity].
  - intros vertex dr dg db v0 v1 v2 rest H.
    unfold extractVertexColor; rewrite H; reflexivity.
  - intros vertex [[dr dg] db] r g b rest H Hr Hg Hb.
    unfold extractVertexColor; rewrite H; cbn.
    unfold Num.isFinite; now rewrite Hr, Hg, Hb.
Qed.

(** C7, at the failing input.  The digits of [#1g0000] are six and [g] is
    not a digit of radix 16, yet the color resolver answers a color:
    [parseInt] reads the [1] of the field [1g] and stops at the [g]. *)
Theorem hex_color_with_stray_digit_resolves {RT : JsRuntime} :
  Str.hex_digit "g" = None
  /\ Str.parseInt16 "1g" = 1%float
  /\ parseColorValue (VString "#1g0000") = Some (1, 0, 0)%float.
Proof. repeat apply conj; vm_compute; reflexivity. Qed.

(** C8, as stated, fails at a homogeneous coordinate that is [NaN]: it is
    neither [0] nor [1], and no division takes place. *)
Lemma transform_nan_w_is_not_divided :
  List.length nan_w_matrix = 16%nat
  /\ (nan * 1 + 0 * 2 + 0 * 3 + 1 =? 0)%float = false
  /\ (nan * 1 + 0 * 2 + 0 * 3 + 1 =? 1)%float = false
  /\ applyTransform (1, 2, 3)%float (Some nan_w_matrix) = (1, 2, 3)%float
  /\ applyTransform (1, 2, 3)%float (Some nan_w_matrix)
     <> ((1 * 1 + 0 * 2 + 0 * 3 + 0) / (nan * 1 + 0 * 2 + 0 * 3 + 1),
         (0 * 1 + 1 * 2 + 0 * 3 + 0) / (nan * 1 + 0 * 2 + 0 * 3 + 1),
         (0 * 1 + 0 * 2 + 1 * 3 + 0) / (nan * 1 + 0 * 2 + 0 * 3 + 1))%float.
Proof.
  repeat apply conj; try (vm_compute; reflexivity).
  apply (told_apart (fun c => is_nan (fst (fst c)))).
  vm_compute; discriminate.
Qed.

(** C8, amended.  With a transform of exactly 16 entries [m0 .. m15], read
    column by column (the entry of row [i] and column [j] is [m(4j+i)]), the
    point [(x, y, z)] goes to the first three coordinates of [M (x, y, z, 1)],
    each divided by the fourth coordinate [w] exactly when [w] is truthy
    (neither a zero nor [NaN]) and is not [1]; with no transform, or with a
    list that does not have exactly 16 entries, the point is returned as it
    is. *)
Theorem applyTransform_column_major :
  (forall x y z m0 m1 m2 m3 m4 m5 m6 m7 m8 m9 m10 m11 m12 m13 m14 m15 : float,
      let nx := (m0 * x + m4 * y + m8 * z + m12)%float in
      let ny := (m1 * x + m5 * y + m9 * z + m13)%float in
      let nz := (m2 * x + m6 * y + m10 * z + m14)%float in
      let w := (m3 * x + m7 * y + m11 * z + m15)%float in
      applyTransform (x, y, z)
        (Some [m0; m1; m2; m3; m4; m5; m6; m7; m8; m9; m10; m11; m12; m13;
               m14; m15])
      = if is_nan w || (w =? 0)%float || (w =? 1)%float
        then (nx, ny, nz)
        else (nx / w, ny / w, nz / w)%float)
  /\ (forall v, applyTransform v None = v)
  /\ (forall v m, List.length m <> 16%nat -> applyTransform v (Some m) = v).
Proof.
  repeat apply conj.
  - intros; cbn -[PrimFloat.mul PrimFloat.add PrimFloat.div PrimFloat.eqb].
    subst nx ny nz w; unfold Num.truthy.
    destruct (is_nan _); cbn [negb orb andb]; [reflexivity|].
    destruct (_ =? 0)%float; cbn [negb orb andb]; [reflexivity|].
    destruct (_ =? 1)%float; reflexivity.
  - reflexivity.
  - intros v m H; unfold applyTransform.
    destruct (Nat.eqb_spec (List.length m) 16); [contradiction|reflexivity].
Qed.

(* ================================================================= *)
(** * The triangulator *)

Section TriangulatorProofs.

Context {RT : JsRuntime}.

Lemma fan_from_length k count : List.length (fan_from k count) = count.
Proof. revert k; induction count; intros; cbn; auto. Qed.

Lemma fan_from_nth k count t :
  (t < count)%nat ->
  nth t (fan_from k count) (0, 0, 0)%nat = (0, k + t, S (k + t))%nat.
Proof.
  revert k t; induction count as [|c IH]; intros k t H; [lia|].
  destruct t as [|t]; cbn.
  - now rewrite Nat.add_0_r.
  - rewrite IH by lia. now rewrite Nat.add_succ_r.
Qed.

Lemma fan_from_seq k count :
  fan_from k count = map (fun i => (0, i, i + 1)%nat) (seq k count).
Proof.
  revert k; induction count as [|c IH]; intros k; cbn; [reflexivity|].
  now rewrite IH, Nat.add_1_r.
Qed.

Lemma spread_length v : List.length (spread v) = 3%nat.
Proof. now destruct v as [[x y] z]. Qed.

Lemma corner_values_length d xs t : List.length (corner_values d xs t) = 9%nat.
Proof.
  destruct t as [[i j] k]; cbn; now rewrite !length_app, !spread_length.
Qed.

Lemma normal_values_length tv t : List.length (normal_values tv t) = 9%nat.
Proof. unfold normal_values; now rewrite !length_app, !spread_length. Qed.

Lemma flat_map_constant_length {A B} (f : A -> list B) (n : nat) (xs : list A) :
  (forall x, List.length (f x) = n) ->
  List.length (flat_map f xs) = (n * List.length xs)%nat.
Proof.
  intros H; induction xs as [|x xs IH]; cbn; [lia|].
  rewrite length_app, H, IH; lia.
Qed.

(** The inner loop: each index adds the nine coordinates, the three copies
    of the normal and the three colors of one triangle. *)
Lemma push_triangles tv vc indices acc :
  fold_left (push_triangle tv vc) indices acc
  = let ts := map (fun i => (0, i, i + 1)%nat) indices in
    {| s_positions := s_positions acc ++ flat_map (corner_values origin tv) ts;
       s_normals := s_normals acc ++ flat_map (normal_values tv) ts;
       s_colors := s_colors acc ++ flat_map (corner_values white vc) ts |}.
Proof.
  revert acc; induction indices as [|i rest IH]; intros acc; cbn.
  - rewrite !app_nil_r; now destruct acc.
  - rewrite IH; cbn.
    unfold normal_values, face_normal.
    now rewrite <- !app_assoc.
Qed.

Lemma push_polygon_streams csg d acc p :
  push_polygon csg d acc p
  = {| s_positions := s_positions acc ++ polygon_positions csg p;
       s_normals := s_normals acc ++ polygon_normals csg p;
       s_colors := s_colors acc ++ polygon_colors d p |}.
Proof.
  unfold push_polygon, polygon_positions, polygon_normals, polygon_colors,
    polygon_triangles, polygon_vertices.
  destruct (vertices p) as [vs|]; cbn [flat_map];
    [|rewrite !app_nil_r; now destruct acc].
  destruct (List.length vs <? 3)%nat; cbn [flat_map];
    [rewrite !app_nil_r; now destruct acc|].
  rewrite push_triangles; cbv zeta.
  unfold fan; rewrite fan_from_seq, length_map.
  reflexivity.
Qed.

Lemma push_polygons csg d ps acc :
  fold_left (push_polygon csg d) ps acc
  = {| s_positions := s_positions acc ++ flat_map (polygon_positions csg) ps;
       s_normals := s_normals acc ++ flat_map (polygon_normals csg) ps;
       s_colors := s_colors acc ++ flat_map (polygon_colors d) ps |}.
Proof.
  revert acc; induction ps as [|p ps IH]; intros acc; cbn.
  - rewrite !app_nil_r; now destruct acc.
  - rewrite IH, push_polygon_streams; cbn.
    now rewrite <- !app_assoc.
Qed.

Lemma polygon_streams_length csg d p :
  List.length (polygon_positions csg p)
  = (9 * List.length (polygon_triangles p))%nat
  /\ List.length (polygon_normals csg p)
     = (9 * List.length (polygon_triangles p))%nat
  /\ List.length (polygon_colors d p)
     = (9 * List.length (polygon_triangles p))%nat.
Proof.
  unfold polygon_positions, polygon_normals, polygon_colors.
  repeat split; apply flat_map_constant_length; intros t;
    auto using corner_values_length, normal_values_length.
Qed.

Lemma streams_length csg d ps :
  List.length (flat_map (polygon_positions csg) ps)
  = (9 * List.length (flat_map polygon_triangles ps))%nat
  /\ List.length (flat_map (polygon_normals csg) ps)
     = (9 * List.length (flat_map polygon_triangles ps))%nat
  /\ List.length (flat_map (polygon_colors d) ps)
     = (9 * List.length (flat_map polygon_triangles ps))%nat.
Proof.
  induction ps as [|p ps (IH1 & IH2 & IH3)]; cbn [flat_map]; [auto|].
  destruct (polygon_streams_length csg d p) as (H1 & H2 & H3).
  repeat split; repeat rewrite length_app; lia.
Qed.

Lemma new_Float32Array_length xs :
  List.length (new_Float32Array xs) = List.length xs.
Proof. apply length_map. Qed.

(** [convertPolygonGeometry] on a geometry object that has polygons: the
    three streams in closed form, and the one failure left. *)
Lemma convertPolygonGeometry_streams csg nm p ps :
  polygons csg = Some (p :: ps) ->
  convertPolygonGeometry csg nm
  = match flat_map polygon_triangles (p :: ps) with
    | [] => throw EmptyTriangleMesh
    | _ :: _ =>
        ok {| name := nm;
              positions :=
                new_Float32Array (flat_map (polygon_positions csg) (p :: ps));
              normals :=
                Some (new_Float32Array
                        (flat_map (polygon_normals csg) (p :: ps)));
              colors :=
                Some (new_Float32Array
                        (flat_map (polygon_colors (defaultColor_of csg))
                                  (p :: ps)));
              mode := GLTF_MODE_TRIANGLES |}
    end.
Proof.
  intros Hp; unfold convertPolygonGeometry; rewrite Hp.
  rewrite push_polygons; cbn [s_positions s_normals s_colors app].
  destruct (streams_length csg (defaultColor_of csg) (p :: ps))
    as (H1 & _ & H3).
  destruct (flat_map polygon_triangles (p :: ps)) as [|t ts] eqn:E.
  - change (List.length (@nil (nat * nat * nat))) with 0%nat in H1.
    rewrite Nat.mul_0_r in H1. rewrite H1. reflexivity.
  - cbn [List.length] in H1, H3.
    destruct (Nat.eqb_spec (List.length (flat_map (polygon_positions csg) (p :: ps))) 0);
      [lia|].
    destruct (Nat.eqb_spec
                (List.length
                   (flat_map (polygon_colors (defaultColor_of csg)) (p :: ps))) 0);
      [lia|].
    reflexivity.
Qed.

End TriangulatorProofs.

Lemma fan_length n : List.length (fan n) = (n - 2)%nat.
Proof. apply fan_from_length. Qed.

Lemma fan_nth n t :
  (t < n - 2)%nat -> nth t (fan n) (0, 0, 0)%nat = (0, S t, S (S t))%nat.
Proof. intros H; unfold fan; now rewrite fan_from_nth. Qed.

Lemma quads_give_two_triangles ps :
  Forall (fun p => exists vs, vertices p = Some vs /\ List.length vs = 4%nat) ps ->
  List.length (flat_map polygon_triangles ps) = (2 * List.length ps)%nat.
Proof.
  induction 1 as [|p ps (vs & Hv & Hl) _ IH]; cbn [flat_map List.length];
    [reflexivity|].
  rewrite length_app, IH.
  unfold polygon_triangles; rewrite Hv, Hl; cbn; lia.
Qed.

(** C3. A polygon of [n >= 3] vertices gives the [n - 2] triangles of the
    fan from its vertex 0, in the order [(0,1,2)], [(0,2,3)], ...,
    [(0,n-2,n-1)], and appends for each of them, in that order, the nine
    coordinates of its three transformed corners; a polygon with fewer than
    three vertices (or none) leaves the streams as they are; the positions
    of the mesh unit are those of the polygons in order; and a solid of six
    quads gives one mesh unit of 12 triangles and 36 positions. *)
Theorem fan_triangulation {RT : JsRuntime} :
  (forall n, List.length (fan n) = (n - 2)%nat)
  /\ (forall n t, (t < n - 2)%nat ->
        nth t (fan n) (0, 0, 0)%nat = (0, S t, S (S t))%nat)
  /\ (forall csg d acc p vs,
         vertices p = Some vs -> (3 <= List.length vs)%nat ->
         s_positions (push_polygon csg d acc p)
         = s_positions acc
           ++ flat_map (corner_values origin (transformed csg vs))
                       (fan (List.length vs))
         /\ List.length (flat_map (corner_values origin (transformed csg vs))
                                  (fan (List.length vs)))
            = (9 * (List.length vs - 2))%nat)
  /\ (forall csg d acc p,
         vertices p = None
         \/ (exists vs, vertices p = Some vs /\ (List.length vs < 3)%nat) ->
         push_polygon csg d acc p = acc)
  /\ (forall csg nm p ps,
         polygons csg = Some (p :: ps) ->
         flat_map polygon_triangles (p :: ps) <> [] ->
         exists unit,
           convertPolygonGeometry csg nm = ok unit
           /\ positions unit
              = new_Float32Array (flat_map (polygon_positions csg) (p :: ps))
           /\ List.length (positions unit)
              = (9 * List.length (flat_map polygon_triangles (p :: ps)))%nat)
  /\ (forall csg nm ps,
         polygons csg = Some ps -> List.length ps = 6%nat ->
         Forall (fun p => exists vs, vertices p = Some vs
                                     /\ List.length vs = 4%nat) ps ->
         exists unit,
           collectGeometries (GOne csg) nm = ok [unit]
           /\ mode unit = GLTF_MODE_TRIANGLES
           /\ List.length (flat_map polygon_triangles ps) = 12%nat
           /\ List.length (positions unit) = (36 * 3)%nat).
Proof.
  repeat apply conj.
  - exact fan_length.
  - exact fan_nth.
  - intros csg d acc p vs Hv Hl.
    rewrite push_polygon_streams; cbn [s_positions].
    unfold polygon_positions, polygon_triangles, polygon_vertices.
    rewrite Hv.
    destruct (Nat.ltb_spec (List.length vs) 3) as [H|_]; [lia|].
    split; [reflexivity|].
    rewrite (flat_map_constant_length _ 9) by apply corner_values_length.
    now rewrite fan_length.
  - intros csg d acc p H; unfold push_polygon.
    destruct H as [->|(vs & -> & Hl)]; [reflexivity|].
    destruct (Nat.ltb_spec (List.length vs) 3) as [_|H]; [reflexivity|lia].
  - intros csg nm p ps Hp Hne.
    rewrite (convertPolygonGeometry_streams csg nm p ps Hp).
    destruct (streams_length csg white (p :: ps)) as (H1 & _).
    destruct (flat_map polygon_triangles (p :: ps)) eqn:E; [contradiction|].
    eexists; split; [reflexivity|]; cbn [positions].
    now rewrite new_Float32Array_length.
  - intros csg nm ps Hp H6 Hq.
    pose proof (quads_give_two_triangles ps Hq) as H12; rewrite H6 in H12.
    destruct ps as [|p ps]; [discriminate|].
    cbn [collectGeometries]; rewrite Hp.
    rewrite (convertPolygonGeometry_streams csg nm p ps Hp).
    destruct (streams_length csg white (p :: ps)) as (H1 & _).
    destruct (flat_map polygon_triangles (p :: ps)) eqn:E; [discriminate|].
    eexists; cbn [bind ok]; split; [reflexivity|]; cbn [mode positions].
    rewrite new_Float32Array_length, H1, H12.
    repeat split.
Qed.

(** C4. The normal of a triangle is the normalization of the cross product
    of its edges [B - A] and [C - A], taken on the transformed positions:
    the vector divided by its length, and [(0, 0, 1)] when the length is
    zero (or is not a number).  The edges are the differences of the
    corners, coordinate by coordinate, and the cross product is the one of
    the right-hand rule, so that the normal of the corners [A], [B] and [C]
    is written out in their coordinates.  Each triangle pushes three copies
    of its own normal, which depends on its three corners only, and the
    normals of the mesh unit are these, triangle after triangle and polygon
    after polygon; a triangle in a plane across the first axis has the
    normal [(1, 0, 0)], and three points on a line give [(0, 0, 1)]. *)
Theorem flat_face_normals {RT : JsRuntime} :
  (forall v0 v1 v2,
      Num.truthy (Math_hypot v0 v1 v2) = true ->
      normalize (v0, v1, v2)
      = (v0 / Math_hypot v0 v1 v2, v1 / Math_hypot v0 v1 v2,
         v2 / Math_hypot v0 v1 v2)%float)
  /\ (forall v0 v1 v2,
         (Math_hypot v0 v1 v2 =? 0)%float = true ->
         normalize (v0, v1, v2) = (0, 0, 1)%float)
  /\ (forall v0 v1 v2,
         is_nan (Math_hypot v0 v1 v2) = true ->
         normalize (v0, v1, v2) = (0, 0, 1)%float)
  /\ (forall tv vc acc i,
         s_normals (push_triangle tv vc acc i)
         = let a := nth 0 tv origin in
           let b := nth i tv origin in
           let c := nth (i + 1) tv origin in
           let normal := normalize (cross (subtract b a) (subtract c a)) in
           s_normals acc ++ spread normal ++ spread normal ++ spread normal)
  /\ (forall csg nm p ps,
         polygons csg = Some (p :: ps) ->
         flat_map polygon_triangles (p :: ps) <> [] ->
         exists unit,
           convertPolygonGeometry csg nm = ok unit
           /\ normals unit
              = Some (new_Float32Array
                        (flat_map
                           (fun q =>
                              flat_map
                                (normal_values
                                   (transformed csg (polygon_vertices q)))
                                (polygon_triangles q))
                           (p :: ps))))
  /\ option_map normals
       (match convertPolygonGeometry (RT := Reference.runtime)
                collinear_csg "line" with
        | inr unit => Some unit
        | inl _ => None
        end)
     = Some (Some [0; 0; 1; 0; 0; 1; 0; 0; 1]%float)
  /\ (forall a0 a1 a2 b0 b1 b2 : float,
         subtract (a0, a1, a2) (b0, b1, b2)
         = (a0 - b0, a1 - b1, a2 - b2)%float)
  /\ (forall a0 a1 a2 b0 b1 b2 : float,
         cross (a0, a1, a2) (b0, b1, b2)
         = (a1 * b2 - a2 * b1, a2 * b0 - a0 * b2, a0 * b1 - a1 * b0)%float)
  /\ (forall (ax ay az bx by_ bz cx cy cz : float) vc acc,
         s_normals
           (push_triangle [(ax, ay, az); (bx, by_, bz); (cx, cy, cz)]
                          vc acc 1)
         = let normal :=
             normalize
               ((by_ - ay) * (cz - az) - (bz - az) * (cy - ay),
                (bz - az) * (cx - ax) - (bx - ax) * (cz - az),
                (bx - ax) * (cy - ay) - (by_ - ay) * (cx - ax))%float in
           s_normals acc ++ spread normal ++ spread normal ++ spread normal)
  /\ (forall (ax ay az bx by_ bz cx cy cz : float) csg,
         face_normal
           (transformed csg
              [VArray [VNumber ax; VNumber ay; VNumber az];
               VArray [VNumber bx; VNumber by_; VNumber bz];
               VArray [VNumber cx; VNumber cy; VNumber cz]])
           (0, 1, 2)%nat
         = let a := applyTransform
                      (Num.or_zero ax, Num.or_zero ay, Num.or_zero az)
                      (transforms csg) in
           let b := applyTransform
                      (Num.or_zero bx, Num.or_zero by_, Num.or_zero bz)
                      (transforms csg) in
           let c := applyTransform
                      (Num.or_zero cx, Num.or_zero cy, Num.or_zero cz)
                      (transforms csg) in
           let '(ax', ay', az') := a in
           let '(bx', by', bz') := b in
           let '(cx', cy', cz') := c in
           normalize
             ((by' - ay') * (cz' - az') - (bz' - az') * (cy' - ay'),
              (bz' - az') * (cx' - ax') - (bx' - ax') * (cz' - az'),
              (bx' - ax') * (cy' - ay') - (by' - ay') * (cx' - ax'))%float)
  /\ option_map (fun unit => (positions unit, normals unit))
       (match convertPolygonGeometry (RT := Reference.runtime)
                facing_x_csg "face" with
        | inr unit => Some unit
        | inl _ => None
        end)
     = Some ([1; 1; 1; 1; 2; 1; 1; 1; 3]%float,
             Some [1; 0; 0; 1; 0; 0; 1; 0; 0]%float).
Proof.
  repeat apply conj.
  - intros v0 v1 v2 H; unfold normalize; now rewrite H.
  - intros v0 v1 v2 H; unfold normalize, Num.truthy.
    rewrite H, orb_true_r; reflexivity.
  - intros v0 v1 v2 H; unfold normalize, Num.truthy.
    rewrite H; reflexivity.
  - reflexivity.
  - intros csg nm p ps Hp Hne.
    rewrite (convertPolygonGeometry_streams csg nm p ps Hp).
    destruct (flat_map polygon_triangles (p :: ps)) eqn:E; [contradiction|].
    eexists; split; reflexivity.
  - vm_compute; reflexivity.
  - reflexivity.
  - reflexivity.
  - reflexivity.
  - intros ax ay az bx by_ bz cx cy cz csg.
    unfold face_normal, transformed; cbn [map nth].
    change (extractVertexPosition (VArray [VNumber ?x; VNumber ?y; VNumber ?z]))
      with (Num.or_zero x, Num.or_zero y, Num.or_zero z).
    destruct (applyTransform (Num.or_zero ax, Num.or_zero ay, Num.or_zero az)
                             (transforms csg)) as [[ax' ay'] az'].
    destruct (applyTransform (Num.or_zero bx, Num.or_zero by_, Num.or_zero bz)
                             (transforms csg)) as [[bx' by'] bz'].
    destruct (applyTransform (Num.or_zero cx, Num.or_zero cy, Num.or_zero cz)
                             (transforms csg)) as [[cx' cy'] cz'].
    reflexivity.
  - vm_compute; reflexivity.
Qed.

(* ================================================================= *)
(** * Collecting the mesh units *)

Section CollectProofs.

Context {RT : JsRuntime}.

Lemma collectGeometries_many children nm :
  collectGeometries (GMany children) nm = collect_children nm children 0.
Proof.
  cbn [collectGeometries]; generalize 0%nat.
  induction children as [|c cs IH]; intros i; cbn [collect_children];
    [reflexivity|].
  now rewrite IH.
Qed.

(** Induction on a geometry value and on the values below it. *)
Fixpoint Geom_induction (P : Geom -> Prop)
    (leaf : forall csg, P (GOne csg))
    (many : forall children, Forall P children -> P (GMany children))
    (g : Geom) : P g :=
  match g with
  | GOne csg => leaf csg
  | GMany children =>
      many children
           ((fix all (cs : list Geom) : Forall P cs :=
               match cs with
               | [] => Forall_nil P
               | c :: rest =>
                   Forall_cons c (Geom_induction P leaf many c) (all rest)
               end) children)
  end.

Lemma collect_children_fails nm cs i child :
  In child cs ->
  (forall nm', exists e, collectGeometries child nm' = throw e) ->
  exists e, collect_children nm cs i = throw e.
Proof.
  revert i; induction cs as [|c cs IH]; intros i Hin Hc; [contradiction|].
  cbn [collect_children].
  destruct Hin as [->|Hin].
  - destruct (Hc (child_name nm i)) as (e & ->); cbn; eauto.
  - destruct (collectGeometries c (child_name nm i)) as [e|here]; cbn;
      [eauto|].
    destruct (IH (S i) Hin Hc) as (e & ->); cbn; eauto.
Qed.

Lemma holds_unsupported_fails g :
  holds_unsupported g -> forall nm, exists e, collectGeometries g nm = throw e.
Proof.
  induction g as [csg|children IH] using Geom_induction; intros H nm.
  - inversion H as [c Hp Hs|]; subst.
    cbn [collectGeometries]; rewrite Hp, Hs; eauto.
  - inversion H as [|cs child Hin Hc]; subst.
    rewrite collectGeometries_many.
    apply (collect_children_fails nm children 0 child Hin).
    rewrite Forall_forall in IH; auto.
Qed.

Lemma collect_children_first_failure nm before csg after i :
  polygons csg = None -> sides csg = None ->
  (forall k child, nth_error before k = Some child ->
                   exists units,
                     collectGeometries child (child_name nm (i + k)) = ok units) ->
  collect_children nm (before ++ GOne csg :: after) i
  = throw UnsupportedGeometry.
Proof.
  intros Hp Hs; revert i; induction before as [|b bs IH]; intros i Hok.
  - cbn [app collect_children collectGeometries]; rewrite Hp, Hs; reflexivity.
  - cbn [app collect_children].
    destruct (Hok 0%nat b eq_refl) as (units & E).
    rewrite Nat.add_0_r in E; rewrite E; cbn [bind].
    rewrite IH; [reflexivity|].
    intros k child Hk.
    replace (S i + k)%nat with (i + S k)%nat by lia.
    apply Hok; exact Hk.
Qed.

Lemma convertPolygonGeometry_well_streamed csg nm unit :
  convertPolygonGeometry csg nm = ok unit -> well_streamed unit.
Proof.
  destruct (polygons csg) as [[|p ps]|] eqn:Hp;
    try (unfold convertPolygonGeometry; rewrite Hp; discriminate).
  rewrite (convertPolygonGeometry_streams csg nm p ps Hp).
  destruct (streams_length csg (defaultColor_of csg) (p :: ps))
    as (H1 & H2 & H3).
  destruct (flat_map polygon_triangles (p :: ps)); [discriminate|].
  intros [= <-]; unfold well_streamed; cbn [colors normals positions mode].
  cbn [flat_map] in H1, H2, H3.
  split; [|left; split; [reflexivity|]]; eexists; split; try reflexivity;
    rewrite !new_Float32Array_length; cbn [flat_map]; congruence.
Qed.

Lemma push_side_lengths csg d acc side acc' :
  push_side csg d acc side = ok acc' ->
  List.length (fst acc) = List.length (snd acc) ->
  List.length (fst acc') = List.length (snd acc').
Proof.
  unfold push_side.
  destruct side; try (intros [= <-]; auto).
  destruct (List.length xs <? 2)%nat; [intros [= <-]; auto|].
  destruct (point_of _) as [e|startPoint]; [discriminate|].
  destruct (point_of _) as [e|endPoint]; [discriminate|].
  cbn [bind]; intros [= <-] H; cbn [fst snd].
  rewrite !length_app, !spread_length, H; reflexivity.
Qed.

Lemma for_each_push_side_lengths csg d ss acc acc' :
  for_each (push_side csg d) ss acc = ok acc' ->
  List.length (fst acc) = List.length (snd acc) ->
  List.length (fst acc') = List.length (snd acc').
Proof.
  revert acc; induction ss as [|s ss IH]; intros acc; cbn [for_each].
  - intros [= <-]; auto.
  - destruct (push_side csg d acc s) as [e|acc1] eqn:E; [discriminate|].
    cbn [bind]; intros H Hl.
    apply (IH acc1 H), (push_side_lengths csg d acc s acc1 E Hl).
Qed.

Lemma convertSideGeometry_well_streamed csg nm unit :
  convertSideGeometry csg nm = ok unit -> well_streamed unit.
Proof.
  unfold convertSideGeometry.
  destruct (sides csg) as [[|s ss]|]; try discriminate.
  destruct (for_each _ _ _) as [e|acc] eqn:E; [discriminate|]; cbn [bind].
  pose proof (for_each_push_side_lengths _ _ _ _ _ E eq_refl) as Hl.
  destruct (Nat.eqb_spec (List.length (fst acc)) 0) as [|Hne]; [discriminate|].
  destruct (Nat.eqb_spec (List.length (snd acc)) 0) as [H0|_]; [lia|].
  intros [= <-]; unfold well_streamed; cbn [colors normals positions mode negb].
  split; [|right; split; reflexivity].
  eexists; split; [reflexivity|].
  rewrite !new_Float32Array_length; congruence.
Qed.

Lemma collect_children_well_streamed nm cs :
  Forall (fun g => forall nm' units,
              collectGeometries g nm' = ok units ->
              Forall well_streamed units) cs ->
  forall i units,
    collect_children nm cs i = ok units -> Forall well_streamed units.
Proof.
  induction 1 as [|c cs Hc _ IH]; intros i units; cbn [collect_children].
  - intros [= <-]; constructor.
  - destruct (collectGeometries c (child_name nm i)) as [e|here] eqn:E;
      [discriminate|]; cbn [bind].
    destruct (collect_children nm cs (S i)) as [e|after] eqn:E';
      [discriminate|]; cbn [bind].
    intros [= <-]; apply Forall_app; split; eauto.
Qed.

End CollectProofs.

(** C9. A geometry value with neither a polygon list nor a side list makes
    [collectGeometries] raise the unsupported-geometry failure.  It is none
    of the other failures and its message is none of theirs: not that of an
    empty triangulation, and not that of no geometry, which is what the
    conversion raises on a plan that evaluates to nothing and on an empty
    list of mesh units.  A list that holds such a value at any depth never
    gives a list of mesh units, and the failure is that one when the
    elements before it convert.  A value with polygons (an empty list too)
    takes the polygon path, and one with sides only takes the side path. *)
Theorem unsupported_geometry_is_raised {RT : JsRuntime} :
  (forall csg nm,
      polygons csg = None -> sides csg = None ->
      collectGeometries (GOne csg) nm = throw UnsupportedGeometry)
  /\ (forall e,
         In e [EmptyTriangleMesh; EmptyLineGeometry; NoGeometry;
               NoModelGeometries; ExpectedPolygonData; ExpectedSideData] ->
         UnsupportedGeometry <> e
         /\ message UnsupportedGeometry <> message e)
  /\ (forall options, convertJscadPlanToGltf None options = throw NoGeometry)
  /\ (forall fmt pretty, buildConversionResult [] fmt pretty = throw NoGeometry)
  /\ (forall csg options,
         polygons csg = None -> sides csg = None ->
         convertJscadPlanToGltf (Some (GOne csg)) options
         = throw UnsupportedGeometry)
  /\ (forall g nm,
         holds_unsupported g ->
         exists e, collectGeometries g nm = throw e)
  /\ (forall nm before csg after,
         polygons csg = None -> sides csg = None ->
         (forall k child, nth_error before k = Some child ->
                          exists units,
                            collectGeometries child (child_name nm k)
                            = ok units) ->
         collectGeometries (GMany (before ++ GOne csg :: after)) nm
         = throw UnsupportedGeometry)
  /\ (forall csg nm ps,
         polygons csg = Some ps ->
         collectGeometries (GOne csg) nm
         = (unit <- convertPolygonGeometry csg nm ;; ok [unit]))
  /\ (forall csg nm,
         polygons csg = Some [] ->
         collectGeometries (GOne csg) nm = throw ExpectedPolygonData)
  /\ (forall csg nm ss,
         polygons csg = None -> sides csg = Some ss ->
         collectGeometries (GOne csg) nm
         = (unit <- convertSideGeometry csg nm ;; ok [unit])).
Proof.
  repeat apply conj.
  - intros csg nm Hp Hs; cbn [collectGeometries]; now rewrite Hp, Hs.
  - intros e He; cbn [In] in He.
    repeat (destruct He as [<-|He]; [split; discriminate|]).
    contradiction.
  - reflexivity.
  - reflexivity.
  - intros csg options Hp Hs; unfold convertJscadPlanToGltf.
    cbn [collectGeometries]; now rewrite Hp, Hs.
  - intros g nm H; now apply holds_unsupported_fails.
  - intros nm before csg after Hp Hs Hok.
    rewrite collectGeometries_many.
    now apply collect_children_first_failure.
  - intros csg nm ps Hp; cbn [collectGeometries]; now rewrite Hp.
  - intros csg nm Hp; cbn [collectGeometries]; rewrite Hp.
    unfold convertPolygonGeometry; now rewrite Hp.
  - intros csg nm ss Hp Hs; cbn [collectGeometries]; now rewrite Hp, Hs.
Qed.

(** C10. Every mesh unit [collectGeometries] gives has a color stream, as
    long as its position stream; a unit of triangles has a normal stream of
    that length too, and a unit of lines has none. *)
Theorem emitted_units_are_well_streamed {RT : JsRuntime} g nm units :
  collectGeometries g nm = ok units -> Forall well_streamed units.
Proof.
  revert nm units.
  induction g as [csg|children IH] using Geom_induction; intros nm units.
  - cbn [collectGeometries].
    destruct (polygons csg) as [ps|].
    + destruct (convertPolygonGeometry csg nm) as [e|unit] eqn:E;
        [discriminate|]; cbn [bind].
      intros [= <-]; constructor; [|constructor].
      now apply (convertPolygonGeometry_well_streamed csg nm).
    + destruct (sides csg) as [ss|]; [|discriminate].
      destruct (convertSideGeometry csg nm) as [e|unit] eqn:E;
        [discriminate|]; cbn [bind].
      intros [= <-]; constructor; [|constructor].
      now apply (convertSideGeometry_well_streamed csg nm).
  - rewrite collectGeometries_many.
    now apply collect_children_well_streamed.
Qed.

Lemma emitted_units_are_well_streamed_example :
  exists units,
    collectGeometries (RT := Reference.runtime)
      (GMany [GOne square_solid; GOne square_outline]) "part" = ok units
    /\ List.length units = 2%nat
    /\ Forall well_streamed units.
Proof.
  eexists; split; [vm_compute; reflexivity|]; split; [reflexivity|].
  apply (emitted_units_are_well_streamed (RT := Reference.runtime)
           (GMany [GOne square_solid; GOne square_outline]) "part").
  vm_compute; reflexivity.
Defined.

(* ================================================================= *)
(** * The buffer packer *)

Lemma align_4 v :
  0 <= v -> align v 4 mod 4 = 0 /\ v <= align v 4 < v + 4.
Proof.
  intros Hv; unfold align.
  rewrite Z.rem_mod_nonneg by lia.
  pose proof (Z.mod_pos_bound v 4 ltac:(lia)) as Hb.
  pose proof (Z.div_mod v 4 ltac:(lia)) as Hd.
  destruct (Z.eqb_spec (v mod 4) 0) as [E|E].
  - split; [exact E|lia].
  - split; [|lia].
    replace (v + 4 - v mod 4) with ((v / 4 + 1) * 4) by lia.
    apply Z.mod_mul; lia.
Qed.

Lemma le32_length z : List.length (le32 z) = 4%nat.
Proof. reflexivity. Qed.

Lemma Float32Array_bytes_length data :
  Buffer_length (Float32Array_bytes data) = Float32Array_byteLength data.
Proof.
  unfold Buffer_length, Float32Array_bytes, Float32Array_byteLength.
  rewrite (flat_map_constant_length _ 4) by (intros; apply le32_length).
  lia.
Qed.

Lemma Buffer_length_app a b :
  Buffer_length (a ++ b) = Buffer_length a + Buffer_length b.
Proof. unfold Buffer_length; rewrite length_app; lia. Qed.

Lemma Buffer_alloc_length n fill :
  0 <= n -> Buffer_length (Buffer_alloc n fill) = n.
Proof. intros H; unfold Buffer_length, Buffer_alloc; rewrite repeat_length; lia. Qed.

(** What [addBufferView] does to the chunks and the views: the segment
    lands at the running length padded to a multiple of 4, after a gap of
    zeros. *)
Lemma addBufferView_layout chunks views data cur tgt :
  0 <= cur -> cur = Buffer_length (List.concat chunks) ->
  exists chunks' view len' pad,
    addBufferView chunks views data cur tgt
    = (chunks', views ++ [view], (Z.of_nat (List.length views), len'))
    /\ 0 <= pad < 4
    /\ List.concat chunks'
       = List.concat chunks ++ repeat x00 (Z.to_nat pad) ++ Float32Array_bytes data
    /\ byteOffset view = cur + pad
    /\ byteOffset view = align cur 4
    /\ byteOffset view mod 4 = 0
    /\ byteLength view = Buffer_length (Float32Array_bytes data)
    /\ target view = tgt
    /\ len' = byteOffset view + byteLength view
    /\ len' = Buffer_length (List.concat chunks').
Proof.
  intros Hcur Hlen; unfold addBufferView.
  destruct (align_4 cur Hcur) as (Hmod & Hrange).
  set (offset := align cur 4) in *.
  exists (if 0 <? offset - cur
          then (chunks ++ [Buffer_alloc (offset - cur) x00])
                 ++ [Float32Array_bytes data]
          else chunks ++ [Float32Array_bytes data]).
  eexists; exists (offset + Float32Array_byteLength data), (offset - cur).
  rewrite length_app, Nat.add_1_r, Nat2Z.inj_succ.
  replace (Z.succ (Z.of_nat (List.length views)) - 1)
    with (Z.of_nat (List.length views)) by lia.
  split; [destruct (0 <? offset - cur); reflexivity|].
  cbn [byteOffset byteLength target].
  rewrite Float32Array_bytes_length.
  assert (Hc : List.concat (if 0 <? offset - cur
                       then (chunks ++ [Buffer_alloc (offset - cur) x00])
                              ++ [Float32Array_bytes data]
                       else chunks ++ [Float32Array_bytes data])
               = List.concat chunks ++ repeat x00 (Z.to_nat (offset - cur))
                        ++ Float32Array_bytes data).
  { destruct (Z.ltb_spec 0 (offset - cur)) as [Hp|Hp].
    - rewrite !concat_app; cbn [List.concat]; rewrite !app_nil_r, <- app_assoc.
      reflexivity.
    - replace (offset - cur) with 0 by lia; cbn [Z.to_nat repeat app].
      rewrite concat_app; cbn [List.concat]; now rewrite app_nil_r. }
  rewrite Hc, !Buffer_length_app, Float32Array_bytes_length.
  unfold Buffer_length at 2; rewrite repeat_length.
  repeat split; try lia; auto.
Qed.

Lemma Buffer_length_nonneg b : 0 <= Buffer_length b.
Proof. unfold Buffer_length; lia. Qed.

(** One call of [addBufferView] keeps the state packed. *)
Lemma addBufferView_packed chunks views data cur tgt :
  0 <= cur -> cur = Buffer_length (List.concat chunks) ->
  Forall (fun bv => 0 <= byteOffset bv /\ byteOffset bv mod 4 = 0
                    /\ 0 <= byteLength bv
                    /\ byteOffset bv + byteLength bv <= cur) views ->
  exists chunks' views' idx len',
    addBufferView chunks views data cur tgt = (chunks', views', (idx, len'))
    /\ 0 <= len' /\ len' = Buffer_length (List.concat chunks')
    /\ Forall (fun bv => 0 <= byteOffset bv /\ byteOffset bv mod 4 = 0
                         /\ 0 <= byteLength bv
                         /\ byteOffset bv + byteLength bv <= len') views'.
Proof.
  intros Hcur Hlen Hviews.
  destruct (addBufferView_layout chunks views data cur tgt Hcur Hlen)
    as (chunks' & view & len' & pad & E & Hpad & Hc & Ho & _ & Hm & Hb & _
        & Hl & Hl').
  exists chunks', (views ++ [view]), (Z.of_nat (List.length views)), len'.
  pose proof (Buffer_length_nonneg (Float32Array_bytes data)) as Hn.
  repeat split; auto; try lia.
  apply Forall_app; split.
  - eapply Forall_impl; [|exact Hviews]; cbn; intros bv H; lia.
  - repeat constructor; lia.
Qed.

Lemma pack_geometry_packed st g i : packed st -> packed (pack_geometry st g i).
Proof.
  intros (H0 & Hl & Hv); unfold pack_geometry.
  destruct (addBufferView_packed (bufferChunks st) (bufferViews st)
              (positions g) (bufferLength st) (Some ARRAY_BUFFER) H0 Hl Hv)
    as (c1 & v1 & i1 & l1 & -> & H1 & Hl1 & Hv1).
  destruct (computeMinMax (positions g)) as [mn mx].
  assert (Hn : exists c2 v2 l2 a2 t2,
             match normals g with
             | Some ns =>
                 let '(chunks', views', (normalView, len')) :=
                   addBufferView c1 v1 ns l1 (Some ARRAY_BUFFER) in
                 (chunks', views', len',
                  (accessors st
                   ++ [{| acc_bufferView := i1;
                          componentType := GLTF_COMPONENT_FLOAT;
                          count := vertex_count (positions g);
                          acc_type := GLTF_TYPE_VEC3;
                          acc_min := Some mn;
                          acc_max := Some mx |}])
                  ++ [{| acc_bufferView := normalView;
                         componentType := GLTF_COMPONENT_FLOAT;
                         count := vertex_count ns;
                         acc_type := GLTF_TYPE_VEC3;
                         acc_min := None;
                         acc_max := None |}],
                  [("POSITION"%string,
                    Z.of_nat (List.length (accessors st)))]
                  ++ [("NORMAL"%string,
                       Z.of_nat
                         (List.length
                            (accessors st
                             ++ [{| acc_bufferView := i1;
                                    componentType := GLTF_COMPONENT_FLOAT;
                                    count := vertex_count (positions g);
                                    acc_type := GLTF_TYPE_VEC3;
                                    acc_min := Some mn;
                                    acc_max := Some mx |}])))])
             | None =>
                 (c1, v1, l1,
                  accessors st
                  ++ [{| acc_bufferView := i1;
                         componentType := GLTF_COMPONENT_FLOAT;
                         count := vertex_count (positions g);
                         acc_type := GLTF_TYPE_VEC3;
                         acc_min := Some mn;
                         acc_max := Some mx |}],
                  [("POSITION"%string,
                    Z.of_nat (List.length (accessors st)))])
             end = (c2, v2, l2, a2, t2)
             /\ 0 <= l2 /\ l2 = Buffer_length (List.concat c2)
             /\ Forall (fun bv => 0 <= byteOffset bv /\ byteOffset bv mod 4 = 0
                                  /\ 0 <= byteLength bv
                                  /\ byteOffset bv + byteLength bv <= l2) v2).
  { destruct (normals g) as [ns|].
    - destruct (addBufferView_packed c1 v1 ns l1 (Some ARRAY_BUFFER) H1 Hl1 Hv1)
        as (c2 & v2 & i2 & l2 & -> & H2 & Hl2 & Hv2).
      repeat eexists; eauto.
    - repeat eexists; eauto. }
  destruct Hn as (c2 & v2 & l2 & a2 & t2 & -> & H2 & Hl2 & Hv2).
  destruct (colors g) as [cs|].
  - destruct (addBufferView_packed c2 v2 cs l2 (Some ARRAY_BUFFER) H2 Hl2 Hv2)
      as (c3 & v3 & i3 & l3 & -> & H3 & Hl3 & Hv3).
    repeat split; assumption.
  - repeat split; assumption.
Qed.

Lemma forEach_indexed_packed gs i st :
  packed st -> packed (forEach_indexed gs i st).
Proof.
  revert i st; induction gs as [|g gs IH]; intros i st H; cbn; auto.
  apply IH, pack_geometry_packed, H.
Qed.

Lemma Buffer_concat_to_exact chunks n :
  n = Buffer_length (List.concat chunks) ->
  Buffer_concat_to chunks n = List.concat chunks.
Proof.
  intros ->; unfold Buffer_concat_to, Buffer_length.
  rewrite Nat2Z.id, firstn_all, Nat.sub_diag; cbn; apply app_nil_r.
Qed.

(** The output of [buildGltfCore]: the views are those of a packed state,
    and the one buffer descriptor gives the length of the binary, a
    multiple of 4. *)
Lemma buildGltfCore_packed gs :
  exists len,
    j_buffers (fst (buildGltfCore gs)) = [len]
    /\ 0 <= len
    /\ len mod 4 = 0
    /\ len = Buffer_length (snd (buildGltfCore gs))
    /\ Forall (fun bv => 0 <= byteOffset bv /\ byteOffset bv mod 4 = 0
                         /\ 0 <= byteLength bv
                         /\ byteOffset bv + byteLength bv <= len)
              (j_bufferViews (fst (buildGltfCore gs))).
Proof.
  unfold buildGltfCore.
  assert (Hp : packed (forEach_indexed gs 0 (mkPackState [] [] [] [] [] 0)))
    by (apply forEach_indexed_packed; repeat split; cbn; auto; lia).
  destruct Hp as (H0 & Hl & Hv).
  set (st := forEach_indexed gs 0 _) in *.
  destruct (align_4 (bufferLength st) H0) as (Hm & Hr).
  destruct (Z.ltb_spec (bufferLength st) (align (bufferLength st) 4)) as [Hlt|Hge].
  - exists (align (bufferLength st) 4); cbn [fst snd j_buffers j_bufferViews].
    repeat split; try lia.
    + assert (E : align (bufferLength st) 4
                  = Buffer_length
                      (List.concat
                         (bufferChunks st
                          ++ [Buffer_alloc
                                (align (bufferLength st) 4 - bufferLength st)
                                x00]))).
      { rewrite concat_app; cbn [List.concat]; rewrite app_nil_r.
        rewrite Buffer_length_app, Buffer_alloc_length by lia. lia. }
      rewrite (Buffer_concat_to_exact _ _ E); exact E.
    + eapply Forall_impl; [|exact Hv]; cbn; intros bv H; lia.
  - exists (bufferLength st); cbn [fst snd j_buffers j_bufferViews].
    assert (E : align (bufferLength st) 4 = bufferLength st) by lia.
    repeat split; try lia; auto.
    + rewrite <- E; exact Hm.
    + rewrite (Buffer_concat_to_exact _ _ Hl); exact Hl.
Qed.

(** C2. For every list of mesh units (a non-empty one in particular) each
    bufferView of the output has a byte offset that is a multiple of 4, and
    the one buffer descriptor declares a byte length that is a multiple of
    4 and is the length of the packed bytes.  Each segment is appended by
    [addBufferView] at the running length padded to the next multiple of 4,
    which is the offset it records, after a gap of zero bytes. *)
Theorem packed_views_are_aligned :
  (forall gs,
      Forall (fun bv => byteOffset bv mod 4 = 0)
             (j_bufferViews (fst (buildGltfCore gs)))
      /\ exists len,
           j_buffers (fst (buildGltfCore gs)) = [len]
           /\ len mod 4 = 0
           /\ len = Buffer_length (snd (buildGltfCore gs)))
  /\ (forall chunks views data tgt,
         exists chunks' view len' pad,
           addBufferView chunks views data (Buffer_length (List.concat chunks)) tgt
           = (chunks', views ++ [view], (Z.of_nat (List.length views), len'))
           /\ 0 <= pad < 4
           /\ List.concat chunks'
              = List.concat chunks ++ repeat x00 (Z.to_nat pad)
                       ++ Float32Array_bytes data
           /\ byteOffset view = Buffer_length (List.concat chunks) + pad
           /\ byteOffset view mod 4 = 0
           /\ byteLength view = Buffer_length (Float32Array_bytes data)
           /\ len' = Buffer_length (List.concat chunks')).
Proof.
  split.
  - intros gs.
    destruct (buildGltfCore_packed gs) as (len & E & H0 & Hm & Hl & Hv).
    split; [|eauto].
    eapply Forall_impl; [|exact Hv]; cbn; intros bv H; tauto.
  - intros chunks views data tgt.
    destruct (addBufferView_layout chunks views data
                (Buffer_length (List.concat chunks)) tgt
                (Buffer_length_nonneg _) eq_refl)
      as (chunks' & view & len' & pad & E & Hpad & Hc & Ho & _ & Hm & Hb & _
          & _ & Hl').
    exists chunks', view, len', pad; auto 10.
Qed.

(* ================================================================= *)
(** * The binary container *)

Lemma Z_of_byte_of_Z z : Reader.Z_of_byte (byte_of_Z z) = z mod 256.
Proof.
  unfold Reader.Z_of_byte, byte_of_Z.
  pose proof (Z.mod_pos_bound z 256 ltac:(lia)) as Hb.
  destruct (Byte.of_N (Z.to_N (z mod 256))) as [b|] eqn:E.
  - rewrite (Byte.to_of_N _ E); lia.
  - apply Byte.of_N_None_iff in E; lia.
Qed.

(** The value of the four bytes of a 32-bit unsigned integer. *)
Lemma le32_value z :
  0 <= z <= 4294967295 ->
  Reader.Z_of_byte (byte_of_Z z)
  + 256 * Reader.Z_of_byte (byte_of_Z (z / 256))
  + 65536 * Reader.Z_of_byte (byte_of_Z (z / 65536))
  + 16777216 * Reader.Z_of_byte (byte_of_Z (z / 16777216)) = z.
Proof.
  intros Hz; rewrite !Z_of_byte_of_Z.
  change 65536 with (256 * 256).
  change 16777216 with (256 * 256 * 256).
  rewrite <- !Z.div_div by lia.
  pose proof (Z.div_mod z 256 ltac:(lia)).
  pose proof (Z.div_mod (z / 256) 256 ltac:(lia)).
  pose proof (Z.div_mod (z / 256 / 256) 256 ltac:(lia)).
  assert (z / 256 / 256 / 256 < 256)
    by (repeat (apply Z.div_lt_upper_bound; try lia)).
  assert (0 <= z / 256 / 256 / 256) by (repeat apply Z.div_pos; lia).
  rewrite (Z.mod_small (z / 256 / 256 / 256)) by lia.
  lia.
Qed.

Lemma firstn_exact {A} (a b : list A) n :
  n = List.length a -> firstn n (a ++ b) = a.
Proof.
  intros ->; rewrite firstn_app, Nat.sub_diag, firstn_all; cbn.
  apply app_nil_r.
Qed.

Lemma skipn_exact {A} (a b : list A) n :
  n = List.length a -> skipn n (a ++ b) = b.
Proof.
  intros ->; rewrite skipn_app, Nat.sub_diag, skipn_all; reflexivity.
Qed.

Lemma drop_spaces_repeat k b :
  Reader.drop_spaces (repeat x20 k ++ b) = Reader.drop_spaces b.
Proof. induction k; cbn; auto. Qed.

(** Padding with spaces is undone by stripping, on bytes that do not end
    with a space. *)
Lemma strip_padding_spaces b last k :
  last <> x20 ->
  Reader.strip_padding ((b ++ [last]) ++ repeat x20 k) = b ++ [last].
Proof.
  intros Hl; unfold Reader.strip_padding.
  rewrite rev_app_distr, rev_repeat, drop_spaces_repeat.
  rewrite rev_app_distr; cbn [rev app].
  destruct last; try contradiction; cbn [Reader.drop_spaces rev];
    rewrite rev_involutive; reflexivity.
Qed.

Lemma utf8_app s t : utf8 (s ++ t) = utf8 s ++ utf8 t.
Proof.
  unfold utf8.
  induction s as [|c s IH]; cbn [append list_ascii_of_string flat_map app];
    [reflexivity|].
  now rewrite IH, app_assoc.
Qed.

Lemma utf8_decode_char c rest :
  Reader.utf8_decode (utf8_char c ++ rest)
  = option_map (String c) (Reader.utf8_decode rest).
Proof.
  destruct c as [[] [] [] [] [] [] [] []]; reflexivity.
Qed.

(** The text is read back from its UTF-8 bytes. *)
Lemma utf8_decode_utf8 s : Reader.utf8_decode (utf8 s) = Some s.
Proof.
  unfold utf8; induction s as [|c s IH]; [reflexivity|].
  cbn [list_ascii_of_string flat_map].
  now rewrite utf8_decode_char, IH.
Qed.

Section ContainerProofs.

Context {RT : JsRuntime}.

(** It is an object: it ends with a closing brace. *)
Lemma scene_text_object json :
  exists body,
    Json.serialize (GltfJson_value json) = Some (body ++ "}")%string.
Proof.
  unfold GltfJson_value; cbn [Json.serialize].
  eexists (String "{" _); reflexivity.
Qed.

Lemma utf8_scene_text json :
  exists bytes, utf8 (scene_text json) = bytes ++ ["}"%byte].
Proof.
  unfold scene_text.
  destruct (scene_text_object json) as (body & ->).
  exists (utf8 body); now rewrite utf8_app.
Qed.

Lemma padded_shape b fill :
  exists k,
    (if 0 <? align (Buffer_length b) 4 - Buffer_length b
     then b ++ Buffer_alloc (align (Buffer_length b) 4 - Buffer_length b) fill
     else b)
    = b ++ repeat fill k
    /\ Z.of_nat k = align (Buffer_length b) 4 - Buffer_length b.
Proof.
  pose proof (align_4 _ (Buffer_length_nonneg b)) as (_ & Hr).
  destruct (Z.ltb_spec 0 (align (Buffer_length b) 4 - Buffer_length b)).
  - eexists; split; [reflexivity|]; lia.
  - exists 0%nat; cbn [repeat]; rewrite app_nil_r; split; [reflexivity|lia].
Qed.

Lemma writeUInt32LE_ok buf v offset :
  0 <= v <= 4294967295 ->
  writeUInt32LE buf v offset
  = ok (firstn offset buf ++ le32 v ++ skipn (offset + 4) buf).
Proof.
  intros Hv; unfold writeUInt32LE.
  destruct (Z.ltb_spec v 0); [lia|].
  destruct (Z.ltb_spec 4294967295 v); [lia|].
  reflexivity.
Qed.

Lemma buildGlb_assemble json binary :
  container_length json binary <= 4294967295 ->
  exists jsonPad binPad,
    buildGlb json binary
    = ok (assemble (utf8 (scene_text json) ++ repeat x20 jsonPad)
                   (binary ++ repeat x00 binPad))
    /\ Z.of_nat jsonPad
       = align (Buffer_length (utf8 (scene_text json))) 4
         - Buffer_length (utf8 (scene_text json))
    /\ Z.of_nat binPad = align (Buffer_length binary) 4 - Buffer_length binary.
Proof.
  unfold container_length, buildGlb, scene_text.
  destruct (scene_text_object json) as (body & ->).
  cbv zeta.
  set (jsonBuffer := utf8 (body ++ "}")).
  intros Hfit.
  destruct (padded_shape jsonBuffer x20) as (jp & EJ & HjP).
  destruct (padded_shape binary x00) as (bp & EB & HbP).
  rewrite EJ, EB.
  assert (HJ : Buffer_length (jsonBuffer ++ repeat x20 jp)
               = align (Buffer_length jsonBuffer) 4).
  { rewrite Buffer_length_app; unfold Buffer_length at 2.
    rewrite repeat_length; lia. }
  assert (HB : Buffer_length (binary ++ repeat x00 bp)
               = align (Buffer_length binary) 4).
  { rewrite Buffer_length_app; unfold Buffer_length at 2.
    rewrite repeat_length; lia. }
  pose proof (Buffer_length_nonneg jsonBuffer).
  pose proof (Buffer_length_nonneg binary).
  pose proof (align_4 _ (Buffer_length_nonneg jsonBuffer)) as (_ & HrJ).
  pose proof (align_4 _ (Buffer_length_nonneg binary)) as (_ & HrB).
  exists jp, bp; split; [|split; assumption].
  rewrite (writeUInt32LE_ok _ GLB_MAGIC) by (unfold GLB_MAGIC; lia).
  cbn [bind ok Buffer_alloc Z.to_nat Pos.to_nat Pos.iter_op Nat.add repeat
       firstn skipn app].
  rewrite (writeUInt32LE_ok _ 2) by lia.
  cbn [bind ok le32 firstn skipn app Nat.add].
  rewrite writeUInt32LE_ok by lia.
  cbn [bind ok le32 firstn skipn app Nat.add].
  rewrite writeUInt32LE_ok by lia.
  cbn [bind ok le32 firstn skipn app Nat.add].
  rewrite (writeUInt32LE_ok _ CHUNK_JSON) by (unfold CHUNK_JSON; lia).
  cbn [bind ok le32 firstn skipn app Nat.add].
  rewrite writeUInt32LE_ok by lia.
  cbn [bind ok le32 firstn skipn app Nat.add].
  rewrite (writeUInt32LE_ok _ CHUNK_BIN) by (unfold CHUNK_BIN; lia).
  cbn [bind ok le32 firstn skipn app Nat.add].
  reflexivity.
Qed.

Lemma read_u32_at pre z rest n :
  n = List.length pre -> 0 <= z <= 4294967295 ->
  Reader.read_u32 (pre ++ le32 z ++ rest) n = Some z.
Proof.
  intros -> Hz; unfold Reader.read_u32.
  rewrite skipn_exact by reflexivity.
  unfold le32; cbn [app]; now rewrite le32_value.
Qed.

Lemma read_u32_first z rest :
  0 <= z <= 4294967295 -> Reader.read_u32 (le32 z ++ rest) 0 = Some z.
Proof. intros Hz; now apply (read_u32_at [] z rest 0). Qed.

Lemma read_bytes_at pre a rest n m :
  n = List.length pre -> m = List.length a ->
  Reader.read_bytes (pre ++ a ++ rest) n m = Some a.
Proof.
  intros -> ->; unfold Reader.read_bytes.
  rewrite !length_app.
  destruct (Nat.leb_spec (List.length pre + List.length a)
              (List.length pre + (List.length a + List.length rest)));
    [|lia].
  now rewrite skipn_exact, firstn_exact.
Qed.

Lemma read_bytes_last pre a n m :
  n = List.length pre -> m = List.length a ->
  Reader.read_bytes (pre ++ a) n m = Some a.
Proof.
  intros Hn Hm; rewrite <- (app_nil_r a) at 1.
  now apply read_bytes_at.
Qed.

(** A container that fits the length field is read back chunk by chunk. *)
Lemma parse_assemble pj pb :
  12 + 8 + Buffer_length pj + 8 + Buffer_length pb <= 4294967295 ->
  Reader.parse_container (assemble pj pb)
  = Some {| Reader.total_length :=
              12 + 8 + Buffer_length pj + 8 + Buffer_length pb;
            Reader.json_chunk := pj;
            Reader.bin_chunk := pb |}.
Proof.
  intros Hfit.
  pose proof (Buffer_length_nonneg pj).
  pose proof (Buffer_length_nonneg pb).
  unfold Reader.parse_container, assemble.
  set (total := 12 + 8 + Buffer_length pj + 8 + Buffer_length pb) in *.
  rewrite <- !app_assoc.
  rewrite (read_u32_first GLB_MAGIC) by (unfold GLB_MAGIC; lia).
  cbn [Reader.opt_bind].
  rewrite (read_u32_at (le32 GLB_MAGIC) 2) by (auto; lia).
  cbn [Reader.opt_bind].
  rewrite (app_assoc (le32 GLB_MAGIC)).
  rewrite (read_u32_at (le32 GLB_MAGIC ++ le32 2) total) by (auto; lia).
  cbn [Reader.opt_bind].
  rewrite (app_assoc (le32 GLB_MAGIC ++ le32 2)).
  rewrite (read_u32_at _ (Buffer_length pj)) by (auto; lia).
  cbn [Reader.opt_bind].
  rewrite (app_assoc ((le32 GLB_MAGIC ++ le32 2) ++ le32 total)).
  rewrite (read_u32_at _ CHUNK_JSON) by (unfold CHUNK_JSON; auto; lia).
  cbn [Reader.opt_bind].
  rewrite (app_assoc (((le32 GLB_MAGIC ++ le32 2) ++ le32 total) ++ _)).
  set (header := (((le32 GLB_MAGIC ++ le32 2) ++ le32 total)
                  ++ le32 (Buffer_length pj)) ++ le32 CHUNK_JSON).
  assert (Hh : List.length header = 20%nat) by reflexivity.
  assert (Hn : forall b, Z.to_nat (Buffer_length b) = List.length b)
    by (intros b; apply Nat2Z.id).
  rewrite !Hn.
  rewrite (read_bytes_at header pj) by auto.
  cbn [Reader.opt_bind].
  rewrite !(app_assoc header).
  rewrite (read_u32_at (header ++ pj) (Buffer_length pb))
    by (rewrite ?length_app, ?Hh; auto; lia).
  cbn [Reader.opt_bind].
  rewrite !(app_assoc (header ++ pj)).
  rewrite (read_u32_at _ CHUNK_BIN)
    by (rewrite ?length_app, ?Hh; unfold CHUNK_BIN; cbn [List.length le32];
        auto; lia).
  cbn [Reader.opt_bind].
  rewrite !(app_assoc ((header ++ pj) ++ _)).
  rewrite (read_bytes_last _ pb)
    by (rewrite ?length_app, ?Hh; cbn [List.length le32]; auto; lia).
  cbn [Reader.opt_bind].
  rewrite !Z.eqb_refl; reflexivity.
Qed.

Lemma assemble_length pj pb :
  Buffer_length (assemble pj pb)
  = 12 + 8 + Buffer_length pj + 8 + Buffer_length pb.
Proof.
  unfold assemble; rewrite !Buffer_length_app.
  change (Buffer_length (le32 ?z)) with 4.
  lia.
Qed.

End ContainerProofs.

(* ================================================================= *)
(** * Reading back what [JSON.stringify] printed *)

Module JsonFacts.

Import Json JsonReader JsonTerms.
Local Open Scope string_scope.

Lemma append_assoc (a b c : string) : (a ++ b) ++ c = a ++ (b ++ c).
Proof. induction a as [|x a IH]; cbn; [reflexivity|now rewrite IH]. Qed.

Lemma append_nil_r (a : string) : a ++ "" = a.
Proof. induction a as [|x a IH]; cbn; [reflexivity|now rewrite IH]. Qed.

Lemma length_append (a b : string) :
  String.length (a ++ b) = (String.length a + String.length b)%nat.
Proof. induction a as [|x a IH]; cbn; [reflexivity|now rewrite IH]. Qed.

(** Induction on a value and on the values below it. *)
Fixpoint value_induction (P : value -> Prop)
    (undef : P VUndefined) (null : P VNull)
    (bool : forall b, P (VBool b)) (number : forall x, P (VNumber x))
    (str : forall s, P (VString s))
    (arr : forall xs, Forall P xs -> P (VArray xs))
    (obj : forall props, Forall (fun kv => P (snd kv)) props ->
                         P (VObject props))
    (v : value) : P v :=
  match v with
  | VUndefined => undef
  | VNull => null
  | VBool b => bool b
  | VNumber x => number x
  | VString s => str s
  | VArray xs =>
      arr xs
          ((fix all (l : list value) : Forall P l :=
              match l with
              | [] => Forall_nil P
              | x :: rest =>
                  Forall_cons x
                    (value_induction P undef null bool number str arr obj x)
                    (all rest)
              end) xs)
  | VObject props =>
      obj props
          ((fix all (l : list (string * value))
              : Forall (fun kv => P (snd kv)) l :=
              match l with
              | [] => Forall_nil _
              | kv :: rest =>
                  Forall_cons kv
                    (value_induction P undef null bool number str arr obj
                                     (snd kv))
                    (all rest)
              end) props)
  end.

(** ** Strings *)

Lemma read_string_char c t :
  read_string (quote_char c ++ t) = keep c (read_string t).
Proof.
  destruct c as [[] [] [] [] [] [] [] []]; reflexivity.
Qed.

(** The body of a quoted string, up to the quote that closes it, reads
    back as the string. *)
Lemma read_string_quote s rest :
  read_string (quote_body s ++ String dquote rest) = Some (s, rest).
Proof.
  induction s as [|c s IH]; [reflexivity|].
  cbn [quote_body]; now rewrite append_assoc, read_string_char, IH.
Qed.

(** ** Numbers *)

Lemma span_number_token tok rest :
  forallb is_number_char (list_ascii_of_string tok) = true ->
  stops rest ->
  span_number (tok ++ rest) = (tok, rest).
Proof.
  intros Htok Hrest; induction tok as [|c tok IH]; cbn.
  - destruct rest as [|c r]; [reflexivity|].
    cbn in Hrest; cbn; now rewrite Hrest.
  - cbn in Htok; apply andb_prop in Htok as [Hc Ht].
    now rewrite Hc, (IH Ht).
Qed.

Lemma json_number_start tok :
  json_number tok = true ->
  exists c t, tok = String c t
              /\ (is_digit c || (nat_of_ascii c =? 45)%nat) = true.
Proof.
  destruct tok as [|c t]; [discriminate|].
  intros H; exists c, t; split; [reflexivity|].
  unfold json_number in H.
  destruct (is_digit c) eqn:Hd; [reflexivity|].
  destruct c as [[] [] [] [] [] [] [] []]; try discriminate; reflexivity.
Qed.

(** ** Values *)

Section RoundTrip.

Context {RT : JsRuntime}.

Lemma text_array xs :
  text (VArray xs) = "[" ++ join "," (map text xs) ++ "]".
Proof. reflexivity. Qed.

Lemma plain_serialize v : plain v = true -> serialize v = Some (text v).
Proof. destruct v; try discriminate; reflexivity. Qed.

Lemma text_object props :
  forallb (fun kv => plain (snd kv)) props = true ->
  text (VObject props) = "{" ++ join "," (map member_text props) ++ "}".
Proof.
  intros H; unfold text; cbn [serialize]; do 3 f_equal.
  induction props as [|[k v] props IH]; [reflexivity|].
  cbn in H; apply andb_prop in H as [Hv Hp].
  cbn [flat_map map fst snd]; rewrite (plain_serialize v Hv), (IH Hp).
  unfold member_text; cbn [fst snd app]; unfold text.
  now rewrite (plain_serialize v Hv).
Qed.

Lemma quote_append k rest :
  quote k ++ rest = String dquote (quote_body k ++ String dquote rest).
Proof. unfold quote; cbn; now rewrite append_assoc. Qed.

Ltac opens_now :=
  split; [reflexivity|split; [reflexivity|split; discriminate]].

Lemma text_opens v :
  plain v = true -> exists c t, text v = String c t /\ opens c.
Proof.
  destruct v; try discriminate; intros H.
  - exists "n"%char, "ull"; opens_now.
  - destruct b; [exists "t"%char, "rue"|exists "f"%char, "alse"]; opens_now.
  - cbn [plain] in H; apply andb_prop in H as [Hf H].
    apply andb_prop in Hf as [Hf _].
    unfold number_round_trips in H.
    apply andb_prop in H as [H _]; apply andb_prop in H as [H _];
      apply andb_prop in H as [H _].
    destruct (json_number_start _ H) as (c & t & E & Hc).
    unfold text; cbn [serialize]; rewrite Hf.
    exists c, t; split; [exact E|].
    destruct c as [[] [] [] [] [] [] [] []]; try discriminate;
      (split; [reflexivity|split; discriminate]).
  - eexists dquote, _; opens_now.
  - eexists "["%char, _; opens_now.
  - eexists "{"%char, _; opens_now.
Qed.

Lemma skip_ws_opens c t : opens c -> skip_ws (String c t) = String c t.
Proof. intros (H & _); cbn; now rewrite H. Qed.

Lemma stops_comma rest : stops (String "," rest).
Proof. reflexivity. Qed.

Lemma stops_bracket rest : stops (String "]" rest).
Proof. reflexivity. Qed.

Lemma stops_brace rest : stops (String "}" rest).
Proof. reflexivity. Qed.

Lemma skip_ws_comma r : skip_ws (String "," r) = String "," r.
Proof. reflexivity. Qed.

Lemma skip_ws_bracket r : skip_ws (String "]" r) = String "]" r.
Proof. reflexivity. Qed.

Lemma skip_ws_brace r : skip_ws (String "}" r) = String "}" r.
Proof. reflexivity. Qed.

Lemma skip_ws_colon r : skip_ws (String ":" r) = String ":" r.
Proof. reflexivity. Qed.

Lemma skip_ws_quote r : skip_ws (String dquote r) = String dquote r.
Proof. reflexivity. Qed.

(** The elements of an array, after its opening bracket. *)
Lemma parse_elements x xs :
  Forall reads_back (x :: xs) ->
  forall fuel rest,
    (list_sum (map (fun y => S (size y)) (x :: xs)) <= fuel)%nat ->
    parse fuel Elements (join "," (map text (x :: xs)) ++ String "]" rest)
    = Some (VArray (x :: xs), rest).
Proof.
  revert x; induction xs as [|y ys IH]; intros x Hall fuel rest Hfuel.
  - inversion Hall as [|? ? Hx _]; subst.
    cbn [map join]; simpl in Hfuel.
    destruct fuel as [|fuel]; [lia|].
    cbn [parse].
    rewrite (Hx fuel (String "]" rest)) by (try apply stops_bracket; lia).
    now rewrite skip_ws_bracket.
  - inversion Hall as [|? ? Hx Hrest]; subst.
    simpl in Hfuel.
    change (join "," (map text (x :: y :: ys)))
      with (text x ++ "," ++ join "," (map text (y :: ys))).
    rewrite !append_assoc.
    destruct fuel as [|fuel]; [lia|].
    cbn [parse append].
    rewrite (Hx fuel (String "," (join "," (map text (y :: ys))
                                   ++ String "]" rest)))
      by (try apply stops_comma; lia).
    rewrite skip_ws_comma.
    rewrite (IH y Hrest fuel rest) by (simpl; lia).
    reflexivity.
Qed.

(** The key of a member and its colon. *)
Lemma read_key_member k v tail :
  read_key (member_text (k, v) ++ tail) = Some (k, text v ++ tail).
Proof.
  unfold member_text, read_key; cbn [fst snd].
  rewrite !append_assoc, quote_append, skip_ws_quote.
  change (nat_of_ascii dquote =? 34)%nat with true; cbv beta match.
  rewrite read_string_quote; cbn [append]; now rewrite skip_ws_colon.
Qed.

(** The members of an object, after its opening brace. *)
Lemma parse_members kv props :
  Forall (fun p => reads_back (snd p)) (kv :: props) ->
  forall fuel rest,
    (list_sum (map (fun p => S (size (snd p))) (kv :: props)) <= fuel)%nat ->
    parse fuel Members
          (join "," (map member_text (kv :: props)) ++ String "}" rest)
    = Some (VObject (kv :: props), rest).
Proof.
  revert kv; induction props as [|p ps IH]; intros [k v] Hall fuel rest Hfuel.
  - inversion Hall as [|? ? Hv _]; subst; cbn [snd] in Hv.
    cbn [map join]; simpl in Hfuel.
    destruct fuel as [|fuel]; [lia|].
    cbn [parse]; rewrite read_key_member.
    rewrite (Hv fuel (String "}" rest)) by (try apply stops_brace; lia).
    now rewrite skip_ws_brace.
  - inversion Hall as [|? ? Hv Hrest]; subst; cbn [snd] in Hv.
    simpl in Hfuel.
    change (join "," (map member_text ((k, v) :: p :: ps)))
      with (member_text (k, v) ++ "," ++ join "," (map member_text (p :: ps))).
    rewrite append_assoc.
    destruct fuel as [|fuel]; [lia|].
    cbn [parse]; rewrite read_key_member; cbn [append].
    rewrite (Hv fuel (String "," (join "," (map member_text (p :: ps))
                                   ++ String "}" rest)))
      by (try apply stops_comma; lia).
    rewrite skip_ws_comma.
    rewrite (IH p Hrest fuel rest) by (simpl; lia).
    reflexivity.
Qed.

(** ** One value *)

Lemma number_start c :
  (is_digit c || (nat_of_ascii c =? 45)%nat) = true ->
  is_ws c = false
  /\ (nat_of_ascii c =? 110)%nat = false
  /\ (nat_of_ascii c =? 116)%nat = false
  /\ (nat_of_ascii c =? 102)%nat = false
  /\ (nat_of_ascii c =? 34)%nat = false
  /\ (nat_of_ascii c =? 91)%nat = false
  /\ (nat_of_ascii c =? 123)%nat = false.
Proof.
  destruct c as [[] [] [] [] [] [] [] []]; try discriminate;
    intros _; repeat split.
Qed.

Lemma parse_number fuel tok rest :
  json_number tok = true ->
  forallb is_number_char (list_ascii_of_string tok) = true ->
  stops rest ->
  parse (S fuel) Value (tok ++ rest)
  = Some (VNumber (StringToNumber tok), rest).
Proof.
  intros Hj Hchars Hrest.
  pose proof (span_number_token tok rest Hchars Hrest) as Hspan.
  destruct (json_number_start tok Hj) as (c & t & -> & Hc).
  destruct (number_start c Hc) as (Hw & H1 & H2 & H3 & H4 & H5 & H6).
  cbn [parse append skip_ws] in *.
  rewrite Hw; cbv beta match zeta.
  rewrite H1, H2, H3, H4, H5, H6, Hc, Hspan, Hj.
  reflexivity.
Qed.

Lemma parse_string fuel s rest :
  parse (S fuel) Value (quote s ++ rest) = Some (VString s, rest).
Proof.
  rewrite quote_append; cbn [parse]; rewrite skip_ws_quote.
  cbv beta match zeta.
  change (nat_of_ascii dquote =? 110)%nat with false.
  change (nat_of_ascii dquote =? 116)%nat with false.
  change (nat_of_ascii dquote =? 102)%nat with false.
  change (nat_of_ascii dquote =? 34)%nat with true.
  cbv beta match.
  now rewrite read_string_quote.
Qed.

Lemma join_head sep p ps :
  join sep (p :: ps)
  = p ++ match ps with
         | [] => ""
         | _ :: _ => sep ++ join sep ps
         end.
Proof. destruct ps; cbn [join]; [now rewrite append_nil_r|reflexivity]. Qed.

Lemma not_closing_bracket {A} c (closed other : A) :
  c <> "]"%char ->
  match c with
  | "]"%char => closed
  | _ => other
  end = other.
Proof.
  intros H; destruct c as [[] [] [] [] [] [] [] []]; try reflexivity.
  now contradiction H.
Qed.

Lemma parse_array fuel x xs rest :
  plain x = true ->
  parse (S fuel) Value (text (VArray (x :: xs)) ++ rest)
  = parse fuel Elements (join "," (map text (x :: xs)) ++ String "]" rest).
Proof.
  intros Hx.
  rewrite text_array, !append_assoc; cbn [append parse].
  change (skip_ws (String "[" ?r)) with (String "[" r).
  cbv beta match zeta.
  change (nat_of_ascii "[" =? 110)%nat with false.
  change (nat_of_ascii "[" =? 116)%nat with false.
  change (nat_of_ascii "[" =? 102)%nat with false.
  change (nat_of_ascii "[" =? 34)%nat with false.
  change (nat_of_ascii "[" =? 91)%nat with true.
  cbv beta match.
  destruct (text_opens x Hx) as (c & t & E & Hc).
  cbn [map]; rewrite join_head, E; cbn [append].
  rewrite (skip_ws_opens _ _ Hc).
  apply not_closing_bracket; exact (proj1 (proj2 Hc)).
Qed.

Lemma parse_object fuel k v props rest :
  parse (S fuel) Value
        (("{" ++ join "," (map member_text ((k, v) :: props)) ++ "}") ++ rest)
  = parse fuel Members
          (join "," (map member_text ((k, v) :: props)) ++ String "}" rest).
Proof.
  rewrite !append_assoc; cbn [append parse].
  change (skip_ws (String "{" ?r)) with (String "{" r).
  cbv beta match zeta.
  change (nat_of_ascii "{" =? 110)%nat with false.
  change (nat_of_ascii "{" =? 116)%nat with false.
  change (nat_of_ascii "{" =? 102)%nat with false.
  change (nat_of_ascii "{" =? 34)%nat with false.
  change (nat_of_ascii "{" =? 91)%nat with false.
  change (nat_of_ascii "{" =? 123)%nat with true.
  cbv beta match.
  cbn [map]; rewrite join_head.
  unfold member_text at 1; cbn [fst snd].
  rewrite !append_assoc, quote_append.
  rewrite skip_ws_quote.
  reflexivity.
Qed.

Lemma forallb_Forall {A} (f : A -> bool) (P : A -> Prop) xs :
  Forall (fun x => f x = true -> P x) xs ->
  forallb f xs = true -> Forall P xs.
Proof.
  induction 1 as [|x xs Hx _ IH]; cbn; [constructor|].
  intros H; apply andb_prop in H as [H1 H2]; constructor; auto.
Qed.

(** The text of a plain value, followed by anything that ends a number,
    reads back as the value. *)
Lemma plain_reads_back v : plain v = true -> reads_back v.
Proof.
  induction v as [| |b|x|s|xs IH|props IH] using value_induction;
    intros Hp fuel rest Hfuel Hrest;
    (destruct fuel as [|fuel]; [cbn in Hfuel; lia|]).
  - discriminate.
  - reflexivity.
  - destruct b; reflexivity.
  - cbn [plain] in Hp.
    apply andb_prop in Hp as [Hp Hr]; apply andb_prop in Hp as [Hf Hc].
    apply FloatAxioms.Leibniz.eqb_spec in Hc.
    unfold number_round_trips in Hr.
    apply andb_prop in Hr as [Hr _]; apply andb_prop in Hr as [Hr Hn];
      apply andb_prop in Hr as [Hj Hchars].
    apply FloatAxioms.Leibniz.eqb_spec in Hn.
    unfold text; cbn [serialize]; rewrite Hf.
    rewrite (parse_number fuel _ rest Hj Hchars Hrest).
    now rewrite Hn, Hc.
  - apply parse_string.
  - cbn [plain] in Hp.
    pose proof (forallb_Forall _ _ _ IH Hp) as Hall.
    destruct xs as [|x xs]; [reflexivity|].
    cbn [forallb] in Hp; apply andb_prop in Hp as [Hx _].
    rewrite (parse_array fuel x xs rest Hx).
    apply parse_elements; [exact Hall|].
    cbn [size] in Hfuel; lia.
  - cbn [plain] in Hp.
    pose proof (forallb_Forall (fun kv => plain (snd kv))
                  (fun kv => reads_back (snd kv)) _ IH Hp) as Hall.
    rewrite (text_object props Hp).
    destruct props as [|[k v] props]; [reflexivity|].
    rewrite parse_object.
    apply parse_members; [exact Hall|].
    cbn [size] in Hfuel; lia.
Qed.

(** ** The fuel [JSON_parse] gives *)

Lemma text_nonempty v : plain v = true -> (1 <= String.length (text v))%nat.
Proof.
  intros H; destruct (text_opens v H) as (c & t & -> & _); cbn; lia.
Qed.

Lemma join_sizes {A} (f : A -> nat) (g : A -> string) xs :
  Forall (fun x => (f x <= 2 * String.length (g x))%nat) xs ->
  (list_sum (map (fun x => S (f x)) xs)
   <= 2 * String.length (join "," (map g xs)) + 2)%nat.
Proof.
  induction 1 as [|x xs Hx _ IH]; [cbn; lia|].
  cbn [map]; rewrite join_head, length_append.
  change (list_sum (?a :: ?l)) with (a + list_sum l)%nat.
  destruct xs as [|y ys]; [cbn in *; lia|].
  cbn [map] in *; rewrite length_append.
  change (String.length ",") with 1%nat.
  change (list_sum (?a :: ?l)) with (a + list_sum l)%nat in *.
  lia.
Qed.

Lemma size_bound v :
  plain v = true -> (size v <= 2 * String.length (text v))%nat.
Proof.
  induction v as [| |b|x|s|xs IH|props IH] using value_induction; intros Hp;
    try (pose proof (text_nonempty _ Hp); cbn [size]; lia).
  - cbn [plain] in Hp.
    pose proof (forallb_Forall _ _ _ IH Hp) as Hall.
    pose proof (join_sizes size text xs Hall).
    rewrite text_array, !length_append; cbn [size String.length]; lia.
  - cbn [plain] in Hp.
    pose proof (forallb_Forall (fun kv => plain (snd kv))
                  (fun kv => (size (snd kv)
                              <= 2 * String.length (text (snd kv)))%nat)
                  _ IH Hp) as Hall.
    assert (Hm : Forall (fun kv => (size (snd kv)
                                    <= 2 * String.length (member_text kv))%nat)
                        props).
    { eapply Forall_impl; [|exact Hall]; cbv beta; intros kv H.
      unfold member_text; rewrite !length_append; cbn [String.length append].
      lia. }
    pose proof (join_sizes (fun kv => size (snd kv)) member_text props Hm).
    rewrite (text_object props Hp), !length_append.
    cbn [size String.length]; lia.
Qed.

(** [JSON.parse] reads a plain value back from its text. *)
Lemma JSON_parse_text v : plain v = true -> JSON_parse (text v) = Some v.
Proof.
  intros Hp; unfold JSON_parse.
  rewrite <- (append_nil_r (text v)) at 2.
  rewrite (plain_reads_back v Hp _ "" (size_bound v Hp) I).
  reflexivity.
Qed.

(** ** What JSON keeps of a value *)

Lemma canonical_finite x : is_finite x = true -> is_finite (canonical x) = true.
Proof.
  intros H; unfold canonical; destruct (x =? 0)%float; [|exact H].
  vm_compute; reflexivity.
Qed.

Lemma canonical_idempotent x : canonical (canonical x) = canonical x.
Proof.
  unfold canonical; destruct (x =? 0)%float eqn:E.
  - vm_compute; reflexivity.
  - now rewrite E.
Qed.

Lemma Leibniz_eqb_refl x : PrimFloat.Leibniz.eqb x x = true.
Proof. now apply FloatAxioms.Leibniz.eqb_spec. Qed.

Lemma normal_none v : normal v = None <-> v = VUndefined.
Proof. destruct v; cbn; split; congruence. Qed.

(** What JSON keeps of a printable value is plain, and prints the same. *)
Lemma normal_plain v :
  printable v = true ->
  forall w, normal v = Some w ->
            plain w = true /\ serialize w = serialize v.
Proof.
  induction v as [| |b|x|s|xs IH|props IH] using value_induction;
    intros Hp w Hw; cbn [normal] in Hw; try discriminate;
    injection Hw as <-; try (split; reflexivity).
  - cbn [printable] in Hp; unfold Num.isFinite in *.
    destruct (is_finite x) eqn:Hf;
      [|split; [reflexivity|];
        cbn [serialize]; unfold Num.isFinite; now rewrite Hf].
    unfold number_round_trips in Hp.
    apply andb_prop in Hp as [Hp Hs]; apply andb_prop in Hp as [Hp Hn];
      apply andb_prop in Hp as [Hj Hc].
    apply String.eqb_eq in Hs.
    cbn [plain serialize]; unfold Num.isFinite, number_round_trips.
    rewrite (canonical_finite x Hf), canonical_idempotent, Hs, Hj, Hc, Hn.
    rewrite Leibniz_eqb_refl, String.eqb_refl, Hf.
    split; reflexivity.
  - cbn [printable] in Hp.
    pose proof (forallb_Forall _ _ _ IH Hp) as Hall; clear IH Hp.
    cbn [plain serialize].
    assert (H : forallb plain
                  (map (fun x => match normal x with
                                 | Some y => y
                                 | None => VNull
                                 end) xs) = true
                /\ map text (map (fun x => match normal x with
                                            | Some y => y
                                            | None => VNull
                                            end) xs)
                   = map text xs).
    { induction Hall as [|x xs Hx _ IH]; [split; reflexivity|].
      destruct IH as (IH1 & IH2); cbn [map forallb].
      destruct (normal x) as [y|] eqn:E.
      - destruct (Hx y eq_refl) as (Hy & Hs).
        rewrite Hy, IH1, IH2; unfold text; rewrite Hs; split; reflexivity.
      - apply normal_none in E; subst x.
        rewrite IH1, IH2; split; reflexivity. }
    destruct H as (H1 & H2); split; [exact H1|].
    change (fun x => match serialize x with Some t => t | None => "null" end)
      with text.
    now rewrite H2.
  - cbn [printable] in Hp.
    pose proof (forallb_Forall (fun kv => printable (snd kv))
                  (fun kv => forall w, normal (snd kv) = Some w ->
                                       plain w = true
                                       /\ serialize w = serialize (snd kv))
                  _ IH Hp) as Hall; clear IH Hp.
    cbn [plain serialize].
    assert (H : forallb (fun kv => plain (snd kv))
                  (flat_map (fun kv => match normal (snd kv) with
                                       | Some y => [(fst kv, y)]
                                       | None => []
                                       end) props) = true
                /\ flat_map
                     (fun kv => match serialize (snd kv) with
                                | Some t => [quote (fst kv) ++ ":" ++ t]
                                | None => []
                                end)
                     (flat_map (fun kv => match normal (snd kv) with
                                          | Some y => [(fst kv, y)]
                                          | None => []
                                          end) props)
                   = flat_map
                       (fun kv => match serialize (snd kv) with
                                  | Some t => [quote (fst kv) ++ ":" ++ t]
                                  | None => []
                                  end) props).
    { induction Hall as [|[k v] props Hv _ IH]; [split; reflexivity|].
      destruct IH as (IH1 & IH2); cbn [flat_map fst snd] in *.
      destruct (normal v) as [y|] eqn:E.
      - destruct (Hv y eq_refl) as (Hy & Hs).
        cbn [app forallb flat_map fst snd].
        rewrite Hy, IH1, IH2, Hs; split; reflexivity.
      - apply normal_none in E; subst v.
        cbn [app serialize]; split; assumption. }
    destruct H as (H1 & H2); split; [exact H1|].
    now rewrite H2.
Qed.

(** A plain value is kept as it is. *)
Lemma plain_normal v : plain v = true -> normal v = Some v.
Proof.
  induction v as [| |b|x|s|xs IH|props IH] using value_induction;
    intros Hp; try discriminate; try reflexivity.
  - cbn [plain] in Hp.
    apply andb_prop in Hp as [Hp _]; apply andb_prop in Hp as [Hf Hc].
    apply FloatAxioms.Leibniz.eqb_spec in Hc.
    cbn [normal]; now rewrite Hf, Hc.
  - cbn [plain] in Hp.
    pose proof (forallb_Forall _ _ _ IH Hp) as Hall; clear IH Hp.
    cbn [normal]; do 2 f_equal.
    induction Hall as [|x xs Hx _ IHl]; [reflexivity|].
    cbn [map]; now rewrite Hx, IHl.
  - cbn [plain] in Hp.
    pose proof (forallb_Forall (fun kv => plain (snd kv))
                  (fun kv => normal (snd kv) = Some (snd kv)) _ IH Hp) as Hall;
      clear IH Hp.
    cbn [normal]; do 2 f_equal.
    induction Hall as [|[k v] props Hv _ IHl]; [reflexivity|].
    cbn [flat_map fst snd app] in *; now rewrite Hv, IHl.
Qed.

(** [JSON.parse] of what [JSON.stringify] printed for a printable value:
    what JSON keeps of the value, which prints the same text. *)
Lemma JSON_parse_serialize v t :
  printable v = true -> serialize v = Some t ->
  exists w, normal v = Some w
            /\ JSON_parse t = Some w
            /\ serialize w = Some t
            /\ (plain v = true -> w = v).
Proof.
  intros Hp Ht.
  destruct (normal v) as [w|] eqn:Hw.
  - destruct (normal_plain v Hp w Hw) as (Hpw & Hs).
    exists w; split; [reflexivity|].
    assert (Et : text w = t) by (unfold text; now rewrite Hs, Ht).
    split; [rewrite <- Et; now apply JSON_parse_text|].
    split; [congruence|].
    intros Hv; rewrite (plain_normal v Hv) in Hw; congruence.
  - apply normal_none in Hw; subst v; discriminate.
Qed.

End RoundTrip.

End JsonFacts.

(** What [buildGlb] gives for a scene and bytes that fit the 32-bit length
    field, and what the layout of a container reads back from it. *)
Lemma buildGlb_reads_back {RT : JsRuntime} json binary :
  container_length json binary <= 4294967295 ->
  exists glb c jsonPad binPad,
    buildGlb json binary = ok glb
    /\ glb = assemble (utf8 (scene_text json) ++ repeat x20 jsonPad)
                      (binary ++ repeat x00 binPad)
    /\ Reader.parse_container glb = Some c
    /\ Reader.total_length c = Buffer_length glb
    /\ Buffer_length glb = container_length json binary
    /\ Reader.json_chunk c = utf8 (scene_text json) ++ repeat x20 jsonPad
    /\ Reader.bin_chunk c = binary ++ repeat x00 binPad
    /\ Buffer_length (Reader.json_chunk c)
       = align (Buffer_length (utf8 (scene_text json))) 4
    /\ Buffer_length (Reader.bin_chunk c) = align (Buffer_length binary) 4
    /\ Reader.utf8_decode (Reader.strip_padding (Reader.json_chunk c))
       = Some (scene_text json)
    /\ Json.serialize (GltfJson_value json) = Some (scene_text json).
Proof.
  intros Hfit.
  destruct (buildGlb_assemble json binary Hfit) as (jp & bp & E & Hjp & Hbp).
  pose proof (align_4 _ (Buffer_length_nonneg (utf8 (scene_text json))))
    as (HmJ & HrJ).
  pose proof (align_4 _ (Buffer_length_nonneg binary)) as (HmB & HrB).
  assert (HJ : Buffer_length (utf8 (scene_text json) ++ repeat x20 jp)
               = align (Buffer_length (utf8 (scene_text json))) 4).
  { rewrite Buffer_length_app; unfold Buffer_length at 2.
    rewrite repeat_length; lia. }
  assert (HB : Buffer_length (binary ++ repeat x00 bp)
               = align (Buffer_length binary) 4).
  { rewrite Buffer_length_app; unfold Buffer_length at 2.
    rewrite repeat_length; lia. }
  assert (Hfit' : 12 + 8
                  + Buffer_length (utf8 (scene_text json) ++ repeat x20 jp)
                  + 8 + Buffer_length (binary ++ repeat x00 bp)
                  <= 4294967295).
  { unfold container_length in Hfit; lia. }
  assert (Ht : Json.serialize (GltfJson_value json) = Some (scene_text json)).
  { unfold scene_text.
    now destruct (scene_text_object json) as (body & ->). }
  destruct (utf8_scene_text json) as (bytes & Eb).
  assert (Hs : Reader.strip_padding (utf8 (scene_text json) ++ repeat x20 jp)
               = utf8 (scene_text json)).
  { rewrite Eb; apply strip_padding_spaces; discriminate. }
  eexists; eexists; exists jp, bp.
  split; [exact E|]; split; [reflexivity|].
  split; [exact (parse_assemble _ _ Hfit')|].
  cbn [Reader.total_length Reader.json_chunk Reader.bin_chunk].
  rewrite assemble_length.
  split; [reflexivity|].
  split; [unfold container_length; lia|].
  split; [reflexivity|]; split; [reflexivity|].
  split; [exact HJ|]; split; [exact HB|].
  split; [rewrite Hs; apply utf8_decode_utf8|exact Ht].
Qed.

(** C1. For every list of mesh units (a non-empty one in particular) whose
    container fits the 32-bit length field, [buildGlb] on the output of
    [buildGltfCore] gives a container that reads back.  The total-length
    field is the byte length of the whole container, 12 + 8 + the padded JSON
    + 8 + the padded binary; the BIN chunk is the packed buffer, byte for
    byte; the JSON chunk, stripped of the spaces that pad it and decoded as
    UTF-8, is the text [JSON.stringify] printed for the scene.  When the
    finite numbers of the scene are printed as JSON numbers that read back,
    [JSON.parse] of that text gives what JSON keeps of the scene, which
    prints the same text; it is the scene itself when the scene holds no
    [undefined], no number that is not finite and no negative zero. *)
Theorem glb_round_trip {RT : JsRuntime} (gs : list GeometryData) :
  container_length (fst (buildGltfCore gs)) (snd (buildGltfCore gs))
  <= 4294967295 ->
  exists glb c text,
    buildGlb (fst (buildGltfCore gs)) (snd (buildGltfCore gs)) = ok glb
    /\ Reader.parse_container glb = Some c
    /\ Reader.total_length c = Buffer_length glb
    /\ Buffer_length glb
       = 12 + 8 + Buffer_length (Reader.json_chunk c)
         + 8 + Buffer_length (Reader.bin_chunk c)
    /\ Buffer_length (Reader.json_chunk c) mod 4 = 0
    /\ Reader.bin_chunk c = snd (buildGltfCore gs)
    /\ Reader.utf8_decode (Reader.strip_padding (Reader.json_chunk c))
       = Some text
    /\ Json.serialize (GltfJson_value (fst (buildGltfCore gs))) = Some text
    /\ (JsonReader.printable (GltfJson_value (fst (buildGltfCore gs))) = true ->
        exists scene,
          JsonReader.JSON_parse text = Some scene
          /\ JsonReader.normal (GltfJson_value (fst (buildGltfCore gs)))
             = Some scene
          /\ Json.serialize scene = Some text
          /\ (JsonReader.plain (GltfJson_value (fst (buildGltfCore gs))) = true ->
              scene = GltfJson_value (fst (buildGltfCore gs)))).
Proof.
  intros Hfit.
  set (json := fst (buildGltfCore gs)) in *.
  set (binary := snd (buildGltfCore gs)) in *.
  destruct (buildGlb_reads_back json binary Hfit)
    as (glb & c & jp & bp & E & _ & Hc & Ht & Hl & Hj & Hb & HJ & HB & Hd & Hs).
  destruct (buildGltfCore_packed gs) as (len & _ & H0 & Hm & Hlen & _).
  fold binary in Hlen.
  assert (Ha : align (Buffer_length binary) 4 = Buffer_length binary).
  { unfold align; rewrite Z.rem_mod_nonneg by lia.
    rewrite <- Hlen, Hm; reflexivity. }
  assert (Hb0 : bp = 0%nat).
  { rewrite Hb, Ha, Buffer_length_app in HB; unfold Buffer_length in HB at 2.
    rewrite repeat_length in HB; lia. }
  subst bp; cbn [repeat] in Hb; rewrite app_nil_r in Hb.
  pose proof (align_4 _ (Buffer_length_nonneg (utf8 (scene_text json))))
    as (HmJ & _).
  exists glb, c, (scene_text json).
  split; [exact E|]; split; [exact Hc|]; split; [exact Ht|].
  split; [rewrite Hl, HJ, Hb; unfold container_length; lia|].
  split; [now rewrite HJ|].
  split; [exact Hb|]; split; [exact Hd|]; split; [exact Hs|].
  intros Hp.
  destruct (JsonFacts.JSON_parse_serialize _ _ Hp Hs)
    as (w & Hn & Hw & Hsw & Hv).
  exists w; auto.
Qed.

Lemma glb_round_trip_example :
  container_length (RT := Reference.runtime)
    (fst (buildGltfCore example_units)) (snd (buildGltfCore example_units))
  <= 4294967295
  /\ exists glb c text,
       buildGlb (RT := Reference.runtime)
         (fst (buildGltfCore example_units))
         (snd (buildGltfCore example_units)) = ok glb
       /\ Reader.parse_container glb = Some c
       /\ Reader.total_length c = Buffer_length glb
       /\ Reader.bin_chunk c = snd (buildGltfCore example_units)
       /\ Reader.utf8_decode (Reader.strip_padding (Reader.json_chunk c))
          = Some text
       /\ JsonReader.JSON_parse (RT := Reference.runtime) text
          = Some (GltfJson_value (fst (buildGltfCore example_units))).
Proof.
  assert (H : container_length (RT := Reference.runtime)
                (fst (buildGltfCore example_units))
                (snd (buildGltfCore example_units)) <= 4294967295)
    by (vm_compute; discriminate).
  split; [exact H|].
  destruct (glb_round_trip (RT := Reference.runtime) example_units H)
    as (glb & c & text & H1 & H2 & H3 & _ & _ & H4 & H5 & _ & H6).
  destruct H6 as (scene & H7 & _ & _ & H8); [vm_compute; reflexivity|].
  rewrite H8 in H7 by (vm_compute; reflexivity).
  exists glb, c, text; auto 10.
Defined.

(* ================================================================= *)
(** * The order of the numbers *)

Module FloatOrder.

Lemma SFcompare_rank f g :
  f <> S754_nan -> g <> S754_nan ->
  SFcompare f g = Some (rank_compare (rank f) (rank g)).
Proof.
  intros Hf Hg.
  destruct f as [[]|[]| |[] mf ef], g as [[]|[]| |[] mg eg];
    try (now destruct Hf); try (now destruct Hg); try reflexivity;
    cbn [SFcompare rank rank_compare fst snd];
    change (Pos.compare_cont Eq) with Pos.compare.
  unfold rank_compare; cbn [fst snd].
  change (-1 ?= -1) with Eq; cbv beta iota.
  rewrite Z.compare_opp, (Z.compare_antisym ef eg).
  change (- Z.pos mf ?= - Z.pos mg) with (CompOpp (mf ?= mg)%positive).
  destruct (ef ?= eg); reflexivity.
Qed.

Lemma rank_compare_le a b :
  rank_compare a b <> Gt <-> rank_le a b.
Proof.
  destruct a as [[a1 a2] a3], b as [[b1 b2] b3].
  unfold rank_compare, rank_le; cbn [fst snd].
  destruct (Z.compare_spec a1 b1), (Z.compare_spec a2 b2),
    (Z.compare_spec a3 b3); split; intros Hyp; try lia; try discriminate;
    try (now destruct Hyp).
Qed.

Lemma Prim2SF_nan x : is_nan x = false <-> Prim2SF x <> S754_nan.
Proof.
  rewrite is_nan_spec.
  destruct (Prim2SF x) as [[]|[]| |[] m e]; cbn; split; try discriminate;
    try (intros H; now destruct H); try reflexivity;
    unfold SFeqb; cbn;
    rewrite Z.compare_refl, Pos.compare_cont_refl; reflexivity.
Qed.

(** [x <= y] holds when neither is [NaN] and their places are in order. *)
Lemma number_le_rank x y :
  number_le x y
  <-> is_nan x = false /\ is_nan y = false
      /\ rank_le (rank (Prim2SF x)) (rank (Prim2SF y)).
Proof.
  unfold number_le; rewrite leb_spec, !Prim2SF_nan; unfold SFleb.
  destruct (Prim2SF x) as [sx|sx| |sx mx ex] eqn:Ex.
  4: { destruct (Prim2SF y) as [sy|sy| |sy my ey] eqn:Ey.
       3: { cbn; split; [discriminate|intros (_ & H & _); now destruct H]. }
       all: rewrite SFcompare_rank by discriminate;
         rewrite <- rank_compare_le;
         destruct (rank_compare _ _); split;
         try discriminate; try (intros; repeat split; discriminate);
         try (intros (_ & _ & H); now destruct H). }
  3: { cbn; split; [discriminate|intros (H & _); now destruct H]. }
  all: destruct (Prim2SF y) as [sy|sy| |sy my ey] eqn:Ey;
    try (cbn; split; [discriminate|intros (_ & H & _); now destruct H]);
    rewrite SFcompare_rank by discriminate;
    rewrite <- rank_compare_le;
    destruct (rank_compare _ _); split;
    try discriminate; try (intros; repeat split; discriminate);
    try (intros (_ & _ & H); now destruct H).
Qed.

(** [x < y] is false, of numbers, when [y <= x]. *)
Lemma not_lt_le x y :
  is_nan x = false -> is_nan y = false ->
  (x <? y)%float = false -> number_le y x.
Proof.
  intros Hx Hy H; apply number_le_rank; repeat split; auto.
  rewrite ltb_spec in H; unfold SFltb in H.
  apply Prim2SF_nan in Hx, Hy.
  rewrite SFcompare_rank in H by assumption.
  rewrite <- rank_compare_le.
  destruct (rank (Prim2SF x)) as [[a1 a2] a3],
    (rank (Prim2SF y)) as [[b1 b2] b3].
  unfold rank_compare in *; cbn [fst snd] in *.
  rewrite (Z.compare_antisym a1 b1), (Z.compare_antisym a2 b2),
    (Z.compare_antisym a3 b3).
  destruct (a1 ?= b1); cbn in *; try discriminate; auto;
    destruct (a2 ?= b2); cbn in *; try discriminate; auto;
    destruct (a3 ?= b3); cbn in *; try discriminate; auto.
Qed.

Lemma lt_le x y : (x <? y)%float = true -> number_le x y.
Proof.
  rewrite ltb_spec; unfold number_le; rewrite leb_spec.
  unfold SFltb, SFleb.
  destruct (SFcompare _ _) as [[]|]; try discriminate; reflexivity.
Qed.

Lemma lt_not_nan x y :
  (x <? y)%float = true -> is_nan x = false /\ is_nan y = false.
Proof.
  intros H; apply lt_le, number_le_rank in H; tauto.
Qed.

Lemma le_refl x : is_nan x = false -> number_le x x.
Proof.
  intros H; apply number_le_rank; repeat split; auto.
  destruct (rank (Prim2SF x)) as [[a1 a2] a3]; unfold rank_le; cbn; lia.
Qed.

Lemma le_trans x y z : number_le x y -> number_le y z -> number_le x z.
Proof.
  rewrite !number_le_rank.
  intros (Hx & Hy & H1) (_ & Hz & H2); repeat split; auto.
  destruct (rank (Prim2SF x)) as [[a1 a2] a3],
    (rank (Prim2SF y)) as [[b1 b2] b3],
    (rank (Prim2SF z)) as [[c1 c2] c3].
  unfold rank_le in *; cbn [fst snd] in *; lia.
Qed.

End FloatOrder.

(* ================================================================= *)
(** * Streams, segments and names *)

Section StreamProofs.

Context {RT : JsRuntime}.

(** What holds of the unit of every polygon-bearing and of every
    side-bearing value holds of every unit collected. *)
Lemma collectGeometries_Forall (P : GeometryData -> Prop) :
  (forall csg nm u, convertPolygonGeometry csg nm = ok u -> P u) ->
  (forall csg nm u, convertSideGeometry csg nm = ok u -> P u) ->
  forall g nm units, collectGeometries g nm = ok units -> Forall P units.
Proof.
  intros Hpoly Hside g.
  induction g as [csg|children IH] using Geom_induction; intros nm units.
  - cbn [collectGeometries].
    destruct (polygons csg) as [ps|].
    + destruct (convertPolygonGeometry csg nm) as [e|unit] eqn:E;
        [discriminate|]; cbn [bind].
      intros [= <-]; constructor; [|constructor]; eauto.
    + destruct (sides csg) as [ss|]; [|discriminate].
      destruct (convertSideGeometry csg nm) as [e|unit] eqn:E;
        [discriminate|]; cbn [bind].
      intros [= <-]; constructor; [|constructor]; eauto.
  - rewrite collectGeometries_many; generalize 0%nat; revert units.
    induction IH as [|c cs Hc _ IHcs]; intros units i;
      cbn [collect_children].
    + intros [= <-]; constructor.
    + destruct (collectGeometries c (child_name nm i)) as [e|here] eqn:E;
        [discriminate|]; cbn [bind].
      destruct (collect_children nm cs (S i)) as [e|after] eqn:E';
        [discriminate|]; cbn [bind].
      intros [= <-]; apply Forall_app; split; eauto.
Qed.

Lemma push_side_six csg d acc side acc' :
  push_side csg d acc side = ok acc' ->
  (exists k, List.length (fst acc) = 6 * k)%nat ->
  (exists k, List.length (fst acc') = 6 * k)%nat.
Proof.
  unfold push_side.
  destruct side; try (intros [= <-]; auto).
  destruct (List.length xs <? 2)%nat; [intros [= <-]; auto|].
  destruct (point_of _) as [e|startPoint]; [discriminate|].
  destruct (point_of _) as [e|endPoint]; [discriminate|].
  cbn [bind]; intros [= <-] (k & Hk); cbn [fst].
  exists (S k); rewrite !length_app, !spread_length, Hk; lia.
Qed.

Lemma for_each_push_side_six csg d ss acc acc' :
  for_each (push_side csg d) ss acc = ok acc' ->
  (exists k, List.length (fst acc) = 6 * k)%nat ->
  (exists k, List.length (fst acc') = 6 * k)%nat.
Proof.
  revert acc; induction ss as [|s ss IH]; intros acc; cbn [for_each].
  - intros [= <-]; auto.
  - destruct (push_side csg d acc s) as [e|acc1] eqn:E; [discriminate|].
    cbn [bind]; intros H Hl.
    apply (IH acc1 H), (push_side_six csg d acc s acc1 E Hl).
Qed.

Lemma convertPolygonGeometry_shape csg nm unit :
  convertPolygonGeometry csg nm = ok unit -> stream_shape unit.
Proof.
  destruct (polygons csg) as [[|p ps]|] eqn:Hp;
    try (unfold convertPolygonGeometry; rewrite Hp; discriminate).
  rewrite (convertPolygonGeometry_streams csg nm p ps Hp).
  destruct (streams_length csg (defaultColor_of csg) (p :: ps))
    as (H1 & H2 & _).
  destruct (flat_map polygon_triangles (p :: ps)) as [|t ts];
    [discriminate|].
  intros [= <-]; left; cbn [mode positions normals].
  cbn [flat_map] in H1, H2 |- *.
  split; [reflexivity|]; split.
  - rewrite new_Float32Array_length, H1, Nat.mul_comm.
    apply Nat.Div0.mod_mul.
  - eexists; split; [reflexivity|].
    rewrite !new_Float32Array_length; congruence.
Qed.

Lemma convertSideGeometry_shape csg nm unit :
  convertSideGeometry csg nm = ok unit -> stream_shape unit.
Proof.
  unfold convertSideGeometry.
  destruct (sides csg) as [[|s ss]|]; try discriminate.
  destruct (for_each _ _ _) as [e|acc] eqn:E; [discriminate|]; cbn [bind].
  destruct (for_each_push_side_six _ _ _ _ _ E) as (k & Hk);
    [exists 0%nat; reflexivity|].
  destruct (List.length (fst acc) =? 0)%nat; [discriminate|].
  intros [= <-]; right; cbn [mode positions].
  split; [reflexivity|].
  rewrite new_Float32Array_length, Hk, Nat.mul_comm.
  apply Nat.Div0.mod_mul.
Qed.

Lemma convertPolygonGeometry_name csg nm unit :
  convertPolygonGeometry csg nm = ok unit -> name unit = nm.
Proof.
  unfold convertPolygonGeometry.
  destruct (polygons csg) as [[|p ps]|]; try discriminate.
  destruct (_ =? 0)%nat; [discriminate|].
  now intros [= <-].
Qed.

Lemma convertSideGeometry_name csg nm unit :
  convertSideGeometry csg nm = ok unit -> name unit = nm.
Proof.
  unfold convertSideGeometry.
  destruct (sides csg) as [[|s ss]|]; try discriminate.
  destruct (for_each _ _ _) as [e|acc]; [discriminate|]; cbn [bind].
  destruct (_ =? 0)%nat; [discriminate|].
  now intros [= <-].
Qed.

Lemma collectGeometries_leaf csg nm units :
  collectGeometries (GOne csg) nm = ok units ->
  exists unit, units = [unit] /\ name unit = nm.
Proof.
  cbn [collectGeometries].
  destruct (polygons csg) as [ps|].
  - destruct (convertPolygonGeometry csg nm) as [e|unit] eqn:E;
      [discriminate|]; cbn [bind].
    intros [= <-]; exists unit; split; [reflexivity|].
    now apply (convertPolygonGeometry_name csg).
  - destruct (sides csg) as [ss|]; [|discriminate].
    destruct (convertSideGeometry csg nm) as [e|unit] eqn:E;
      [discriminate|]; cbn [bind].
    intros [= <-]; exists unit; split; [reflexivity|].
    now apply (convertSideGeometry_name csg).
Qed.

Lemma collect_children_leaves nm csgs i units :
  collect_children nm (map GOne csgs) i = ok units ->
  map name units = map (child_name nm) (seq i (List.length csgs)).
Proof.
  revert i units; induction csgs as [|csg csgs IH]; intros i units;
    cbn [map collect_children List.length seq].
  - now intros [= <-].
  - destruct (collectGeometries (GOne csg) (child_name nm i))
      as [e|here] eqn:E; [discriminate|]; cbn [bind].
    destruct (collect_children nm (map GOne csgs) (S i)) as [e|after] eqn:E';
      [discriminate|]; cbn [bind].
    intros [= <-].
    destruct (collectGeometries_leaf _ _ _ E) as (unit & -> & Hn).
    cbn [app map]; now rewrite Hn, (IH _ _ E').
Qed.

End StreamProofs.

(** X1. The streams of every mesh unit collected: a unit of triangles has
    nine position floats a triangle and a normal stream as long, a unit of
    lines has six position floats a segment. *)
Theorem mesh_unit_stream_lengths {RT : JsRuntime} g nm units :
  collectGeometries g nm = ok units -> Forall stream_shape units.
Proof.
  apply collectGeometries_Forall.
  - exact convertPolygonGeometry_shape.
  - exact convertSideGeometry_shape.
Qed.

Lemma mesh_unit_stream_lengths_example :
  exists units,
    collectGeometries (RT := Reference.runtime)
      (GMany [GOne square_solid; GOne square_outline]) "part" = ok units
    /\ map (fun u => List.length (positions u)) units = [18; 6]%nat
    /\ Forall stream_shape units.
Proof.
  eexists; split; [vm_compute; reflexivity|]; split; [reflexivity|].
  apply (mesh_unit_stream_lengths (RT := Reference.runtime)
           (GMany [GOne square_solid; GOne square_outline]) "part").
  vm_compute; reflexivity.
Defined.

(** X2. A side gives one segment, from its first point to its last: the
    points between them are not read. A side of fewer than two points, and a
    side that is not an array, give nothing. The segment carries the
    shape-level color at both ends. *)
Theorem side_gives_one_segment {RT : JsRuntime} :
  (forall csg d acc first second between last a b,
      point_of first = ok a -> point_of last = ok b ->
      push_side csg d acc
        (VArray (first :: between ++ [last]))
      = ok (fst acc ++ spread (applyTransform a (transforms csg))
                    ++ spread (applyTransform b (transforms csg)),
            snd acc ++ spread d ++ spread d)
      /\ push_side csg d acc (VArray (first :: between ++ [last]))
         = push_side csg d acc (VArray (first :: second :: between ++ [last])))
  /\ (forall csg d acc, push_side csg d acc (VArray []) = ok acc)
  /\ (forall csg d acc p, push_side csg d acc (VArray [p]) = ok acc)
  /\ (forall csg d acc side,
         (forall pts, side <> VArray pts) -> push_side csg d acc side = ok acc)
  /\ option_map positions
       (match convertSideGeometry (RT := Reference.runtime)
                four_point_shape "outline" with
        | inr unit => Some unit
        | inl _ => None
        end)
     = Some [0; 0; 0; 0; 1; 0]%float.
Proof.
  assert (Hlast : forall (first : value) between last,
             index (first :: between ++ [last])
                   (List.length (first :: between ++ [last]) - 1) = last).
  { intros first between last; unfold index.
    change (first :: between ++ [last]) with ((first :: between) ++ [last]).
    rewrite length_app; cbn [List.length].
    rewrite app_nth2 by (cbn [List.length]; lia).
    cbn [List.length].
    replace (_ - _)%nat with 0%nat by lia; reflexivity. }
  assert (Hlen : forall (first : value) between last,
             (List.length (first :: between ++ [last]) <? 2)%nat = false).
  { intros; apply Nat.ltb_ge; cbn [List.length]; rewrite length_app;
      cbn [List.length]; lia. }
  assert (Hone : forall csg d acc first between last a b,
             point_of first = ok a -> point_of last = ok b ->
             push_side csg d acc (VArray (first :: between ++ [last]))
             = ok (fst acc ++ spread (applyTransform a (transforms csg))
                           ++ spread (applyTransform b (transforms csg)),
                   snd acc ++ spread d ++ spread d)).
  { intros csg d acc first between last a b Ha Hb.
    unfold push_side; rewrite Hlen, Hlast.
    change (index (first :: between ++ [last]) 0) with first.
    rewrite Ha, Hb; reflexivity. }
  repeat apply conj.
  - intros csg d acc first second between last a b Ha Hb.
    split; [now apply Hone|].
    rewrite (Hone csg d acc first between last a b Ha Hb).
    symmetry; apply (Hone csg d acc first (second :: between) last a b Ha Hb).
  - reflexivity.
  - reflexivity.
  - intros csg d acc side H; destruct side; try reflexivity.
    now destruct (H xs).
  - vm_compute; reflexivity.
Qed.

(** X3. The names of the mesh units of a list of geometry values: the base
    name and the index of the value in the list, [name_0], [name_1], ... *)
Theorem units_of_a_list_are_named_by_index {RT : JsRuntime} :
  (forall csg nm units,
      collectGeometries (GOne csg) nm = ok units ->
      exists unit, units = [unit] /\ name unit = nm)
  /\ (forall csgs nm units,
         collectGeometries (GMany (map GOne csgs)) nm = ok units ->
         map name units = map (child_name nm) (seq 0 (List.length csgs)))
  /\ child_name "name" 0 = "name_0"%string
  /\ child_name "name" 1 = "name_1"%string
  /\ child_name (child_name "name" 0) 12 = "name_0_12"%string.
Proof.
  repeat apply conj; try reflexivity.
  - exact collectGeometries_leaf.
  - intros csgs nm units; rewrite collectGeometries_many.
    apply collect_children_leaves.
Qed.

(* ================================================================= *)
(** * The scene graph *)

Lemma map_indexed_map {A B} (f : A -> nat -> B) xs i :
  map_indexed f xs i
  = map (fun p => f (fst p) (snd p)) (combine xs (seq i (List.length xs))).
Proof.
  revert i; induction xs as [|x xs IH]; intros i; cbn; [reflexivity|].
  now rewrite IH.
Qed.

Lemma map_indexed_index {A} (xs : list A) i :
  map_indexed (fun _ idx => Z.of_nat idx) xs i
  = map Z.of_nat (seq i (List.length xs)).
Proof.
  revert i; induction xs as [|x xs IH]; intros i; cbn; [reflexivity|].
  now rewrite IH.
Qed.

Lemma map_indexed_length {A B} (f : A -> nat -> B) xs i :
  List.length (map_indexed f xs i) = List.length xs.
Proof.
  revert i; induction xs as [|x xs IH]; intros i; cbn; [reflexivity|].
  now rewrite IH.
Qed.

Lemma map_indexed_node_names ns i :
  map node_name
      (map_indexed (fun node idx =>
                      {| node_name := node_name node;
                         node_mesh := Z.of_nat idx |}) ns i)
  = map node_name ns.
Proof.
  revert i; induction ns as [|n ns IH]; intros i; cbn; [reflexivity|].
  now rewrite IH.
Qed.

Lemma map_indexed_node_meshes ns i :
  map node_mesh
      (map_indexed (fun node idx =>
                      {| node_name := node_name node;
                         node_mesh := Z.of_nat idx |}) ns i)
  = map Z.of_nat (seq i (List.length ns)).
Proof.
  revert i; induction ns as [|n ns IH]; intros i; cbn; [reflexivity|].
  now rewrite IH.
Qed.

(** What the callback of [forEach] appends for one mesh unit. *)
Lemma pack_geometry_graph st g i :
  exists attrs new_accessors new_views,
    meshes (pack_geometry st g i)
    = meshes st
      ++ [{| mesh_name := name g;
             primitives :=
               [{| attributes := attrs; prim_mode := mode g |}] |}]
    /\ nodes (pack_geometry st g i)
       = nodes st ++ [{| node_name := name g; node_mesh := Z.of_nat i |}]
    /\ accessors (pack_geometry st g i) = accessors st ++ new_accessors
    /\ bufferViews (pack_geometry st g i) = bufferViews st ++ new_views
    /\ map fst attrs = attribute_names g
    /\ List.length new_accessors = stream_count g
    /\ List.length new_views = stream_count g
    /\ Forall (fun bv => bv_buffer bv = 0) new_views
    /\ map acc_bufferView new_accessors
       = map (fun k => Z.of_nat (List.length (bufferViews st) + k))
             (seq 0 (stream_count g))
    /\ map snd attrs
       = map (fun k => Z.of_nat (List.length (accessors st) + k))
             (seq 0 (stream_count g)).
Proof.
  unfold pack_geometry, addBufferView, stream_count, attribute_names.
  cbv zeta.
  destruct (computeMinMax (positions g)) as [mn mx].
  destruct (normals g) as [ns|], (colors g) as [cs|];
    cbn [meshes nodes accessors bufferViews app List.length seq map fst snd];
    do 3 eexists;
    (split; [reflexivity|]); (split; [reflexivity|]);
    (split; [rewrite <- ?app_assoc; reflexivity|]);
    (split; [rewrite <- ?app_assoc; reflexivity|]);
    cbn [app map fst snd List.length acc_bufferView];
    rewrite ?length_app; cbn [List.length];
    repeat split; auto;
    repeat match goal with
           | |- _ :: _ = _ :: _ => apply f_equal2; [lia|]
           end; reflexivity.
Qed.

Lemma pack_geometry_linked st g i : linked st -> linked (pack_geometry st g i).
Proof.
  intros (Hlen & Hb & Hacc & Hmesh).
  destruct (pack_geometry_graph st g i)
    as (attrs & na & nv & Em & _ & Ea & Ev & _ & Hna & Hnv & Hb' & Hav & Hat).
  unfold linked; rewrite Em, Ea, Ev, !length_app, Hna, Hnv.
  repeat split.
  - lia.
  - apply Forall_app; split; assumption.
  - apply Forall_app; split.
    + eapply Forall_impl; [|exact Hacc]; cbn; intros a H; lia.
    + apply Forall_forall; intros a Ha.
      apply (in_map acc_bufferView) in Ha; rewrite Hav in Ha.
      apply in_map_iff in Ha as (k & <- & Hk); apply in_seq in Hk; lia.
  - apply Forall_app; split.
    + eapply Forall_impl; [|exact Hmesh]; cbn; intros m Hm.
      eapply Forall_impl; [|exact Hm]; cbn; intros p Hp.
      eapply Forall_impl; [|exact Hp]; cbn; intros kv H; lia.
    + repeat constructor; cbn [primitives attributes].
      apply Forall_forall; intros kv Hkv.
      apply (in_map snd) in Hkv; rewrite Hat in Hkv.
      apply in_map_iff in Hkv as (k & <- & Hk); apply in_seq in Hk; lia.
Qed.

Lemma forEach_indexed_linked gs i st :
  linked st -> linked (forEach_indexed gs i st).
Proof.
  revert i st; induction gs as [|g gs IH]; intros i st H; cbn; [exact H|].
  apply IH, pack_geometry_linked, H.
Qed.

(** The meshes and the nodes [forEach] leaves. *)
Lemma forEach_indexed_graph gs i st :
  map mesh_name (meshes (forEach_indexed gs i st))
  = map mesh_name (meshes st) ++ map name gs
  /\ map (fun m => map prim_mode (primitives m))
         (meshes (forEach_indexed gs i st))
     = map (fun m => map prim_mode (primitives m)) (meshes st)
       ++ map (fun g => [mode g]) gs
  /\ map (fun m => map (fun p => map fst (attributes p)) (primitives m))
         (meshes (forEach_indexed gs i st))
     = map (fun m => map (fun p => map fst (attributes p)) (primitives m))
           (meshes st)
       ++ map (fun g => [attribute_names g]) gs
  /\ map node_name (nodes (forEach_indexed gs i st))
     = map node_name (nodes st) ++ map name gs
  /\ List.length (accessors (forEach_indexed gs i st))
     = (List.length (accessors st) + list_sum (map stream_count gs))%nat.
Proof.
  revert i st; induction gs as [|g gs IH]; intros i st; cbn [forEach_indexed map].
  - rewrite !app_nil_r; cbn; auto.
  - destruct (IH (S i) (pack_geometry st g i)) as (H1 & H2 & H3 & H4 & H5).
    destruct (pack_geometry_graph st g i)
      as (attrs & na & nv & Em & En & Ea & _ & Hattr & Hna & _).
    rewrite H1, H2, H3, H4, H5, Em, En, Ea, !map_app, !length_app, Hna.
    cbn [map mesh_name node_name primitives prim_mode attributes list_sum
         fold_right].
    rewrite Hattr, <- !app_assoc; cbn [app].
    repeat split; unfold list_sum; cbn [fold_right]; lia.
Qed.

(** X4. The scene graph of the packer: one mesh and one node for each mesh
    unit, in the order of the units and with their names; the mesh of a node
    is the one of its own index; one scene, named [Scene], that lists all the
    nodes in order; each mesh has one primitive, of the topology of its unit,
    whose attributes are [POSITION], then [NORMAL] when the unit has normals,
    then [COLOR_0] when it has colors; and there is one accessor for each
    stream. *)
Theorem scene_graph_follows_units (gs : list GeometryData) :
  let json := fst (buildGltfCore gs) in
  map mesh_name (j_meshes json) = map name gs
  /\ map node_name (j_nodes json) = map name gs
  /\ map node_mesh (j_nodes json) = map Z.of_nat (seq 0 (List.length gs))
  /\ j_scenes json
     = [{| scene_name := "Scene";
           scene_nodes := map Z.of_nat (seq 0 (List.length gs)) |}]
  /\ j_scene json = 0
  /\ map (fun m => map prim_mode (primitives m)) (j_meshes json)
     = map (fun g => [mode g]) gs
  /\ map (fun m => map (fun p => map fst (attributes p)) (primitives m))
         (j_meshes json)
     = map (fun g => [attribute_names g]) gs
  /\ List.length (j_accessors json) = list_sum (map stream_count gs)
  /\ asset_version json = "2.0"%string.
Proof.
  unfold buildGltfCore; cbv zeta.
  destruct (forEach_indexed_graph gs 0 (mkPackState [] [] [] [] [] 0))
    as (H1 & H2 & H3 & H4 & H5).
  set (st := forEach_indexed gs 0 _) in *.
  assert (Hn : List.length (nodes st) = List.length gs).
  { pose proof (f_equal (@List.length _) H4) as E.
    cbn [nodes map app] in E; now rewrite !length_map in E. }
  cbn [meshes nodes accessors map app List.length Nat.add] in H1, H2, H3, H4, H5.
  destruct (bufferLength st <? align (bufferLength st) 4);
    cbn [fst j_meshes j_nodes j_scenes j_scene j_accessors asset_version];
    rewrite map_indexed_index, map_indexed_node_names,
      map_indexed_node_meshes, Hn, H1, H2, H3, H4, H5;
    repeat split; reflexivity.
Qed.

Lemma buildGltfCore_state gs :
  let st := forEach_indexed gs 0 (mkPackState [] [] [] [] [] 0) in
  let json := fst (buildGltfCore gs) in
  j_bufferViews json = bufferViews st
  /\ j_accessors json = accessors st
  /\ j_meshes json = meshes st
  /\ List.length (j_nodes json) = List.length (nodes st)
  /\ map node_mesh (j_nodes json)
     = map Z.of_nat (seq 0 (List.length (nodes st)))
  /\ j_scenes json
     = [{| scene_name := "Scene";
           scene_nodes := map Z.of_nat (seq 0 (List.length (nodes st))) |}]
  /\ j_scene json = 0.
Proof.
  unfold buildGltfCore; cbv zeta.
  set (st := forEach_indexed gs 0 _).
  destruct (bufferLength st <? align (bufferLength st) 4);
    cbn [fst j_bufferViews j_accessors j_meshes j_nodes j_scenes j_scene];
    rewrite map_indexed_index, map_indexed_node_meshes, map_indexed_length;
    repeat split; reflexivity.
Qed.

(** X5. Every index of the scene refers to an entry that exists: a bufferView
    to the one buffer, an accessor to a bufferView, an attribute to an
    accessor, a node to a mesh, the scene to nodes. *)
Theorem scene_indices_are_in_range (gs : list GeometryData) :
  indices_in_range (fst (buildGltfCore gs)).
Proof.
  destruct (buildGltfCore_state gs) as (Ev & Ea & Em & Hln & En & Es & E0).
  destruct (forEach_indexed_graph gs 0 (mkPackState [] [] [] [] [] 0))
    as (H1 & _ & _ & H4 & _).
  destruct (forEach_indexed_linked gs 0 (mkPackState [] [] [] [] [] 0))
    as (_ & Hb & Hacc & Hmesh);
    [repeat split; constructor|].
  set (st := forEach_indexed gs 0 _) in *.
  assert (Hmn : List.length (meshes st) = List.length (nodes st)).
  { pose proof (f_equal (@List.length _) H1) as E1.
    pose proof (f_equal (@List.length _) H4) as E4.
    cbn [meshes nodes map app] in E1, E4.
    rewrite !length_map in E1, E4; congruence. }
  unfold indices_in_range; rewrite Ev, Ea, Em, Es, E0, Hln.
  repeat split; try assumption; try lia.
  - apply Forall_forall; intros n Hn.
    apply (in_map node_mesh) in Hn; rewrite En in Hn.
    apply in_map_iff in Hn as (k & <- & Hk); apply in_seq in Hk; lia.
  - repeat constructor; cbn [scene_nodes].
    apply Forall_forall; intros n Hn.
    apply in_map_iff in Hn as (k & <- & Hk); apply in_seq in Hk; lia.
Qed.

(* ================================================================= *)
(** * Colors *)

Lemma of_Z_zero : Num.of_Z 0 = 0%float.
Proof. vm_compute; reflexivity. Qed.

(** Two digits of radix 16 read as their value, which is a number. *)
Lemma parseInt16_two_digits c0 c1 d0 d1 :
  Str.hex_digit c0 = Some d0 -> Str.hex_digit c1 = Some d1 ->
  Str.parseInt16 (String c0 (String c1 "")) = Num.of_Z (16 * d0 + d1)
  /\ is_nan (Num.of_Z (16 * d0 + d1)) = false.
Proof.
  intros H0 H1.
  destruct c0 as [[] [] [] [] [] [] [] []]; vm_compute in H0;
    try discriminate H0; injection H0 as <-;
    destruct c1 as [[] [] [] [] [] [] [] []]; vm_compute in H1;
    try discriminate H1; injection H1 as <-;
    split; vm_compute; reflexivity.
Qed.

(** A first code unit that is no digit, no sign and no white space leaves
    [parseInt] without a number. *)
Lemma parseInt16_no_digit c rest :
  Str.hex_digit c = None -> Str.is_whitespace c = false ->
  c <> "-"%char -> c <> "+"%char ->
  Str.parseInt16 (String c rest) = nan.
Proof.
  intros Hd Hw Hm Hp.
  destruct c as [[] [] [] [] [] [] [] []];
    try discriminate Hd; try discriminate Hw;
    try (now destruct Hm); try (now destruct Hp);
    unfold Str.parseInt16; cbn [Str.trimStart];
    rewrite ?Hw; cbn; reflexivity.
Qed.

(** X6. Hexadecimal colors. A string whose digits after the first code unit
    are not three, six or eight is no color; the two digits of an alpha
    channel are not read; the short form reads each digit twice; six digits
    of radix 16 give the three values they write, each normalized as a
    channel of an array is; and a field that starts with a code unit that is
    no digit, no sign and no white space makes the string no color. *)
Theorem hex_color_forms {RT : JsRuntime} :
  (forall s,
      String.length (Str.slice_from s 1) <> 3%nat ->
      String.length (Str.slice_from s 1) <> 6%nat ->
      String.length (Str.slice_from s 1) <> 8%nat ->
      parseHexColor s = None)
  /\ (forall h c0 c1 c2 c3 c4 c5 a0 a1,
         parseHexColor
           (String h (String c0 (String c1 (String c2 (String c3
              (String c4 (String c5 (String a0 (String a1 "")))))))))
         = parseHexColor
             (String h (String c0 (String c1 (String c2 (String c3
                (String c4 (String c5 ""))))))))
  /\ (forall h c0 c1 c2,
         parseHexColor (String h (String c0 (String c1 (String c2 ""))))
         = parseHexColor
             (String h (String c0 (String c0 (String c1 (String c1
                (String c2 (String c2 ""))))))))
  /\ (forall h c0 c1 c2 c3 c4 c5 d0 d1 d2 d3 d4 d5,
         Str.hex_digit c0 = Some d0 -> Str.hex_digit c1 = Some d1 ->
         Str.hex_digit c2 = Some d2 -> Str.hex_digit c3 = Some d3 ->
         Str.hex_digit c4 = Some d4 -> Str.hex_digit c5 = Some d5 ->
         parseHexColor
           (String h (String c0 (String c1 (String c2 (String c3
              (String c4 (String c5 "")))))))
         = Some (normalizeColorChannel (Num.of_Z (16 * d0 + d1)),
                 normalizeColorChannel (Num.of_Z (16 * d2 + d3)),
                 normalizeColorChannel (Num.of_Z (16 * d4 + d5))))
  /\ (forall h c0 c1 c2 c3 c4 c5,
         (exists c, In c [c0; c2; c4]
                    /\ Str.hex_digit c = None /\ Str.is_whitespace c = false
                    /\ c <> "-"%char /\ c <> "+"%char) ->
         parseHexColor
           (String h (String c0 (String c1 (String c2 (String c3
              (String c4 (String c5 "")))))))
         = None)
  /\ parseColorValue (VString "#ff0000") = Some (1, 0, 0)%float
  /\ parseColorValue (VString " #F00 ") = Some (1, 0, 0)%float
  /\ parseColorValue (VString "#ff000080") = Some (1, 0, 0)%float
  /\ parseColorValue (VString "#ff00") = None
  /\ parseColorValue (VString "#gg0000") = None.
Proof.
  split; [|split; [|split; [|split; [|split]]]].
  - intros s H3 H6 H8; unfold parseHexColor.
    apply Nat.eqb_neq in H3, H6, H8; now rewrite H3, H6, H8.
  - intros; reflexivity.
  - intros; reflexivity.
  - intros h c0 c1 c2 c3 c4 c5 d0 d1 d2 d3 d4 d5 H0 H1 H2 H3 H4 H5.
    unfold parseHexColor.
    cbn [Str.slice_from Str.slice String.length substring Nat.sub Nat.eqb
         Nat.mul Nat.add negb orb andb append].
    destruct (parseInt16_two_digits c0 c1 d0 d1 H0 H1) as (-> & ->).
    destruct (parseInt16_two_digits c2 c3 d2 d3 H2 H3) as (-> & ->).
    destruct (parseInt16_two_digits c4 c5 d4 d5 H4 H5) as (-> & ->).
    reflexivity.
  - intros h c0 c1 c2 c3 c4 c5 (c & Hin & Hd & Hw & Hm & Hp).
    unfold parseHexColor.
    cbn [Str.slice_from Str.slice String.length substring Nat.sub Nat.eqb
         Nat.mul Nat.add negb orb andb append].
    cbn [In] in Hin.
    destruct Hin as [<-|[<-|[<-|[]]]];
      rewrite (parseInt16_no_digit _ _ Hd Hw Hm Hp);
      change (is_nan nan) with true; cbv beta iota;
      repeat (destruct (is_nan _)); reflexivity.
  - repeat apply conj; vm_compute; reflexivity.
Qed.

(** X7. The color strings of the documentation. On a runtime that reads the
    decimal numerals [255], [100] and [0] as these numbers, the hexadecimal
    form, the array on the 8-bit scale, the [rgb] form and the [rgb] form in
    percentages of pure red all resolve to [(1, 0, 0)], the [rgba] form with
    spaces and an alpha channel too, and a string that is none of these forms
    resolves to no color. *)
Theorem color_forms_agree {RT : JsRuntime} :
  StringToNumber "255" = 255%float ->
  StringToNumber "100" = 100%float ->
  StringToNumber "0" = 0%float ->
  parseColorValue (VString "#ff0000") = Some (1, 0, 0)%float
  /\ parseColorValue (VArray [VNumber 255; VNumber 0; VNumber 0])
     = Some (1, 0, 0)%float
  /\ parseColorValue (VString "rgb(255,0,0)") = Some (1, 0, 0)%float
  /\ parseColorValue (VString "rgb(100%,0%,0%)") = Some (1, 0, 0)%float
  /\ parseColorValue (VString "RGBA( 255 , 0 , 0 , 0 )") = Some (1, 0, 0)%float
  /\ parseColorValue (VString "rgb(255,0)") = None
  /\ parseColorValue (VString "not-a-color") = None.
Proof.
  intros H255 H100 H0.
  repeat apply conj; try (vm_compute; reflexivity);
    cbv -[StringToNumber]; rewrite ?H255, ?H100, ?H0;
    vm_compute; reflexivity.
Qed.

Lemma color_forms_agree_example :
  parseColorValue (RT := Reference.runtime) (VString "rgb(100%,0%,0%)")
  = Some (1, 0, 0)%float
  /\ parseColorValue (RT := Reference.runtime) (VString "not-a-color") = None.
Proof.
  destruct (color_forms_agree (RT := Reference.runtime))
    as (_ & _ & _ & H & _ & _ & H');
    try (vm_compute; reflexivity).
  split; assumption.
Defined.

(* ================================================================= *)
(** * The bounds of the positions *)

Section BoundsProofs.

Import FloatOrder.

Lemma minmax_step_closed values a b c d e f i :
  minmax_step values ((a, b, c), (d, e, f)) i
  = let x := nth i values nan in
    let y := nth (i + 1) values nan in
    let z := nth (i + 2) values nan in
    ((if x <? a then x else a, if y <? b then y else b,
      if z <? c then z else c),
     (if d <? x then x else d, if e <? y then y else e,
      if f <? z then z else f))%float.
Proof.
  unfold minmax_step; cbv zeta.
  destruct (nth i values nan <? a)%float,
    (nth (i + 1) values nan <? b)%float,
    (nth (i + 2) values nan <? c)%float,
    (d <? nth i values nan)%float,
    (e <? nth (i + 1) values nan)%float,
    (f <? nth (i + 2) values nan)%float; reflexivity.
Qed.

Lemma min_update x a :
  is_nan a = false ->
  is_nan (if x <? a then x else a)%float = false
  /\ number_le (if x <? a then x else a)%float a
  /\ (is_nan x = false -> number_le (if x <? a then x else a)%float x).
Proof.
  intros Ha; destruct (x <? a)%float eqn:E.
  - destruct (lt_not_nan _ _ E) as (Hx & _).
    repeat split; auto using lt_le, le_refl.
  - repeat split; auto using le_refl, not_lt_le.
Qed.

Lemma max_update x d :
  is_nan d = false ->
  is_nan (if d <? x then x else d)%float = false
  /\ number_le d (if d <? x then x else d)%float
  /\ (is_nan x = false -> number_le x (if d <? x then x else d)%float).
Proof.
  intros Hd; destruct (d <? x)%float eqn:E.
  - destruct (lt_not_nan _ _ E) as (_ & Hx).
    repeat split; auto using lt_le, le_refl.
  - repeat split; auto using le_refl, not_lt_le.
Qed.

Variable values : Float32Array.
Hypothesis no_nan : Forall (fun x => is_nan x = false) values.

Lemma value_not_nan i :
  (i < List.length values)%nat -> is_nan (nth i values nan) = false.
Proof.
  intros Hi; rewrite Forall_forall in no_nan.
  apply no_nan, nth_In, Hi.
Qed.

Lemma minmax_step_bounds acc k :
  sound acc ->
  sound (minmax_step values acc (3 * k))
  /\ (forall j, (j < 3)%nat ->
        number_le (component (fst (minmax_step values acc (3 * k))) j)
                  (component (fst acc) j)
        /\ number_le (component (snd acc) j)
                     (component (snd (minmax_step values acc (3 * k))) j))
  /\ (forall j, (j < 3)%nat -> (3 * k + j < List.length values)%nat ->
        within values (minmax_step values acc (3 * k)) k j).
Proof.
  destruct acc as [[[a b] c] [[d e] f]]; intros Hs.
  rewrite minmax_step_closed; cbv zeta.
  destruct (Hs 0%nat ltac:(lia)) as (Ha & Hd).
  destruct (Hs 1%nat ltac:(lia)) as (Hb & He).
  destruct (Hs 2%nat ltac:(lia)) as (Hc & Hf).
  cbn [component fst snd spread nth] in Ha, Hb, Hc, Hd, He, Hf.
  destruct (min_update (nth (3 * k) values nan) a Ha) as (A1 & A2 & A3).
  destruct (min_update (nth (3 * k + 1) values nan) b Hb) as (B1 & B2 & B3).
  destruct (min_update (nth (3 * k + 2) values nan) c Hc) as (C1 & C2 & C3).
  destruct (max_update (nth (3 * k) values nan) d Hd) as (D1 & D2 & D3).
  destruct (max_update (nth (3 * k + 1) values nan) e He) as (E1 & E2 & E3).
  destruct (max_update (nth (3 * k + 2) values nan) f Hf) as (F1 & F2 & F3).
  unfold sound, within.
  split; [|split].
  - intros j Hj; destruct j as [|[|[|j']]]; try lia;
      cbn [component fst snd spread nth]; split; assumption.
  - intros j Hj; destruct j as [|[|[|j']]]; try lia;
      cbn [component fst snd spread nth]; split; assumption.
  - intros j Hj Hlen; destruct j as [|[|[|j']]]; try lia;
      cbn [component fst snd spread nth];
      rewrite ?Nat.add_0_r in *;
      split; auto using value_not_nan.
Qed.

Lemma minmax_after_bounds n :
  sound (minmax_after values n)
  /\ forall k j, (k < n)%nat -> (j < 3)%nat ->
                 (3 * k + j < List.length values)%nat ->
                 within values (minmax_after values n) k j.
Proof.
  induction n as [|n (Hs & IH)]; unfold minmax_after.
  - split; [|intros; lia].
    intros j Hj; destruct j as [|[|[|j']]]; try lia;
      split; vm_compute; reflexivity.
  - rewrite seq_S, map_app, fold_left_app; cbn [map fold_left Nat.add].
    fold (minmax_after values n).
    destruct (minmax_step_bounds (minmax_after values n) n Hs)
      as (Hs' & Hmono & Hnew).
    split; [exact Hs'|].
    intros k j Hk Hj Hlen.
    destruct (Nat.eq_dec k n) as [->|Hne]; [now apply Hnew|].
    destruct (IH k j ltac:(lia) Hj Hlen) as (H1 & H2).
    destruct (Hmono j Hj) as (M1 & M2).
    split; eauto using le_trans.
Qed.

Lemma computeMinMax_after :
  computeMinMax values
  = (spread (fst (minmax_after values ((List.length values + 2) / 3))),
     spread (snd (minmax_after values ((List.length values + 2) / 3)))).
Proof.
  unfold computeMinMax, minmax_after.
  now destruct (fold_left _ _ _) as [mn mx].
Qed.

Lemma computeMinMax_bounds i :
  (i < List.length values)%nat ->
  number_le (nth (i mod 3) (fst (computeMinMax values)) nan) (nth i values nan)
  /\ number_le (nth i values nan)
               (nth (i mod 3) (snd (computeMinMax values)) nan).
Proof.
  intros Hi; rewrite computeMinMax_after; cbn [fst snd].
  destruct (minmax_after_bounds ((List.length values + 2) / 3)) as (_ & H).
  pose proof (Nat.div_mod_eq i 3) as Ei.
  pose proof (Nat.mod_upper_bound i 3 ltac:(lia)) as Hj.
  pose proof (Nat.div_mod_eq (List.length values + 2) 3) as El.
  pose proof (Nat.mod_upper_bound (List.length values + 2) 3 ltac:(lia)) as Hl.
  specialize (H (i / 3)%nat (i mod 3)%nat ltac:(lia) Hj ltac:(lia)).
  unfold within in H; rewrite <- Ei in H; exact H.
Qed.

End BoundsProofs.

(** X8. The bounds of a position accessor. When no position is [NaN], every
    component of every vertex lies between the minimum and the maximum
    [computeMinMax] gives for its axis, the ends included. *)
Theorem position_bounds_hold (values : Float32Array) (i : nat) :
  Forall (fun x => is_nan x = false) values ->
  (i < List.length values)%nat ->
  number_le (nth (i mod 3) (fst (computeMinMax values)) nan) (nth i values nan)
  /\ number_le (nth i values nan)
               (nth (i mod 3) (snd (computeMinMax values)) nan).
Proof. intros Hn Hi; now apply computeMinMax_bounds. Qed.

Lemma position_bounds_hold_example :
  computeMinMax [1; 5; -2; 4; -3; 0]%float = ([1; -3; -2], [4; 5; 0])%float
  /\ (number_le (-3) (nth 4 [1; 5; -2; 4; -3; 0] nan))%float
  /\ (number_le (nth 4 [1; 5; -2; 4; -3; 0] nan) 5)%float.
Proof.
  split; [vm_compute; reflexivity|].
  apply (position_bounds_hold [1; 5; -2; 4; -3; 0]%float 4).
  - repeat constructor.
  - cbn; lia.
Defined.

(* ================================================================= *)
(** * The layout of the packed buffer *)

Lemma total_byteLength_app a b :
  total_byteLength (a ++ b) = total_byteLength a + total_byteLength b.
Proof.
  unfold total_byteLength.
  induction a as [|s a IH]; cbn [app fold_right]; [reflexivity|].
  rewrite IH; lia.
Qed.

Lemma total_byteLength_aligned streams :
  0 <= total_byteLength streams /\ total_byteLength streams mod 4 = 0.
Proof.
  unfold total_byteLength.
  induction streams as [|s streams (H0 & Hm)]; cbn [fold_right];
    [split; [lia|reflexivity]|].
  unfold Float32Array_byteLength at 1 3.
  split; [lia|].
  rewrite Z.add_comm, Z.mul_comm, Z_mod_plus_full; exact Hm.
Qed.

Lemma total_byteLength_bytes streams :
  Buffer_length (flat_map Float32Array_bytes streams)
  = total_byteLength streams.
Proof.
  induction streams as [|s streams IH]; cbn [flat_map]; [reflexivity|].
  rewrite Buffer_length_app, Float32Array_bytes_length, IH; reflexivity.
Qed.

Lemma views_of_app a b offset :
  views_of (a ++ b) offset
  = views_of a offset ++ views_of b (offset + total_byteLength a).
Proof.
  unfold total_byteLength.
  revert offset; induction a as [|s a IH]; intros offset;
    cbn [app views_of fold_right].
  - now rewrite Z.add_0_r.
  - rewrite IH; do 3 f_equal; lia.
Qed.

Lemma views_of_length streams offset :
  List.length (views_of streams offset) = List.length streams.
Proof.
  revert offset; induction streams as [|s streams IH]; intros; cbn;
    [reflexivity|now rewrite IH].
Qed.

(** At an aligned length [addBufferView] pads nothing. *)
Lemma addBufferView_aligned chunks views data cur tgt :
  0 <= cur -> cur mod 4 = 0 ->
  addBufferView chunks views data cur tgt
  = (chunks ++ [Float32Array_bytes data],
     views ++ [{| bv_buffer := 0;
                  byteOffset := cur;
                  byteLength := Float32Array_byteLength data;
                  target := tgt |}],
     (Z.of_nat (List.length views), cur + Float32Array_byteLength data)).
Proof.
  intros H0 Hm; unfold addBufferView, align.
  rewrite Z.rem_mod_nonneg, Hm by lia; cbn [Z.eqb].
  rewrite Z.sub_diag; cbn [Z.ltb Z.compare].
  rewrite length_app; cbn [List.length].
  do 2 f_equal; lia.
Qed.

Lemma aligned_add cur data :
  0 <= cur -> cur mod 4 = 0 ->
  0 <= cur + Float32Array_byteLength data
  /\ (cur + Float32Array_byteLength data) mod 4 = 0.
Proof.
  intros H0 Hm; unfold Float32Array_byteLength; split; [lia|].
  rewrite Z.mul_comm, Z_mod_plus_full; exact Hm.
Qed.

(** The entries of two lists, one by one. *)
Ltac entries :=
  repeat match goal with
         | |- _ :: _ = _ :: _ => apply f_equal2; [try reflexivity; try lia|]
         | |- _ ++ _ :: _ = _ ++ _ :: _ => apply f_equal2; [reflexivity|]
         end;
  try reflexivity.

Ltac appended :=
  eexists; cbn [bufferChunks bufferViews bufferLength accessors];
  split; [|split; [|split; [|split; [|split]]]];
  [ rewrite !concat_app; cbn [List.concat flat_map app];
    rewrite ?app_nil_r, <- ?app_assoc; reflexivity
  | rewrite <- ?app_assoc; cbn [app views_of]; entries
  | unfold total_byteLength; cbn [app fold_right]; lia
  | rewrite <- ?app_assoc; cbn [app]; reflexivity
  | unfold accessors_follow;
    cbn [app map seq List.length count acc_bufferView];
    rewrite ?length_app; cbn [List.length];
    split; [reflexivity|split; [entries|repeat constructor]]
  | reflexivity ].

(** What the callback of [forEach] appends at an aligned length. *)
Lemma pack_geometry_aligned st g i :
  0 <= bufferLength st -> bufferLength st mod 4 = 0 ->
  exists new,
    List.concat (bufferChunks (pack_geometry st g i))
    = List.concat (bufferChunks st)
      ++ flat_map Float32Array_bytes (unit_streams g)
    /\ bufferViews (pack_geometry st g i)
       = bufferViews st ++ views_of (unit_streams g) (bufferLength st)
    /\ bufferLength (pack_geometry st g i)
       = bufferLength st + total_byteLength (unit_streams g)
    /\ accessors (pack_geometry st g i) = accessors st ++ new
    /\ accessors_follow new (unit_streams g) (List.length (bufferViews st))
    /\ map accessor_bounds new = unit_bounds g.
Proof.
  intros H0 Hm; unfold pack_geometry, unit_streams, unit_bounds.
  rewrite addBufferView_aligned by assumption; cbv beta iota.
  destruct (aligned_add _ (positions g) H0 Hm) as (H1 & Hm1).
  destruct (computeMinMax (positions g)) as [mn mx]; cbn [fst snd].
  destruct (normals g) as [ns|].
  - rewrite addBufferView_aligned by assumption; cbv beta iota.
    destruct (aligned_add _ ns H1 Hm1) as (H2 & Hm2).
    destruct (colors g) as [cs|].
    + rewrite addBufferView_aligned by assumption; cbv beta iota.
      appended.
    + appended.
  - destruct (colors g) as [cs|].
    + rewrite addBufferView_aligned by assumption; cbv beta iota.
      appended.
    + appended.
Qed.

Lemma seq_offset a n : seq a n = map (fun k => (a + k)%nat) (seq 0 n).
Proof.
  revert a; induction n as [|n IH]; intros a; cbn [seq map]; [reflexivity|].
  rewrite Nat.add_0_r; f_equal.
  rewrite <- (seq_shift n 0), map_map, (IH (S a)).
  apply map_ext; intros k; lia.
Qed.

Lemma accessors_follow_app a b sa sb :
  accessors_follow a sa 0 ->
  accessors_follow b sb (List.length sa) ->
  accessors_follow (a ++ b) (sa ++ sb) 0.
Proof.
  intros (A1 & A2 & A3) (B1 & B2 & B3); unfold accessors_follow.
  rewrite !map_app, A1, A2, B1, B2, length_app, seq_app, map_app.
  repeat split; [|apply Forall_app; split; assumption].
  f_equal; cbn [Nat.add].
  now rewrite (seq_offset (List.length sa)), map_map.
Qed.

Lemma forEach_indexed_laid_out gs i st done :
  laid_out st done ->
  laid_out (forEach_indexed gs i st) (done ++ gs).
Proof.
  revert i st done; induction gs as [|g gs IH]; intros i st done H;
    cbn [forEach_indexed].
  - now rewrite app_nil_r.
  - replace (done ++ g :: gs) with ((done ++ [g]) ++ gs)
      by (now rewrite <- app_assoc).
    apply IH.
    destruct H as (Hl & Hc & Hv & Ha & Hb).
    destruct (total_byteLength_aligned (flat_map unit_streams done))
      as (H0 & Hm).
    rewrite <- Hl in H0, Hm.
    destruct (pack_geometry_aligned st g i H0 Hm)
      as (new & Ec & Ev & El & Ea & Hf & Hn).
    unfold laid_out.
    rewrite Ec, Ev, El, Ea, !flat_map_app; cbn [flat_map].
    rewrite !app_nil_r, total_byteLength_app, views_of_app,
      map_app, Hc, Hv, Hl, Hb, Hn, Z.add_0_l.
    split; [reflexivity|split; [reflexivity|split; [reflexivity|]]].
    split; [|reflexivity].
    apply accessors_follow_app; [exact Ha|].
    now rewrite <- (views_of_length _ 0), <- Hv.
Qed.

(** The scene and the bytes the packer gives, stream by stream. *)
Lemma buildGltfCore_laid_out gs :
  snd (buildGltfCore gs)
  = flat_map Float32Array_bytes (flat_map unit_streams gs)
  /\ j_buffers (fst (buildGltfCore gs))
     = [total_byteLength (flat_map unit_streams gs)]
  /\ j_bufferViews (fst (buildGltfCore gs))
     = views_of (flat_map unit_streams gs) 0
  /\ accessors_follow (j_accessors (fst (buildGltfCore gs)))
       (flat_map unit_streams gs) 0
  /\ map accessor_bounds (j_accessors (fst (buildGltfCore gs)))
     = flat_map unit_bounds gs.
Proof.
  destruct (forEach_indexed_laid_out gs 0 (mkPackState [] [] [] [] [] 0) [])
    as (Hl & Hc & Hv & Ha & Hb).
  { repeat split; constructor. }
  cbn [app] in *.
  unfold buildGltfCore; cbv zeta.
  set (st := forEach_indexed gs 0 _) in *.
  destruct (total_byteLength_aligned (flat_map unit_streams gs)) as (H0 & Hm).
  assert (E : align (bufferLength st) 4 = bufferLength st).
  { unfold align; rewrite Z.rem_mod_nonneg, Hl, Hm by lia; reflexivity. }
  rewrite E, Z.ltb_irrefl; cbn [fst snd j_buffers j_bufferViews j_accessors].
  rewrite Buffer_concat_to_exact
    by (now rewrite Hc, total_byteLength_bytes).
  rewrite Hc, Hl, Hv, Hb; repeat split; apply Ha.
Qed.

(** X9. The layout of the packed buffer. The streams of the mesh units, the
    positions of a unit and then its normals and its colors when it has them,
    lie end to end in the packed bytes, each as the little-endian binary32
    values of its floats, with no byte between them and none after them; the
    bufferViews give their offsets and their byte lengths in that order, all
    with the vertex-buffer target; the accessor of index [k] reads the
    bufferView of index [k] as vectors of three 32-bit floats and counts the
    third of the length of its stream; and the position accessor of a unit,
    and no other, carries bounds, those [computeMinMax] gives for the
    positions. *)
Theorem packed_buffer_layout (gs : list GeometryData) :
  let json := fst (buildGltfCore gs) in
  let streams := flat_map unit_streams gs in
  snd (buildGltfCore gs) = flat_map Float32Array_bytes streams
  /\ j_buffers json = [total_byteLength streams]
  /\ j_bufferViews json = views_of streams 0
  /\ map count (j_accessors json) = map vertex_count streams
  /\ map acc_bufferView (j_accessors json)
     = map Z.of_nat (seq 0 (List.length streams))
  /\ Forall float_vec3 (j_accessors json)
  /\ map accessor_bounds (j_accessors json) = flat_map unit_bounds gs.
Proof.
  destruct (buildGltfCore_laid_out gs) as (H1 & H2 & H3 & (H4 & H5 & H6) & H7).
  cbv zeta; repeat split; assumption.
Qed.

Lemma views_of_slices streams before offset :
  offset = Buffer_length before ->
  forall k stream,
    nth_error streams k = Some stream ->
    exists view,
      nth_error (views_of streams offset) k = Some view
      /\ firstn (Z.to_nat (byteLength view))
                (skipn (Z.to_nat (byteOffset view))
                       (before ++ flat_map Float32Array_bytes streams))
         = Float32Array_bytes stream.
Proof.
  revert before offset; induction streams as [|s streams IH];
    intros before offset Ho k stream Hk.
  - destruct k; discriminate.
  - destruct k as [|k]; cbn [nth_error views_of flat_map] in *.
    + injection Hk as <-; eexists; split; [reflexivity|].
      cbn [byteLength byteOffset].
      rewrite Ho; unfold Buffer_length; rewrite Nat2Z.id.
      rewrite skipn_app, skipn_all, Nat.sub_diag; cbn [app skipn].
      rewrite <- Float32Array_bytes_length; unfold Buffer_length.
      rewrite Nat2Z.id, firstn_app, firstn_all, Nat.sub_diag.
      cbn [firstn]; now rewrite app_nil_r.
    + destruct (IH (before ++ Float32Array_bytes s)
                  (offset + Float32Array_byteLength s)
                  ltac:(rewrite Buffer_length_app, Float32Array_bytes_length;
                        lia) k stream Hk) as (view & Hv & Hs).
      exists view; split; [exact Hv|].
      now rewrite <- app_assoc in Hs.
Qed.

(** X10. What a reader of the scene finds in the packed bytes: the bytes from
    the offset of the bufferView of index [k], as many as its byte length,
    are those of the stream of index [k]. *)
Theorem views_address_their_streams (gs : list GeometryData) k stream :
  nth_error (flat_map unit_streams gs) k = Some stream ->
  exists view,
    nth_error (j_bufferViews (fst (buildGltfCore gs))) k = Some view
    /\ firstn (Z.to_nat (byteLength view))
              (skipn (Z.to_nat (byteOffset view)) (snd (buildGltfCore gs)))
       = Float32Array_bytes stream.
Proof.
  intros Hk.
  destruct (buildGltfCore_laid_out gs) as (-> & _ & -> & _).
  apply (views_of_slices _ [] 0 eq_refl k stream Hk).
Qed.

Lemma views_address_their_streams_example :
  exists stream view,
    nth_error (flat_map unit_streams example_units) 4 = Some stream
    /\ nth_error (j_bufferViews (fst (buildGltfCore example_units))) 4
       = Some view
    /\ byteOffset view = 240 /\ byteLength view = 24
    /\ firstn 24 (skipn 240 (snd (buildGltfCore example_units)))
       = Float32Array_bytes stream.
Proof.
  destruct (views_address_their_streams example_units 4
              [1; 1; 1; 1; 1; 1]%float) as (view & Hv & Hs);
    [vm_compute; reflexivity|].
  exists [1; 1; 1; 1; 1; 1]%float, view.
  split; [vm_compute; reflexivity|]; split; [exact Hv|].
  assert (E : view = {| bv_buffer := 0; byteOffset := 240; byteLength := 24;
                        target := Some ARRAY_BUFFER |}).
  { vm_compute in Hv; now injection Hv as <-. }
  subst view; repeat split; exact Hs.
Defined.

(* ================================================================= *)
(** * The range of the resolved colors *)

Section RangeProofs.

Import FloatOrder.

Context {RT : JsRuntime}.

Lemma finite_not_nan x : is_finite x = true -> is_nan x = false.
Proof.
  unfold is_finite; destruct (is_nan x); [discriminate|reflexivity].
Qed.

Lemma zero_unit : unit_channel 0.
Proof. split; vm_compute; reflexivity. Qed.

Lemma one_unit : unit_channel 1.
Proof. split; vm_compute; reflexivity. Qed.

(** [Math.min(r, 1)] of a number that is not below [0]. *)
Lemma Math_min_unit r :
  number_le 0 r -> unit_channel (Num.Math_min r 1).
Proof.
  intros H0.
  assert (Hn : is_nan r = false) by (apply number_le_rank in H0; tauto).
  unfold Num.Math_min; rewrite Hn, is_nan_one; cbn [orb].
  destruct (r <? 1)%float eqn:Hlt; [split; auto using lt_le|].
  destruct (1 <? r)%float eqn:Hgt; [exact one_unit|].
  destruct (get_sign r); [|exact one_unit].
  split; [exact H0|].
  apply not_lt_le; auto using is_nan_one.
Qed.

(** [Math.max(a, 0)] of a number. *)
Lemma Math_max_zero a :
  is_nan a = false -> number_le 0 (Num.Math_max a 0).
Proof.
  intros Hn; unfold Num.Math_max; rewrite Hn.
  change (is_nan 0) with false; cbn [orb].
  assert (H00 : number_le 0 0) by (vm_compute; reflexivity).
  destruct (a <? 0)%float eqn:Hlt; [exact H00|].
  destruct (0 <? a)%float eqn:Hgt; [now apply lt_le|].
  destruct (get_sign a); [exact H00|].
  apply not_lt_le; auto.
Qed.

Lemma normalizeColorChannel_unit x : unit_channel (normalizeColorChannel x).
Proof.
  unfold normalizeColorChannel, Num.isFinite.
  destruct (is_finite x) eqn:Hf; cbn [negb]; [|exact zero_unit].
  destruct (x <? 0)%float eqn:Hneg; [exact zero_unit|].
  destruct (1 <? x)%float eqn:Hbig.
  - destruct (Math_min_one_bounds (x / 255) (div_255_nonneg x Hf Hbig))
      as (_ & H0 & H1).
    split; assumption.
  - pose proof (finite_not_nan x Hf) as Hn.
    split; apply not_lt_le; auto using is_nan_one.
Qed.

(** The quotient of a finite number by a finite number that is not zero
    is a number. *)
Lemma binary_round_aux_not_nan pr em s m e l :
  0 <= m -> binary_round_aux pr em s m e l <> S754_nan.
Proof.
  intros H; unfold binary_round_aux.
  pose proof (shr_fexp_nonneg pr em m e l H) as H1.
  destruct (shr_fexp pr em m e l) as [mrs' e']; simpl in H1.
  pose proof (shr_fexp_nonneg pr em
                (round_nearest_even (shr_m mrs') (loc_of_shr_record mrs'))
                e' loc_Exact (round_nearest_even_nonneg _ _ H1)) as H2.
  destruct (shr_fexp pr em _ e' loc_Exact) as [mrs'' e'']; simpl in H2.
  destruct (shr_m mrs'') as [|p|p]; try discriminate; try lia.
  destruct (e'' <=? em - pr); discriminate.
Qed.

Lemma SFdiv_not_nan sx mx ex sy my ey :
  SF64div (S754_finite sx mx ex) (S754_finite sy my ey) <> S754_nan.
Proof.
  unfold SF64div, SFdiv.
  destruct (SFdiv_core_binary prec emax (Z.pos mx) ex (Z.pos my) ey)
    as [[mz ez] lz] eqn:E.
  apply binary_round_aux_not_nan.
  unfold SFdiv_core_binary in E.
  set (s := ex - ey - _) in E.
  set (m' := match s with Z0 => _ | Zpos _ => _ | Zneg _ => _ end) in E.
  assert (Hm : 0 <= m').
  { subst m'; destruct s; try lia. apply Z.shiftl_nonneg; lia. }
  pose proof (Z_div_mod m' (Z.pos my) ltac:(lia)) as D.
  destruct (Z.div_eucl m' (Z.pos my)) as [q r].
  injection E as <- _ _. nia.
Qed.

Lemma Prim2SF_100 : Prim2SF 100 = S754_finite false 7036874417766400 (-46).
Proof. vm_compute; reflexivity. Qed.

Lemma percent_not_nan x : is_finite x = true -> is_nan (x / 100) = false.
Proof.
  intros Hf; apply Prim2SF_nan.
  rewrite div_spec, Prim2SF_100.
  unfold is_finite in Hf; rewrite is_nan_spec, is_infinity_spec in Hf.
  destruct (Prim2SF x) as [s|s| |s m e].
  - destruct s; cbn; discriminate.
  - destruct s; cbn in Hf; discriminate Hf.
  - cbn in Hf; discriminate Hf.
  - apply SFdiv_not_nan.
Qed.

Lemma toChannel_unit part c : toChannel part = Some c -> unit_channel c.
Proof.
  unfold toChannel, Num.isFinite.
  destruct (Str.endsWith part "%").
  - destruct (is_finite (StringToNumber _)) eqn:Hf; cbn [negb];
      [|discriminate].
    intros [= <-].
    apply Math_min_unit, Math_max_zero, percent_not_nan, Hf.
  - destruct (is_finite (StringToNumber part)); cbn [negb]; [|discriminate].
    intros [= <-]; apply normalizeColorChannel_unit.
Qed.

Lemma parseColorArray_unit v r g b :
  parseColorArray v = Some (r, g, b) ->
  unit_channel r /\ unit_channel g /\ unit_channel b.
Proof.
  unfold parseColorArray; destruct v; try discriminate.
  destruct (_ <? 3)%nat; [discriminate|].
  destruct (existsb _ _); [discriminate|].
  intros [= <- <- <-]; auto using normalizeColorChannel_unit.
Qed.

Lemma parseHexColor_unit s r g b :
  parseHexColor s = Some (r, g, b) ->
  unit_channel r /\ unit_channel g /\ unit_channel b.
Proof.
  unfold parseHexColor.
  destruct (negb _ && negb _); [discriminate|].
  repeat (destruct (is_nan _); [discriminate|]).
  intros [= <- <- <-]; auto using normalizeColorChannel_unit.
Qed.

Lemma parseRgbColor_unit s r g b :
  parseRgbColor s = Some (r, g, b) ->
  unit_channel r /\ unit_channel g /\ unit_channel b.
Proof.
  unfold parseRgbColor.
  destruct (match_rgb s) as [partsSource|]; [|discriminate].
  destruct (_ =? 0)%nat; [discriminate|].
  destruct (_ <? 3)%nat; [discriminate|].
  destruct (firstn 3 _) as [|p0 [|p1 [|p2 [|p3 ps]]]]; cbn [map];
    try discriminate;
    try (destruct (toChannel p0); discriminate);
    try (destruct (toChannel p0), (toChannel p1); discriminate).
  - destruct (toChannel p0) as [c0|] eqn:E0; [|discriminate].
    destruct (toChannel p1) as [c1|] eqn:E1; [|discriminate].
    destruct (toChannel p2) as [c2|] eqn:E2; [|discriminate].
    intros [= <- <- <-]; repeat split; eapply toChannel_unit; eassumption.
  - destruct (toChannel p0), (toChannel p1), (toChannel p2),
      (toChannel p3); discriminate.
Qed.

Lemma parseColorValue_unit v r g b :
  parseColorValue v = Some (r, g, b) ->
  unit_channel r /\ unit_channel g /\ unit_channel b.
Proof.
  unfold parseColorValue.
  destruct (parseColorArray v) as [[[r' g'] b']|] eqn:E.
  - destruct v; try discriminate; intros [= <- <- <-];
      now apply (parseColorArray_unit _ _ _ _ E).
  - destruct v; try discriminate.
    destruct (_ =? 0)%nat; [discriminate|].
    destruct (Str.startsWith _ _).
    + apply parseHexColor_unit.
    + apply parseRgbColor_unit.
Qed.

Lemma unit_channel_finite c : unit_channel c -> is_finite c = true.
Proof. intros (H0 & H1); now destruct (unit_interval_kept c H0 H1). Qed.

End RangeProofs.

(** X11. The color resolver answers a normalized triple or nothing: each
    channel of a resolved color, from an array, a hexadecimal string or an
    [rgb] string, lies between [0] and [1]. *)
Theorem resolved_colors_are_normalized {RT : JsRuntime} v r g b :
  parseColorValue v = Some (r, g, b) ->
  unit_channel r /\ unit_channel g /\ unit_channel b.
Proof. apply parseColorValue_unit. Qed.

Lemma resolved_colors_are_normalized_example :
  parseColorValue (RT := Reference.runtime)
    (VArray [VNumber 300; VNumber (-4); VNumber 51])
  = Some (1, 0, 51 / 255)%float
  /\ unit_channel (51 / 255)%float.
Proof.
  split; [vm_compute; reflexivity|].
  apply (resolved_colors_are_normalized (RT := Reference.runtime)
           (VArray [VNumber 300; VNumber (-4); VNumber 51]) 1 0).
  vm_compute; reflexivity.
Defined.

(* ================================================================= *)
(** * The colors of the vertices and of the shape *)

Section ShapeColorProofs.

Context {RT : JsRuntime}.

Lemma fround_one : Num.fround 1 = 1%float.
Proof. vm_compute; reflexivity. Qed.

Lemma colorless_vertices d vs :
  Forall colorless vs -> vertex_colors d vs = map (fun _ => d) vs.
Proof.
  induction 1 as [|v vs Hv _ IH]; cbn [vertex_colors map]; [reflexivity|].
  unfold vertex_colors in IH; rewrite IH.
  unfold extractVertexColor; unfold colorless in Hv; now rewrite Hv.
Qed.

Lemma nth_constant {A B} (d : B) (xs : list A) i :
  nth i (map (fun _ => d) xs) d = d.
Proof.
  revert i; induction xs as [|x xs IH]; intros [|i]; cbn; auto.
Qed.

Lemma colorless_polygon_colors p :
  Forall colorless (polygon_vertices p) ->
  Forall (eq 1%float) (polygon_colors white p).
Proof.
  intros H; unfold polygon_colors.
  rewrite (colorless_vertices white _ H).
  induction (polygon_triangles p) as [|[[i j] k] ts IH]; cbn [flat_map];
    [constructor|].
  apply Forall_app; split; [|exact IH].
  unfold corner_values; rewrite !nth_constant.
  repeat constructor.
Qed.

Lemma colorless_colors ps :
  Forall (fun p => Forall colorless (polygon_vertices p)) ps ->
  Forall (eq 1%float) (flat_map (polygon_colors white) ps).
Proof.
  induction 1 as [|q qs Hq _ IH]; cbn [flat_map]; [constructor|].
  apply Forall_app; split; [now apply colorless_polygon_colors|exact IH].
Qed.

Lemma push_side_white csg acc side acc' :
  push_side csg white acc side = ok acc' ->
  Forall (eq 1%float) (snd acc) -> Forall (eq 1%float) (snd acc').
Proof.
  unfold push_side.
  destruct side; try (intros [= <-]; auto).
  destruct (List.length xs <? 2)%nat; [intros [= <-]; auto|].
  destruct (point_of _) as [e|startPoint]; [discriminate|].
  destruct (point_of _) as [e|endPoint]; [discriminate|].
  cbn [bind]; intros [= <-] H; cbn [snd].
  apply Forall_app; split; [exact H|repeat constructor].
Qed.

Lemma for_each_push_side_white csg ss acc acc' :
  for_each (push_side csg white) ss acc = ok acc' ->
  Forall (eq 1%float) (snd acc) -> Forall (eq 1%float) (snd acc').
Proof.
  revert acc; induction ss as [|s ss IH]; intros acc; cbn [for_each].
  - intros [= <-]; auto.
  - destruct (push_side csg white acc s) as [e|acc1] eqn:E; [discriminate|].
    cbn [bind]; intros H Hl.
    apply (IH acc1 H), (push_side_white csg acc s acc1 E Hl).
Qed.

Lemma new_Float32Array_ones xs :
  Forall (eq 1%float) xs -> Forall (eq 1%float) (new_Float32Array xs).
Proof.
  induction 1 as [|x xs <- _ IH]; cbn [new_Float32Array map];
    constructor; [now rewrite fround_one|exact IH].
Qed.

End ShapeColorProofs.

(** X12. With no color on the shape and none on its vertices every vertex is
    white: the color stream of the unit of a polygon-bearing object of which
    no vertex gives a color, and that of the unit of a side-bearing object,
    hold the number [1] only. *)
Theorem colorless_shapes_are_white {RT : JsRuntime} :
  (forall csg nm unit,
      truthy (color csg) = false ->
      (forall ps, polygons csg = Some ps ->
                  Forall (fun p => Forall colorless (polygon_vertices p)) ps) ->
      convertPolygonGeometry csg nm = ok unit ->
      exists cs, colors unit = Some cs
                 /\ List.length cs = List.length (positions unit)
                 /\ Forall (eq 1%float) cs)
  /\ (forall csg nm unit,
         truthy (color csg) = false ->
         convertSideGeometry csg nm = ok unit ->
         exists cs, colors unit = Some cs
                    /\ List.length cs = List.length (positions unit)
                    /\ Forall (eq 1%float) cs)
  /\ Forall colorless square_points
  /\ option_map colors
       (match convertPolygonGeometry (RT := Reference.runtime)
                square_solid "cube" with
        | inr unit => Some unit
        | inl _ => None
        end)
     = Some (Some (repeat 1%float 18)).
Proof.
  split; [|split; [|split]].
  - intros csg nm unit Hc Hv Hu.
    destruct (convertPolygonGeometry_well_streamed csg nm unit Hu)
      as ((cs & Ecs & Hlen) & _).
    exists cs; split; [exact Ecs|]; split; [exact Hlen|].
    destruct (polygons csg) as [[|p ps]|] eqn:Hp;
      try (unfold convertPolygonGeometry in Hu; rewrite Hp in Hu;
           discriminate).
    rewrite (convertPolygonGeometry_streams csg nm p ps Hp) in Hu.
    destruct (flat_map polygon_triangles (p :: ps)); [discriminate|].
    injection Hu as <-; cbn [colors] in Ecs.
    unfold defaultColor_of in Ecs; rewrite Hc in Ecs.
    injection Ecs as <-.
    apply new_Float32Array_ones.
    apply (colorless_colors (p :: ps)), Hv; reflexivity.
  - intros csg nm unit Hc Hu.
    destruct (convertSideGeometry_well_streamed csg nm unit Hu)
      as ((cs & Ecs & Hlen) & _).
    exists cs; split; [exact Ecs|]; split; [exact Hlen|].
    unfold convertSideGeometry in Hu.
    destruct (sides csg) as [[|s ss]|]; try discriminate.
    unfold defaultColor_of in Hu; rewrite Hc in Hu.
    destruct (for_each _ _ _) as [e|acc] eqn:E; [discriminate|];
      cbn [bind] in Hu.
    pose proof (for_each_push_side_white _ _ _ _ E (Forall_nil _)) as Hw.
    destruct (_ =? 0)%nat in Hu; [discriminate|].
    injection Hu as <-; cbn [colors] in Ecs.
    destruct (negb _) in Ecs; [|discriminate].
    injection Ecs as <-.
    now apply new_Float32Array_ones.
  - repeat constructor.
  - vm_compute; reflexivity.
Qed.

(** X13. The shape-level color falls back in order: the hint of the call when
    it resolves, then the color of the geometry object when that resolves,
    then white. A color that resolved is what the converters then take as the
    default of the shape; a shape whose color is missing, or is present and
    is no array of three elements, is white. *)
Theorem shape_color_falls_back {RT : JsRuntime} :
  (forall geom hint c,
      parseColorValue hint = Some c ->
      color (ensureColorTupleOnCsg geom hint) = color_value c
      /\ defaultColor_of (ensureColorTupleOnCsg geom hint) = c)
  /\ (forall geom hint c,
         parseColorValue hint = None ->
         parseColorValue (color geom) = Some c ->
         color (ensureColorTupleOnCsg geom hint) = color_value c
         /\ defaultColor_of (ensureColorTupleOnCsg geom hint) = c)
  /\ (forall geom hint,
         parseColorValue hint = None ->
         parseColorValue (color geom) = None ->
         ensureColorTupleOnCsg geom hint = geom)
  /\ (forall geom hint,
         polygons (ensureColorTupleOnCsg geom hint) = polygons geom
         /\ sides (ensureColorTupleOnCsg geom hint) = sides geom
         /\ transforms (ensureColorTupleOnCsg geom hint) = transforms geom)
  /\ (forall csg, truthy (color csg) = false -> defaultColor_of csg = white)
  /\ (forall csg, array_of_3 (color csg) = None -> defaultColor_of csg = white).
Proof.
  assert (Hset : forall geom r g b,
             unit_channel r -> unit_channel g -> unit_channel b ->
             defaultColor_of
               {| polygons := polygons geom;
                  sides := sides geom;
                  color := color_value (r, g, b);
                  transforms := transforms geom |} = (r, g, b)).
  { intros geom r g b Hr Hg Hb.
    unfold defaultColor_of; cbn [color color_value truthy toColorTuple
                                 List.length Nat.leb index nth Number white].
    unfold Num.isFinite.
    now rewrite !unit_channel_finite. }
  repeat apply conj.
  - intros geom hint [[r g] b] H; unfold ensureColorTupleOnCsg; rewrite H.
    destruct (parseColorValue_unit _ _ _ _ H) as (Hr & Hg & Hb).
    split; [reflexivity|now apply Hset].
  - intros geom hint [[r g] b] Hn H; unfold ensureColorTupleOnCsg.
    rewrite Hn, H.
    destruct (parseColorValue_unit _ _ _ _ H) as (Hr & Hg & Hb).
    split; [reflexivity|now apply Hset].
  - intros geom hint Hn H; unfold ensureColorTupleOnCsg; now rewrite Hn, H.
  - intros geom hint; unfold ensureColorTupleOnCsg.
    destruct (parseColorValue hint) as [[[r g] b]|];
      [|destruct (parseColorValue (color geom)) as [[[r g] b]|]];
      repeat split.
  - intros csg H; unfold defaultColor_of; now rewrite H.
  - intros csg H; unfold defaultColor_of, toColorTuple.
    destruct (truthy (color csg)); [|reflexivity].
    unfold array_of_3 in H.
    destruct (color csg); try reflexivity.
    destruct (3 <=? List.length xs)%nat; [discriminate|reflexivity].
Qed.

(** X14. An object that gives no triangle and one that gives no segment fail:
    an empty list of polygons or of sides is refused at once, and a list of
    which every polygon has fewer than three vertices, or every side fewer
    than two points, gives the failure of an empty triangulation, never an
    empty mesh unit. *)
Theorem degenerate_shapes_fail {RT : JsRuntime} :
  (forall csg nm,
      polygons csg = Some [] ->
      convertPolygonGeometry csg nm = throw ExpectedPolygonData)
  /\ (forall csg nm p ps,
         polygons csg = Some (p :: ps) ->
         Forall (fun q => vertices q = None
                          \/ exists vs, vertices q = Some vs
                                        /\ (List.length vs < 3)%nat)
                (p :: ps) ->
         convertPolygonGeometry csg nm = throw EmptyTriangleMesh)
  /\ (forall csg nm,
         sides csg = Some [] ->
         convertSideGeometry csg nm = throw ExpectedSideData)
  /\ (forall csg nm s ss,
         sides csg = Some (s :: ss) ->
         Forall (fun side => forall pts, side = VArray pts ->
                                         (List.length pts < 2)%nat)
                (s :: ss) ->
         convertSideGeometry csg nm = throw EmptyLineGeometry)
  /\ (forall csg nm unit,
         convertPolygonGeometry csg nm = ok unit -> positions unit <> [])
  /\ (forall csg nm unit,
         convertSideGeometry csg nm = ok unit -> positions unit <> []).
Proof.
  repeat apply conj.
  - intros csg nm H; unfold convertPolygonGeometry; now rewrite H.
  - intros csg nm p ps Hp Hall.
    rewrite (convertPolygonGeometry_streams csg nm p ps Hp).
    assert (E : flat_map polygon_triangles (p :: ps) = []).
    { clear Hp.
      induction Hall as [|q qs Hq _ IH]; cbn [flat_map]; [reflexivity|].
      rewrite IH, app_nil_r; unfold polygon_triangles.
      destruct Hq as [->|(vs & -> & Hl)]; [reflexivity|].
      apply Nat.ltb_lt in Hl; now rewrite Hl. }
    now rewrite E.
  - intros csg nm H; unfold convertSideGeometry; now rewrite H.
  - intros csg nm s ss Hs Hall; unfold convertSideGeometry; rewrite Hs.
    assert (E : forall acc,
               for_each (push_side csg (defaultColor_of csg)) (s :: ss) acc
               = ok acc).
    { clear Hs.
      induction Hall as [|side rest Hside _ IH]; intros acc; cbn [for_each];
        [reflexivity|].
      assert (E1 : push_side csg (defaultColor_of csg) acc side = ok acc).
      { unfold push_side; destruct side; try reflexivity.
        specialize (Hside xs eq_refl); apply Nat.ltb_lt in Hside.
        now rewrite Hside. }
      rewrite E1; cbn [bind]; apply IH. }
    rewrite E; reflexivity.
  - intros csg nm unit H E.
    destruct (polygons csg) as [[|p ps]|] eqn:Hp;
      try (unfold convertPolygonGeometry in H; rewrite Hp in H; discriminate).
    rewrite (convertPolygonGeometry_streams csg nm p ps Hp) in H.
    destruct (streams_length csg white (p :: ps)) as (H1 & _).
    destruct (flat_map polygon_triangles (p :: ps)) as [|t ts] eqn:Et;
      [discriminate|].
    injection H as <-; cbn [positions] in E.
    apply (f_equal (@List.length _)) in E.
    rewrite new_Float32Array_length in E.
    cbn [flat_map] in H1, E; rewrite H1 in E; cbn in E; lia.
  - intros csg nm unit; unfold convertSideGeometry.
    destruct (sides csg) as [[|s ss]|]; try discriminate.
    destruct (for_each _ _ _) as [e|acc]; [discriminate|]; cbn [bind].
    destruct (Nat.eqb_spec (List.length (fst acc)) 0) as [|Hne];
      [discriminate|].
    intros [= <-] E; cbn [positions] in E.
    apply (f_equal (@List.length _)) in E.
    rewrite new_Float32Array_length in E; cbn in E; lia.
Qed.

(** X15. The coordinates of a vertex: those of a bare triple, or of the
    triple under [pos], or of the triple under [position]; each coordinate is
    coerced to a number and reads [0] when it is [NaN]; a vertex that is
    falsy, or in which no triple is found, is the origin. *)
Theorem vertex_position_forms {RT : JsRuntime} :
  (forall x y z rest,
      extractVertexPosition (VArray (x :: y :: z :: rest))
      = (Num.or_zero (Number x), Num.or_zero (Number y),
         Num.or_zero (Number z)))
  /\ (forall x y z rest others,
         extractVertexPosition
           (VObject (("pos"%string, VArray (x :: y :: z :: rest)) :: others))
         = (Num.or_zero (Number x), Num.or_zero (Number y),
            Num.or_zero (Number z)))
  /\ (forall x y z rest,
         extractVertexPosition
           (VObject [("position"%string, VArray (x :: y :: z :: rest))])
         = (Num.or_zero (Number x), Num.or_zero (Number y),
            Num.or_zero (Number z)))
  /\ (forall vertex, truthy vertex = false ->
                     extractVertexPosition vertex = origin)
  /\ (forall vertex,
         array_of_3 vertex = None ->
         array_of_3 (get_prop vertex "pos") = None ->
         array_of_3 (get_prop vertex "position") = None ->
         extractVertexPosition vertex = origin)
  /\ Num.or_zero nan = 0%float
  /\ (forall x, is_nan x = false -> (x =? 0)%float = false ->
                Num.or_zero x = x).
Proof.
  repeat apply conj; try reflexivity.
  - intros vertex H; unfold extractVertexPosition; now rewrite H.
  - intros vertex H1 H2 H3; unfold extractVertexPosition.
    destruct (negb (truthy vertex)); [reflexivity|].
    now rewrite H1, H2, H3.
  - intros x Hn H0; unfold Num.or_zero, Num.truthy; now rewrite Hn, H0.
Qed.

(* ================================================================= *)
(** * The container and the conversion result *)

Section ConversionProofs.

Context {RT : JsRuntime}.

Lemma writeUInt32LE_too_large buf v offset :
  4294967295 < v -> writeUInt32LE buf v offset = throw RangeError.
Proof.
  intros Hv; unfold writeUInt32LE.
  destruct (Z.ltb_spec 4294967295 v); [|lia].
  now rewrite orb_true_r.
Qed.

Lemma buildGlb_too_large json binary :
  4294967295 < container_length json binary ->
  buildGlb json binary = throw RangeError.
Proof.
  unfold container_length, buildGlb, scene_text.
  destruct (scene_text_object json) as (body & ->).
  cbv zeta.
  set (jsonBuffer := utf8 (body ++ "}")).
  intros Hfit.
  destruct (padded_shape jsonBuffer x20) as (jp & EJ & HjP).
  destruct (padded_shape binary x00) as (bp & EB & HbP).
  rewrite EJ, EB.
  assert (HJ : Buffer_length (jsonBuffer ++ repeat x20 jp)
               = align (Buffer_length jsonBuffer) 4).
  { rewrite Buffer_length_app; unfold Buffer_length at 2.
    rewrite repeat_length; lia. }
  assert (HB : Buffer_length (binary ++ repeat x00 bp)
               = align (Buffer_length binary) 4).
  { rewrite Buffer_length_app; unfold Buffer_length at 2.
    rewrite repeat_length; lia. }
  rewrite (writeUInt32LE_ok _ GLB_MAGIC) by (unfold GLB_MAGIC; lia).
  cbn [bind ok Buffer_alloc Z.to_nat Pos.to_nat Pos.iter_op Nat.add repeat
       firstn skipn app].
  rewrite (writeUInt32LE_ok _ 2) by lia.
  cbn [bind ok le32 firstn skipn app Nat.add].
  rewrite writeUInt32LE_too_large by lia.
  reflexivity.
Qed.

Lemma buildConversionResult_glb g gs pretty :
  buildConversionResult (g :: gs) glb pretty
  = (arrayBuffer <- buildGlb (fst (buildGltfCore (g :: gs)))
                             (snd (buildGltfCore (g :: gs))) ;;
     ok {| data := Binary arrayBuffer;
           format := glb;
           mimeType := "model/gltf-binary";
           result_byteLength := Buffer_length arrayBuffer |}).
Proof.
  unfold buildConversionResult.
  now destruct (buildGltfCore (g :: gs)) as [json binary].
Qed.

End ConversionProofs.

(** X16. The layout of the binary container. For a scene and bytes that fit
    the 32-bit length field the container is: the magic [glTF], the version 2
    and the total length, as three little-endian 32-bit integers; the length
    of the JSON chunk and the tag [JSON]; the UTF-8 text of the scene, padded
    with spaces to a multiple of 4; the length of the binary chunk and the
    tag [BIN] with a zero byte; the bytes, padded with zeros to a multiple of
    4. The total length is that of the container. For a scene and bytes that
    do not fit, [buildGlb] raises a [RangeError]. *)
Theorem container_layout {RT : JsRuntime} (json : GltfJson) (binary : Buffer) :
  (container_length json binary <= 4294967295 ->
   exists jsonPad binPad,
     let paddedJson := utf8 (scene_text json) ++ repeat x20 jsonPad in
     let paddedBinary := binary ++ repeat x00 binPad in
     buildGlb json binary
     = ok (["g"; "l"; "T"; "F"]%byte ++ [x02; x00; x00; x00]
           ++ le32 (container_length json binary)
           ++ le32 (Buffer_length paddedJson) ++ ["J"; "S"; "O"; "N"]%byte
           ++ paddedJson
           ++ le32 (Buffer_length paddedBinary) ++ ["B"; "I"; "N"; x00]%byte
           ++ paddedBinary)
     /\ (jsonPad < 4)%nat /\ (binPad < 4)%nat
     /\ Buffer_length paddedJson mod 4 = 0
     /\ Buffer_length paddedBinary mod 4 = 0
     /\ container_length json binary
        = 12 + 8 + Buffer_length paddedJson + 8 + Buffer_length paddedBinary
     /\ Json.serialize (GltfJson_value json) = Some (scene_text json))
  /\ (4294967295 < container_length json binary ->
      buildGlb json binary = throw RangeError).
Proof.
  split; [|apply buildGlb_too_large].
  intros Hfit.
  destruct (buildGlb_reads_back json binary Hfit)
    as (glb & c & jp & bp & E & -> & _ & _ & Hl & Hj & Hb & HJ & HB & _ & Hs).
  cbn [Reader.json_chunk Reader.bin_chunk] in *.
  pose proof (align_4 _ (Buffer_length_nonneg (utf8 (scene_text json))))
    as (HmJ & HrJ).
  pose proof (align_4 _ (Buffer_length_nonneg binary)) as (HmB & HrB).
  exists jp, bp; cbv zeta.
  rewrite Hj in HJ; rewrite Hb in HB.
  split.
  - rewrite E; unfold assemble; rewrite <- !app_assoc, HJ, HB.
    unfold container_length; reflexivity.
  - rewrite HJ, HB; unfold container_length.
    rewrite !Buffer_length_app in HJ, HB; unfold Buffer_length in HJ at 2.
    unfold Buffer_length in HB at 2; rewrite repeat_length in HJ, HB.
    repeat split; auto; lia.
Qed.

(** X17. The result of a conversion reports what it holds: the format asked
    for, the MIME type of that format, and the byte length of the payload,
    which for the binary format is the container [buildGlb] gives for the
    packed mesh units and for the JSON format is a string, counted as UTF-8.
    An empty list of mesh units is refused before anything is packed. *)
Theorem conversion_result_reports {RT : JsRuntime} gs fmt pretty r :
  buildConversionResult gs fmt pretty = ok r ->
  gs <> []
  /\ format r = fmt
  /\ match fmt with
     | glb =>
         mimeType r = "model/gltf-binary"%string
         /\ exists bytes,
              data r = Binary bytes
              /\ result_byteLength r = Buffer_length bytes
              /\ buildGlb (fst (buildGltfCore gs)) (snd (buildGltfCore gs))
                 = ok bytes
     | gltf =>
         mimeType r = "model/gltf+json"%string
         /\ exists text,
              data r = Text text
              /\ result_byteLength r = Buffer_length (utf8 text)
     end.
Proof.
  destruct gs as [|g gs]; [discriminate|].
  intros H; split; [discriminate|].
  unfold buildConversionResult in H.
  destruct (buildGltfCore (g :: gs)) as [json binary]; cbn [fst snd].
  destruct fmt.
  - destruct (buildGlb json binary) as [e|bytes]; [discriminate|].
    injection H as <-; cbn; eauto 6.
  - destruct (Json.serialize _) as [text|]; [|discriminate].
    destruct (JsonReader.JSON_parse text) as [doc|]; [|discriminate].
    destruct (attach_uri doc _) as [e|doc']; [discriminate|]; cbn [bind] in H.
    destruct (Json.JSON_stringify doc' _) as [jsonString|]; [|discriminate].
    injection H as <-; cbn; eauto 6.
Qed.

Lemma conversion_result_reports_example :
  exists r,
    buildConversionResult (RT := Reference.runtime) example_units gltf None
    = ok r
    /\ format r = gltf
    /\ mimeType r = "model/gltf+json"%string
    /\ result_byteLength r = 1493.
Proof.
  destruct (buildConversionResult (RT := Reference.runtime)
              example_units gltf None) as [e|r] eqn:E;
    [vm_compute in E; discriminate E|].
  exists r; split; [reflexivity|].
  destruct (conversion_result_reports (RT := Reference.runtime)
              example_units gltf None r E) as (_ & H & Hm & text & Hd & Hl).
  split; [exact H|]; split; [exact Hm|].
  vm_compute in E; injection E as <-; reflexivity.
Defined.

(** X18. The options of a conversion and its failures. A mesh name that is
    not given is [JSCADMesh] and a format that is not given is the binary
    one; the flag that asks for indented JSON changes nothing of the binary
    output; a plan that evaluates to nothing, and a list of mesh units that
    is empty, have no geometry; a rendered model that has no entry with a
    geometry did not contain any. *)
Theorem conversion_options_and_failures {RT : JsRuntime} :
  (forall csg pretty,
      convertJscadPlanToGltf (Some csg) (mkOptions None None pretty)
      = (geometries <- collectGeometries csg "JSCADMesh"%string ;;
         buildConversionResult geometries glb pretty))
  /\ (forall csg fmt nm pretty,
         convertJscadPlanToGltf (Some csg)
           (mkOptions (Some fmt) (Some nm) pretty)
         = (geometries <- collectGeometries csg nm ;;
            buildConversionResult geometries fmt pretty))
  /\ (forall gs pretty pretty',
         buildConversionResult gs glb pretty
         = buildConversionResult gs glb pretty')
  /\ (forall options, convertJscadPlanToGltf None options = throw NoGeometry)
  /\ (forall options,
         convertJscadPlanToGltf (Some (GMany [])) options = throw NoGeometry)
  /\ (forall fmt pretty, buildConversionResult [] fmt pretty = throw NoGeometry)
  /\ (forall options,
         convertJscadModelToGltf None options = throw NoModelGeometries)
  /\ (forall entries options,
         Forall (fun entry => entry = None
                              \/ exists c, entry = Some (mkRendered None c))
                entries ->
         convertJscadModelToGltf (Some (mkModel (Some entries))) options
         = throw NoModelGeometries)
  /\ (forall g c entries options,
         convertJscadModelToGltf
           (Some (mkModel (Some (Some (mkRendered (Some g) c) :: entries))))
           options
         = (geometries <-
              collectGeometries
                (GMany (map GOne
                          (normalizeRenderedGeometries
                             (Some (mkModel
                                      (Some (Some (mkRendered (Some g) c)
                                             :: entries)))))))
                (or_default (opt_meshName options) "JSCADMesh"%string) ;;
            buildConversionResult geometries
              (or_default (opt_format options) glb)
              (opt_prettyJson options))).
Proof.
  repeat apply conj.
  - reflexivity.
  - reflexivity.
  - intros [|g gs] pretty pretty'; [reflexivity|].
    now rewrite !buildConversionResult_glb.
  - reflexivity.
  - reflexivity.
  - reflexivity.
  - reflexivity.
  - intros entries options Hall; unfold convertJscadModelToGltf.
    assert (E : normalizeRenderedGeometries (Some (mkModel (Some entries)))
                = []).
    { cbn [normalizeRenderedGeometries model_geometries].
      induction Hall as [|entry rest Hentry _ IH]; cbn [flat_map];
        [reflexivity|].
      rewrite IH; destruct Hentry as [->|(c & ->)]; reflexivity. }
    now rewrite E.
  - reflexivity.
Qed.

(* ================================================================= *)
(** * The standalone JSON document *)

Section DocumentProofs.

Import Json JsonReader JsonTerms JsonFacts.

Context {RT : JsRuntime}.

(** With no gap [JSON.stringify] writes the compact text. *)
Lemma stringify_compact v : stringify "" "" v = serialize v.
Proof.
  induction v as [| |b|x|s|xs IH|props IH] using value_induction;
    try reflexivity; cbn [stringify serialize];
    change ("" ++ "")%string with ""%string.
  - f_equal; unfold wrap.
    replace (map (fun x => match stringify "" "" x with
                           | Some t => t
                           | None => "null"%string
                           end) xs)
      with (map (fun x => match serialize x with
                          | Some t => t
                          | None => "null"%string
                          end) xs).
    + destruct (map _ xs); reflexivity.
    + induction IH as [|x xs Hx _ IHxs]; cbn [map]; [reflexivity|].
      now rewrite Hx, IHxs.
  - f_equal; unfold wrap.
    replace (flat_map
               (fun kv => match stringify "" "" (snd kv) with
                          | Some t =>
                              [(quote (fst kv) ++ ":"
                                ++ (if (String.length "" =? 0)%nat
                                    then "" else " ") ++ t)%string]
                          | None => []
                          end) props)
      with (flat_map
              (fun kv => match serialize (snd kv) with
                         | Some t => [(quote (fst kv) ++ ":" ++ t)%string]
                         | None => []
                         end) props).
    + destruct (flat_map _ props); reflexivity.
    + induction IH as [|kv props Hkv _ IHprops]; cbn [flat_map];
        [reflexivity|].
      now rewrite Hkv, IHprops.
Qed.

Lemma set_prop_plain key x props :
  plain x = true ->
  forallb (fun kv => plain (snd kv)) props = true ->
  forallb (fun kv => plain (snd kv)) (set_prop key x props) = true.
Proof.
  intros Hx; induction props as [|[k v] props IH]; cbn [set_prop forallb snd].
  - now rewrite Hx.
  - intros H; apply andb_prop in H as [Hv Hp].
    destruct (String.eqb k key); cbn [forallb snd].
    + now rewrite Hx, Hp.
    + now rewrite Hv, IH.
Qed.

Lemma lookup_prop_plain key props :
  forallb (fun kv => plain (snd kv)) props = true ->
  lookup_prop key props = VUndefined \/ plain (lookup_prop key props) = true.
Proof.
  induction props as [|[k v] props IH]; cbn [lookup_prop forallb snd];
    [now left|].
  intros H; apply andb_prop in H as [Hv Hp].
  destruct (String.eqb k key); [now right|auto].
Qed.

Lemma attach_uri_plain doc uri doc' :
  plain doc = true -> attach_uri doc uri = ok doc' -> plain doc' = true.
Proof.
  unfold attach_uri; destruct doc as [| | | | | |props]; try discriminate.
  cbn [plain]; intros Hp.
  destruct (lookup_prop_plain "buffers" props Hp) as [E|Hb];
    [rewrite E; discriminate|].
  destruct (lookup_prop "buffers" props) as [| | | | |[|[| | | | | |first] others]|];
    try discriminate.
  intros [= <-].
  cbn [plain forallb] in Hb; apply andb_prop in Hb as [Hf Ho].
  cbn [plain]; apply set_prop_plain; [|exact Hp].
  cbn [plain forallb]; rewrite Ho, andb_true_r.
  apply set_prop_plain; [reflexivity|exact Hf].
Qed.

(** The scene as JSON keeps it takes the reference to its bytes. *)
Lemma scene_attach json len uri :
  j_buffers json = [len] ->
  exists scene doc,
    normal (GltfJson_value json) = Some scene
    /\ attach_uri scene uri = ok doc.
Proof.
  intros Hb; unfold GltfJson_value; rewrite Hb.
  cbn [normal flat_map map snd fst app].
  do 2 eexists; split; [reflexivity|].
  unfold attach_uri; cbn [lookup_prop String.eqb Ascii.eqb Bool.eqb].
  reflexivity.
Qed.

End DocumentProofs.

(** X19. The standalone JSON document. For mesh units whose scene prints
    numbers that read back, the conversion to the JSON format gives a string,
    counted as UTF-8, that [JSON.parse] reads as the scene as JSON keeps it,
    with the packed bytes attached to the one buffer descriptor under [uri],
    as a data URI in base64; asked for without indentation, the string is the
    compact text of that document. *)
Theorem standalone_document_reads_back {RT : JsRuntime} gs pretty :
  gs <> [] ->
  pretty <> Some true ->
  JsonReader.printable (GltfJson_value (fst (buildGltfCore gs))) = true ->
  exists r text scene doc,
    buildConversionResult gs gltf pretty = ok r
    /\ data r = Text text
    /\ format r = gltf
    /\ result_byteLength r = Buffer_length (utf8 text)
    /\ JsonReader.normal (GltfJson_value (fst (buildGltfCore gs)))
       = Some scene
    /\ attach_uri scene
         ("data:application/octet-stream;base64,"
          ++ base64 (snd (buildGltfCore gs)))%string
       = ok doc
    /\ Json.serialize doc = Some text
    /\ JsonReader.JSON_parse text = Some doc.
Proof.
  intros Hne Hpretty Hp; destruct gs as [|g gs]; [congruence|].
  unfold buildConversionResult.
  destruct (buildGltfCore_packed (g :: gs)) as (len & Hb & _).
  destruct (buildGltfCore (g :: gs)) as [json binary]; cbn [fst snd] in *.
  destruct (scene_attach json len
              ("data:application/octet-stream;base64," ++ base64 binary)
              Hb) as (scene & doc & Hn & Ha).
  destruct (Json.serialize (GltfJson_value json)) as [t|] eqn:Ht;
    [|destruct (scene_text_object json) as (body & E); congruence].
  destruct (JsonFacts.JSON_parse_serialize _ _ Hp Ht)
    as (w & Hw & Hparse & _ & _).
  rewrite Hparse.
  assert (w = scene) by congruence; subst w.
  rewrite Ha; cbn [bind ok].
  destruct (JsonFacts.normal_plain _ Hp _ Hn) as (Hplain & _).
  pose proof (attach_uri_plain _ _ _ Hplain Ha) as Hdoc.
  assert (Hs : Json.JSON_stringify doc 0 = Json.serialize doc)
    by apply stringify_compact.
  destruct pretty as [[]|]; [congruence| |];
    rewrite Hs, (JsonFacts.plain_serialize doc Hdoc);
    (eexists; exists (JsonTerms.text doc), scene, doc;
     split; [reflexivity|]; cbn [data format result_byteLength];
     repeat split; try reflexivity; try assumption;
     [now apply JsonFacts.plain_serialize
     |apply JsonFacts.JSON_parse_text, Hdoc]).
Qed.

Lemma standalone_document_reads_back_example :
  exists r text doc,
    buildConversionResult (RT := Reference.runtime) example_units gltf None
    = ok r
    /\ data r = Text text
    /\ JsonReader.JSON_parse (RT := Reference.runtime) text = Some doc
    /\ get_prop doc "scene" = VNumber 0.
Proof.
  destruct (standalone_document_reads_back (RT := Reference.runtime)
              example_units None)
    as (r & text & scene & doc & H1 & H2 & _ & _ & Hn & Ha & _ & H3);
    [intros H; vm_compute in H; discriminate H
    |discriminate|vm_compute; reflexivity|].
  exists r, text, doc; split; [exact H1|]; split; [exact H2|];
    split; [exact H3|].
  vm_compute in Hn; injection Hn as <-.
  vm_compute in Ha; injection Ha as <-.
  reflexivity.
Defined.

(* ================================================================= *)
(** * From a geometry value to a container *)

(** X20. The whole conversion to the binary format. When the geometry value a
    plan evaluates to converts to mesh units, one at least, whose container
    fits the 32-bit length field, the conversion gives a container of the
    byte length it reports, which is the one in its header, and whose binary
    chunk is the streams of the mesh units end to end. *)
Theorem binary_conversion_reads_back {RT : JsRuntime} csg options gs :
  opt_format options = None \/ opt_format options = Some glb ->
  collectGeometries csg (or_default (opt_meshName options) "JSCADMesh"%string)
  = ok gs ->
  gs <> [] ->
  container_length (fst (buildGltfCore gs)) (snd (buildGltfCore gs))
  <= 4294967295 ->
  exists r bytes c,
    convertJscadPlanToGltf (Some csg) options = ok r
    /\ data r = Binary bytes
    /\ format r = glb
    /\ mimeType r = "model/gltf-binary"%string
    /\ result_byteLength r = Buffer_length bytes
    /\ Reader.parse_container bytes = Some c
    /\ Reader.total_length c = result_byteLength r
    /\ Reader.bin_chunk c
       = flat_map Float32Array_bytes (flat_map unit_streams gs)
    /\ Forall stream_shape gs
    /\ Forall well_streamed gs.
Proof.
  intros Hfmt Hgs Hne Hfit.
  destruct (buildGlb_reads_back _ _ Hfit)
    as (bytes & c & jp & bp & E & _ & Hc & Ht & _ & _ & Hb & _ & HB & _).
  destruct (buildGltfCore_laid_out gs) as (Hbin & _).
  destruct (total_byteLength_aligned (flat_map unit_streams gs)) as (H0 & Hm).
  assert (Hb0 : bp = 0%nat).
  { rewrite Hb, Buffer_length_app in HB; unfold Buffer_length in HB at 2.
    rewrite repeat_length, Hbin, total_byteLength_bytes in HB.
    unfold align in HB; rewrite Z.rem_mod_nonneg, Hm in HB by lia.
    cbn [Z.eqb] in HB; lia. }
  subst bp; cbn [repeat] in Hb; rewrite app_nil_r, Hbin in Hb.
  exists {| data := Binary bytes; format := glb;
            mimeType := "model/gltf-binary";
            result_byteLength := Buffer_length bytes |}, bytes, c.
  cbn [data format mimeType result_byteLength].
  split.
  - unfold convertJscadPlanToGltf; rewrite Hgs; unfold ok at 1; cbn [bind].
    replace (or_default (opt_format options) glb) with glb
      by (destruct Hfmt as [->| ->]; reflexivity).
    destruct gs as [|g gs]; [congruence|].
    now rewrite buildConversionResult_glb, E.
  - repeat split; auto.
    + apply (collectGeometries_Forall stream_shape
               convertPolygonGeometry_shape convertSideGeometry_shape
               _ _ _ Hgs).
    + apply (collectGeometries_Forall well_streamed
               convertPolygonGeometry_well_streamed
               convertSideGeometry_well_streamed _ _ _ Hgs).
Qed.

Lemma binary_conversion_reads_back_example :
  exists r bytes c,
    convertJscadPlanToGltf (RT := Reference.runtime)
      (Some (GMany [GOne square_solid; GOne square_outline]))
      (mkOptions None (Some "part"%string) None) = ok r
    /\ data r = Binary bytes
    /\ Reader.parse_container bytes = Some c
    /\ Reader.total_length c = result_byteLength r
    /\ result_byteLength r = 1388.
Proof.
  destruct (binary_conversion_reads_back (RT := Reference.runtime)
              (GMany [GOne square_solid; GOne square_outline])
              (mkOptions None (Some "part"%string) None) example_units)
    as (r & bytes & c & H1 & H2 & _ & _ & H3 & H4 & H5 & _).
  - left; reflexivity.
  - vm_compute; reflexivity.
  - intros H; vm_compute in H; discriminate H.
  - vm_compute; discriminate.
  - exists r, bytes, c; repeat split; auto.
    vm_compute in H1; injection H1 as <-; reflexivity.
Defined.

(* ================================================================= *)
(** * A resolved color resolves to itself *)

Section ResolvedColorProofs.

Context {RT : JsRuntime}.

Lemma normalizeColorChannel_kept x :
  unit_channel x -> normalizeColorChannel x = x.
Proof.
  intros [H0 H1]. unfold number_le in H0, H1.
  destruct (FloatFacts.unit_interval_kept x H0 H1) as (Hf & Hlt & Hgt).
  unfold normalizeColorChannel, Num.isFinite.
  now rewrite Hf, Hlt, Hgt.
Qed.

Lemma parseColorValue_color_value r g b :
  unit_channel r -> unit_channel g -> unit_channel b ->
  parseColorValue (color_value (r, g, b)) = Some (r, g, b).
Proof.
  intros Hr Hg Hb.
  unfold color_value, parseColorValue.
  rewrite parseColorArray_array by (cbn; lia).
  cbn [index nth Number].
  now rewrite !normalizeColorChannel_kept.
Qed.

Lemma parseColorValue_resolved v c :
  parseColorValue v = Some c -> parseColorValue (color_value c) = Some c.
Proof.
  destruct c as [[r g] b]. intros H.
  destruct (parseColorValue_unit _ _ _ _ H) as (Hr & Hg & Hb).
  now apply parseColorValue_color_value.
Qed.

Lemma ensureColorTupleOnCsg_resolved geom hint c :
  match parseColorValue hint with
  | Some c' => Some c'
  | None => parseColorValue (color geom)
  end = Some c ->
  ensureColorTupleOnCsg geom hint
  = {| polygons := polygons geom;
       sides := sides geom;
       color := color_value c;
       transforms := transforms geom |}.
Proof.
  intros H. unfold ensureColorTupleOnCsg. rewrite H.
  now destruct c as [[r g] b].
Qed.

End ResolvedColorProofs.

(** X21. Resolving a color twice is resolving it once.  A channel that was
    normalized is kept by a second normalization; the triple the color
    resolver answers, stored as the encoder stores it on a geometry object,
    resolves to itself; and [ensureColorTupleOnCsg] leaves the geometry
    object it answered as it is, under the same hint and under none. *)
Theorem color_resolution_is_idempotent {RT : JsRuntime} :
  (forall x,
      normalizeColorChannel (normalizeColorChannel x)
      = normalizeColorChannel x)
  /\ (forall v c,
         parseColorValue v = Some c ->
         parseColorValue (color_value c) = Some c)
  /\ (forall geom hint,
         ensureColorTupleOnCsg (ensureColorTupleOnCsg geom hint) hint
         = ensureColorTupleOnCsg geom hint)
  /\ (forall geom hint,
         ensureColorTupleOnCsg (ensureColorTupleOnCsg geom hint) VUndefined
         = ensureColorTupleOnCsg geom hint).
Proof.
  split; [|split; [|split]].
  - intros x. apply normalizeColorChannel_kept, normalizeColorChannel_unit.
  - apply parseColorValue_resolved.
  - intros geom hint.
    destruct (parseColorValue hint) as [c|] eqn:Eh.
    + rewrite (ensureColorTupleOnCsg_resolved geom hint c) by now rewrite Eh.
      rewrite (ensureColorTupleOnCsg_resolved _ hint c) by now rewrite Eh.
      reflexivity.
    + destruct (parseColorValue (color geom)) as [c|] eqn:Eg.
      * rewrite (ensureColorTupleOnCsg_resolved geom hint c)
          by now rewrite Eh.
        rewrite (ensureColorTupleOnCsg_resolved _ hint c).
        -- reflexivity.
        -- rewrite Eh. cbn [color]. eapply parseColorValue_resolved, Eg.
      * unfold ensureColorTupleOnCsg at 2. rewrite Eh, Eg.
        unfold ensureColorTupleOnCsg. now rewrite Eh, Eg.
  - intros geom hint.
    destruct (match parseColorValue hint with
              | Some c' => Some c'
              | None => parseColorValue (color geom)
              end) as [c|] eqn:E.
    + rewrite (ensureColorTupleOnCsg_resolved geom hint c E).
      rewrite (ensureColorTupleOnCsg_resolved _ VUndefined c).
      * reflexivity.
      * cbn [parseColorValue color].
        destruct (parseColorValue hint) as [c'|] eqn:Eh.
        -- injection E as ->. eapply parseColorValue_resolved, Eh.
        -- eapply parseColorValue_resolved, E.
    + unfold ensureColorTupleOnCsg at 2. rewrite E.
      unfold ensureColorTupleOnCsg. cbn [parseColorValue].
      destruct (parseColorValue hint); [discriminate|]. now rewrite E.
Qed.

(* ================================================================= *)
(** * The bounds are tight *)

Section TightBoundsProofs.

Import FloatOrder.
Local Open Scope float_scope.

Variable values : Float32Array.

Lemma not_below_infinity v :
  is_nan v = false -> (v <? infinity) = false -> v = infinity.
Proof.
  intros Hn H. rewrite ltb_spec, FloatFacts.Prim2SF_infinity in H.
  apply Prim2SF_nan in Hn.
  apply Prim2SF_inj. rewrite FloatFacts.Prim2SF_infinity.
  destruct (Prim2SF v) as [s|s| |s m e]; try destruct s;
    cbn in H; try discriminate H; congruence.
Qed.

Lemma not_above_neg_infinity v :
  is_nan v = false -> (neg_infinity <? v) = false -> v = neg_infinity.
Proof.
  intros Hn H. rewrite ltb_spec in H.
  change (Prim2SF neg_infinity) with (S754_infinity true) in H.
  apply Prim2SF_nan in Hn.
  apply Prim2SF_inj.
  change (Prim2SF neg_infinity) with (S754_infinity true).
  destruct (Prim2SF v) as [s|s| |s m e]; try destruct s;
    cbn in H; try discriminate H; congruence.
Qed.

Lemma in_range_of_number i :
  is_nan (nth i values nan) = false -> (i < List.length values)%nat.
Proof.
  intros H. destruct (Nat.lt_ge_cases i (List.length values)) as [|Hge];
    [assumption|].
  rewrite nth_overflow in H by assumption. discriminate H.
Qed.

Lemma minmax_after_S n :
  minmax_after values (S n)
  = minmax_step values (minmax_after values n) (3 * n).
Proof.
  unfold minmax_after. now rewrite seq_S, map_app, fold_left_app.
Qed.

Lemma minmax_after_component n j :
  (j < 3)%nat ->
  component (fst (minmax_after values (S n))) j
  = (if nth (3 * n + j) values nan
        <? component (fst (minmax_after values n)) j
     then nth (3 * n + j) values nan
     else component (fst (minmax_after values n)) j)
  /\ component (snd (minmax_after values (S n))) j
     = (if component (snd (minmax_after values n)) j
           <? nth (3 * n + j) values nan
        then nth (3 * n + j) values nan
        else component (snd (minmax_after values n)) j).
Proof.
  intros Hj. rewrite minmax_after_S.
  destruct (minmax_after values n) as [[[a b] c] [[d e] f]].
  rewrite minmax_step_closed. cbv zeta.
  destruct j as [|[|[|j]]]; [| | |lia];
    cbn [component spread nth fst snd];
    rewrite ?Nat.add_0_r; split; reflexivity.
Qed.

(** What holds of the lower bound on the axis [j] after [n] vertices. *)
Lemma lower_bound_after n j :
  (j < 3)%nat ->
  is_nan (component (fst (minmax_after values n)) j) = false
  /\ (forall k, (k < n)%nat ->
                is_nan (nth (3 * k + j) values nan) = false ->
                number_le (component (fst (minmax_after values n)) j)
                          (nth (3 * k + j) values nan))
  /\ ((exists k, (k < n)%nat
                 /\ nth (3 * k + j) values nan
                    = component (fst (minmax_after values n)) j)
      \/ (component (fst (minmax_after values n)) j = infinity
          /\ forall k, (k < n)%nat ->
                       is_nan (nth (3 * k + j) values nan) = true)).
Proof.
  intros Hj. induction n as [|n (Hm & Hle & Hat)].
  - split; [|split].
    + destruct j as [|[|[|j]]]; [| | |lia]; reflexivity.
    + intros k Hk; lia.
    + right. split; [|intros k Hk; lia].
      destruct j as [|[|[|j]]]; [| | |lia]; reflexivity.
  - destruct (minmax_after_component n j Hj) as [-> _].
    set (v := nth (3 * n + j) values nan) in *.
    set (m := component (fst (minmax_after values n)) j) in *.
    destruct (v <? m) eqn:Hlt.
    + destruct (lt_not_nan _ _ Hlt) as [Hv _].
      split; [exact Hv|split].
      * intros k Hk Hnk.
        destruct (Nat.eq_dec k n) as [->|Hne]; [now apply le_refl|].
        eapply le_trans; [apply lt_le, Hlt|].
        apply Hle; [lia|assumption].
      * left. exists n. split; [lia|reflexivity].
    + split; [exact Hm|split].
      * intros k Hk Hnk.
        destruct (Nat.eq_dec k n) as [->|Hne].
        -- now apply not_lt_le.
        -- apply Hle; [lia|assumption].
      * destruct Hat as [(k & Hk & Ek)|[Einf Hall]].
        -- left. exists k. split; [lia|assumption].
        -- destruct (is_nan v) eqn:Hv.
           ++ right. split; [assumption|].
              intros k Hk.
              destruct (Nat.eq_dec k n) as [->|Hne];
                [assumption|apply Hall; lia].
           ++ left. exists n. split; [lia|].
              fold v. rewrite Einf in Hlt |- *.
              now apply not_below_infinity.
Qed.

(** The same of the upper bound. *)
Lemma upper_bound_after n j :
  (j < 3)%nat ->
  is_nan (component (snd (minmax_after values n)) j) = false
  /\ (forall k, (k < n)%nat ->
                is_nan (nth (3 * k + j) values nan) = false ->
                number_le (nth (3 * k + j) values nan)
                          (component (snd (minmax_after values n)) j))
  /\ ((exists k, (k < n)%nat
                 /\ nth (3 * k + j) values nan
                    = component (snd (minmax_after values n)) j)
      \/ (component (snd (minmax_after values n)) j = neg_infinity
          /\ forall k, (k < n)%nat ->
                       is_nan (nth (3 * k + j) values nan) = true)).
Proof.
  intros Hj. induction n as [|n (Hm & Hle & Hat)].
  - split; [|split].
    + destruct j as [|[|[|j]]]; [| | |lia]; reflexivity.
    + intros k Hk; lia.
    + right. split; [|intros k Hk; lia].
      destruct j as [|[|[|j]]]; [| | |lia]; reflexivity.
  - destruct (minmax_after_component n j Hj) as [_ ->].
    set (v := nth (3 * n + j) values nan) in *.
    set (m := component (snd (minmax_after values n)) j) in *.
    destruct (m <? v) eqn:Hlt.
    + destruct (lt_not_nan _ _ Hlt) as [_ Hv].
      split; [exact Hv|split].
      * intros k Hk Hnk.
        destruct (Nat.eq_dec k n) as [->|Hne]; [now apply le_refl|].
        eapply le_trans; [|apply lt_le, Hlt].
        apply Hle; [lia|assumption].
      * left. exists n. split; [lia|reflexivity].
    + split; [exact Hm|split].
      * intros k Hk Hnk.
        destruct (Nat.eq_dec k n) as [->|Hne].
        -- now apply not_lt_le.
        -- apply Hle; [lia|assumption].
      * destruct Hat as [(k & Hk & Ek)|[Einf Hall]].
        -- left. exists k. split; [lia|assumption].
        -- destruct (is_nan v) eqn:Hv.
           ++ right. split; [assumption|].
              intros k Hk.
              destruct (Nat.eq_dec k n) as [->|Hne];
                [assumption|apply Hall; lia].
           ++ left. exists n. split; [lia|].
              fold v. rewrite Einf in Hlt |- *.
              now apply not_above_neg_infinity.
Qed.

Lemma vertex_is_visited k j :
  (j < 3)%nat -> (3 * k + j < List.length values)%nat ->
  (k < (List.length values + 2) / 3)%nat.
Proof.
  intros Hj Hk.
  pose proof (Nat.div_mod_eq (List.length values + 2) 3) as E.
  pose proof (Nat.mod_upper_bound (List.length values + 2) 3) as U.
  lia.
Qed.

Lemma computeMinMax_component j :
  (j < 3)%nat ->
  nth j (fst (computeMinMax values)) nan
  = component (fst (minmax_after values ((List.length values + 2) / 3))) j
  /\ nth j (snd (computeMinMax values)) nan
     = component (snd (minmax_after values ((List.length values + 2) / 3))) j.
Proof. intros _. now rewrite computeMinMax_after. Qed.

End TightBoundsProofs.

(** X22. The bounds [computeMinMax] gives are tight, and a coordinate that
    is [NaN] is passed over.  On each axis the two bounds are numbers; every
    coordinate that is a number lies between them; when one coordinate at
    least is a number each bound is the coordinate of a vertex; and when none
    is, as for no position at all, the bounds are what they started as,
    [Infinity] below and [-Infinity] above. *)
Theorem position_bounds_are_tight (values : Float32Array) (j : nat) :
  (j < 3)%nat ->
  let lo := nth j (fst (computeMinMax values)) nan in
  let hi := nth j (snd (computeMinMax values)) nan in
  is_nan lo = false /\ is_nan hi = false
  /\ (forall k, (3 * k + j < List.length values)%nat ->
                is_nan (nth (3 * k + j) values nan) = false ->
                number_le lo (nth (3 * k + j) values nan)
                /\ number_le (nth (3 * k + j) values nan) hi)
  /\ ((exists k, (3 * k + j < List.length values)%nat
                 /\ is_nan (nth (3 * k + j) values nan) = false) ->
      attained values j lo /\ attained values j hi)
  /\ ((forall k, (3 * k + j < List.length values)%nat ->
                 is_nan (nth (3 * k + j) values nan) = true) ->
      lo = infinity /\ hi = neg_infinity).
Proof.
  intros Hj lo hi.
  destruct (computeMinMax_component values j Hj) as [Elo Ehi].
  destruct (lower_bound_after values ((List.length values + 2) / 3) j Hj)
    as (Hlo & Hle & Hat).
  destruct (upper_bound_after values ((List.length values + 2) / 3) j Hj)
    as (Hhi & Hge & Hat').
  fold lo in Elo. fold hi in Ehi. rewrite <- Elo in Hlo, Hle, Hat.
  rewrite <- Ehi in Hhi, Hge, Hat'.
  assert (Hall : forall k,
             (forall k', (3 * k' + j < List.length values)%nat ->
                         is_nan (nth (3 * k' + j) values nan) = true) ->
             is_nan (nth (3 * k + j) values nan) = true).
  { intros k H.
    destruct (Nat.lt_ge_cases (3 * k + j) (List.length values)) as [Hk|Hk];
      [now apply H|].
    now rewrite nth_overflow. }
  split; [exact Hlo|split; [exact Hhi|split; [|split]]].
  - intros k Hk Hn. split; [apply Hle|apply Hge]; try assumption;
      now apply (vertex_is_visited values k j).
  - intros (k & Hk & Hn). split.
    + destruct Hat as [(k' & Hk' & E)|[_ Hnan]].
      * exists k'. split; [|exact E].
        apply in_range_of_number. now rewrite E.
      * rewrite Hnan in Hn; [discriminate Hn|].
        now apply (vertex_is_visited values k j).
    + destruct Hat' as [(k' & Hk' & E)|[_ Hnan]].
      * exists k'. split; [|exact E].
        apply in_range_of_number. now rewrite E.
      * rewrite Hnan in Hn; [discriminate Hn|].
        now apply (vertex_is_visited values k j).
  - intros Hnone. split.
    + destruct Hat as [(k' & Hk' & E)|[E _]]; [|exact E].
      pose proof (Hall k' Hnone) as Hn. rewrite E, Hlo in Hn. discriminate Hn.
    + destruct Hat' as [(k' & Hk' & E)|[E _]]; [|exact E].
      pose proof (Hall k' Hnone) as Hn. rewrite E, Hhi in Hn. discriminate Hn.
Qed.

Lemma position_bounds_are_tight_example :
  (1 < 3)%nat
  /\ computeMinMax positions_with_nan = ([1; -3; -2], [4; 7; 1])%float
  /\ attained positions_with_nan 1 (-3)%float
  /\ attained positions_with_nan 1 7%float.
Proof.
  assert (H3 : (1 < 3)%nat) by lia.
  pose proof (position_bounds_are_tight positions_with_nan 1 H3) as H.
  cbv zeta in H. destruct H as (_ & _ & _ & Ha & _).
  split; [exact H3|split; [vm_compute; reflexivity|]].
  apply Ha. exists 1%nat. split; [vm_compute; lia|reflexivity].
Defined.

(* ================================================================= *)
(** * Lists of geometry values are flattened *)

Section LeafProofs.

Context {RT : JsRuntime}.

Lemma named_leaves_many children nm :
  named_leaves (GMany children) nm = leaves_below nm children 0.
Proof.
  cbn [named_leaves]; generalize 0%nat.
  induction children as [|c cs IH]; intros i; cbn [leaves_below];
    [reflexivity|].
  now rewrite IH.
Qed.

Lemma collect_each_app a b :
  collect_each (a ++ b)
  = (here <- collect_each a ;; after <- collect_each b ;; ok (here ++ after)).
Proof.
  induction a as [|[csg nm] a IH]; cbn [app collect_each].
  - unfold ok at 1; cbn [bind]. now destruct (collect_each b).
  - destruct (collectGeometries (GOne csg) nm) as [e|here]; cbn [bind];
      [reflexivity|].
    rewrite IH.
    destruct (collect_each a) as [e|mid]; cbn [bind]; [reflexivity|].
    destruct (collect_each b) as [e|after]; cbn [bind]; [reflexivity|].
    unfold ok; cbn [bind]. now rewrite app_assoc.
Qed.

Lemma collectGeometries_leaves g :
  forall nm, collectGeometries g nm = collect_each (named_leaves g nm).
Proof.
  induction g as [csg|children IH] using Geom_induction; intros nm.
  - cbn [named_leaves collect_each].
    destruct (collectGeometries (GOne csg) nm) as [e|here]; cbn [bind];
      [reflexivity|].
    unfold ok; cbn [bind]. now rewrite app_nil_r.
  - rewrite collectGeometries_many, named_leaves_many. generalize 0%nat.
    induction IH as [|c cs Hc _ IHcs]; intros i;
      cbn [collect_children leaves_below]; [reflexivity|].
    now rewrite collect_each_app, Hc, IHcs.
Qed.

Lemma collect_each_units leaves units :
  collect_each leaves = ok units ->
  Forall2 (fun leaf unit =>
             collectGeometries (GOne (fst leaf)) (snd leaf) = ok [unit])
          leaves units.
Proof.
  revert units. induction leaves as [|[csg nm] rest IH]; intros units;
    cbn [collect_each].
  - intros [= <-]. constructor.
  - destruct (collectGeometries (GOne csg) nm) as [e|here] eqn:E;
      cbn [bind]; [discriminate|].
    destruct (collect_each rest) as [e|after]; cbn [bind]; [discriminate|].
    intros [= <-].
    destruct (collectGeometries_leaf _ _ _ E) as (unit & -> & _).
    constructor; [exact E|now apply IH].
Qed.

Lemma collect_each_first_failure leaves e :
  collect_each leaves = throw e ->
  exists before csg nm after,
    leaves = before ++ (csg, nm) :: after
    /\ collectGeometries (GOne csg) nm = throw e
    /\ Forall (fun leaf => exists unit,
                  collectGeometries (GOne (fst leaf)) (snd leaf) = ok [unit])
              before.
Proof.
  induction leaves as [|[csg nm] rest IH]; cbn [collect_each];
    [discriminate|].
  destruct (collectGeometries (GOne csg) nm) as [e'|here] eqn:E; cbn [bind].
  - intros [= <-]. exists [], csg, nm, rest. repeat split; [exact E|constructor].
  - destruct (collect_each rest) as [e'|after]; cbn [bind]; [|discriminate].
    intros [= <-].
    destruct (IH eq_refl) as (before & csg' & nm' & after & -> & Hf & Hb).
    destruct (collectGeometries_leaf _ _ _ E) as (unit & -> & _).
    exists ((csg, nm) :: before), csg', nm', after.
    split; [reflexivity|split; [exact Hf|]].
    constructor; [now exists unit|exact Hb].
Qed.

End LeafProofs.

(** X23. Lists of geometry values are flattened.  The mesh units of a
    geometry value are those of its geometry objects at any depth, one unit
    an object, in the order of a walk from left to right, each under the
    base name followed by the indices on its way; and the conversion fails
    as the first object that fails does, the objects before it having been
    converted.  An object that has a polygon list is converted as polygons,
    whatever its side list. *)
Theorem nested_values_are_flattened {RT : JsRuntime} :
  (forall g nm, collectGeometries g nm = collect_each (named_leaves g nm))
  /\ (forall g nm units,
         collectGeometries g nm = ok units ->
         Forall2 (fun leaf unit =>
                    collectGeometries (GOne (fst leaf)) (snd leaf)
                    = ok [unit])
                 (named_leaves g nm) units)
  /\ (forall g nm e,
         collectGeometries g nm = throw e ->
         exists before csg nm' after,
           named_leaves g nm = before ++ (csg, nm') :: after
           /\ collectGeometries (GOne csg) nm' = throw e
           /\ Forall (fun leaf => exists unit,
                         collectGeometries (GOne (fst leaf)) (snd leaf)
                         = ok [unit])
                     before)
  /\ (forall csg nm ps,
         polygons csg = Some ps ->
         collectGeometries (GOne csg) nm
         = (unit <- convertPolygonGeometry csg nm ;; ok [unit]))
  /\ (forall csg nm ss,
         polygons csg = Some [] -> sides csg = Some ss ->
         collectGeometries (GOne csg) nm = throw ExpectedPolygonData)
  /\ named_leaves nested_value "part"
     = [(square_solid, "part_0_0"%string);
        (square_outline, "part_0_1"%string);
        (square_solid, "part_1"%string)].
Proof.
  split; [|split; [|split; [|split; [|split]]]].
  - intros g nm. apply collectGeometries_leaves.
  - intros g nm units H. apply collect_each_units.
    now rewrite <- collectGeometries_leaves.
  - intros g nm e H. apply collect_each_first_failure.
    now rewrite <- collectGeometries_leaves.
  - intros csg nm ps H. cbn [collectGeometries]. now rewrite H.
  - intros csg nm ss Hp Hs. cbn [collectGeometries]. rewrite Hp.
    unfold convertPolygonGeometry. now rewrite Hp.
  - reflexivity.
Qed.

(* ================================================================= *)
(** * The color of a shape on its vertices *)

Section UniformColorProofs.

Context {RT : JsRuntime}.

Lemma concat_repeat_add {A} (s : list A) a b :
  List.concat (repeat s a) ++ List.concat (repeat s b)
  = List.concat (repeat s (a + b)).
Proof. now rewrite repeat_app, concat_app. Qed.

Lemma constant_corner {A} (d : ColorTuple) (vs : list A) i :
  (i < List.length vs)%nat -> nth i (map (fun _ => d) vs) white = d.
Proof.
  intros Hi. rewrite (nth_indep _ white d) by now rewrite length_map.
  apply nth_constant.
Qed.

Lemma uniform_triangles {A} (d : ColorTuple) (vs : list A) indices :
  (forall i, In i indices -> (i + 1 < List.length vs)%nat) ->
  flat_map (corner_values white (map (fun _ => d) vs))
           (map (fun i => (0, i, i + 1)%nat) indices)
  = List.concat (repeat (spread d) (3 * List.length indices)).
Proof.
  induction indices as [|i rest IH]; intros Hin; [reflexivity|].
  cbn [map flat_map List.length].
  rewrite IH by (intros k Hk; apply Hin; now right).
  assert (Hi : (i + 1 < List.length vs)%nat) by (apply Hin; now left).
  unfold corner_values.
  rewrite !constant_corner by lia.
  replace (3 * S (List.length rest))%nat
    with (3 + 3 * List.length rest)%nat by lia.
  rewrite <- concat_repeat_add. cbn [repeat List.concat].
  now rewrite app_nil_r, <- !app_assoc.
Qed.

Lemma colorless_polygon_uniform d p :
  Forall colorless (polygon_vertices p) ->
  polygon_colors d p
  = List.concat (repeat (spread d) (3 * List.length (polygon_triangles p))).
Proof.
  intros H. unfold polygon_colors. rewrite (colorless_vertices d _ H).
  unfold polygon_triangles, polygon_vertices.
  destruct (vertices p) as [vs|]; [|reflexivity].
  destruct (List.length vs <? 3)%nat eqn:E; [reflexivity|].
  apply Nat.ltb_ge in E.
  unfold fan. rewrite fan_from_seq, length_map. apply uniform_triangles.
  intros i Hi. apply in_seq in Hi. lia.
Qed.

Lemma colorless_uniform d ps :
  Forall (fun p => Forall colorless (polygon_vertices p)) ps ->
  flat_map (polygon_colors d) ps
  = List.concat
      (repeat (spread d) (3 * List.length (flat_map polygon_triangles ps))).
Proof.
  induction 1 as [|q qs Hq _ IH]; cbn [flat_map]; [reflexivity|].
  rewrite IH, (colorless_polygon_uniform d q Hq), concat_repeat_add.
  f_equal. f_equal. rewrite length_app. lia.
Qed.

Lemma convertPolygonGeometry_uniform csg nm unit :
  (forall ps, polygons csg = Some ps ->
              Forall (fun p => Forall colorless (polygon_vertices p)) ps) ->
  convertPolygonGeometry csg nm = ok unit ->
  exists n, colors unit = Some (uniform_colors (defaultColor_of csg) n)
            /\ List.length (positions unit) = (3 * n)%nat.
Proof.
  intros Hc H.
  destruct (polygons csg) as [[|p ps]|] eqn:Ep;
    try (unfold convertPolygonGeometry in H; rewrite Ep in H; discriminate H).
  rewrite (convertPolygonGeometry_streams csg nm p ps Ep) in H.
  pose proof (colorless_uniform (defaultColor_of csg) _ (Hc _ eq_refl))
    as Hcol.
  destruct (streams_length csg white (p :: ps)) as (Hlen & _).
  rewrite Hcol in H.
  set (ps' := flat_map (polygon_positions csg) (p :: ps)) in *.
  set (ns' := flat_map (polygon_normals csg) (p :: ps)) in *.
  destruct (flat_map polygon_triangles (p :: ps)) as [|t ts];
    [discriminate H|].
  injection H as <-. cbn [colors positions].
  exists (3 * List.length (t :: ts))%nat. split; [reflexivity|].
  rewrite new_Float32Array_length, Hlen. lia.
Qed.

Lemma push_side_uniform csg d acc side acc' :
  push_side csg d acc side = ok acc' ->
  (exists n, snd acc = List.concat (repeat (spread d) n)
             /\ List.length (fst acc) = (3 * n)%nat) ->
  exists n, snd acc' = List.concat (repeat (spread d) n)
            /\ List.length (fst acc') = (3 * n)%nat.
Proof.
  unfold push_side.
  destruct side; try (intros [= <-]; auto).
  destruct (List.length xs <? 2)%nat; [intros [= <-]; auto|].
  destruct (point_of _) as [e|startPoint]; [discriminate|].
  destruct (point_of _) as [e|endPoint]; [discriminate|].
  cbn [bind]; intros [= <-] (n & Hs & Hl); cbn [fst snd].
  exists (n + 2)%nat. split.
  - rewrite Hs, <- concat_repeat_add. cbn [repeat List.concat].
    now rewrite app_nil_r.
  - rewrite !length_app, !spread_length, Hl. lia.
Qed.

Lemma for_each_push_side_uniform csg d ss acc acc' :
  for_each (push_side csg d) ss acc = ok acc' ->
  (exists n, snd acc = List.concat (repeat (spread d) n)
             /\ List.length (fst acc) = (3 * n)%nat) ->
  exists n, snd acc' = List.concat (repeat (spread d) n)
            /\ List.length (fst acc') = (3 * n)%nat.
Proof.
  revert acc; induction ss as [|s ss IH]; intros acc; cbn [for_each].
  - intros [= <-]; auto.
  - destruct (push_side csg d acc s) as [e|acc1] eqn:E; [discriminate|].
    cbn [bind]; intros H Hl.
    apply (IH acc1 H), (push_side_uniform csg d acc s acc1 E Hl).
Qed.

Lemma convertSideGeometry_uniform csg nm unit :
  convertSideGeometry csg nm = ok unit ->
  exists n, colors unit = Some (uniform_colors (defaultColor_of csg) n)
            /\ List.length (positions unit) = (3 * n)%nat.
Proof.
  unfold convertSideGeometry.
  destruct (sides csg) as [[|s ss]|]; try discriminate.
  destruct (for_each _ _ _) as [e|acc] eqn:E; [discriminate|]; cbn [bind].
  destruct (for_each_push_side_uniform _ _ _ _ _ E) as (n & Hs & Hl).
  { exists 0%nat. split; reflexivity. }
  destruct (List.length (fst acc) =? 0)%nat eqn:E0; [discriminate|].
  intros [= <-]. cbn [colors positions].
  apply Nat.eqb_neq in E0.
  exists n. rewrite new_Float32Array_length. split; [|exact Hl].
  assert (Hne : (List.length (snd acc) =? 0)%nat = false).
  { apply Nat.eqb_neq. rewrite Hs.
    destruct n as [|n]; [lia|].
    cbn [repeat List.concat]. rewrite length_app, spread_length. lia. }
  rewrite Hne. cbn [negb]. unfold uniform_colors. now rewrite Hs.
Qed.

Lemma unresolved_is_no_triple v :
  parseColorValue v = None -> array_of_3 v = None.
Proof.
  intros H. unfold array_of_3.
  destruct v; try reflexivity.
  destruct (3 <=? List.length xs)%nat eqn:E; [|reflexivity].
  apply Nat.leb_le in E.
  unfold parseColorValue in H.
  rewrite (parseColorArray_array xs E) in H. discriminate H.
Qed.

Lemma defaultColor_of_no_triple csg :
  array_of_3 (color csg) = None -> defaultColor_of csg = white.
Proof.
  intros H; unfold defaultColor_of, toColorTuple.
  destruct (truthy (color csg)); [|reflexivity].
  unfold array_of_3 in H.
  destruct (color csg); try reflexivity.
  destruct (3 <=? List.length xs)%nat; [discriminate|reflexivity].
Qed.

Lemma defaultColor_of_ensured geom hint :
  defaultColor_of (ensureColorTupleOnCsg geom hint)
  = match resolved_color geom hint with
    | Some c => c
    | None => white
    end.
Proof.
  unfold resolved_color.
  destruct (match parseColorValue hint with
            | Some c' => Some c'
            | None => parseColorValue (color geom)
            end) as [[[r g] b]|] eqn:E.
  - rewrite (ensureColorTupleOnCsg_resolved geom hint _ E).
    assert (Hu : unit_channel r /\ unit_channel g /\ unit_channel b).
    { destruct (parseColorValue hint) as [c|] eqn:Eh.
      - injection E as ->. exact (parseColorValue_unit _ _ _ _ Eh).
      - exact (parseColorValue_unit _ _ _ _ E). }
    destruct Hu as (Hr & Hg & Hb).
    unfold defaultColor_of; cbn [color color_value truthy toColorTuple
                                 List.length Nat.leb index nth Number white].
    unfold Num.isFinite.
    now rewrite !unit_channel_finite.
  - unfold ensureColorTupleOnCsg. rewrite E.
    destruct (parseColorValue hint); [discriminate E|].
    now apply defaultColor_of_no_triple, unresolved_is_no_triple.
Qed.

Lemma resolved_color_unit geom hint r g b :
  match resolved_color geom hint with
  | Some c => c
  | None => white
  end = (r, g, b) ->
  unit_channel r /\ unit_channel g /\ unit_channel b.
Proof.
  unfold resolved_color.
  destruct (parseColorValue hint) as [c|] eqn:Eh.
  - intros ->. exact (parseColorValue_unit _ _ _ _ Eh).
  - destruct (parseColorValue (color geom)) as [c|] eqn:Eg.
    + intros ->. exact (parseColorValue_unit _ _ _ _ Eg).
    + intros [= <- <- <-]. repeat split; apply one_unit.
Qed.

End UniformColorProofs.

(** X24. The color of a rendered geometry on its vertices.  A geometry
    object that went through [ensureColorTupleOnCsg], none of whose vertices
    gives a color of its own, is converted to a mesh unit in which every
    vertex has one and the same color: the one resolved from the hint of the
    entry, or else from the color of the object, or else white; its channels
    lie between [0] and [1], and the color stream holds them as binary32
    values, three for each vertex. *)
Theorem rendered_color_reaches_every_vertex {RT : JsRuntime}
    geom hint nm unit :
  (forall ps, polygons geom = Some ps ->
              Forall (fun p => Forall colorless (polygon_vertices p)) ps) ->
  collectGeometries (GOne (ensureColorTupleOnCsg geom hint)) nm = ok [unit] ->
  exists r g b n,
    match resolved_color geom hint with
    | Some c => c
    | None => white
    end = (r, g, b)
    /\ unit_channel r /\ unit_channel g /\ unit_channel b
    /\ colors unit = Some (uniform_colors (r, g, b) n)
    /\ List.length (positions unit) = (3 * n)%nat.
Proof.
  intros Hc H.
  destruct (match resolved_color geom hint with
            | Some c => c
            | None => white
            end) as [[r g] b] eqn:Ec.
  exists r, g, b.
  assert (Hp : polygons (ensureColorTupleOnCsg geom hint) = polygons geom).
  { unfold ensureColorTupleOnCsg.
    destruct (parseColorValue hint) as [[[? ?] ?]|];
      [|destruct (parseColorValue (color geom)) as [[[? ?] ?]|]];
      reflexivity. }
  assert (Hu : exists n,
             colors unit
             = Some (uniform_colors
                       (defaultColor_of (ensureColorTupleOnCsg geom hint)) n)
             /\ List.length (positions unit) = (3 * n)%nat).
  { cbn [collectGeometries] in H.
    destruct (polygons (ensureColorTupleOnCsg geom hint)) as [ps|] eqn:Eps.
    - destruct (convertPolygonGeometry _ nm) as [e|u] eqn:E;
        [discriminate H|].
      cbn [bind] in H. injection H as <-.
      apply (convertPolygonGeometry_uniform _ nm u); [|exact E].
      intros ps' Hps'. apply Hc. congruence.
    - destruct (sides (ensureColorTupleOnCsg geom hint)) as [ss|];
        [|discriminate H].
      destruct (convertSideGeometry _ nm) as [e|u] eqn:E; [discriminate H|].
      cbn [bind] in H. injection H as <-.
      now apply (convertSideGeometry_uniform _ nm u). }
  destruct Hu as (n & Hcol & Hlen). exists n.
  rewrite defaultColor_of_ensured, Ec in Hcol.
  destruct (resolved_color_unit geom hint r g b Ec) as (Hr & Hg & Hb).
  split; [reflexivity|].
  split; [exact Hr|split; [exact Hg|split; [exact Hb|]]].
  split; assumption.
Qed.

Lemma rendered_color_reaches_every_vertex_example :
  exists unit n,
    collectGeometries (RT := Reference.runtime)
      (GOne (ensureColorTupleOnCsg (RT := Reference.runtime)
               square_solid (VString "#ff0000")))
      "cube"
    = ok [unit]
    /\ colors unit = Some (uniform_colors (1, 0, 0)%float n)
    /\ n = 6%nat.
Proof.
  destruct (collectGeometries (RT := Reference.runtime)
              (GOne (ensureColorTupleOnCsg (RT := Reference.runtime)
                       square_solid (VString "#ff0000")))
              "cube") as [e|[|u [|u' us]]] eqn:E;
    try (vm_compute in E; discriminate E).
  assert (Hc : forall ps,
             polygons square_solid = Some ps ->
             Forall (fun p => Forall colorless (polygon_vertices p)) ps).
  { intros ps [= <-]. repeat constructor. }
  destruct (rendered_color_reaches_every_vertex (RT := Reference.runtime)
              square_solid (VString "#ff0000") "cube" u Hc E)
    as (r & g & b & n & Ec & _ & _ & _ & Hcol & Hlen).
  vm_compute in Ec. injection Ec as <- <- <-.
  exists u, n. split; [reflexivity|split; [exact Hcol|]].
  vm_compute in E. injection E as <-.
  cbn [positions List.length] in Hlen. lia.
Defined.

(* ================================================================= *)
(** * Sides with a missing end *)

Section SideFailureProofs.

Context {RT : JsRuntime}.

Lemma point_of_missing p :
  p = VUndefined \/ p = VNull -> point_of p = throw TypeError.
Proof. intros [-> | ->]; reflexivity. Qed.

Lemma point_of_failure p e : point_of p = throw e -> e = TypeError.
Proof.
  unfold point_of.
  destruct (elem p 0) as [e0|x] eqn:E0; cbn [bind].
  - intros [= <-]. unfold elem, throw, ok in E0; destruct p; congruence.
  - destruct (elem p 1) as [e1|y] eqn:E1; cbn [bind].
    + intros [= <-]. unfold elem, throw, ok in E1; destruct p; congruence.
    + destruct (elem p 2) as [e2|z] eqn:E2; cbn [bind]; [|discriminate].
      intros [= <-]. unfold elem, throw, ok in E2; destruct p; congruence.
Qed.

Lemma push_side_failure csg d acc side e :
  push_side csg d acc side = throw e -> e = TypeError.
Proof.
  unfold push_side.
  destruct side; try discriminate.
  destruct (List.length xs <? 2)%nat; [discriminate|].
  destruct (point_of (index xs 0)) as [e0|startPoint] eqn:E0; cbn [bind].
  - intros [= <-]. now apply (point_of_failure _ _ E0).
  - destruct (point_of (index xs (List.length xs - 1))) as [e1|endPoint]
      eqn:E1; cbn [bind]; [|discriminate].
    intros [= <-]. now apply (point_of_failure _ _ E1).
Qed.

Lemma push_side_missing_end csg d acc side :
  missing_end side -> push_side csg d acc side = throw TypeError.
Proof.
  intros (pts & -> & Hlen & H). unfold push_side.
  apply Nat.ltb_ge in Hlen. rewrite Hlen.
  destruct (point_of (index pts 0)) as [e0|startPoint] eqn:E0; cbn [bind].
  - now rewrite (point_of_failure _ _ E0).
  - destruct H as [H|[H|H]];
      try (rewrite point_of_missing in E0 by auto; discriminate E0).
    rewrite point_of_missing by tauto. reflexivity.
Qed.

Lemma for_each_missing_end csg d ss side :
  In side ss -> missing_end side ->
  forall acc, for_each (push_side csg d) ss acc = throw TypeError.
Proof.
  intros Hin Hbad.
  induction ss as [|s ss IH]; [destruct Hin|]. intros acc.
  cbn [for_each].
  destruct (push_side csg d acc s) as [e|acc1] eqn:E; cbn [bind].
  - now rewrite (push_side_failure _ _ _ _ _ E).
  - destruct Hin as [->|Hin]; [|now apply IH].
    rewrite (push_side_missing_end csg d acc side Hbad) in E. discriminate E.
Qed.

End SideFailureProofs.

(** X25. A side with a missing end makes the conversion fail.  When one of
    the sides of a side-bearing object is an array of two elements or more
    whose first or last element is [undefined] or [null], reading the
    coordinates of that end raises a [TypeError]: it is what the conversion
    of the object, at any place of a geometry value handed to
    [convertJscadPlanToGltf], fails with, whatever the other sides are. *)
Theorem side_with_a_missing_end_fails {RT : JsRuntime} csg ss side nm :
  polygons csg = None ->
  sides csg = Some ss ->
  In side ss ->
  missing_end side ->
  convertSideGeometry csg nm = throw TypeError
  /\ collectGeometries (GOne csg) nm = throw TypeError
  /\ (forall options,
         convertJscadPlanToGltf (Some (GOne csg)) options = throw TypeError).
Proof.
  intros Hp Hs Hin Hbad.
  assert (H : forall nm', convertSideGeometry csg nm' = throw TypeError).
  { intros nm'. unfold convertSideGeometry. rewrite Hs.
    destruct ss as [|s ss']; [destruct Hin|].
    now rewrite (for_each_missing_end csg _ _ side Hin Hbad). }
  assert (H' : forall nm', collectGeometries (GOne csg) nm' = throw TypeError).
  { intros nm'. cbn [collectGeometries]. rewrite Hp, Hs, H. reflexivity. }
  split; [apply H|split; [apply H'|]].
  intros options. unfold convertJscadPlanToGltf. now rewrite H'.
Qed.

Lemma side_with_a_missing_end_fails_example :
  missing_end (VArray [VArray [VNumber 0; VNumber 0]; VNull])
  /\ convertJscadPlanToGltf (RT := Reference.runtime)
       (Some (GOne broken_outline)) (mkOptions None None None)
     = throw TypeError.
Proof.
  assert (Hbad : missing_end (VArray [VArray [VNumber 0; VNumber 0]; VNull])).
  { eexists. split; [reflexivity|]. split; [cbn; lia|]. cbn. tauto. }
  split; [exact Hbad|].
  apply (side_with_a_missing_end_fails (RT := Reference.runtime)
           broken_outline
           [four_point_side; VArray [VArray [VNumber 0; VNumber 0]; VNull]]
           (VArray [VArray [VNumber 0; VNumber 0]; VNull]) "JSCADMesh"
           eq_refl eq_refl);
    [cbn; tauto|exact Hbad].
Defined.

(* ================================================================= *)
(** * The bytes of a standalone document *)

Section Base64Proofs.

Lemma Z_of_byte_range b : 0 <= Reader.Z_of_byte b < 256.
Proof. destruct b; vm_compute; split; congruence. Qed.

Lemma byte_of_Z_of_byte b : byte_of_Z (Reader.Z_of_byte b) = b.
Proof. destruct b; reflexivity. Qed.

Lemma base64_char_value n :
  0 <= n < 64 ->
  base64_value (base64_char n) = Some n
  /\ Ascii.eqb (base64_char n) "=" = false.
Proof.
  intros Hn.
  assert (E : n = Z.of_nat (Z.to_nat n)) by lia.
  assert (Hk : (Z.to_nat n < 64)%nat) by lia.
  revert E Hk. generalize (Z.to_nat n) as k. intros k -> Hk.
  do 64 (destruct k as [|k]; [split; reflexivity|]).
  lia.
Qed.

Lemma sextets n0 n1 n2 :
  0 <= n0 < 256 -> 0 <= n1 < 256 -> 0 <= n2 < 256 ->
  0 <= n0 / 4 < 64
  /\ 0 <= n0 mod 4 * 16 + n1 / 16 < 64
  /\ 0 <= n1 mod 16 * 4 + n2 / 64 < 64
  /\ 0 <= n2 mod 64 < 64
  /\ n0 / 4 * 4 + (n0 mod 4 * 16 + n1 / 16) / 16 = n0
  /\ (n0 mod 4 * 16 + n1 / 16) mod 16 * 16 + (n1 mod 16 * 4 + n2 / 64) / 4
     = n1
  /\ (n1 mod 16 * 4 + n2 / 64) mod 4 * 64 + n2 mod 64 = n2.
Proof.
  intros H0 H1 H2. repeat split; Z.div_mod_to_equations; lia.
Qed.

Lemma base64_decode_group b0 b1 b2 rest :
  base64_decode (base64 (b0 :: b1 :: b2 :: rest))
  = option_map (fun bytes => b0 :: b1 :: b2 :: bytes)
               (base64_decode (base64 rest)).
Proof.
  pose proof (Z_of_byte_range b0) as H0.
  pose proof (Z_of_byte_range b1) as H1.
  pose proof (Z_of_byte_range b2) as H2.
  destruct (sextets _ _ _ H0 H1 H2) as (S0 & S1 & S2 & S3 & E0 & E1 & E2).
  destruct (base64_char_value _ S0) as [V0 _].
  destruct (base64_char_value _ S1) as [V1 _].
  destruct (base64_char_value _ S2) as [V2 P2].
  destruct (base64_char_value _ S3) as [V3 P3].
  cbn [base64 base64_decode]. cbv zeta.
  rewrite V0, V1, P2, V2, P3, V3, E0, E1, E2, !byte_of_Z_of_byte.
  now destruct (base64_decode (base64 rest)).
Qed.

Lemma base64_decode_tail_1 b0 : base64_decode (base64 [b0]) = Some [b0].
Proof. destruct b0; reflexivity. Qed.

Lemma base64_decode_tail_2 b0 b1 :
  base64_decode (base64 [b0; b1]) = Some [b0; b1].
Proof.
  pose proof (Z_of_byte_range b0) as H0.
  pose proof (Z_of_byte_range b1) as H1.
  destruct (sextets _ _ 0 H0 H1 ltac:(lia))
    as (S0 & S1 & S2 & _ & E0 & E1 & _).
  change (0 / 64) with 0 in S2, E1. rewrite Z.add_0_r in S2, E1.
  destruct (base64_char_value _ S0) as [V0 _].
  destruct (base64_char_value _ S1) as [V1 _].
  destruct (base64_char_value _ S2) as [V2 P2].
  cbn [base64 base64_decode]. cbv zeta.
  rewrite V0, V1, P2, V2, E0, E1, !byte_of_Z_of_byte.
  reflexivity.
Qed.

Lemma base64_decode_base64 b :
  base64_decode (base64 b) = Some b
  /\ String.length (base64 b) = (4 * ((List.length b + 2) / 3))%nat.
Proof.
  assert (H : forall n b, (List.length b <= n)%nat ->
                          base64_decode (base64 b) = Some b
                          /\ String.length (base64 b)
                             = (4 * ((List.length b + 2) / 3))%nat).
  { clear b. induction n as [|n IH]; intros b Hb.
    - destruct b; [split; reflexivity|cbn in Hb; lia].
    - destruct b as [|b0 [|b1 [|b2 rest]]].
      + split; reflexivity.
      + split; [apply base64_decode_tail_1|reflexivity].
      + split; [apply base64_decode_tail_2|reflexivity].
      + destruct (IH rest) as [Hd Hl]; [cbn in Hb; lia|].
        split.
        * now rewrite base64_decode_group, Hd.
        * cbn [base64 String.length List.length]. cbv zeta.
          cbn [String.length]. rewrite Hl.
          replace (S (S (S (List.length rest))) + 2)%nat
            with (1 * 3 + (List.length rest + 2))%nat by lia.
          rewrite Nat.div_add_l by lia. lia. }
  apply (H (List.length b)). lia.
Qed.

End Base64Proofs.

(* ================================================================= *)
(** * Indented JSON text reads back *)

Module IndentedFacts.

Import Json JsonReader JsonTerms JsonFacts IndentedTerms.
Local Open Scope string_scope.

Lemma blank_app a b : blank a -> blank b -> blank (a ++ b).
Proof.
  unfold blank. induction a as [|c a IH]; cbn; [auto|].
  intros Ha Hb. apply andb_prop in Ha as [Hc Ha].
  now rewrite Hc, IH.
Qed.

Lemma blank_newline : blank newline.
Proof. reflexivity. Qed.

Lemma blank_space : blank " ".
Proof. reflexivity. Qed.

Lemma blank_empty : blank "".
Proof. reflexivity. Qed.

Lemma skip_ws_blank w s : blank w -> skip_ws (w ++ s) = skip_ws s.
Proof.
  unfold blank. induction w as [|c w IH]; cbn; [reflexivity|].
  intros H. apply andb_prop in H as [Hc Hw]. now rewrite Hc, IH.
Qed.

Lemma ws_is_no_number_char c : is_ws c = true -> is_number_char c = false.
Proof.
  destruct c as [[] [] [] [] [] [] [] []]; try discriminate; reflexivity.
Qed.

Lemma stops_blank w c r :
  blank w -> is_number_char c = false -> stops (w ++ String c r).
Proof.
  unfold blank. destruct w as [|c' w]; cbn; [auto|].
  intros H _. apply andb_prop in H as [Hc _].
  now apply ws_is_no_number_char.
Qed.

Section RoundTrip.

Context {RT : JsRuntime}.

Lemma parse_value_blank fuel w s :
  blank w -> parse fuel Value (w ++ s) = parse fuel Value s.
Proof.
  intros Hw. destruct fuel as [|fuel]; [reflexivity|].
  cbn [parse]. now rewrite (skip_ws_blank w s Hw).
Qed.

Lemma read_key_blank w s : blank w -> read_key (w ++ s) = read_key s.
Proof. intros Hw. unfold read_key. now rewrite (skip_ws_blank w s Hw). Qed.

(** ** The text of an array and of an object that hold something *)

Lemma indented_array gap indent x xs rest :
  String.length gap <> 0%nat ->
  indented_text gap indent (VArray (x :: xs)) ++ rest
  = String "["
      ((newline ++ indent ++ gap)
       ++ join ("," ++ newline ++ indent ++ gap)
               (map (indented_text gap (indent ++ gap)) (x :: xs))
       ++ (newline ++ indent) ++ String "]" rest).
Proof.
  intros Hg. apply Nat.eqb_neq in Hg.
  unfold indented_text at 1. cbn [stringify]. unfold wrap.
  cbn [map]. rewrite Hg.
  fold (indented_text gap (indent ++ gap) x).
  change (map (fun y => match stringify gap (indent ++ gap) y with
                        | Some t => t
                        | None => "null"
                        end) xs)
    with (map (indented_text gap (indent ++ gap)) xs).
  rewrite !append_assoc. reflexivity.
Qed.

Lemma indented_members gap indent props :
  String.length gap <> 0%nat ->
  forallb (fun kv => plain (snd kv)) props = true ->
  flat_map (fun kv => match stringify gap indent (snd kv) with
                      | Some t =>
                          [quote (fst kv) ++ ":"
                           ++ (if (String.length gap =? 0)%nat
                               then "" else " ") ++ t]
                      | None => []
                      end) props
  = map (indented_member gap indent) props.
Proof.
  intros Hg. apply Nat.eqb_neq in Hg. rewrite Hg.
  induction props as [|[k v] props IH]; [reflexivity|].
  cbn [forallb snd]. intros H. apply andb_prop in H as [Hv Hp].
  cbn [flat_map map fst snd]. rewrite (IH Hp).
  unfold indented_member, indented_text; cbn [fst snd].
  destruct v; try discriminate Hv; reflexivity.
Qed.

Lemma indented_object gap indent kv props rest :
  String.length gap <> 0%nat ->
  forallb (fun p => plain (snd p)) (kv :: props) = true ->
  indented_text gap indent (VObject (kv :: props)) ++ rest
  = String "{"
      ((newline ++ indent ++ gap)
       ++ join ("," ++ newline ++ indent ++ gap)
               (map (indented_member gap (indent ++ gap)) (kv :: props))
       ++ (newline ++ indent) ++ String "}" rest).
Proof.
  intros Hg Hp.
  unfold indented_text at 1. cbn [stringify]. unfold wrap.
  rewrite (indented_members gap (indent ++ gap) (kv :: props) Hg Hp).
  apply Nat.eqb_neq in Hg. cbn [map]. rewrite Hg.
  rewrite !append_assoc. reflexivity.
Qed.

Lemma indented_text_opens gap indent v :
  plain v = true ->
  exists c t, indented_text gap indent v = String c t /\ opens c.
Proof.
  intros Hp.
  destruct v as [| |b|x|s|xs|props];
    try exact (text_opens _ Hp).
  - unfold indented_text; cbn [stringify]; unfold wrap.
    destruct (map _ xs); [|destruct (String.length gap =? 0)%nat];
      (eexists "["%char, _; split;
       [reflexivity|split; [reflexivity|split; discriminate]]).
  - unfold indented_text; cbn [stringify]; unfold wrap.
    destruct (flat_map _ props); [|destruct (String.length gap =? 0)%nat];
      (eexists "{"%char, _; split;
       [reflexivity|split; [reflexivity|split; discriminate]]).
Qed.

(** ** The elements and the members *)

Lemma parse_elements_indented gap ind lead trail x xs :
  blank lead -> blank trail ->
  Forall (fun y => forall fuel rest,
              (size y <= fuel)%nat -> stops rest ->
              parse fuel Value (indented_text gap ind y ++ rest)
              = Some (y, rest))
         (x :: xs) ->
  forall fuel rest,
    (list_sum (map (fun y => S (size y)) (x :: xs)) <= fuel)%nat ->
    parse fuel Elements
          (lead ++ join ("," ++ lead) (map (indented_text gap ind) (x :: xs))
                ++ trail ++ String "]" rest)
    = Some (VArray (x :: xs), rest).
Proof.
  intros Hl Ht. revert x.
  induction xs as [|y ys IH]; intros x Hall fuel rest Hfuel.
  - inversion Hall as [|? ? Hx _]; subst.
    cbn [map join]; simpl in Hfuel.
    destruct fuel as [|fuel]; [lia|].
    cbn [parse]. rewrite (parse_value_blank fuel lead _ Hl).
    rewrite (Hx fuel (trail ++ String "]" rest))
      by (try (apply stops_blank; [assumption|reflexivity]); lia).
    rewrite (skip_ws_blank trail _ Ht), skip_ws_bracket. reflexivity.
  - inversion Hall as [|? ? Hx Hrest]; subst.
    simpl in Hfuel.
    change (join ("," ++ lead) (map (indented_text gap ind) (x :: y :: ys)))
      with (indented_text gap ind x ++ ("," ++ lead)
            ++ join ("," ++ lead) (map (indented_text gap ind) (y :: ys))).
    rewrite !append_assoc.
    destruct fuel as [|fuel]; [lia|].
    cbn [parse]. rewrite (parse_value_blank fuel lead _ Hl).
    change ("," ++ ?s) with (String "," s).
    rewrite (Hx fuel _) by (try apply stops_comma; lia).
    rewrite skip_ws_comma.
    rewrite (IH y Hrest fuel rest) by (simpl; lia).
    reflexivity.
Qed.

Lemma read_key_indented gap ind lead k v tail :
  blank lead ->
  read_key (lead ++ indented_member gap ind (k, v) ++ tail)
  = Some (k, " " ++ indented_text gap ind v ++ tail).
Proof.
  intros Hl. rewrite (read_key_blank lead _ Hl).
  unfold indented_member, read_key; cbn [fst snd].
  rewrite !append_assoc, quote_append, skip_ws_quote.
  change (nat_of_ascii dquote =? 34)%nat with true; cbv beta match.
  rewrite read_string_quote.
  change (":" ++ ?s) with (String ":" s).
  now rewrite skip_ws_colon.
Qed.

Lemma parse_members_indented gap ind lead trail kv props :
  blank lead -> blank trail ->
  Forall (fun p => forall fuel rest,
              (size (snd p) <= fuel)%nat -> stops rest ->
              parse fuel Value (indented_text gap ind (snd p) ++ rest)
              = Some (snd p, rest))
         (kv :: props) ->
  forall fuel rest,
    (list_sum (map (fun p => S (size (snd p))) (kv :: props)) <= fuel)%nat ->
    parse fuel Members
          (lead ++ join ("," ++ lead)
                        (map (indented_member gap ind) (kv :: props))
                ++ trail ++ String "}" rest)
    = Some (VObject (kv :: props), rest).
Proof.
  intros Hl Ht. revert kv.
  induction props as [|p ps IH]; intros [k v] Hall fuel rest Hfuel.
  - inversion Hall as [|? ? Hv _]; subst; cbn [snd] in Hv.
    cbn [map join]; simpl in Hfuel.
    destruct fuel as [|fuel]; [lia|].
    cbn [parse]. rewrite (read_key_indented gap ind lead k v _ Hl).
    rewrite (parse_value_blank fuel " " _ blank_space).
    rewrite (Hv fuel (trail ++ String "}" rest))
      by (try (apply stops_blank; [assumption|reflexivity]); lia).
    rewrite (skip_ws_blank trail _ Ht), skip_ws_brace. reflexivity.
  - inversion Hall as [|? ? Hv Hrest]; subst; cbn [snd] in Hv.
    simpl in Hfuel.
    change (join ("," ++ lead)
                 (map (indented_member gap ind) ((k, v) :: p :: ps)))
      with (indented_member gap ind (k, v) ++ ("," ++ lead)
            ++ join ("," ++ lead) (map (indented_member gap ind) (p :: ps))).
    rewrite !append_assoc.
    destruct fuel as [|fuel]; [lia|].
    cbn [parse]. rewrite (read_key_indented gap ind lead k v _ Hl).
    rewrite (parse_value_blank fuel " " _ blank_space).
    change ("," ++ ?s) with (String "," s).
    rewrite (Hv fuel _) by (try apply stops_comma; lia).
    rewrite skip_ws_comma.
    rewrite (IH p Hrest fuel rest) by (simpl; lia).
    reflexivity.
Qed.

(** ** The opening of an array and of an object *)

Lemma parse_array_opening fuel lead body :
  blank lead ->
  (exists c t, body = String c t /\ opens c) ->
  parse (S fuel) Value (String "[" (lead ++ body))
  = parse fuel Elements (lead ++ body).
Proof.
  intros Hl (c & t & -> & Hc).
  cbn [parse].
  change (skip_ws (String "[" ?r)) with (String "[" r).
  cbv beta match zeta.
  change (nat_of_ascii "[" =? 110)%nat with false.
  change (nat_of_ascii "[" =? 116)%nat with false.
  change (nat_of_ascii "[" =? 102)%nat with false.
  change (nat_of_ascii "[" =? 34)%nat with false.
  change (nat_of_ascii "[" =? 91)%nat with true.
  cbv beta match.
  rewrite (skip_ws_blank lead _ Hl).
  rewrite (skip_ws_opens _ _ Hc).
  apply not_closing_bracket; exact (proj1 (proj2 Hc)).
Qed.

Lemma parse_object_opening fuel lead body :
  blank lead ->
  (exists t, body = String dquote t) ->
  parse (S fuel) Value (String "{" (lead ++ body))
  = parse fuel Members (lead ++ body).
Proof.
  intros Hl (t & ->).
  cbn [parse].
  change (skip_ws (String "{" ?r)) with (String "{" r).
  cbv beta match zeta.
  change (nat_of_ascii "{" =? 110)%nat with false.
  change (nat_of_ascii "{" =? 116)%nat with false.
  change (nat_of_ascii "{" =? 102)%nat with false.
  change (nat_of_ascii "{" =? 34)%nat with false.
  change (nat_of_ascii "{" =? 91)%nat with false.
  change (nat_of_ascii "{" =? 123)%nat with true.
  cbv beta match.
  rewrite (skip_ws_blank lead _ Hl), skip_ws_quote.
  reflexivity.
Qed.

(** ** One value *)

Lemma plain_reads_back_indented gap :
  blank gap -> String.length gap <> 0%nat ->
  forall v, plain v = true -> reads_back_indented gap v.
Proof.
  intros Hg Hne v.
  induction v as [| |b|x|s|xs IH|props IH] using value_induction;
    intros Hp indent fuel rest Hi Hfuel Hrest;
    try exact (plain_reads_back _ Hp fuel rest Hfuel Hrest).
  - cbn [plain] in Hp.
    pose proof (forallb_Forall _ _ _ IH Hp) as Hall.
    destruct xs as [|x xs];
      [exact (plain_reads_back (VArray []) eq_refl fuel rest Hfuel Hrest)|].
    cbn [forallb] in Hp; apply andb_prop in Hp as [Hx _].
    assert (Hlead : blank (newline ++ indent ++ gap))
      by (repeat apply blank_app; auto using blank_newline).
    assert (Htrail : blank (newline ++ indent))
      by (apply blank_app; auto using blank_newline).
    assert (Hind : blank (indent ++ gap)) by now apply blank_app.
    rewrite (indented_array gap indent x xs rest Hne).
    destruct fuel as [|fuel]; [cbn in Hfuel; lia|].
    rewrite (parse_array_opening fuel _ _ Hlead).
    2:{ destruct (indented_text_opens gap (indent ++ gap) x Hx)
          as (c & t & E & Hc).
        cbn [map]. rewrite join_head, E. cbn [append].
        now exists c; eexists. }
    apply (parse_elements_indented gap (indent ++ gap) _ _ x xs
             Hlead Htrail).
    + eapply Forall_impl; [|exact Hall]. cbv beta.
      intros y Hy fuel' rest'. now apply Hy.
    + cbn [size] in Hfuel; lia.
  - cbn [plain] in Hp.
    pose proof (forallb_Forall (fun kv => plain (snd kv))
                  (fun kv => reads_back_indented gap (snd kv)) _ IH Hp)
      as Hall.
    destruct props as [|[k v] props];
      [exact (plain_reads_back (VObject []) eq_refl fuel rest Hfuel Hrest)|].
    assert (Hlead : blank (newline ++ indent ++ gap))
      by (repeat apply blank_app; auto using blank_newline).
    assert (Htrail : blank (newline ++ indent))
      by (apply blank_app; auto using blank_newline).
    rewrite (indented_object gap indent (k, v) props rest Hne Hp).
    destruct fuel as [|fuel]; [cbn in Hfuel; lia|].
    rewrite (parse_object_opening fuel _ _ Hlead).
    2:{ cbn [map]. rewrite join_head.
        unfold indented_member at 1; cbn [fst snd].
        rewrite !append_assoc, quote_append. now eexists. }
    apply (parse_members_indented gap (indent ++ gap) _ _ (k, v) props
             Hlead Htrail).
    + eapply Forall_impl; [|exact Hall]. cbv beta.
      intros p Hy fuel' rest'. apply Hy. now apply blank_app.
    + cbn [size] in Hfuel; lia.
Qed.

(** ** The fuel [JSON_parse] gives *)

Lemma join_sizes_sep {A} sep (f : A -> nat) (g : A -> string) xs :
  (1 <= String.length sep)%nat ->
  Forall (fun x => (f x <= 2 * String.length (g x))%nat) xs ->
  (list_sum (map (fun x => S (f x)) xs)
   <= 2 * String.length (join sep (map g xs)) + 2)%nat.
Proof.
  intros Hs.
  induction 1 as [|x xs Hx _ IH]; [cbn; lia|].
  cbn [map]; rewrite join_head, length_append.
  change (list_sum (?a :: ?l)) with (a + list_sum l)%nat.
  destruct xs as [|y ys]; [cbn in *; lia|].
  cbn [map] in *; rewrite length_append.
  change (list_sum (?a :: ?l)) with (a + list_sum l)%nat in *.
  lia.
Qed.

Lemma size_bound_indented gap :
  String.length gap <> 0%nat ->
  forall v, plain v = true ->
            forall indent,
              (size v <= 2 * String.length (indented_text gap indent v))%nat.
Proof.
  intros Hne v.
  induction v as [| |b|x|s|xs IH|props IH] using value_induction;
    intros Hp indent;
    try exact (size_bound _ Hp).
  - cbn [plain] in Hp.
    pose proof (forallb_Forall _ _ _ IH Hp) as Hall.
    destruct xs as [|x xs]; [exact (size_bound (VArray []) eq_refl)|].
    assert (Hall' : Forall (fun y => (size y
                                      <= 2 * String.length
                                               (indented_text gap
                                                  (indent ++ gap) y))%nat)
                           (x :: xs))
      by (eapply Forall_impl; [|exact Hall]; cbv beta; auto).
    pose proof (join_sizes_sep ("," ++ newline ++ indent ++ gap) size
                  (indented_text gap (indent ++ gap)) (x :: xs)
                  ltac:(cbn; lia) Hall') as Hj.
    rewrite <- (append_nil_r (indented_text gap indent (VArray (x :: xs)))).
    rewrite (indented_array gap indent x xs "" Hne).
    cbn [String.length]. rewrite !length_append.
    cbn [size] in *. lia.
  - cbn [plain] in Hp.
    pose proof (forallb_Forall (fun kv => plain (snd kv))
                  (fun kv => forall indent,
                       (size (snd kv)
                        <= 2 * String.length
                                 (indented_text gap indent (snd kv)))%nat)
                  _ IH Hp) as Hall.
    destruct props as [|kv props]; [exact (size_bound (VObject []) eq_refl)|].
    assert (Hm : Forall (fun p => (size (snd p)
                                   <= 2 * String.length
                                            (indented_member gap
                                               (indent ++ gap) p))%nat)
                        (kv :: props)).
    { eapply Forall_impl; [|exact Hall]; cbv beta; intros p H.
      unfold indented_member; rewrite !length_append.
      specialize (H (indent ++ gap)). lia. }
    pose proof (join_sizes_sep ("," ++ newline ++ indent ++ gap)
                  (fun p => size (snd p))
                  (indented_member gap (indent ++ gap)) (kv :: props)
                  ltac:(cbn; lia) Hm) as Hj.
    rewrite <- (append_nil_r (indented_text gap indent (VObject (kv :: props)))).
    rewrite (indented_object gap indent kv props "" Hne Hp).
    cbn [String.length]. rewrite !length_append.
    cbn [size] in *. lia.
Qed.

(** [JSON.parse] reads a plain value back from its indented text. *)
Lemma JSON_parse_indented gap v :
  blank gap -> String.length gap <> 0%nat -> plain v = true ->
  JSON_parse (indented_text gap "" v) = Some v.
Proof.
  intros Hg Hne Hp; unfold JSON_parse.
  rewrite <- (append_nil_r (indented_text gap "" v)) at 2.
  rewrite (plain_reads_back_indented gap Hg Hne v Hp "" _ ""
             blank_empty (size_bound_indented gap Hne v Hp "") I).
  reflexivity.
Qed.

Lemma plain_stringify gap indent v :
  plain v = true -> stringify gap indent v = Some (indented_text gap indent v).
Proof.
  unfold indented_text. destruct v; try discriminate; reflexivity.
Qed.

Lemma blank_spaces n : blank (string_of_list_ascii (repeat " "%char n)).
Proof.
  unfold blank. induction n as [|n IH]; [reflexivity|].
  cbn [repeat string_of_list_ascii list_ascii_of_string forallb].
  now rewrite IH.
Qed.

Lemma length_spaces n :
  String.length (string_of_list_ascii (repeat " "%char n)) = n.
Proof. induction n as [|n IH]; cbn; [reflexivity|now rewrite IH]. Qed.

End RoundTrip.

End IndentedFacts.

(* ================================================================= *)
(** * The standalone document, indented or not *)

Section StandaloneProofs.

Import Json JsonReader JsonTerms JsonFacts IndentedTerms IndentedFacts.

Context {RT : JsRuntime}.

(** [JSON.parse] reads back what [JSON.stringify] writes of a plain value,
    whatever the indentation. *)
Lemma JSON_stringify_reads_back v space :
  plain v = true ->
  exists t, JSON_stringify v space = Some t /\ JSON_parse t = Some v.
Proof.
  intros Hp. unfold JSON_stringify.
  rewrite (plain_stringify _ "" v Hp). eexists; split; [reflexivity|].
  destruct (Nat.min space 10) as [|n].
  - cbn [repeat string_of_list_ascii]. unfold indented_text.
    rewrite stringify_compact, (plain_serialize v Hp).
    apply JSON_parse_text, Hp.
  - apply JSON_parse_indented;
      [apply blank_spaces|rewrite length_spaces; lia|exact Hp].
Qed.

Lemma lookup_set_prop key x props :
  lookup_prop key (set_prop key x props) = x.
Proof.
  induction props as [|[k v] props IH]; cbn [set_prop lookup_prop].
  - now rewrite String.eqb_refl.
  - destruct (String.eqb k key) eqn:E; cbn [lookup_prop]; now rewrite E.
Qed.

Lemma attach_uri_buffer_uri doc uri doc' :
  attach_uri doc uri = ok doc' -> buffer_uri doc' = VString uri.
Proof.
  unfold attach_uri. destruct doc as [| | | | | |props]; try discriminate.
  destruct (lookup_prop "buffers" props)
    as [| | | | |[|[| | | | | |first] others]|]; try discriminate.
  intros [= <-]. unfold buffer_uri. cbn [get_prop].
  rewrite lookup_set_prop. cbn [get_prop]. apply lookup_set_prop.
Qed.

(** The conversion to the JSON format, step by step. *)
Lemma buildConversionResult_gltf gs pretty :
  gs <> [] ->
  printable (GltfJson_value (fst (buildGltfCore gs))) = true ->
  exists scene doc text,
    normal (GltfJson_value (fst (buildGltfCore gs))) = Some scene
    /\ attach_uri scene
         ("data:application/octet-stream;base64,"
          ++ base64 (snd (buildGltfCore gs)))%string
       = ok doc
    /\ plain doc = true
    /\ JSON_stringify doc (match pretty with
                           | Some true => 2
                           | _ => 0
                           end) = Some text
    /\ JSON_parse text = Some doc
    /\ buildConversionResult gs gltf pretty
       = ok {| data := Text text;
               format := gltf;
               mimeType := "model/gltf+json";
               result_byteLength := Buffer_length (utf8 text) |}.
Proof.
  intros Hne Hp; destruct gs as [|g gs]; [congruence|].
  unfold buildConversionResult.
  destruct (buildGltfCore_packed (g :: gs)) as (len & Hb & _).
  destruct (buildGltfCore (g :: gs)) as [json binary]; cbn [fst snd] in *.
  destruct (scene_attach json len
              ("data:application/octet-stream;base64," ++ base64 binary)
              Hb) as (scene & doc & Hn & Ha).
  destruct (serialize (GltfJson_value json)) as [t|] eqn:Ht;
    [|destruct (scene_text_object json) as (body & E); congruence].
  destruct (JSON_parse_serialize _ _ Hp Ht) as (w & Hw & Hparse & _ & _).
  rewrite Hparse.
  assert (w = scene) by congruence; subst w.
  rewrite Ha; cbn [bind ok].
  destruct (normal_plain _ Hp _ Hn) as (Hplain & _).
  pose proof (attach_uri_plain _ _ _ Hplain Ha) as Hdoc.
  destruct (JSON_stringify_reads_back doc
              (match pretty with Some true => 2 | _ => 0 end)%nat Hdoc)
    as (text & Hs & Hr).
  exists scene, doc, text. rewrite Hs.
  repeat split; assumption.
Qed.

End StandaloneProofs.

(** X26. The indented standalone document.  With [prettyJson] the conversion
    to the JSON format gives the text [JSON.stringify] writes with two
    spaces of indentation, and [JSON.parse] reads from it the very document
    it reads from the text given without [prettyJson]: the scene as JSON
    keeps it, with its bytes attached.  This for mesh units, one at least,
    whose scene prints numbers that read back. *)
Theorem indented_document_reads_back {RT : JsRuntime} gs :
  gs <> [] ->
  JsonReader.printable (GltfJson_value (fst (buildGltfCore gs))) = true ->
  exists r r' text text' doc,
    buildConversionResult gs gltf (Some true) = ok r
    /\ buildConversionResult gs gltf None = ok r'
    /\ data r = Text text
    /\ data r' = Text text'
    /\ Json.JSON_stringify doc 2 = Some text
    /\ Json.serialize doc = Some text'
    /\ JsonReader.JSON_parse text = Some doc
    /\ JsonReader.JSON_parse text' = Some doc
    /\ mimeType r = "model/gltf+json"%string
    /\ result_byteLength r = Buffer_length (utf8 text).
Proof.
  intros Hne Hp.
  destruct (buildConversionResult_gltf gs (Some true) Hne Hp)
    as (scene & doc & text & Hn & Ha & Hd & Hs & Hr & E).
  destruct (buildConversionResult_gltf gs None Hne Hp)
    as (scene' & doc' & text' & Hn' & Ha' & _ & Hs' & Hr' & E').
  assert (scene' = scene) by congruence; subst scene'.
  assert (doc' = doc) by (unfold ok in Ha, Ha'; congruence); subst doc'.
  do 2 eexists. exists text, text', doc.
  split; [exact E|split; [exact E'|]].
  cbn [data mimeType result_byteLength].
  repeat split; try assumption.
  rewrite <- Hs'. symmetry. apply stringify_compact.
Qed.

Lemma indented_document_reads_back_example :
  exists r text doc,
    buildConversionResult (RT := Reference.runtime) example_units gltf
      (Some true) = ok r
    /\ data r = Text text
    /\ JsonReader.JSON_parse (RT := Reference.runtime) text = Some doc
    /\ result_byteLength r = 2518
    /\ get_prop doc "scene" = VNumber 0.
Proof.
  destruct (indented_document_reads_back (RT := Reference.runtime)
              example_units)
    as (r & r' & text & text' & doc & H1 & _ & H2 & _ & _ & _ & H3 & _);
    [intros H; vm_compute in H; discriminate H|vm_compute; reflexivity|].
  exists r, text, doc.
  split; [exact H1|split; [exact H2|split; [exact H3|]]].
  vm_compute in H1. injection H1 as <-.
  cbn [data] in H2. injection H2 as <-.
  vm_compute in H3. injection H3 as <-.
  split; reflexivity.
Defined.

(** X27. The bytes of the standalone document.  The text the conversion to
    the JSON format gives, indented or not, reads as a document whose one
    buffer descriptor has for [uri] the data URI of the packed bytes in
    base64: the payload has four code units for every three bytes, begun or
    complete, and decodes to the streams of the mesh units end to end, the
    bytes the binary chunk of the container holds. *)
Theorem standalone_document_carries_the_bytes {RT : JsRuntime} gs pretty :
  gs <> [] ->
  JsonReader.printable (GltfJson_value (fst (buildGltfCore gs))) = true ->
  exists r text doc payload,
    buildConversionResult gs gltf pretty = ok r
    /\ data r = Text text
    /\ JsonReader.JSON_parse text = Some doc
    /\ buffer_uri doc
       = VString ("data:application/octet-stream;base64," ++ payload)
    /\ String.length payload
       = (4 * ((List.length (snd (buildGltfCore gs)) + 2) / 3))%nat
    /\ base64_decode payload = Some (snd (buildGltfCore gs))
    /\ snd (buildGltfCore gs)
       = flat_map Float32Array_bytes (flat_map unit_streams gs).
Proof.
  intros Hne Hp.
  destruct (buildConversionResult_gltf gs pretty Hne Hp)
    as (scene & doc & text & _ & Ha & _ & _ & Hr & E).
  destruct (base64_decode_base64 (snd (buildGltfCore gs))) as [Hd Hl].
  destruct (buildGltfCore_laid_out gs) as (Hbin & _).
  eexists. exists text, doc, (base64 (snd (buildGltfCore gs))).
  split; [exact E|]. cbn [data].
  split; [reflexivity|split; [exact Hr|]].
  split; [exact (attach_uri_buffer_uri _ _ _ Ha)|].
  split; [exact Hl|split; [exact Hd|exact Hbin]].
Qed.

Lemma standalone_document_carries_the_bytes_example :
  exists r text doc payload,
    buildConversionResult (RT := Reference.runtime) example_units gltf None
    = ok r
    /\ data r = Text text
    /\ JsonReader.JSON_parse (RT := Reference.runtime) text = Some doc
    /\ buffer_uri doc
       = VString ("data:application/octet-stream;base64," ++ payload)
    /\ String.length payload = 352%nat
    /\ base64_decode payload = Some (snd (buildGltfCore example_units)).
Proof.
  destruct (standalone_document_carries_the_bytes (RT := Reference.runtime)
              example_units None)
    as (r & text & doc & payload & H1 & H2 & H3 & H4 & H5 & H6 & _);
    [intros H; vm_compute in H; discriminate H|vm_compute; reflexivity|].
  exists r, text, doc, payload.
  split; [exact H1|split; [exact H2|split; [exact H3|split; [exact H4|]]]].
  split; [|exact H6]. rewrite H5. vm_compute. reflexivity.
Defined.

(* ================================================================= *)
(** * From a mesh to its streams *)

Section AttributeProofs.

Lemma combine_fst_snd {A B} (l : list (A * B)) :
  combine (map fst l) (map snd l) = l.
Proof.
  induction l as [|[a b] l IH]; cbn; [reflexivity|now rewrite IH].
Qed.

Lemma stream_count_streams g :
  stream_count g = List.length (unit_streams g).
Proof.
  unfold stream_count, attribute_names, unit_streams.
  destruct (normals g), (colors g); reflexivity.
Qed.

Lemma pack_geometry_mesh st g i :
  meshes (pack_geometry st g i)
  = meshes st ++ meshes_of [g] (List.length (accessors st))
  /\ List.length (accessors (pack_geometry st g i))
     = (List.length (accessors st) + stream_count g)%nat.
Proof.
  destruct (pack_geometry_graph st g i)
    as (attrs & na & nv & Em & _ & Ea & _ & Hf & Hna & _ & _ & _ & Hs).
  split.
  - rewrite Em. cbn [meshes_of]. do 4 f_equal.
    rewrite <- (combine_fst_snd attrs), Hf, Hs.
    f_equal. rewrite (seq_offset (List.length (accessors st))).
    now rewrite map_map.
  - rewrite Ea, length_app, Hna. reflexivity.
Qed.

Lemma forEach_indexed_meshes gs i st :
  meshes (forEach_indexed gs i st)
  = meshes st ++ meshes_of gs (List.length (accessors st)).
Proof.
  revert i st. induction gs as [|g gs IH]; intros i st;
    cbn [forEach_indexed meshes_of]; [now rewrite app_nil_r|].
  destruct (pack_geometry_mesh st g i) as [Em El].
  rewrite IH, Em, El. cbn [meshes_of]. now rewrite <- app_assoc.
Qed.

Lemma buildGltfCore_meshes gs :
  j_meshes (fst (buildGltfCore gs)) = meshes_of gs 0.
Proof.
  destruct (buildGltfCore_state gs) as (_ & _ & -> & _).
  now rewrite forEach_indexed_meshes.
Qed.

Lemma meshes_of_nth before g after first :
  nth_error (meshes_of (before ++ g :: after) first) (List.length before)
  = Some {| mesh_name := name g;
            primitives :=
              [{| attributes :=
                    combine (attribute_names g)
                            (map Z.of_nat
                                 (seq (first
                                       + List.length
                                           (flat_map unit_streams before))
                                      (stream_count g)));
                  prim_mode := mode g |}] |}.
Proof.
  revert first. induction before as [|b before IH]; intros first.
  - cbn. now rewrite Nat.add_0_r.
  - cbn [app meshes_of List.length nth_error flat_map].
    rewrite IH, length_app, stream_count_streams.
    now rewrite Nat.add_assoc.
Qed.

Lemma flat_map_nth {A B} (f : A -> list B) before x after k :
  (k < List.length (f x))%nat ->
  nth_error (flat_map f (before ++ x :: after))
            (List.length (flat_map f before) + k)
  = nth_error (f x) k.
Proof.
  intros Hk. rewrite flat_map_app. cbn [flat_map].
  rewrite nth_error_app2 by lia.
  replace (List.length (flat_map f before) + k
           - List.length (flat_map f before))%nat with k by lia.
  now rewrite nth_error_app1.
Qed.

Lemma nth_error_seq_0 n k : (k < n)%nat -> nth_error (seq 0 n) k = Some k.
Proof.
  intros Hk. rewrite (nth_error_nth' _ 0%nat) by now rewrite length_seq.
  now rewrite seq_nth.
Qed.

Lemma read_accessor_stream gs k stream :
  nth_error (flat_map unit_streams gs) k = Some stream ->
  read_accessor (fst (buildGltfCore gs)) (snd (buildGltfCore gs))
                (Z.of_nat k)
  = Some (vertex_count stream, Float32Array_bytes stream).
Proof.
  intros Hk.
  assert (Hlt : (k < List.length (flat_map unit_streams gs))%nat)
    by (apply nth_error_Some; congruence).
  destruct (buildGltfCore_laid_out gs)
    as (Hbin & _ & Hviews & (Hcount & Hbv & _) & _).
  unfold read_accessor. rewrite Nat2Z.id.
  pose proof (f_equal (fun l => nth_error l k) Hcount) as Ec.
  pose proof (f_equal (fun l => nth_error l k) Hbv) as Eb.
  cbv beta in Ec, Eb. rewrite !nth_error_map in Ec, Eb.
  rewrite Hk in Ec. rewrite (nth_error_seq_0 _ _ Hlt) in Eb.
  destruct (nth_error (j_accessors (fst (buildGltfCore gs))) k)
    as [acc|]; [|discriminate Ec].
  cbn [option_map] in Ec, Eb.
  injection Ec as Ec. injection Eb as Eb.
  rewrite Eb, Ec. cbn [Nat.add]. rewrite Nat2Z.id.
  destruct (views_of_slices (flat_map unit_streams gs) [] 0 eq_refl
              k stream Hk) as (view & Hv & Hs).
  rewrite Hviews, Hv, Hbin. cbn [app] in Hs. now rewrite Hs.
Qed.

Lemma attributes_read (json : GltfJson) (binary : Buffer) g first :
  (forall k stream,
      nth_error (unit_streams g) k = Some stream ->
      read_accessor json binary (Z.of_nat (first + k))
      = Some (vertex_count stream, Float32Array_bytes stream)) ->
  Forall2 (fun attr stream =>
             fst attr = fst stream
             /\ read_accessor json binary (snd attr)
                = Some (vertex_count (snd stream),
                        Float32Array_bytes (snd stream)))
          (combine (attribute_names g)
                   (map Z.of_nat (seq first (stream_count g))))
          (named_streams g).
Proof.
  intros Hread.
  pose proof (Hread 0%nat) as H0.
  pose proof (Hread 1%nat) as H1.
  pose proof (Hread 2%nat) as H2.
  rewrite Nat.add_0_r in H0. rewrite Nat.add_1_r in H1.
  replace (first + 2)%nat with (S (S first)) in H2 by lia.
  destruct g as [nm ps [ns|] [cs|] md];
    cbn [unit_streams normals colors positions app nth_error] in H0, H1, H2;
    cbn [attribute_names stream_count named_streams normals colors
         positions app List.length seq map combine];
    repeat (constructor;
            [split; [reflexivity|]; cbn [snd];
             first [now apply H0|now apply H1|now apply H2]|]);
    constructor.
Qed.

End AttributeProofs.

(** X28. From a mesh to the bytes of its streams.  The mesh of index [i]
    has the name and the topology of the mesh unit of index [i], and one
    primitive, whose attributes are those of the streams of the unit, in
    order; and the accessor of each attribute counts the vertices of its
    stream and, through its bufferView, addresses in the packed buffer the
    bytes of that very stream. *)
Theorem mesh_attributes_address_their_streams (gs : list GeometryData) i g :
  nth_error gs i = Some g ->
  exists attrs,
    nth_error (j_meshes (fst (buildGltfCore gs))) i
    = Some {| mesh_name := name g;
              primitives :=
                [{| attributes := attrs; prim_mode := mode g |}] |}
    /\ Forall2 (fun attr stream =>
                  fst attr = fst stream
                  /\ read_accessor (fst (buildGltfCore gs))
                                   (snd (buildGltfCore gs)) (snd attr)
                     = Some (vertex_count (snd stream),
                             Float32Array_bytes (snd stream)))
               attrs (named_streams g).
Proof.
  intros Hi.
  destruct (nth_error_split gs i Hi) as (before & after & -> & <-).
  exists (combine (attribute_names g)
                  (map Z.of_nat
                       (seq (List.length (flat_map unit_streams before))
                            (stream_count g)))).
  split.
  - rewrite buildGltfCore_meshes. apply meshes_of_nth.
  - apply attributes_read. intros k stream Hk.
    apply read_accessor_stream.
    rewrite flat_map_nth; [exact Hk|].
    apply nth_error_Some. congruence.
Qed.

Lemma mesh_attributes_address_their_streams_example :
  exists g attrs,
    nth_error example_units 1 = Some g
    /\ nth_error (j_meshes (fst (buildGltfCore example_units))) 1
       = Some {| mesh_name := "part_1";
                 primitives :=
                   [{| attributes := attrs;
                       prim_mode := GLTF_MODE_LINES |}] |}
    /\ attrs = [("POSITION"%string, 3); ("COLOR_0"%string, 4)]
    /\ Forall2 (fun attr stream =>
                  fst attr = fst stream
                  /\ read_accessor (fst (buildGltfCore example_units))
                                   (snd (buildGltfCore example_units))
                                   (snd attr)
                     = Some (vertex_count (snd stream),
                             Float32Array_bytes (snd stream)))
               attrs (named_streams g).
Proof.
  destruct (nth_error example_units 1) as [g|] eqn:E;
    [|vm_compute in E; discriminate E].
  destruct (mesh_attributes_address_their_streams example_units 1 g E)
    as (attrs & Hm & Hf).
  exists g, attrs. split; [reflexivity|].
  assert (Hg : name g = "part_1"%string /\ mode g = GLTF_MODE_LINES).
  { vm_compute in E. injection E as <-. split; reflexivity. }
  destruct Hg as [Hn Hmd]. rewrite Hn, Hmd in Hm.
  split; [exact Hm|split; [|exact Hf]].
  vm_compute in Hm. now injection Hm as <-.
Defined.

(* ================================================================= *)
(** * The fields of an [rgb] string *)

Section RgbFieldProofs.

Import JsonFacts.
Local Open Scope string_scope.

Lemma list_ascii_of_string_app a b :
  list_ascii_of_string (a ++ b)
  = (list_ascii_of_string a ++ list_ascii_of_string b)%list.
Proof. induction a as [|c a IH]; cbn; [reflexivity|now rewrite IH]. Qed.

Lemma string_of_list_ascii_app a b :
  string_of_list_ascii (a ++ b)%list
  = string_of_list_ascii a ++ string_of_list_ascii b.
Proof. induction a as [|c a IH]; cbn; [reflexivity|now rewrite IH]. Qed.

Lemma reverse_app a b : Str.reverse (a ++ b) = Str.reverse b ++ Str.reverse a.
Proof.
  unfold Str.reverse.
  now rewrite list_ascii_of_string_app, rev_app_distr,
    string_of_list_ascii_app.
Qed.

Lemma substring_prefix a b : substring 0 (String.length a) (a ++ b) = a.
Proof. induction a as [|c a IH]; cbn; [now destruct b|now rewrite IH]. Qed.

Lemma endsWith_paren body : Str.endsWith (body ++ ")") ")" = true.
Proof.
  unfold Str.endsWith. rewrite reverse_app.
  change (Str.reverse ")") with ")". cbn [append prefix].
  destruct (ascii_dec ")" ")"); [|congruence].
  now destruct (Str.reverse body).
Qed.

Lemma rgb_field_app a b : rgb_field a -> rgb_field b -> rgb_field (a ++ b).
Proof.
  unfold rgb_field. rewrite list_ascii_of_string_app, forallb_app.
  now intros -> ->.
Qed.

Lemma rgb_field_no_paren s :
  rgb_field s ->
  forallb (fun c => negb (Ascii.eqb c ")")) (list_ascii_of_string s) = true.
Proof.
  unfold rgb_field. induction (list_ascii_of_string s) as [|c l IH];
    cbn [forallb]; [reflexivity|].
  intros H. apply andb_prop in H as [Hc Hl]. apply andb_prop in Hc as [_ Hc].
  now rewrite Hc, IH.
Qed.

Lemma joined_fields_no_paren fields :
  Forall rgb_field fields ->
  forallb (fun c => negb (Ascii.eqb c ")"))
          (list_ascii_of_string (Json.join "," fields)) = true.
Proof.
  induction 1 as [|f fs Hf _ IH]; [reflexivity|].
  rewrite join_head, list_ascii_of_string_app, forallb_app.
  rewrite (rgb_field_no_paren f Hf). cbn [andb].
  destruct fs as [|g gs]; [reflexivity|].
  rewrite list_ascii_of_string_app, forallb_app, IH. reflexivity.
Qed.

Lemma split_comma_field a :
  rgb_field a -> Str.split_comma a = [a].
Proof.
  unfold rgb_field. induction a as [|c a IH]; [reflexivity|].
  cbn [list_ascii_of_string forallb Str.split_comma].
  intros H. apply andb_prop in H as [Hc Ha]. apply andb_prop in Hc as [Hc _].
  apply negb_true_iff in Hc. rewrite Hc, (IH Ha). reflexivity.
Qed.

Lemma split_comma_app a r :
  rgb_field a ->
  Str.split_comma (a ++ String "," r) = a :: Str.split_comma r.
Proof.
  unfold rgb_field. induction a as [|c a IH].
  - reflexivity.
  - cbn [append list_ascii_of_string forallb Str.split_comma].
    intros H. apply andb_prop in H as [Hc Ha].
    apply andb_prop in Hc as [Hc _].
    apply negb_true_iff in Hc. rewrite Hc, (IH Ha). reflexivity.
Qed.

Lemma split_comma_join f fs :
  Forall rgb_field (f :: fs) ->
  Str.split_comma (Json.join "," (f :: fs)) = f :: fs.
Proof.
  revert f. induction fs as [|g gs IH]; intros f H;
    inversion H as [|? ? Hf Hfs]; subst.
  - now apply split_comma_field.
  - change (Json.join "," (f :: g :: gs))
      with (f ++ String "," (Json.join "," (g :: gs))).
    now rewrite (split_comma_app f _ Hf), (IH g Hfs).
Qed.

Section Resolver.

Context {RT : JsRuntime}.

Lemma match_rgb_string name body :
  rgb_name name ->
  String.length body <> 0%nat ->
  forallb (fun c => negb (Ascii.eqb c ")")) (list_ascii_of_string body) = true ->
  match_rgb (name ++ "(" ++ body ++ ")") = Some body.
Proof.
  intros Hname Hlen Hbody.
  assert (Hgroup : forall rest,
             rest = body ++ ")" ->
             (let n := String.length rest in
              let group := Str.slice rest 0 (n - 1) in
              if (2 <=? n)%nat && Str.endsWith rest ")"
                 && forallb (fun c => negb (Ascii.eqb c ")"))
                            (list_ascii_of_string group)
              then Some group else None) = Some body).
  { intros rest ->. cbv zeta. unfold Str.slice.
    rewrite length_append. cbn [String.length].
    replace (String.length body + 1 - 1 - 0)%nat with (String.length body)
      by lia.
    rewrite substring_prefix, endsWith_paren, Hbody.
    destruct (2 <=? String.length body + 1)%nat eqn:E; [reflexivity|].
    apply Nat.leb_gt in E. lia. }
  destruct Hname as [H|H].
  - destruct name as [|c0 [|c1 [|c2 [|c3 name]]]]; try discriminate H.
    cbn [Str.toLowerCase] in H. injection H as H0 H1 H2.
    cbn [append match_rgb]. rewrite H0, H1, H2. cbn [Ascii.eqb Bool.eqb andb].
    change (Str.lower "(") with "("%char. cbn [Ascii.eqb Bool.eqb andb].
    now apply Hgroup.
  - destruct name as [|c0 [|c1 [|c2 [|c3 [|c4 name]]]]]; try discriminate H.
    cbn [Str.toLowerCase] in H. injection H as H0 H1 H2 H3.
    cbn [append match_rgb]. rewrite H0, H1, H2, H3.
    cbn [Ascii.eqb Bool.eqb andb].
    now apply Hgroup.
Qed.

Lemma match_rgb_empty name :
  rgb_name name -> match_rgb (name ++ "(" ++ "" ++ ")") = None.
Proof.
  intros [H|H].
  - destruct name as [|c0 [|c1 [|c2 [|c3 name]]]]; try discriminate H.
    cbn [Str.toLowerCase] in H. injection H as H0 H1 H2.
    cbn [append match_rgb]. rewrite H0, H1, H2. reflexivity.
  - destruct name as [|c0 [|c1 [|c2 [|c3 [|c4 name]]]]]; try discriminate H.
    cbn [Str.toLowerCase] in H. injection H as H0 H1 H2 H3.
    cbn [append match_rgb]. rewrite H0, H1, H2, H3. reflexivity.
Qed.

Lemma parseRgbColor_fields name fields :
  rgb_name name ->
  Forall rgb_field fields ->
  String.length (Json.join "," fields) <> 0%nat ->
  parseRgbColor (rgb_string name fields)
  = match visible_fields fields with
    | a :: b :: c :: _ =>
        match toChannel a, toChannel b, toChannel c with
        | Some r, Some g, Some bl => Some (r, g, bl)
        | _, _, _ => None
        end
    | _ => None
    end.
Proof.
  intros Hname Hfields Hlen.
  unfold parseRgbColor, rgb_string.
  rewrite (match_rgb_string name _ Hname Hlen
             (joined_fields_no_paren fields Hfields)).
  apply Nat.eqb_neq in Hlen. rewrite Hlen.
  destruct fields as [|f fs]; [discriminate Hlen|].
  rewrite (split_comma_join f fs Hfields).
  fold (visible_fields (f :: fs)).
  destruct (visible_fields (f :: fs)) as [|a [|b [|c rest]]];
    reflexivity.
Qed.

End Resolver.

End RgbFieldProofs.

(** X29. The fields of an [rgb] string.  In [rgb(...)] and [rgba(...)],
    the name in any case, the fields are what the commas separate; each is
    trimmed, and those that are blank are passed over; the first three that
    are left are the channels, and the string is no color when fewer are
    left or when one of the three is no channel.  A fourth field, the alpha
    channel, is not read, and neither is the [a] of the name: the two forms
    take the same fields alike. *)
Theorem rgb_string_fields {RT : JsRuntime} :
  (forall name fields,
      rgb_name name -> Forall rgb_field fields ->
      String.length (Json.join "," fields) <> 0%nat ->
      parseRgbColor (rgb_string name fields)
      = match visible_fields fields with
        | a :: b :: c :: _ =>
            match toChannel a, toChannel b, toChannel c with
            | Some r, Some g, Some bl => Some (r, g, bl)
            | _, _, _ => None
            end
        | _ => None
        end)
  /\ (forall name name' a b c alpha,
         rgb_name name -> rgb_name name' ->
         Forall rgb_field [a; b; c; alpha] ->
         visible_fields [a; b; c] = map Str.trim [a; b; c] ->
         parseRgbColor (rgb_string name' [a; b; c; alpha])
         = parseRgbColor (rgb_string name [a; b; c]))
  /\ (forall name fields,
         rgb_name name -> Forall rgb_field fields ->
         (List.length (visible_fields fields) < 3)%nat ->
         parseRgbColor (rgb_string name fields) = None)
  /\ rgb_string "rgba" ["255"; " 0 "; "0"; "0.5"]%string
     = "rgba(255, 0 ,0,0.5)"%string
  /\ visible_fields ["255"; " 0 "; ""; "0"]%string
     = ["255"; "0"; "0"]%string.
Proof.
  split; [|split; [|split; [|split]]].
  - intros name fields. apply parseRgbColor_fields.
  - intros name name' a b c alpha Hn Hn' Hf Hv.
    assert (Hf3 : Forall rgb_field [a; b; c]).
    { inversion Hf as [|? ? Ha Hf1]; inversion Hf1 as [|? ? Hb Hf2];
        inversion Hf2 as [|? ? Hc _]; subst. repeat constructor; assumption. }
    assert (Hlen : forall rest,
               String.length (Json.join "," (a :: b :: c :: rest))
               <> 0%nat).
    { intros rest E.
      assert (Hnil : visible_fields [a; b; c] <> []).
      { rewrite Hv. discriminate. }
      apply Hnil. unfold visible_fields in Hv |- *.
      change (Json.join "," (a :: b :: c :: rest))
        with (a ++ "," ++ Json.join "," (b :: c :: rest))%string in E.
      rewrite JsonFacts.length_append in E. cbn [String.length append] in E.
      lia. }
    rewrite (parseRgbColor_fields name' _ Hn' Hf (Hlen [alpha])).
    rewrite (parseRgbColor_fields name _ Hn Hf3 (Hlen [])).
    unfold visible_fields in Hv |- *.
    cbn [map filter] in Hv |- *.
    destruct (negb (String.length (Str.trim a) =? 0)%nat);
      [|destruct (negb (String.length (Str.trim b) =? 0)%nat),
                 (negb (String.length (Str.trim c) =? 0)%nat);
        discriminate Hv].
    destruct (negb (String.length (Str.trim b) =? 0)%nat);
      [|destruct (negb (String.length (Str.trim c) =? 0)%nat);
        discriminate Hv].
    destruct (negb (String.length (Str.trim c) =? 0)%nat);
      [|discriminate Hv].
    reflexivity.
  - intros name fields Hn Hf Hlt.
    destruct (Nat.eq_dec (String.length (Json.join "," fields)) 0) as [E|E].
    + unfold parseRgbColor, rgb_string.
      destruct (Json.join "," fields); [|discriminate E].
      now rewrite (match_rgb_empty name Hn).
    + rewrite (parseRgbColor_fields name fields Hn Hf E).
      destruct (visible_fields fields) as [|a [|b [|c rest]]];
        try reflexivity.
      cbn [List.length] in Hlt. lia.
  - reflexivity.
  - reflexivity.
Qed.

(* ================================================================= *)
(** * Positions without a transform *)

Section NumberProofs.

Import FloatOrder.

Lemma binary_round_not_nan pr em s m e : binary_round pr em s m e <> S754_nan.
Proof.
  unfold binary_round. destruct (shl_align _ _ _) as [mz ez].
  apply binary_round_aux_not_nan. lia.
Qed.

Lemma SF2Prim_not_nan r : r <> S754_nan -> is_nan (SF2Prim r) = false.
Proof.
  intros Hr. apply Prim2SF_nan.
  destruct r as [[]|[]| |s m e]; try (vm_compute; discriminate);
    [congruence|].
  cbn [SF2Prim]. cbv zeta.
  assert (H : Prim2SF (Z.ldexp (of_uint63 (Uint63Axioms.of_Z (Z.pos m))) e)
              <> S754_nan).
  { rewrite Z_ldexp_spec, of_uint63_spec. unfold SFldexp, binary_normalize.
    destruct (Uint63Axioms.to_Z _) as [|p|p]; [discriminate| |].
    - destruct (binary_round prec emax false p 0) eqn:E; try discriminate.
      + now apply binary_round_not_nan in E.
      + apply binary_round_not_nan.
    - destruct (binary_round prec emax true p 0) eqn:E; try discriminate.
      + now apply binary_round_not_nan in E.
      + apply binary_round_not_nan. }
  destruct s; [|exact H].
  rewrite opp_spec. destruct (Prim2SF _); cbn; congruence.
Qed.

Lemma fround_not_nan x : is_nan x = false -> is_nan (Num.fround x) = false.
Proof.
  intros H. unfold Num.fround.
  destruct (Prim2SF x); try exact H.
  apply SF2Prim_not_nan, binary_round_not_nan.
Qed.

Lemma or_zero_not_nan x : is_nan (Num.or_zero x) = false.
Proof.
  unfold Num.or_zero, Num.truthy.
  destruct (is_nan x) eqn:E; cbn [orb negb]; [reflexivity|].
  destruct (x =? 0)%float; cbn [negb]; [reflexivity|exact E].
Qed.

Lemma new_Float32Array_numbers xs :
  Forall (fun x => is_nan x = false) xs ->
  Forall (fun x => is_nan x = false) (new_Float32Array xs).
Proof.
  induction 1 as [|x xs Hx _ IH]; cbn [new_Float32Array map];
    constructor; [now apply fround_not_nan|exact IH].
Qed.

Section Positions.

Context {RT : JsRuntime}.

Lemma triple_of_numbers xs : numbers (triple_of xs).
Proof. repeat constructor; apply or_zero_not_nan. Qed.

Lemma origin_numbers : numbers origin.
Proof. repeat constructor. Qed.

Lemma extractVertexPosition_numbers vertex :
  numbers (extractVertexPosition vertex).
Proof.
  unfold extractVertexPosition.
  destruct (negb (truthy vertex)); [apply origin_numbers|].
  destruct (array_of_3 vertex); [apply triple_of_numbers|].
  destruct (array_of_3 (get_prop vertex "pos")); [apply triple_of_numbers|].
  destruct (array_of_3 (get_prop vertex "position"));
    [apply triple_of_numbers|apply origin_numbers].
Qed.

Lemma applyTransform_untransformed csg v :
  untransformed csg -> applyTransform v (transforms csg) = v.
Proof.
  unfold untransformed, applyTransform.
  destruct (transforms csg) as [m|]; [|reflexivity].
  intros H. apply Nat.eqb_neq in H. now rewrite H.
Qed.

Lemma transformed_numbers csg vs :
  untransformed csg -> Forall numbers (transformed csg vs).
Proof.
  intros H. unfold transformed. apply Forall_map, Forall_forall.
  intros v _. rewrite (applyTransform_untransformed csg _ H).
  apply extractVertexPosition_numbers.
Qed.

Lemma nth_numbers i tv :
  Forall numbers tv -> numbers (nth i tv origin).
Proof.
  intros H. destruct (nth_in_or_default i tv origin) as [Hin| ->];
    [|apply origin_numbers].
  now apply (proj1 (Forall_forall _ _) H).
Qed.

Lemma polygon_positions_numbers csg p :
  untransformed csg ->
  Forall (fun x => is_nan x = false) (polygon_positions csg p).
Proof.
  intros H. unfold polygon_positions.
  pose proof (transformed_numbers csg (polygon_vertices p) H) as Htv.
  induction (polygon_triangles p) as [|[[i j] k] ts IH]; cbn [flat_map];
    [constructor|].
  apply Forall_app; split; [|exact IH].
  unfold corner_values.
  repeat (apply Forall_app; split); now apply nth_numbers.
Qed.

Lemma convertPolygonGeometry_numbers csg nm unit :
  untransformed csg ->
  convertPolygonGeometry csg nm = ok unit ->
  Forall (fun x => is_nan x = false) (positions unit).
Proof.
  intros Hu H.
  destruct (polygons csg) as [[|p ps]|] eqn:Ep;
    try (unfold convertPolygonGeometry in H; rewrite Ep in H; discriminate H).
  rewrite (convertPolygonGeometry_streams csg nm p ps Ep) in H.
  assert (Hp : Forall (fun x => is_nan x = false)
                      (flat_map (polygon_positions csg) (p :: ps))).
  { apply Forall_flat_map, Forall_forall. intros q _.
    now apply polygon_positions_numbers. }
  set (positions' := flat_map (polygon_positions csg) (p :: ps)) in *.
  destruct (flat_map polygon_triangles (p :: ps)); [discriminate H|].
  injection H as <-. cbn [positions].
  now apply new_Float32Array_numbers.
Qed.

Lemma point_of_numbers p v : point_of p = ok v -> numbers v.
Proof.
  unfold point_of.
  destruct (elem p 0) as [e|x]; [discriminate|]; cbn [bind].
  destruct (elem p 1) as [e|y]; [discriminate|]; cbn [bind].
  destruct (elem p 2) as [e|z]; [discriminate|]; cbn [bind].
  intros [= <-]. repeat constructor; apply or_zero_not_nan.
Qed.

Lemma push_side_numbers csg d acc side acc' :
  untransformed csg ->
  push_side csg d acc side = ok acc' ->
  Forall (fun x => is_nan x = false) (fst acc) ->
  Forall (fun x => is_nan x = false) (fst acc').
Proof.
  intros Hu. unfold push_side.
  destruct side; try (intros [= <-]; auto).
  destruct (List.length xs <? 2)%nat; [intros [= <-]; auto|].
  destruct (point_of (index xs 0)) as [e|startPoint] eqn:E0; [discriminate|].
  destruct (point_of (index xs (List.length xs - 1))) as [e|endPoint] eqn:E1;
    [discriminate|].
  cbn [bind]; intros [= <-] H; cbn [fst].
  rewrite !(applyTransform_untransformed csg _ Hu).
  repeat (apply Forall_app; split); [exact H| |].
  - exact (point_of_numbers _ _ E0).
  - exact (point_of_numbers _ _ E1).
Qed.

Lemma for_each_push_side_numbers csg d ss acc acc' :
  untransformed csg ->
  for_each (push_side csg d) ss acc = ok acc' ->
  Forall (fun x => is_nan x = false) (fst acc) ->
  Forall (fun x => is_nan x = false) (fst acc').
Proof.
  intros Hu. revert acc; induction ss as [|s ss IH]; intros acc;
    cbn [for_each].
  - intros [= <-]; auto.
  - destruct (push_side csg d acc s) as [e|acc1] eqn:E; [discriminate|].
    cbn [bind]; intros H Hl.
    apply (IH acc1 H), (push_side_numbers csg d acc s acc1 Hu E Hl).
Qed.

Lemma convertSideGeometry_numbers csg nm unit :
  untransformed csg ->
  convertSideGeometry csg nm = ok unit ->
  Forall (fun x => is_nan x = false) (positions unit).
Proof.
  intros Hu. unfold convertSideGeometry.
  destruct (sides csg) as [[|s ss]|]; try discriminate.
  destruct (for_each _ _ _) as [e|acc] eqn:E; [discriminate|]; cbn [bind].
  pose proof (for_each_push_side_numbers _ _ _ _ _ Hu E (Forall_nil _)) as H.
  destruct (List.length (fst acc) =? 0)%nat; [discriminate|].
  intros [= <-]. cbn [positions]. now apply new_Float32Array_numbers.
Qed.

End Positions.

End NumberProofs.

(** X30. Without a transform every position is a number, and the bounds
    hold.  In the mesh unit of a geometry object that has no transform, or
    one that has not sixteen entries, no position is [NaN], whatever the
    vertices are made of: a coordinate that is no number was read as [0].
    So every coordinate of every vertex of the unit lies between the bounds
    [computeMinMax] gives for its axis, which are those of its position
    accessor. *)
Theorem untransformed_positions_are_numbers {RT : JsRuntime} csg nm unit :
  untransformed csg ->
  collectGeometries (GOne csg) nm = ok [unit] ->
  Forall (fun x => is_nan x = false) (positions unit)
  /\ (forall i,
         (i < List.length (positions unit))%nat ->
         number_le (nth (i mod 3) (fst (computeMinMax (positions unit))) nan)
                   (nth i (positions unit) nan)
         /\ number_le (nth i (positions unit) nan)
                      (nth (i mod 3) (snd (computeMinMax (positions unit)))
                           nan))
  /\ (forall before after,
         nth_error
           (map accessor_bounds
                (j_accessors (fst (buildGltfCore (before ++ unit :: after)))))
           (List.length (flat_map unit_streams before))
         = Some (Some (fst (computeMinMax (positions unit))),
                 Some (snd (computeMinMax (positions unit))))).
Proof.
  intros Hu H.
  assert (Hn : Forall (fun x => is_nan x = false) (positions unit)).
  { cbn [collectGeometries] in H.
    destruct (polygons csg) as [ps|].
    - destruct (convertPolygonGeometry csg nm) as [e|u] eqn:E;
        [discriminate H|].
      cbn [bind] in H. injection H as <-.
      now apply (convertPolygonGeometry_numbers csg nm u).
    - destruct (sides csg) as [ss|]; [|discriminate H].
      destruct (convertSideGeometry csg nm) as [e|u] eqn:E; [discriminate H|].
      cbn [bind] in H. injection H as <-.
      now apply (convertSideGeometry_numbers csg nm u). }
  split; [exact Hn|split].
  - intros i Hi. now apply computeMinMax_bounds.
  - intros before after.
    destruct (buildGltfCore_laid_out (before ++ unit :: after))
      as (_ & _ & _ & _ & ->).
    rewrite flat_map_app. cbn [flat_map].
    assert (Hlen : List.length (flat_map unit_bounds before)
                   = List.length (flat_map unit_streams before)).
    { clear. induction before as [|b before IH]; [reflexivity|].
      cbn [flat_map]. rewrite !length_app, IH. f_equal.
      unfold unit_bounds, unit_streams.
      destruct (normals b), (colors b); reflexivity. }
    rewrite nth_error_app2 by lia.
    rewrite Hlen, Nat.sub_diag. reflexivity.
Qed.

Lemma untransformed_positions_are_numbers_example :
  exists unit,
    untransformed square_solid
    /\ collectGeometries (RT := Reference.runtime) (GOne square_solid) "cube"
       = ok [unit]
    /\ Forall (fun x => is_nan x = false) (positions unit)
    /\ computeMinMax (positions unit) = ([0; 0; 0], [1; 1; 0])%float.
Proof.
  destruct (collectGeometries (RT := Reference.runtime)
              (GOne square_solid) "cube") as [e|[|u [|u' us]]] eqn:E;
    try (vm_compute in E; discriminate E).
  exists u.
  destruct (untransformed_positions_are_numbers (RT := Reference.runtime)
              square_solid "cube" u I E) as (Hn & _).
  split; [exact I|split; [reflexivity|split; [exact Hn|]]].
  vm_compute in E. injection E as <-. vm_compute. reflexivity.
Defined.
